(* ===== verification/_CoqProject ===== *)
-Q . S2P
Prelude.v
CxxStd.v
Protocol.v
Storage.v
Expiry.v
Node.v
Persistence.v
Replication.v
Executor.v
Table.v
Recovery.v
Server.v
Invariants.v
Ring.v
Config.v
Topology.v
Net.v
Bench.v
Router.v
Durability.v
Linearize.v
Interleaving.v
Journal.v
ThreadPool.v
Cluster.v
Failover.v
Routing.v
Session.v
Background.v
Listener.v
Logger.v
Threads.v
Programs.v
