(* ===== verification/Prelude.v ===== *)
(** * TinyKV: a verification of the key-value store, its durability, replication and routing

    TinyKV is a key-value server ([tinykv-server]) with a text protocol, an LRU
    bound, expiring keys, an append-only file with snapshots and primary/replica
    replication, and a router ([tinykv-router]) that spreads keys over shards by
    consistent hashing and fails a shard over to its replica. This library is a
    shallow embedding of its C++ sources: every method is a function on an
    explicit state, with the theorems that make it correct.

    ** How the program is modelled

    - Effects. A method that changes an object is a computation [M S A] of this
      file: a function from the state to a result, an exception with the state
      reached, or [Undef], the undefined behaviour of C++ (a dangling list
      iterator, signed overflow). Pure functions are plain functions.
    - Data. Strings are byte strings; [int] and [long long] are [Z] with their
      range checked at each operation ([chk32], [chk64]); [uint64_t] wraps
      ([wrap64]). Hash maps are [gmap]s; the ordered map of the ring is a sorted
      list; [std::list] is a list of nodes with identities, so that iterators
      can dangle.
    - Threads. A method that holds one mutex throughout is one atomic step.
      Where the code releases a mutex or runs a thread of its own, the file has
      a step relation over all interleavings: the sweeper in [Expiry], the pool in
      [ThreadPool], the timer and the tasks in [Background], the accept loop in
      [Listener], the link and the checker in [Threads], the connections of a
      server in [Interleaving], those of the router in [Routing]. [Server] runs
      whole requests one after the other. The waits of condition variables end
      with a notification, which is a step of its own in [Expiry], or for no
      reason; what is due to happen is told apart from what may happen
      ([forced], [due_step]), and the liveness theorems rely on the former.
    - The outside world. The file system is a record of [Node]; what [send],
      [recv] and [connect] do is a parameter or an argument, and in the step
      relations a choice of the system. The router writes to a [Network], an
      interface with a state of its own; the processes are put behind it in
      [Cluster], so that a node handles the bytes the router writes to the socket
      that is connected to it, and nothing else. The clock is an
      argument of the operation that reads it.

    ** The files

    - [Prelude]: the monad, machine integers, strings, tactics, hint databases.
    - [CxxStd]: the character classes, conversions and stream extraction of the
      C++ library that the sources call.
    - [Protocol]: [protocol/command.hpp], [parser.cpp], [reply.cpp].
    - [Storage]: [storage/kv_store.cpp]. Module [KVStore] is the code, Module
      [Lru] the abstract cache; [StoreContract] is what the store promises to
      its clients, whose proofs use nothing else.
    - [Expiry]: [storage/expiry_manager.cpp], methods and sweeper thread.
    - [Node]: the records of the objects one server process owns.
    - [Persistence]: [persistence/aof.cpp], the saving half of [snapshot.cpp] and
      of [persistence_manager.cpp], the timer.
    - [Replication]: [replication/replica_registry.cpp] and
      [replication_manager.cpp].
    - [Executor]: [command_executor.cpp].
    - [Table]: the command table of [docs/PROTOCOL.md], written out independently
      of the code, and the theorem that the executor implements it.
    - [Recovery]: [persistence/replay.cpp] and the loading halves; the effect of
      a log on the contents.
    - [Server]: [server_main.cpp]: connection handler, SYNC, callbacks, startup;
      the loop of [replica_link.cpp]; durability and replication.
    - [Invariants]: a small program logic ([keeps]) and the well-typedness of a
      whole server process under every event.
    - [Ring]: [sharding/consistent_hash_ring.cpp].
    - [Config]: [config.cpp], the command line and the settings of the server.
    - [Topology]: [sharding/shard_topology.cpp] and [health_checker.cpp].
    - [Net]: [net/line_protocol.cpp] and [tcp_client.cpp].
    - [Bench]: the load generator, [benchmarks/bench_main.cpp].
    - [Router]: [sharding/router.cpp], over a [Network]; a socket knows the peer
      it is connected to.
    - [Durability]: crashes without a flush, the exact extent of undefined
      behaviour, and the sweeper's turn cut where it releases its mutex.
    - [Linearize]: threads as programs of atomic steps, machines that run them in
      any order, and what it takes that their clients see one request after the
      other ([Service] is the interface, [conforms] the obligation).
    - [Interleaving]: the executor and the connection handlers once more, cut at
      every mutex and atomic counter, with a thread per connection, and the
      threads that serve no client: flushes, snapshots, sweeps, replicas.
    - [Journal]: what concurrent writers leave in the log and in the streams of
      the replicas. [Journal] is the interface the proofs use, [log_journal] and
      [stream_journal] are its two instances.
    - [ThreadPool]: [concurrency/thread_pool.cpp].
    - [Cluster]: the processes as a [Network] ([cluster_network]: what they do
      with the bytes on each connection, and what comes back), the router in front
      of them, sweepers; the simulation with one big server.
    - [Failover]: the health checker against the running processes of a cluster.
    - [Routing]: the router's handler cut where its mutexes are released, with a
      thread per client, and the sweepers of the nodes.
    - [Session]: a connection of the server or the router with the buffered
      reader and the requests interleaved, as the loops of the code have them.
    - [Background]: the threads of [persistence_manager.cpp]: start, stop, timer,
      tasks in flight.
    - [Listener]: [net/tcp_server.cpp]; Module [TcpServer].
    - [Logger]: [logger.cpp] and the log level of the command line.
    - [Threads]: the threads of [replica_link.cpp] (Module [ReplicaLink]) and of
      [health_checker.cpp] (Module [Checker]).
    - [Programs]: the three programs: [main] of [server_main.cpp],
      [router_main.cpp] (Module [RouterMain]) and [cli_main.cpp] (Module [Cli]).

    ** What the theorems show

    - Storage: the store refines the LRU cache for every sequence of calls, with
      no dangling iterator; it keeps the most recently used keys; increments are
      not lost.
    - Expiry: no key expires early, unscheduled or twice, in any interleaving;
      the sweeper expires all that is due and misses no notification.
    - Executor: every command gives the reply and the data of the command table
      (counters read as [std::stoll] reads them); no exception escapes; replies
      are single lines as long as the data are words; what is not recorded
      changes nothing.
    - Durability: after a flush, a crash and a restart the contents are the same,
      whatever requests, snapshots, spills, sweeps and restarts came before. The
      histories are the safe ones ([Server.history]): the store has no LRU bound
      (reads are not logged, so a bounded store need not evict the same keys
      again), the append-only file is on and the files usable, lines have at most
      8172 bytes, expiry arguments are sane, and no key that may have expired is
      counted ([volatile] in [Recovery]: expirations are not logged either); the
      values of such keys are left out of the conclusion. Without the flush, a
      restart gives the contents of an earlier moment of the history, and what is
      lost is a run of the latest writes, unless the crash cuts a line.
    - Types and bounds: through any history every machine integer of the process
      stays in range and its structures stay consistent; with sane arguments the
      only undefined commands are the overflows of a counter.
    - Replication: a fresh replica that applies the stream of its connection
      holds the contents of the primary, again but for keys that may have
      expired.
    - Concurrency: any interleaving of connections that set no deadlines is
      explained by handling their requests one after the other (linearizability),
      and no connection waits for another, whatever flushes, snapshots, sweeps and
      new replicas come in between. The same holds of the clients of the router,
      for which the whole cluster is one server, deadlines and sweepers included,
      while no shard fails over and each node has no client but the router. With
      deadlines and several connections at one server it does not hold
      ([Interleaving.set_can_inherit_deadline]). Run alone, the steps of a
      connection are its handler (the lemma
      [Interleaving.connection_steps_alone]).
    - What concurrent writers leave behind: a write is executed, recorded and
      propagated in separate critical sections, so that the log and a replica can
      have two writes of one key in the wrong order ([Server.log_order_can_differ]).
      If every key has one writer, both stand for the value of each key whose
      writer has been answered, at every moment of every interleaving ([Journal]),
      on an unbounded server with the append-only file on, and for replicas whose
      SYNC was answered before. A snapshot or the dump of SYNC in the middle of a write breaks even this
      ([Interleaving.save_can_lose_write], [Interleaving.sync_can_restore_old_value]).
    - Framing: lines survive partial sends and any chunking; a whole session
      depends only on the bytes sent.
    - Sharding: the replies of a router with its nodes are those of one server,
      also while keys expire.
    - Routing: clockwise-successor ownership, minimal movement when nodes come
      and go, agreement of ROUTE with the peer a request is written to, exact
      relaying, one reply per request.
    - Failover: health follows the missed pings, promotion happens only when
      needed, completes in time and not before, and is never undone. End to end: a replica that
      applied the stream is up to date, and when the primary dies the checks
      hand its keys to the replica with the data unchanged.
    - Threads: the pool loses and repeats no task and drains on destruction;
      [stop] of the persistence manager and of a link waits for the work and
      returns; the accept loop owns its descriptors, ends after [stop] and only
      then; the checker's thread does nothing but checks.
    - Programs: the server serves what it stored before, the router serves
      exactly when it is configured, the client shows each reply after its
      command; the load generator counts each request it sends once.
    - Behaviours the code does not intend, each as a theorem on a concrete run or
      a class of states: [Server.failed_save_drops_log],
      [Server.log_order_can_differ], [Server.crash_inside_save_counts_twice],
      [Server.torn_line_is_replayed],
      [Server.expired_counter_resumes_after_restart],
      [Server.resync_keeps_deleted_keys], [Server.replicated_replicaof_terminates],
      [Router.broken_reply_leaks_into_next],
      [Executor.huge_ttl_is_undefined], [Executor.evicted_key_keeps_deadline],
      [Storage.incrementBy_ignores_suffix], [Table.counter_with_suffix],
      [Recovery.longest_counter_lost_by_snapshot],
      [Net.oversized_line_depends_on_chunks],
      [Cluster.sync_through_router_desynchronizes],
      [Background.notify_after_destruction], [Listener.run_abandons_connections],
      [Durability.sweeper_can_delete_new_value],
      [Durability.self_replica_never_rests], [Logger.second_init_silences_file],
      [Programs.bad_port_terminates], [Interleaving.set_can_inherit_deadline],
      [Interleaving.sync_can_restore_old_value],
      [Interleaving.sync_can_tear_lines], [Interleaving.save_can_lose_write],
      [Routing.stale_address_loses_write], [Bench.broken_connection_undercounts],
      [Bench.error_count_overflows].

    ** Fuel and bounds

    Loops that are not structural carry fuel that is shown to suffice: reading a
    stream consumes a character per turn ([read_all_fuel]), the eviction loop
    removes a node per turn ([KVStore.evict] with one more than the nodes),
    [Cluster.sweep_all] pops an entry per turn, [writeRaw] sends a byte or more per turn,
    [Session.read_loop] takes a line feed out of the stream per turn. Threads
    that must end have a measure each of their steps lowers
    ([Expiry.ExpiryManager.work], [Background.shutdown_work], [Listener.run_work], the works
    of [Threads]). [Cluster.routable_length] (8150 bytes) leaves room for the text
    of an error reply around the name of a command.
    [safe_length] (8172 bytes) leaves room for the 20 digits of a counter in a
    snapshot line; [sane_seconds] and [sane_time] keep deadlines inside the
    64-bit nanosecond clock.

    ** Not modelled

    The unit tests. Of the load generator the latency statistics, computed in
    [double], and the report are left out. The log lines inside the components are left
    out (those of the programs and the logger itself are there). Signals appear
    as a call of [stop] at any moment. In [Interleaving] the write of a reply or
    of a propagated line is one step (only the dump of SYNC is cut), and
    [saveMutex_] is left out; in [Routing] an exchange with a node is one step,
    and so is a sweep at a node.
    Directories are not part of the file system, and writing to an open file does
    not fail. Memory exhaustion and the
    failure to create a thread are not considered. *)

From Stdlib Require Export Ascii.
From stdpp Require Export base gmap strings list fin_maps pretty relations.
From Stdlib Require Export ZArith Lia.

(** ** Exceptions, undefined behaviour and state: the monad of the C++ model *)

(** The C++ exceptions that cross a function boundary in the program. *)
Inductive exn : Type :=
| InvalidArgument (what : string)
| OutOfRange (what : string)
| ProtocolError (what : string)
| SystemError (what : string).

(** A call either returns, throws (keeping the state it has already changed),
    or has undefined behaviour: a dangling list iterator, signed overflow. *)
Inductive res (S A : Type) : Type :=
| Ok (a : A) (s : S)
| Exn (e : exn) (s : S)
| Undef.
Arguments Ok {S A} a s.
Arguments Exn {S A} e s.
Arguments Undef {S A}.

Definition M (S A : Type) : Type := S → res S A.

#[export] Instance M_ret S : MRet (M S) := λ A a s, Ok a s.

#[export] Instance M_bind S : MBind (M S) := λ A B k m s,
  match m s with
  | Ok a s' => k a s'
  | Exn e s' => Exn e s'
  | Undef => Undef
  end.

Definition get {S} : M S S := λ s, Ok s s.
Definition put {S} (s : S) : M S unit := λ _, Ok tt s.
Definition gets {S A} (f : S → A) : M S A := λ s, Ok (f s) s.
Definition modify {S} (f : S → S) : M S unit := λ s, Ok tt (f s).
Definition throw {S A} (e : exn) : M S A := λ s, Exn e s.
Definition undef {S A} : M S A := λ _, Undef.

(** [catch m h]: [try { m } catch (...) { h }]. *)
Definition catch {S A} (m : M S A) (h : exn → M S A) : M S A := λ s,
  match m s with
  | Ok a s' => Ok a s'
  | Exn e s' => h e s'
  | Undef => Undef
  end.

(** An [option] result of a partial primitive: [None] is undefined behaviour. *)
Definition defined {S A} (o : option A) : M S A := λ s,
  match o with
  | Some a => Ok a s
  | None => Undef
  end.

(** Runs an operation of a member object inside the object that owns it. *)
Definition zoom {S T A} (getf : S → T) (setf : T → S → S) (m : M T A) : M S A := λ s,
  match m (getf s) with
  | Ok a t => Ok a (setf t s)
  | Exn e t => Exn e (setf t s)
  | Undef => Undef
  end.

(** ** Machine integers *)

Definition int32_min : Z := -2147483648.
Definition int32_max : Z := 2147483647.
Definition int64_min : Z := -9223372036854775808.
Definition int64_max : Z := 9223372036854775807.

Definition in_int32 (z : Z) : bool := (int32_min <=? z)%Z && (z <=? int32_max)%Z.
Definition in_int64 (z : Z) : bool := (int64_min <=? z)%Z && (z <=? int64_max)%Z.

(** Signed arithmetic on [int] and [long long]: overflow is undefined in C++17. *)
Definition chk32 (z : Z) : option Z := if in_int32 z then Some z else None.
Definition chk64 (z : Z) : option Z := if in_int64 z then Some z else None.

(** Unsigned 64-bit arithmetic wraps. *)
Definition wrap64 (z : Z) : Z := (z mod 2 ^ 64)%Z.

(** ** Strings *)

Definition nl : ascii := "010"%char.
Definition cr : ascii := "013"%char.

Fixpoint str_all (p : ascii → bool) (s : string) : bool :=
  match s with
  | EmptyString => true
  | String c s' => p c && str_all p s'
  end.

(** The longest prefix of [s] whose characters satisfy [p], and the rest. *)
Fixpoint str_span (p : ascii → bool) (s : string) : string * string :=
  match s with
  | EmptyString => (EmptyString, EmptyString)
  | String c s' =>
      if p c then let '(a, b) := str_span p s' in (String c a, b) else (EmptyString, s)
  end.

Definition str_tail (s : string) : string :=
  match s with
  | EmptyString => EmptyString
  | String _ s' => s'
  end.

Definition str_nonempty (s : string) : bool :=
  match s with
  | EmptyString => false
  | String _ _ => true
  end.

Fixpoint str_map (f : ascii → ascii) (s : string) : string :=
  match s with
  | EmptyString => EmptyString
  | String c s' => String (f c) (str_map f s')
  end.

Fixpoint str_concat (l : list string) : string :=
  match l with
  | [] => EmptyString
  | s :: l' => s +:+ str_concat l'
  end.

Fixpoint str_take (n : nat) (s : string) : string :=
  match n, s with
  | S n', String c s' => String c (str_take n' s')
  | _, _ => EmptyString
  end.

Fixpoint str_drop (n : nat) (s : string) : string :=
  match n, s with
  | S n', String _ s' => str_drop n' s'
  | _, _ => s
  end.

(** [while (next(in, x)) out.push_back(x)] over an input stream held as the
    characters still to be read; [fuel] bounds the number of reads. *)
Fixpoint read_all {A} (next : string → option (A * string)) (fuel : nat) (s : string) : list A :=
  match fuel with
  | O => []
  | S fuel' =>
      match next s with
      | None => []
      | Some (a, s') => a :: read_all next fuel' s'
      end
  end.

(** ** Automation *)

Create HintDb tinykv.
Create Rewrite HintDb str.

(** Splits a conjunction of boolean tests in the hypotheses. *)
Ltac destruct_bools :=
  repeat match goal with
  | H : _ && _ = true |- _ => apply andb_true_iff in H as [? ?]
  | H : _ || _ = false |- _ => apply orb_false_iff in H as [? ?]
  | H : negb _ = true |- _ => apply negb_true_iff in H
  | H : negb _ = false |- _ => apply negb_false_iff in H
  | H : bool_decide _ = true |- _ => apply bool_decide_eq_true in H
  | H : bool_decide _ = false |- _ => apply bool_decide_eq_false in H
  end.

(** Unfolds the monad's combinators. *)
Ltac unfold_M :=
  unfold mbind, M_bind, mret, M_ret, get, put, gets, modify, throw, undef, defined, catch, zoom in *.

(** Runs the monadic code of the goal as far as the hypotheses allow. *)
Ltac run_M :=
  repeat (unfold_M; simpl; try case_match; simplify_eq/=; try done).

(** ** Integers *)

Lemma in_int64_spec z : in_int64 z = true ↔ (int64_min ≤ z ≤ int64_max)%Z.
Proof. unfold in_int64. rewrite andb_true_iff, !Z.leb_le. lia. Qed.

Lemma in_int32_spec z : in_int32 z = true ↔ (int32_min ≤ z ≤ int32_max)%Z.
Proof. unfold in_int32. rewrite andb_true_iff, !Z.leb_le. lia. Qed.

Lemma chk64_Some z x : chk64 z = Some x ↔ x = z ∧ (int64_min ≤ z ≤ int64_max)%Z.
Proof.
  unfold chk64. destruct (in_int64 z) eqn:E.
  - apply in_int64_spec in E. split; [intros [= <-]; done|by intros [-> _]].
  - split; [done|]. intros [_ ?%in_int64_spec]. congruence.
Qed.

Lemma chk64_in z : (int64_min ≤ z ≤ int64_max)%Z → chk64 z = Some z.
Proof. intros. by apply chk64_Some. Qed.

Lemma chk64_None z : chk64 z = None ↔ ¬ (int64_min ≤ z ≤ int64_max)%Z.
Proof.
  rewrite <-in_int64_spec. unfold chk64. destruct (in_int64 z); naive_solver.
Qed.

Lemma chk32_Some z x : chk32 z = Some x ↔ x = z ∧ (int32_min ≤ z ≤ int32_max)%Z.
Proof.
  unfold chk32. destruct (in_int32 z) eqn:E.
  - apply in_int32_spec in E. split; [intros [= <-]; done|by intros [-> _]].
  - split; [done|]. intros [_ ?%in_int32_spec]. congruence.
Qed.

Lemma wrap64_bound z : (0 ≤ wrap64 z < 2 ^ 64)%Z.
Proof. apply Z.mod_pos_bound. lia. Qed.

#[export] Hint Resolve wrap64_bound : tinykv.

(** ** Strings *)

Lemma str_app_nil_l s : EmptyString +:+ s = s.
Proof. done. Qed.

Lemma str_app_cons c s t : String c s +:+ t = String c (s +:+ t).
Proof. done. Qed.

Lemma str_app_nil_r s : s +:+ EmptyString = s.
Proof. induction s as [|c s IH]; [done|]. by rewrite str_app_cons, IH. Qed.

Lemma str_app_assoc s t u : (s +:+ t) +:+ u = s +:+ (t +:+ u).
Proof. induction s as [|c s IH]; [done|]. by rewrite !str_app_cons, IH. Qed.

#[export] Hint Rewrite str_app_nil_l str_app_cons str_app_nil_r str_app_assoc : str.

Lemma str_length_app s t : String.length (s +:+ t) = String.length s + String.length t.
Proof. induction s as [|c s IH]; [done|]. rewrite str_app_cons. simpl. by rewrite IH. Qed.

Lemma str_length_nil_inv s : String.length s = 0 → s = EmptyString.
Proof. by destruct s. Qed.

Lemma str_all_app p s t : str_all p (s +:+ t) = str_all p s && str_all p t.
Proof.
  induction s as [|c s IH]; [done|].
  rewrite str_app_cons. simpl. by rewrite IH, andb_assoc.
Qed.

Lemma str_all_impl (p q : ascii → bool) s :
  (∀ c, p c = true → q c = true) → str_all p s = true → str_all q s = true.
Proof.
  intros Hpq. induction s as [|c s IH]; simpl; [done|].
  intros H. destruct_bools. by rewrite Hpq, IH.
Qed.

(** [str_span] stops exactly where an all-[p] prefix is followed by a
    character outside [p], or at the end. *)
Lemma str_span_app p s c t :
  str_all p s = true → p c = false →
  str_span p (s +:+ String c t) = (s, String c t).
Proof.
  intros Hs Hc. induction s as [|d s IH].
  - rewrite str_app_nil_l. simpl. by rewrite Hc.
  - simpl in Hs. destruct_bools. rewrite str_app_cons. simpl.
    rewrite H. by rewrite IH.
Qed.

Lemma str_span_all p s : str_all p s = true → str_span p s = (s, EmptyString).
Proof.
  induction s as [|d s IH]; simpl; [done|]. intros H. destruct_bools.
  rewrite H. by rewrite IH.
Qed.

Lemma str_span_spec p s a b :
  str_span p s = (a, b) →
  s = a +:+ b ∧ str_all p a = true ∧
  (b = EmptyString ∨ ∃ c b', b = String c b' ∧ p c = false).
Proof.
  revert a b. induction s as [|c s IH]; intros a b H; simpl in H.
  { simplify_eq. eauto. }
  destruct (p c) eqn:Hc.
  - destruct (str_span p s) as [a' b'] eqn:E. simplify_eq.
    destruct (IH _ _ eq_refl) as (-> & Ha & Hb).
    rewrite str_app_cons. simpl. rewrite Hc. eauto.
  - simplify_eq. rewrite str_app_nil_l. simpl. eauto 8.
Qed.

Lemma str_take_drop n s : str_take n s +:+ str_drop n s = s.
Proof.
  revert s. induction n as [|n IH]; intros [|c s]; simpl; [done..|].
  by rewrite str_app_cons, IH.
Qed.

Lemma str_nonempty_spec s : str_nonempty s = true ↔ s ≠ EmptyString.
Proof. destruct s; naive_solver. Qed.

Lemma str_concat_app l1 l2 : str_concat (l1 ++ l2) = str_concat l1 +:+ str_concat l2.
Proof. induction l1 as [|s l1 IH]; simpl; [done|]. by rewrite IH, str_app_assoc. Qed.

Section read_all.
Context {A : Type} (next : string → option (A * string)).
Hypothesis next_consumes :
  ∀ s a s', next s = Some (a, s') → String.length s' < String.length s.

(** Any fuel of at least the number of characters left gives the same reads. *)
Lemma read_all_fuel n m s :
  String.length s < n → String.length s < m → read_all next n s = read_all next m s.
Proof.
  revert m s. induction n as [|n IH]; intros [|m] s Hn Hm; [lia..|]. simpl.
  destruct (next s) as [[a s']|] eqn:E; [|done].
  f_equal. apply next_consumes in E. apply IH; lia.
Qed.

Lemma read_all_step s :
  read_all next (S (String.length s)) s =
  match next s with
  | None => []
  | Some (a, s') => a :: read_all next (S (String.length s')) s'
  end.
Proof.
  destruct (next s) as [[a s']|] eqn:E.
  - assert (read_all next (S (String.length s)) s = a :: read_all next (String.length s) s')
      as -> by (simpl; by rewrite E).
    f_equal. apply next_consumes in E. apply read_all_fuel; lia.
  - simpl. by rewrite E.
Qed.
End read_all.

(** ** The monad *)

Lemma bind_Ok {S A B} (m : M S A) (k : A → M S B) s a s' :
  m s = Ok a s' → (m ≫= k) s = k a s'.
Proof. intros H. unfold mbind, M_bind. by rewrite H. Qed.

Lemma zoom_Ok {S T A} (g : S → T) (f : T → S → S) (m : M T A) s a t :
  m (g s) = Ok a t → zoom g f m s = Ok a (f t s).
Proof. intros H. unfold zoom. by rewrite H. Qed.
