(* ===== verification/CxxStd.v ===== *)
(** * The parts of the C++ standard library the program computes with

    Character classes of the "C" locale ([isspace], [isdigit], [toupper],
    [tolower]), decimal conversion ([std::to_string], [std::stoll],
    [std::stoi]), formatted and line extraction from an input stream
    ([operator>>] on a string, [std::getline]) and [std::string]'s searches.
    Nothing here is code of the repository; the components' definitions are
    written with these functions as the sources are written with the C++ ones. *)

From S2P Require Import Prelude.

(** ** Definitions *)

Definition code (c : ascii) : N := N_of_ascii c.

Definition isspace (c : ascii) : bool := Ascii.is_space c.

Definition isdigit (c : ascii) : bool := (48 <=? code c)%N && (code c <=? 57)%N.

Definition toupper (c : ascii) : ascii :=
  if (97 <=? code c)%N && (code c <=? 122)%N then ascii_of_N (code c - 32) else c.

Definition tolower (c : ascii) : ascii :=
  if (65 <=? code c)%N && (code c <=? 90)%N then ascii_of_N (code c + 32) else c.

(** [std::to_string] on an integer. *)
Definition to_string (z : Z) : string := pretty z.

(** The value of a run of decimal digits, read from the left. *)
Fixpoint digits_value (acc : Z) (s : string) : Z :=
  match s with
  | EmptyString => acc
  | String c s' => digits_value (acc * 10 + (Z.of_N (code c) - 48)) s'
  end.

(** What [strtoll(s, &end, 10)] reads: white space, an optional sign, and the
    longest run of digits; the characters after it are ignored. *)
Definition strtoll (s : string) : option Z :=
  let r := (str_span isspace s).2 in
  let '(negative, r) :=
    match r with
    | String "-" r' => (true, r')
    | String "+" r' => (false, r')
    | _ => (false, r)
    end in
  let ds := (str_span isdigit r).1 in
  if str_nonempty ds
  then Some (if negative : bool then (- digits_value 0 ds)%Z else digits_value 0 ds)
  else None.

(** [std::stoll] and [std::stoi]: no digits throws [invalid_argument], a value
    outside the result type throws [out_of_range]. *)
Definition stoll (s : string) : exn + Z :=
  match strtoll s with
  | None => inl (InvalidArgument "stoll")
  | Some z => if in_int64 z then inr z else inl (OutOfRange "stoll")
  end.

Definition stoi (s : string) : exn + Z :=
  match strtoll s with
  | None => inl (InvalidArgument "stoi")
  | Some z => if in_int32 z then inr z else inl (OutOfRange "stoi")
  end.

(** [in >> token]: skips white space, then reads up to the next white space;
    fails when no character is left. *)
Definition extract (s : string) : option (string * string) :=
  let r := (str_span isspace s).2 in
  match r with
  | EmptyString => None
  | String _ _ => Some (str_span (λ c, negb (isspace c)) r)
  end.

(** [std::getline(in, line, delim)]: reads up to the delimiter, which is
    consumed and not stored; a last line without delimiter is still a line;
    fails only when no character is left. *)
Definition getline (delim : ascii) (s : string) : option (string * string) :=
  match s with
  | EmptyString => None
  | String _ _ =>
      let '(a, b) := str_span (λ c, negb (bool_decide (c = delim))) s in
      Some (a, str_tail b)
  end.

(** All the tokens, respectively lines, of a stream. *)
Definition tokens_of (s : string) : list string := read_all extract (S (String.length s)) s.
Definition lines_of (delim : ascii) (s : string) : list string :=
  read_all (getline delim) (S (String.length s)) s.

(** A token: non-empty, without white space. *)
Definition is_token (s : string) : bool :=
  str_nonempty s && str_all (λ c, negb (isspace c)) s.

(** Text that does not continue a number before it. *)
Definition ends_number (junk : string) : bool :=
  match junk with EmptyString => true | String c _ => negb (isdigit c) end.

(** The 256 characters, for checks by enumeration. *)
Definition all_ascii : list ascii := ascii_of_nat <$> seq 0 256.

(** ** Characters *)

Lemma all_ascii_in c : c ∈ all_ascii.
Proof.
  unfold all_ascii. apply list_elem_of_fmap. exists (nat_of_ascii c).
  split; [by rewrite ascii_nat_embedding|].
  apply elem_of_seq. pose proof (nat_ascii_bounded c). lia.
Qed.

Lemma ascii_forall (p : ascii → bool) : forallb p all_ascii = true → ∀ c, p c = true.
Proof.
  intros H c. rewrite forallb_forall in H. apply H, list_elem_of_In, all_ascii_in.
Qed.

Lemma isdigit_not_space c : isdigit c = true → isspace c = false.
Proof.
  intros H. pose proof (ascii_forall (λ c, implb (isdigit c) (negb (isspace c)))) as Hall.
  specialize (Hall (ltac:(vm_compute; reflexivity)) c). cbv beta in Hall.
  rewrite H in Hall. simpl in Hall. by destruct_bools.
Qed.

Lemma isdigit_not_nl c : isdigit c = true → c ≠ nl.
Proof. by intros H ->. Qed.

Lemma tolower_toupper c : tolower (toupper c) = tolower c.
Proof.
  pose proof (ascii_forall (λ c, bool_decide (tolower (toupper c) = tolower c))) as Hall.
  specialize (Hall (ltac:(vm_compute; reflexivity)) c). cbv beta in Hall. by destruct_bools.
Qed.

Lemma toupper_tolower c : toupper (tolower c) = toupper c.
Proof.
  pose proof (ascii_forall (λ c, bool_decide (toupper (tolower c) = toupper c))) as Hall.
  specialize (Hall (ltac:(vm_compute; reflexivity)) c). cbv beta in Hall. by destruct_bools.
Qed.

(** ** Decimal conversion *)

Lemma pretty_N_char_digit x :
  (x < 10)%N → isdigit (pretty_N_char x) = true ∧
  (Z.of_N (code (pretty_N_char x)) - 48 = Z.of_N x)%Z.
Proof.
  intros H.
  assert (x = 0 ∨ x = 1 ∨ x = 2 ∨ x = 3 ∨ x = 4 ∨ x = 5 ∨ x = 6 ∨ x = 7 ∨ x = 8 ∨ x = 9)%N by lia.
  destruct_or!; subst; done.
Qed.

Lemma pretty_N_go_digits x s :
  str_all isdigit s = true → str_all isdigit (pretty_N_go x s) = true.
Proof.
  revert s. induction (N.lt_wf_0 x) as [x _ IH]; intros s Hs.
  destruct (decide (x = 0)%N) as [->|]; [by rewrite pretty_N_go_0|].
  rewrite pretty_N_go_step by lia. apply IH; [apply N.div_lt; lia|].
  simpl. destruct (pretty_N_char_digit (x `mod` 10)) as [-> _]; [apply N.mod_lt; lia|done].
Qed.

Lemma pretty_N_go_value x s :
  digits_value 0 (pretty_N_go x s) = digits_value (Z.of_N x) s.
Proof.
  revert s. induction (N.lt_wf_0 x) as [x _ IH]; intros s.
  destruct (decide (x = 0)%N) as [->|]; [by rewrite pretty_N_go_0|].
  rewrite pretty_N_go_step by lia. rewrite IH by (apply N.div_lt; lia). simpl.
  destruct (pretty_N_char_digit (x `mod` 10)) as [_ ->]; [apply N.mod_lt; lia|].
  f_equal. rewrite (N.div_mod x 10) at 3 by lia. lia.
Qed.

Lemma pretty_N_go_length k x s :
  (x < 10 ^ N.of_nat k)%N → String.length (pretty_N_go x s) ≤ k + String.length s.
Proof.
  revert x s. induction k as [|k IH]; intros x s Hx.
  { assert (x = 0)%N as -> by (simpl in Hx; lia). by rewrite pretty_N_go_0. }
  destruct (decide (x = 0)%N) as [->|]; [rewrite pretty_N_go_0; lia|].
  rewrite pretty_N_go_step by lia. etrans.
  - apply IH. apply N.Div0.div_lt_upper_bound.
    rewrite <-N.pow_succ_r' by lia. by replace (N.succ (N.of_nat k)) with (N.of_nat (S k)) by lia.
  - simpl. lia.
Qed.

Lemma pretty_N_digits (x : N) : str_all isdigit (pretty x) = true.
Proof.
  unfold pretty, pretty_N. case_decide; [done|]. by apply pretty_N_go_digits.
Qed.

Lemma pretty_N_value (x : N) : digits_value 0 (pretty x) = Z.of_N x.
Proof.
  unfold pretty, pretty_N. case_decide; [by subst|]. by rewrite pretty_N_go_value.
Qed.

Lemma pretty_N_nonempty (x : N) : str_nonempty (pretty x) = true.
Proof.
  unfold pretty, pretty_N. case_decide; [done|].
  destruct (pretty_N_go x "") eqn:E; [|done].
  pose proof (pretty_N_go_value x "") as H'. rewrite E in H'. simpl in H'. lia.
Qed.

Lemma pretty_N_length (x : N) : (x < 10 ^ 19)%N → String.length (pretty x) ≤ 19.
Proof.
  intros. unfold pretty, pretty_N. case_decide; [simpl; lia|].
  etrans; [by apply (pretty_N_go_length 19)|]. simpl. lia.
Qed.

(** The characters of a printed integer are digits after an optional minus. *)
Lemma to_string_cases z :
  ∃ ds, str_all isdigit ds = true ∧ str_nonempty ds = true ∧
  ((to_string z = ds ∧ digits_value 0 ds = z) ∨
   (to_string z = String "-" ds ∧ digits_value 0 ds = (- z)%Z)).
Proof.
  destruct z as [|p|p].
  - exists "0". eauto.
  - exists (pretty (N.pos p)). split_and!; [apply pretty_N_digits|apply pretty_N_nonempty|].
    left. by rewrite pretty_N_value.
  - exists (pretty (N.pos p)). split_and!; [apply pretty_N_digits|apply pretty_N_nonempty|].
    right. by rewrite pretty_N_value.
Qed.

Lemma digits_span ds : str_all isdigit ds = true → str_nonempty ds = true →
  (str_span isspace ds).2 = ds.
Proof.
  destruct ds as [|c ds]; [done|]. simpl. intros ? _. destruct_bools.
  by rewrite isdigit_not_space.
Qed.

Lemma digits_span_suffix ds junk :
  str_all isdigit ds = true → ends_number junk = true →
  (str_span isdigit (ds +:+ junk)).1 = ds.
Proof.
  intros Hd Hj. destruct junk as [|c junk].
  - by rewrite str_app_nil_r, str_span_all.
  - simpl in Hj. destruct_bools. by rewrite str_span_app.
Qed.

Lemma strtoll_to_string_suffix z junk :
  ends_number junk = true → strtoll (to_string z +:+ junk) = Some z.
Proof.
  intros Hj.
  destruct (to_string_cases z) as (ds & Hd & Hne & [[-> Hv]|[-> Hv]]); unfold strtoll.
  - destruct ds as [|c ds]; [done|]. pose proof Hd as Hd'. simpl in Hd'. destruct_bools.
    rewrite str_app_cons. cbn [str_span]. rewrite isdigit_not_space by done. cbn [snd].
    assert (∀ (A : Type) (a b e : A),
      match c with "-" => a | "+" => b | _ => e end%char = e) as Hc.
    { intros. by repeat case_match. }
    rewrite Hc, <-str_app_cons, digits_span_suffix by done. by rewrite Hne, Hv.
  - rewrite str_app_cons. cbn [str_span isspace Ascii.is_space snd].
    rewrite digits_span_suffix by done. rewrite Hne, Hv. f_equal. lia.
Qed.

Lemma stoll_to_string_suffix z junk :
  in_int64 z = true → ends_number junk = true → stoll (to_string z +:+ junk) = inr z.
Proof. intros H ?. unfold stoll. by rewrite strtoll_to_string_suffix, H. Qed.

Lemma stoll_to_string z : in_int64 z = true → stoll (to_string z) = inr z.
Proof. intros. rewrite <-(str_app_nil_r (to_string z)). by apply stoll_to_string_suffix. Qed.

Lemma stoll_range s z : stoll s = inr z → (int64_min ≤ z ≤ int64_max)%Z.
Proof.
  unfold stoll. intros H. repeat case_match; simplify_eq. by apply in_int64_spec.
Qed.

Lemma to_string_nonempty z : str_nonempty (to_string z) = true.
Proof. destruct (to_string_cases z) as (ds & _ & Hne & [[-> _]|[-> _]]); done. Qed.

Lemma to_string_no_space z : str_all (λ c, negb (isspace c)) (to_string z) = true.
Proof.
  destruct (to_string_cases z) as (ds & Hd & _ & [[-> _]|[-> _]]).
  all: simpl; eapply str_all_impl; [|done]; intros; by rewrite isdigit_not_space.
Qed.

Lemma to_string_length z : in_int64 z = true → String.length (to_string z) ≤ 20.
Proof.
  intros [? ?]%in_int64_spec. unfold int64_min, int64_max in *.
  unfold to_string. destruct z as [|p|p]; [simpl; lia| |].
  - change (pretty (Z.pos p)) with (pretty (N.pos p)).
    pose proof (pretty_N_length (N.pos p)). lia.
  - change (pretty (Z.neg p)) with (String "-" (pretty (N.pos p))).
    pose proof (pretty_N_length (N.pos p)). simpl. lia.
Qed.

#[export] Hint Resolve to_string_nonempty to_string_no_space to_string_length : tinykv.

(** ** Streams *)

Lemma str_span_length p s a b :
  str_span p s = (a, b) → String.length s = String.length a + String.length b.
Proof. intros (-> & _)%str_span_spec. apply str_length_app. Qed.

Lemma extract_consumes s a s' : extract s = Some (a, s') → String.length s' < String.length s.
Proof.
  unfold extract. destruct (str_span isspace s) as [w r] eqn:E. simpl.
  destruct r as [|c r]; [done|].
  apply str_span_spec in E as (-> & _ & [?|(c' & r' & [= <- <-] & Hc)]); [done|].
  simpl. rewrite Hc. simpl. destruct (str_span _ r) as [t u] eqn:E'. intros [= <- <-].
  apply str_span_length in E'. rewrite str_length_app. simpl. lia.
Qed.

Lemma getline_consumes d s a s' :
  getline d s = Some (a, s') → String.length s' < String.length s.
Proof.
  unfold getline. destruct s as [|c s]; [done|].
  destruct (str_span _ _) as [x y] eqn:E. intros [= <- <-].
  pose proof E as E'. apply str_span_length in E. destruct y as [|d' y]; [simpl in *; lia|].
  simpl in *. lia.
Qed.

Lemma lines_of_nil d : lines_of d EmptyString = [].
Proof. done. Qed.

(** A line that holds no delimiter is read back as written. *)
Lemma lines_of_line d l rest :
  str_all (λ c, negb (bool_decide (c = d))) l = true →
  lines_of d (l +:+ String d rest) = l :: lines_of d rest.
Proof.
  intros Hl. unfold lines_of at 1.
  rewrite read_all_step by apply getline_consumes.
  assert (getline d (l +:+ String d rest) = Some (l, rest)) as ->; [|done].
  unfold getline.
  assert (∃ c s, l +:+ String d rest = String c s) as (c & s & E) by (destruct l; eauto).
  rewrite E at 1. rewrite str_span_app; [done|done|].
  by rewrite bool_decide_true.
Qed.

Lemma tokens_of_cons s :
  tokens_of s = match extract s with None => [] | Some (t, s') => t :: tokens_of s' end.
Proof. apply read_all_step. apply extract_consumes. Qed.

Lemma extract_token s t s' : extract s = Some (t, s') → is_token t = true.
Proof.
  unfold extract. destruct (str_span isspace s) as [w r] eqn:E. simpl.
  destruct r as [|c r]; [done|].
  apply str_span_spec in E as (-> & _ & [?|(c' & r' & [= <- <-] & Hc)]); [done|].
  intros H%(inj Some). pose proof H as (_ & Ht & _)%str_span_spec.
  unfold is_token. rewrite Ht. simpl in H. rewrite Hc in H. simpl in H.
  destruct (str_span _ r). by simplify_eq.
Qed.

Lemma read_all_tokens n s : Forall (λ t, is_token t = true) (read_all extract n s).
Proof.
  revert s. induction n as [|n IH]; intros s; simpl; [constructor|].
  destruct (extract s) as [[t s']|] eqn:E; [|constructor].
  constructor; [by eapply extract_token|apply IH].
Qed.

Lemma tokens_of_tokens s : Forall (λ t, is_token t = true) (tokens_of s).
Proof. apply read_all_tokens. Qed.

(** A token followed by a white space, or by the end, is extracted as it is. *)
Lemma extract_word t c rest :
  is_token t = true → isspace c = true →
  extract (t +:+ String c rest) = Some (t, String c rest).
Proof.
  unfold is_token, extract. intros Ht Hc. destruct_bools.
  destruct t as [|d t]; [done|]. rewrite str_app_cons. simpl in H0. destruct_bools.
  simpl. rewrite H0. simpl. rewrite H0. simpl.
  rewrite str_span_app; [done|done|]. by rewrite Hc.
Qed.

Lemma extract_last t : is_token t = true → extract t = Some (t, EmptyString).
Proof.
  unfold is_token, extract. intros Ht. destruct_bools.
  destruct t as [|d t]; [done|]. simpl in H0. destruct_bools.
  simpl. rewrite H0. simpl. rewrite H0. simpl. by rewrite str_span_all.
Qed.

Lemma extract_skip c s : isspace c = true → extract (String c s) = extract s.
Proof. unfold extract. intros Hc. simpl. rewrite Hc. by destruct (str_span isspace s). Qed.

Lemma tokens_of_skip c s : isspace c = true → tokens_of (String c s) = tokens_of s.
Proof. intros. by rewrite (tokens_of_cons (String c s)), extract_skip, tokens_of_cons. Qed.

(** Tokens joined by single spaces tokenize back to the same tokens. *)
Lemma tokens_of_word t rest :
  is_token t = true → tokens_of (t +:+ String " " rest) = t :: tokens_of rest.
Proof.
  intros. rewrite tokens_of_cons, extract_word by done. by rewrite tokens_of_skip.
Qed.

Lemma tokens_of_last t : is_token t = true → tokens_of t = [t].
Proof. intros. by rewrite tokens_of_cons, extract_last. Qed.

(** The tokens and the separators between them fit in the line. *)
Lemma extract_length s t s' :
  extract s = Some (t, s') → String.length t + String.length s' ≤ String.length s.
Proof.
  unfold extract. destruct (str_span isspace s) as [w r] eqn:E. simpl.
  apply str_span_length in E. destruct r as [|c r]; [done|].
  intros H%(inj Some). apply str_span_length in H. lia.
Qed.

Lemma extract_None s : extract s = None ↔ str_all isspace s = true.
Proof.
  unfold extract. destruct (str_span isspace s) as [w r] eqn:E. simpl.
  apply str_span_spec in E as (-> & Hw & Hr). rewrite str_all_app, Hw. simpl.
  destruct Hr as [->|(c & r' & -> & Hc)]; simpl; [done|]. by rewrite Hc.
Qed.

(** What follows a token starts with a white space or is empty. *)
Lemma extract_rest s t s' :
  extract s = Some (t, s') → s' = EmptyString ∨ ∃ c s'', s' = String c s'' ∧ isspace c = true.
Proof.
  unfold extract. destruct (str_span isspace s) as [w r].
  simpl. destruct r as [|c r]; [done|].
  intros H%(inj Some). apply str_span_spec in H as (_ & _ & [->|(c' & b & -> & Hc)]); [by left|].
  right. eexists _, _. split; [done|]. by destruct_bools.
Qed.

Lemma to_string_token z : is_token (to_string z) = true.
Proof. unfold is_token. by rewrite to_string_nonempty, to_string_no_space. Qed.

#[export] Hint Resolve to_string_token : tinykv.

(** White space covers the line terminator, so a token never holds one. *)
Lemma token_no_nl t :
  is_token t = true → str_all (λ c, negb (bool_decide (c = nl))) t = true.
Proof.
  unfold is_token. intros H. destruct_bools. eapply str_all_impl; [|done].
  intros c Hc. apply negb_true_iff, bool_decide_eq_false. by intros ->.
Qed.
