(* ===== verification/Protocol.v ===== *)
(** * The wire protocol: commands, the parser and the reply lines

    [include/tinykv/protocol/command.hpp], [src/protocol/parser.cpp] and
    [src/protocol/reply.cpp]. [Parser::parse] is a pure function of the request
    line; its [ProtocolError] exception is the left injection of the result. *)

From S2P Require Import Prelude CxxStd.

(** ** Definitions *)

Inductive CommandType : Type :=
| SET | GET | DEL | PING | INCR | DECR | TTL | EXPIRE | PERSIST | SAVE
| REPLICAOF | SYNC | ROUTE | NODES | UNKNOWN.

#[export] Instance CommandType_eq_dec : EqDecision CommandType.
Proof. solve_decision. Defined.

Record Command : Type := mkCommand {
  type : CommandType;
  name : string;
  args : list string
}.

#[export] Instance Command_eq_dec : EqDecision Command.
Proof. solve_decision. Defined.

Definition isWriteCommand (t : CommandType) : bool :=
  match t with
  | SET | DEL | INCR | DECR | EXPIRE | PERSIST => true
  | _ => false
  end.

Definition kMaxLineLength : Z := 8192.

Definition tokenize (line : string) : list string := tokens_of line.

Definition toUpper (s : string) : string := str_map toupper s.

Definition commandTypeFromName (nm : string) : CommandType :=
  let upper := toUpper nm in
  if bool_decide (upper = "SET") then SET
  else if bool_decide (upper = "GET") then GET
  else if bool_decide (upper = "DEL") then DEL
  else if bool_decide (upper = "PING") then PING
  else if bool_decide (upper = "INCR") then INCR
  else if bool_decide (upper = "DECR") then DECR
  else if bool_decide (upper = "TTL") then TTL
  else if bool_decide (upper = "EXPIRE") then EXPIRE
  else if bool_decide (upper = "PERSIST") then PERSIST
  else if bool_decide (upper = "SAVE") then SAVE
  else if bool_decide (upper = "REPLICAOF") then REPLICAOF
  else if bool_decide (upper = "SYNC") then SYNC
  else if bool_decide (upper = "ROUTE") then ROUTE
  else if bool_decide (upper = "NODES") then NODES
  else UNKNOWN.

Definition parse (line : string) : exn + Command :=
  if (kMaxLineLength <? Z.of_nat (String.length line))%Z
  then inl (ProtocolError ("line too long (max " +:+ to_string kMaxLineLength +:+ " bytes)"))
  else
    match tokenize line with
    | [] => inl (ProtocolError "empty command")
    | t0 :: rest => inr (mkCommand (commandTypeFromName t0) t0 rest)
    end.

(** What [e.what()] gives for an exception. *)
Definition what (e : exn) : string :=
  match e with
  | InvalidArgument w | OutOfRange w | ProtocolError w | SystemError w => w
  end.

Module Reply.

Definition ok : string := "+OK".
Definition bulk (value : string) : string := "+" +:+ value.
Definition nil : string := "$-1".
Definition error (message : string) : string := "-ERR " +:+ message.
Definition readOnlyError : string := "-READONLY You can't write against a replica.".
Definition integer (value : Z) : string := ":" +:+ to_string value.

End Reply.

(** The test [!response.empty() && response[0] != '-'] of the connection
    handler and of the replication callback ([server_main.cpp]). *)
Definition succeeded (response : string) : bool :=
  match response with
  | EmptyString => false
  | String c _ => negb (bool_decide (c = "-"%char))
  end.

(** A request line as a client writes it: the words separated by one space. *)
Fixpoint print_words (words : list string) : string :=
  match words with
  | [] => EmptyString
  | [w] => w
  | w :: ws => w +:+ String " " (print_words ws)
  end.

(** The room the words of a line take, each with a separator. *)
Definition words_length (words : list string) : nat :=
  sum_list_with (λ w, S (String.length w)) words.

(** Two names that differ only in the case of their letters. *)
Definition same_word (a b : string) : Prop := str_map tolower a = str_map tolower b.

(** ** Lemmas *)

#[export] Instance same_word_equiv : Equivalence same_word.
Proof. unfold same_word. split; intros ?; intros; congruence. Qed.

Lemma str_map_toupper_tolower s : str_map toupper (str_map tolower s) = str_map toupper s.
Proof. induction s as [|c s IH]; simpl; [done|]. by rewrite toupper_tolower, IH. Qed.

#[export] Instance toUpper_proper : Proper (same_word ==> eq) toUpper.
Proof.
  intros a b H. unfold toUpper, same_word in *.
  by rewrite <-(str_map_toupper_tolower a), H, str_map_toupper_tolower.
Qed.

#[export] Instance commandTypeFromName_proper : Proper (same_word ==> eq) commandTypeFromName.
Proof. intros a b H. unfold commandTypeFromName. by rewrite (toUpper_proper a b H). Qed.

Lemma tokenize_print words :
  Forall (λ t, is_token t = true) words → tokenize (print_words words) = words.
Proof.
  unfold tokenize. induction 1 as [|w ws Hw Hws IH]; [done|].
  destruct ws as [|w' ws]; simpl; [by apply tokens_of_last|].
  rewrite tokens_of_word by done. by f_equal.
Qed.

Lemma tokenize_words_length line : words_length (tokenize line) ≤ S (String.length line).
Proof.
  unfold tokenize. remember (String.length line) as n eqn:Hn.
  revert line Hn. induction (lt_wf n) as [n _ IH]; intros line ->.
  rewrite tokens_of_cons. destruct (extract line) as [[t s']|] eqn:E; [|unfold words_length; simpl; lia].
  pose proof (extract_length _ _ _ E) as Hlen. pose proof (extract_consumes _ _ _ E) as Hlt.
  change (words_length (t :: tokens_of s')) with (S (String.length t) + words_length (tokens_of s')).
  apply extract_rest in E as [->|(c & s'' & -> & Hc)].
  - simpl in *. lia.
  - rewrite tokens_of_skip by done. simpl in *. pose proof (IH (String.length s'') ltac:(lia) s'' eq_refl).
    unfold words_length in *. lia.
Qed.

(** The words of a parsed request: tokens, and no longer than the line. *)
Lemma parse_words line cmd :
  parse line = inr cmd →
  Forall (λ t, is_token t = true) (name cmd :: args cmd) ∧
  words_length (name cmd :: args cmd) ≤ S (String.length line) ∧
  (Z.of_nat (String.length line) ≤ kMaxLineLength)%Z ∧
  type cmd = commandTypeFromName (name cmd).
Proof.
  unfold parse. destruct (Z.ltb_spec kMaxLineLength (Z.of_nat (String.length line))); [done|].
  pose proof (tokens_of_tokens line). pose proof (tokenize_words_length line).
  unfold tokenize in *. destruct (tokens_of line) as [|t0 rest]; [done|].
  intros [= <-]. split_and!; [done|done|lia|done].
Qed.

Lemma parse_print words :
  Forall (λ t, is_token t = true) words →
  (Z.of_nat (String.length (print_words words)) ≤ kMaxLineLength)%Z →
  parse (print_words words) =
  match words with
  | [] => inl (ProtocolError "empty command")
  | w :: ws => inr (mkCommand (commandTypeFromName w) w ws)
  end.
Proof.
  intros Hw Hlen. unfold parse. rewrite (proj2 (Z.ltb_ge _ _)) by lia.
  rewrite tokenize_print by done. by destruct words.
Qed.

Lemma succeeded_error m : succeeded (Reply.error m) = false.
Proof. done. Qed.

Lemma succeeded_integer z : succeeded (Reply.integer z) = true.
Proof. done. Qed.

Lemma succeeded_bulk v : succeeded (Reply.bulk v) = true.
Proof. done. Qed.

#[export] Hint Resolve succeeded_error succeeded_integer succeeded_bulk : tinykv.

(** ** Properties *)

(** Parsing a request printed with single spaces between its words gives the
    command back: the first word as received and classified, the others as the
    arguments, for every non-empty list of white-space-free words of at most
    8192 bytes in all. *)
Theorem parse_print_roundtrip (w : string) (ws : list string) :
  Forall (λ t, is_token t = true) (w :: ws) →
  (Z.of_nat (String.length (print_words (w :: ws))) ≤ kMaxLineLength)%Z →
  parse (print_words (w :: ws)) = inr (mkCommand (commandTypeFromName w) w ws).
Proof. intros. by rewrite parse_print. Qed.

Theorem parse_print_roundtrip_witness :
  parse "sEt user:1 Kushal" = inr (mkCommand SET "sEt" ["user:1"; "Kushal"]).
Proof.
  apply (parse_print_roundtrip "sEt" ["user:1"; "Kushal"]);
    [repeat (apply List.Forall_cons; [reflexivity|]); apply List.Forall_nil|by vm_compute].
Defined.

(** A request line is refused with a [ProtocolError] exactly when it is longer
    than 8192 bytes or holds no word at all; every other line becomes a
    command, an unrecognised name included. *)
Theorem parse_error_iff (line : string) :
  (∃ e, parse line = inl e) ↔
  (kMaxLineLength < Z.of_nat (String.length line))%Z ∨ str_all isspace line = true.
Proof.
  unfold parse. destruct (Z.ltb_spec kMaxLineLength (Z.of_nat (String.length line))) as [?|?].
  { split; eauto. }
  unfold tokenize. rewrite tokens_of_cons.
  assert (extract line = None ↔ str_all isspace line = true) as He by apply extract_None.
  destruct (extract line) as [[t s']|].
  - split; [by intros [? ?]|]. intros [?|?%He]; [lia|done].
  - split; [|eauto]. intros _. right. by apply He.
Qed.

(** The command word is matched without regard to case: two requests whose
    first words differ only in case denote the same command type. *)
Theorem parse_case_insensitive (a b : string) :
  same_word a b → commandTypeFromName a = commandTypeFromName b.
Proof. apply commandTypeFromName_proper. Qed.

Theorem parse_case_insensitive_witness :
  commandTypeFromName "RePlicaOf" = commandTypeFromName "replicaof".
Proof. apply (parse_case_insensitive "RePlicaOf" "replicaof"). reflexivity. Defined.
