(* ===== verification/Storage.v ===== *)
(** * The storage engine: [KVStore] and its least-recently-used order

    [include/tinykv/storage/kv_store.hpp] and [src/storage/kv_store.cpp].
    [Module KVStore] keeps what the class keeps: a doubly-linked list of entries
    and a hash index from keys to iterators into that list. An iterator is the
    identity of a list node; dereferencing, splicing or erasing through an
    iterator whose node is not in the list is undefined behaviour.
    [Module Lru] is the abstract cache the store implements, a list of entries
    with the most recently used one in front. Each public method holds the
    store's mutex exclusively (or shared, when it changes nothing) for its whole
    body, so a method is one atomic step. *)

From S2P Require Import Prelude CxxStd.

(** A key and its value. *)
Abbreviation Entry := (string * string)%type.

(** ** The abstract cache *)

Module Lru.

(** The contents as a finite map. *)
Definition contents (l : list Entry) : gmap string string := list_to_map l.

Definition lookup (k : string) (l : list Entry) : option string := contents l !! k.

Definition remove (k : string) (l : list Entry) : list Entry := filter (λ e, e.1 ≠ k) l.

(** At most [c] entries are kept when [c] is not zero; the back goes first. *)
Definition trim (c : nat) (l : list Entry) : list Entry :=
  if bool_decide (c = 0) then l else take c l.

Definition set (c : nat) (k v : string) (l : list Entry) : list Entry :=
  match lookup k l with
  | Some _ => (k, v) :: remove k l
  | None => trim c ((k, v) :: l)
  end.

Definition touch (k : string) (l : list Entry) : list Entry :=
  match lookup k l with
  | Some v => (k, v) :: remove k l
  | None => l
  end.

Definition increment (c : nat) (k : string) (d : Z) : M (list Entry) Z := λ l,
  match (match lookup k l with Some v => stoll v | None => inr 0%Z end) with
  | inl _ => Exn (InvalidArgument "value is not an integer") l
  | inr n =>
      match chk64 (n + d) with
      | Some n' => Ok n' (set c k (to_string n') l)
      | None => Undef
      end
  end.

(** The number [k] holds: zero when absent, nothing when it is not a number. *)
Definition counter (k : string) (l : list Entry) : option Z :=
  match lookup k l with
  | None => Some 0%Z
  | Some v =>
      match stoll v with
      | inr n => Some n
      | inl _ => None
      end
  end.

End Lru.

(** ** The implementation *)

Module KVStore.

(** [EntryList::iterator]: the identity of a node. *)
Definition iterator : Type := nat.

Definition EntryList : Type := list (iterator * Entry).

(** [std::list] through iterators; [None] is a dangling iterator. *)
Fixpoint deref (it : iterator) (l : EntryList) : option Entry :=
  match l with
  | [] => None
  | (it', e) :: l' => if bool_decide (it = it') then Some e else deref it l'
  end.

Fixpoint assign (it : iterator) (value : string) (l : EntryList) : option EntryList :=
  match l with
  | [] => None
  | (it', e) :: l' =>
      if bool_decide (it = it') then Some ((it', (e.1, value)) :: l')
      else cons (it', e) <$> assign it value l'
  end.

Fixpoint unlink (it : iterator) (l : EntryList) : option (Entry * EntryList) :=
  match l with
  | [] => None
  | (it', e) :: l' =>
      if bool_decide (it = it') then Some (e, l')
      else '(e', l'') ← unlink it l'; Some (e', (it', e) :: l'')
  end.

(** [l.splice(l.begin(), l, it)]. *)
Definition splice_front (it : iterator) (l : EntryList) : option EntryList :=
  '(e, l') ← unlink it l; Some ((it, e) :: l').

(** [l.back()] and [l.pop_back()], undefined on an empty list. *)
Definition back (l : EntryList) : option Entry := snd <$> last l.

Definition pop_back (l : EntryList) : option EntryList :=
  match l with
  | [] => None
  | _ :: _ => Some (removelast l)
  end.

Record state : Type := mkState {
  capacity_ : nat;
  lru_ : EntryList;
  index_ : gmap string iterator;
  next_node : iterator
}.

Definition with_lru (l : EntryList) (s : state) : state :=
  mkState (capacity_ s) l (index_ s) (next_node s).

Definition with_index (i : gmap string iterator) (s : state) : state :=
  mkState (capacity_ s) (lru_ s) i (next_node s).

(** [KVStore::KVStore(capacity)]. *)
Definition create (capacity : nat) : state := mkState capacity [] ∅ 0.

(** [lru_.emplace_front(key, value)]: a fresh node. *)
Definition emplace_front (e : Entry) (s : state) : state :=
  mkState (capacity_ s) ((next_node s, e) :: lru_ s) (index_ s) (S (next_node s)).

(** The eviction loop of [setLocked]: [while (lru_.size() > capacity_)]. *)
Fixpoint evict (fuel : nat) : M state unit :=
  match fuel with
  | O => undef
  | S fuel' =>
      s ← get;
      if bool_decide (capacity_ s < length (lru_ s)) then
        e ← defined (back (lru_ s));
        l ← defined (pop_back (lru_ s));
        put (with_lru l (with_index (delete e.1 (index_ s)) s));;
        evict fuel'
      else mret tt
  end.

Definition setLocked (key value : string) : M state unit :=
  s ← get;
  match index_ s !! key with
  | Some it =>
      l ← defined (assign it value (lru_ s));
      l' ← defined (splice_front it l);
      put (with_lru l' s)
  | None =>
      let s1 := emplace_front (key, value) s in
      it ← defined (fst <$> head (lru_ s1));
      put (with_index (<[key := it]> (index_ s1)) s1);;
      if bool_decide (capacity_ s = 0) then mret tt else evict (S (length (lru_ s1)))
  end.

Definition set (key value : string) : M state unit := setLocked key value.

Definition get (key : string) : M state (option string) :=
  s ← Prelude.get;
  match index_ s !! key with
  | None => mret None
  | Some it =>
      l ← defined (splice_front it (lru_ s));
      put (with_lru l s);;
      e ← defined (deref it l);
      mret (Some e.2)
  end.

Definition del (key : string) : M state bool :=
  s ← Prelude.get;
  match index_ s !! key with
  | None => mret false
  | Some it =>
      '(_, l) ← defined (unlink it (lru_ s));
      put (with_lru l (with_index (delete key (index_ s)) s));;
      mret true
  end.

(** [fn] acts on whatever the callback captures, here [w]. *)
Definition forEach {W} (fn : string → string → W → W) (w : W) : M state W :=
  s ← Prelude.get;
  mret (foldl (λ w n, fn n.2.1 n.2.2 w) w (lru_ s)).

Definition exists_ (key : string) : M state bool :=
  s ← Prelude.get; mret (bool_decide (is_Some (index_ s !! key))).

Definition size_ : M state nat :=
  s ← Prelude.get; mret (size (index_ s)).

Definition incrementBy (key : string) (delta : Z) : M state Z :=
  s ← Prelude.get;
  current ← match index_ s !! key with
            | Some it =>
                e ← defined (deref it (lru_ s));
                match stoll e.2 with
                | inl _ => throw (InvalidArgument "value is not an integer")
                | inr z => mret z
                end
            | None => mret 0%Z
            end;
  updated ← defined (chk64 (current + delta));
  setLocked key (to_string updated);;
  mret updated.

(** The calls a client can make, and what each returns; an exception that
    leaves [incrementBy] is a result, since its only caller catches it. *)
Inductive op : Type :=
| OSet (k v : string)
| OGet (k : string)
| ODel (k : string)
| OExists (k : string)
| OSize
| OForEach
| OIncr (k : string) (d : Z).

Inductive ret : Type :=
| RUnit
| RValue (v : option string)
| RBool (b : bool)
| RSize (n : nat)
| REntries (l : list Entry)
| RInt (z : Z)
| RThrow (e : exn).

Definition run_op (o : op) : M state ret :=
  match o with
  | OSet k v => set k v;; mret RUnit
  | OGet k => v ← get k; mret (RValue v)
  | ODel k => b ← del k; mret (RBool b)
  | OExists k => b ← exists_ k; mret (RBool b)
  | OSize => n ← size_; mret (RSize n)
  | OForEach => l ← forEach (λ k v l, l ++ [(k, v)]) []; mret (REntries l)
  | OIncr k d => catch (z ← incrementBy k d; mret (RInt z)) (λ e, mret (RThrow e))
  end.

Fixpoint run_ops (os : list op) : M state (list ret) :=
  match os with
  | [] => mret []
  | o :: os' => r ← run_op o; rs ← run_ops os'; mret (r :: rs)
  end.

(** The same calls on the abstract cache. *)
Definition spec_op (c : nat) (o : op) : M (list Entry) ret := λ l,
  match o with
  | OSet k v => Ok RUnit (Lru.set c k v l)
  | OGet k => Ok (RValue (Lru.lookup k l)) (Lru.touch k l)
  | ODel k => Ok (RBool (bool_decide (is_Some (Lru.lookup k l)))) (Lru.remove k l)
  | OExists k => Ok (RBool (bool_decide (is_Some (Lru.lookup k l)))) l
  | OSize => Ok (RSize (length l)) l
  | OForEach => Ok (REntries l) l
  | OIncr k d =>
      match Lru.increment c k d l with
      | Ok z l' => Ok (RInt z) l'
      | Exn e l' => Ok (RThrow e) l'
      | Undef => Undef
      end
  end.

Fixpoint spec_ops (c : nat) (os : list op) : M (list Entry) (list ret) :=
  match os with
  | [] => mret []
  | o :: os' => r ← spec_op c o; rs ← spec_ops c os'; mret (r :: rs)
  end.

(** The key whose recency a call renews: a store, a successful read, a
    successful increment. *)
Definition touched (o : op) (r : ret) : option string :=
  match o, r with
  | OSet k _, _ => Some k
  | OGet k, RValue (Some _) => Some k
  | OIncr k _, RInt _ => Some k
  | _, _ => None
  end.

Definition is_del (o : op) : bool :=
  match o with
  | ODel _ => true
  | _ => false
  end.

(** The distinct keys of a history of touches, the most recent first. *)
Definition recent (ks : list string) : list string :=
  foldl (λ acc k, k :: filter (.≠ k) acc) [] ks.

(** ** The invariant and the abstraction *)

Definition entries (s : state) : list Entry := snd <$> lru_ s.

Definition index_entry (n : iterator * Entry) : string * iterator := (n.2.1, n.1).

(** The index and the list describe the same entries: one node per key, one
    index entry per node, and fresh node identities. *)
Record linked (s : state) : Prop := {
  linked_keys : NoDup ((index_entry <$> lru_ s).*1);
  linked_nodes : NoDup (lru_ s).*1;
  linked_fresh : Forall (λ it, it < next_node s) (lru_ s).*1;
  linked_index : index_ s = list_to_map (index_entry <$> lru_ s)
}.

Definition wf (s : state) : Prop :=
  linked s ∧ (capacity_ s = 0 ∨ length (lru_ s) ≤ capacity_ s).

(** The store [s] of capacity [c] represents the cache contents [l]. *)
Definition represents (s : state) (c : nat) (l : list Entry) : Prop :=
  wf s ∧ capacity_ s = c ∧ entries s = l.

End KVStore.

(** ** What the store promises to its clients *)

(** [R s c l]: the store [s] of capacity [c] holds the entries [l], most
    recently used first. *)
Class StoreContract (R : KVStore.state → nat → list Entry → Prop) : Prop := {
  store_create c : R (KVStore.create c) c [];
  store_set s c l k v : R s c l →
    ∃ s', KVStore.set k v s = Ok tt s' ∧ R s' c (Lru.set c k v l);
  store_get s c l k : R s c l →
    ∃ s', KVStore.get k s = Ok (Lru.lookup k l) s' ∧ R s' c (Lru.touch k l);
  store_del s c l k : R s c l →
    ∃ s', KVStore.del k s = Ok (bool_decide (is_Some (Lru.lookup k l))) s' ∧ R s' c (Lru.remove k l);
  store_exists s c l k : R s c l →
    KVStore.exists_ k s = Ok (bool_decide (is_Some (Lru.lookup k l))) s;
  store_size s c l : R s c l → KVStore.size_ s = Ok (length l) s;
  store_forEach s c l {W} (fn : string → string → W → W) (w : W) : R s c l →
    KVStore.forEach fn w s = Ok (foldl (λ w e, fn e.1 e.2 w) w l) s;
  store_increment s c l k d : R s c l →
    match Lru.increment c k d l with
    | Ok z l' => ∃ s', KVStore.incrementBy k d s = Ok z s' ∧ R s' c l'
    | Exn e l' => l' = l ∧ KVStore.incrementBy k d s = Exn e s
    | Undef => KVStore.incrementBy k d s = Undef
    end;
  store_nodup s c l : R s c l → NoDup l.*1;
  store_bound s c l : R s c l → c = 0 ∨ length l ≤ c
}.

(** ** Lemmas on the abstract cache *)

Section lru_lemmas.
Implicit Types (l : list Entry) (k v : string) (c : nat).
Import Lru.

Lemma lookup_cons k k' v l :
  lookup k ((k', v) :: l) = if bool_decide (k' = k) then Some v else lookup k l.
Proof.
  unfold lookup, contents. simpl. rewrite lookup_insert.
  by case_bool_decide; case_decide.
Qed.

Lemma lookup_None k l : lookup k l = None ↔ k ∉ l.*1.
Proof.
  unfold lookup, contents. split.
  - apply not_elem_of_list_to_map_2.
  - apply not_elem_of_list_to_map_1.
Qed.

Lemma lookup_Some k v l : NoDup l.*1 → lookup k l = Some v ↔ (k, v) ∈ l.
Proof. intros. unfold lookup, contents. by rewrite <-elem_of_list_to_map. Qed.

Lemma lookup_is_Some k l : is_Some (lookup k l) ↔ k ∈ l.*1.
Proof.
  rewrite <-not_eq_None_Some, lookup_None.
  destruct (decide (k ∈ l.*1)); naive_solver.
Qed.

Lemma remove_cons k k' v l :
  remove k ((k', v) :: l) = if bool_decide (k' = k) then remove k l else (k', v) :: remove k l.
Proof.
  unfold remove. rewrite filter_cons. simpl.
  by case_bool_decide; case_decide.
Qed.

Lemma remove_notin k l : k ∉ l.*1 → remove k l = l.
Proof.
  induction l as [|[k' v] l IH]; [done|]. rewrite fmap_cons, not_elem_of_cons. simpl.
  intros [? ?]. rewrite remove_cons, bool_decide_false by done. by rewrite IH.
Qed.

Lemma remove_app k l1 l2 : remove k (l1 ++ l2) = remove k l1 ++ remove k l2.
Proof. apply filter_app. Qed.

Lemma remove_keys k l : (remove k l).*1 = filter (.≠ k) l.*1.
Proof.
  induction l as [|[k' v] l IH]; [done|]. rewrite remove_cons, fmap_cons, filter_cons. simpl.
  case_bool_decide; case_decide; naive_solver congruence.
Qed.

Lemma remove_notin_keys k l : k ∉ (remove k l).*1.
Proof. rewrite remove_keys, list_elem_of_filter. naive_solver. Qed.

Lemma remove_keys_other k k' l : k' ≠ k → k' ∈ (remove k l).*1 ↔ k' ∈ l.*1.
Proof. rewrite remove_keys, list_elem_of_filter. naive_solver. Qed.

Lemma remove_length k l : length (remove k l) ≤ length l.
Proof. apply length_filter. Qed.

Lemma contents_remove k l : contents (remove k l) = delete k (contents l).
Proof.
  unfold contents. induction l as [|[k' v] l IH]; [symmetry; apply delete_empty|].
  rewrite remove_cons. simpl. case_bool_decide as Hk.
  - subst. by rewrite IH, delete_insert_eq.
  - simpl. by rewrite IH, delete_insert_ne by done.
Qed.

Lemma contents_cons_remove k v l : contents ((k, v) :: remove k l) = <[k := v]> (contents l).
Proof.
  change (contents ((k, v) :: remove k l)) with (<[k := v]> (contents (remove k l))).
  by rewrite contents_remove, insert_delete_eq.
Qed.

(** Touching a key changes the order only. *)
Lemma contents_touch k l : contents (touch k l) = contents l.
Proof.
  unfold touch. destruct (lookup k l) as [v|] eqn:E; [|done].
  rewrite contents_cons_remove. by apply insert_id.
Qed.

(** Without a capacity, setting is insertion. *)
Lemma contents_set_unbounded k v l : contents (set 0 k v l) = <[k := v]> (contents l).
Proof.
  unfold set, trim. destruct (lookup k l) as [w|] eqn:E; [apply contents_cons_remove|done].
Qed.

Lemma set_hit c k v l : is_Some (lookup k l) → set c k v l = (k, v) :: remove k l.
Proof. unfold set. by intros [? ->]. Qed.

Lemma trim_nodup c l : NoDup l.*1 → NoDup (trim c l).*1.
Proof.
  unfold trim. case_bool_decide; [done|]. rewrite fmap_take.
  intros Hl. eapply sublist_NoDup; [|apply sublist_take]. done.
Qed.

Lemma remove_nodup k l : NoDup l.*1 → NoDup (remove k l).*1.
Proof. rewrite remove_keys. apply NoDup_filter. Qed.

Lemma cons_remove_nodup k v l : NoDup l.*1 → NoDup (((k, v) :: remove k l).*1).
Proof.
  intros. rewrite fmap_cons. constructor; [apply remove_notin_keys|by apply remove_nodup].
Qed.

Lemma set_nodup c k v l : NoDup l.*1 → NoDup (set c k v l).*1.
Proof.
  intros. unfold set. destruct (lookup k l) eqn:E; [by apply cons_remove_nodup|].
  apply trim_nodup. rewrite fmap_cons. constructor; [by apply lookup_None|done].
Qed.

(** A set key is there afterwards, whatever the capacity. *)
Lemma lookup_set_same c k v l : lookup k (set c k v l) = Some v.
Proof.
  unfold set. destruct (lookup k l) eqn:E.
  { by rewrite lookup_cons, bool_decide_true. }
  unfold trim. case_bool_decide as Hc.
  { by rewrite lookup_cons, bool_decide_true. }
  destruct c as [|c]; [done|]. rewrite firstn_cons. by rewrite lookup_cons, bool_decide_true.
Qed.

Lemma lookup_remove_ne k k' l : k' ≠ k → lookup k' (remove k l) = lookup k' l.
Proof. intros. unfold lookup. by rewrite contents_remove, lookup_delete_ne. Qed.

End lru_lemmas.

#[export] Hint Resolve set_nodup remove_nodup trim_nodup cons_remove_nodup : tinykv.

(** ** Lemmas on the linked list *)

Section list_lemmas.
Import KVStore.

Lemma deref_split it e (l1 l2 : EntryList) :
  it ∉ l1.*1 → deref it (l1 ++ (it, e) :: l2) = Some e.
Proof.
  induction l1 as [|[it' e'] l1 IH]; simpl; [by rewrite bool_decide_true|].
  intros [? ?]%not_elem_of_cons. rewrite bool_decide_false by done. by apply IH.
Qed.

Lemma assign_split it e v (l1 l2 : EntryList) :
  it ∉ l1.*1 → assign it v (l1 ++ (it, e) :: l2) = Some (l1 ++ (it, (e.1, v)) :: l2).
Proof.
  induction l1 as [|[it' e'] l1 IH]; simpl; [by rewrite bool_decide_true|].
  intros [? ?]%not_elem_of_cons. rewrite bool_decide_false by done. by rewrite IH.
Qed.

Lemma unlink_split it e (l1 l2 : EntryList) :
  it ∉ l1.*1 → unlink it (l1 ++ (it, e) :: l2) = Some (e, l1 ++ l2).
Proof.
  induction l1 as [|[it' e'] l1 IH]; simpl; [by rewrite bool_decide_true|].
  intros [? ?]%not_elem_of_cons. rewrite bool_decide_false by done. by rewrite IH.
Qed.

Lemma splice_split it e (l1 l2 : EntryList) :
  it ∉ l1.*1 → splice_front it (l1 ++ (it, e) :: l2) = Some ((it, e) :: l1 ++ l2).
Proof. intros. unfold splice_front. by rewrite unlink_split. Qed.

(** An indexed key has exactly one node, and the entries around it are free of
    the key. *)
Lemma index_split s k it :
  linked s → index_ s !! k = Some it →
  ∃ v l1 l2, lru_ s = (l1 ++ (it, (k, v)) :: l2) ∧ (it ∉ l1.*1) ∧
             (k ∉ (snd <$> l1).*1) ∧ (k ∉ (snd <$> l2).*1).
Proof.
  intros [Hk Hn _ Hi] Hl. rewrite Hi in Hl. apply elem_of_list_to_map_2 in Hl.
  apply list_elem_of_fmap in Hl as ([it' [k' v]] & [= <- <-] & Hin).
  apply list_elem_of_split in Hin as (l1 & l2 & E). exists v, l1, l2.
  rewrite E in Hk, Hn. split_and!; [done|..].
  - rewrite fmap_app, fmap_cons in Hn. apply NoDup_app in Hn as (_ & Hd & _).
    intros Hin. apply (Hd _ Hin). by left.
  - rewrite !fmap_app, !fmap_cons in Hk. apply NoDup_app in Hk as (_ & Hd & _).
    intros Hin. apply (Hd k); [|by left].
    rewrite <-!list_fmap_compose in *. done.
  - rewrite !fmap_app, !fmap_cons in Hk. apply NoDup_app in Hk as (_ & _ & Hk).
    apply NoDup_cons in Hk as [Hk _]. rewrite <-!list_fmap_compose in *. done.
Qed.

Lemma entries_keys s : (index_entry <$> lru_ s).*1 = (entries s).*1.
Proof. unfold entries. by rewrite <-!list_fmap_compose. Qed.

Lemma index_lookup s k : linked s → is_Some (index_ s !! k) ↔ is_Some (Lru.lookup k (entries s)).
Proof.
  intros [Hk _ _ ->]. rewrite lookup_is_Some, <-entries_keys.
  rewrite <-not_eq_None_Some. rewrite <-not_elem_of_list_to_map.
  destruct (decide (k ∈ (index_entry <$> lru_ s).*1)); naive_solver.
Qed.

Lemma index_None s k : linked s → index_ s !! k = None ↔ Lru.lookup k (entries s) = None.
Proof. intros H. rewrite !eq_None_not_Some. by rewrite index_lookup. Qed.

(** Reordering the nodes, or rewriting the values, keeps the invariant. *)
Lemma linked_perm s l :
  linked s → (index_entry <$> l) ≡ₚ (index_entry <$> lru_ s) → linked (with_lru l s).
Proof.
  intros [Hk Hn Hf Hi] Hp.
  assert (l.*1 ≡ₚ (lru_ s).*1) as Hp1.
  { rewrite <-(list_fmap_ext (λ n, (index_entry n).2) fst l) by (intros ? [] ?; done).
    rewrite <-(list_fmap_ext (λ n, (index_entry n).2) fst (lru_ s)) by (intros ? [] ?; done).
    rewrite (list_fmap_compose index_entry snd), (list_fmap_compose index_entry snd).
    by apply Permutation_map. }
  constructor; simpl.
  - by rewrite Hp.
  - by rewrite Hp1.
  - by rewrite Hp1.
  - rewrite Hi. symmetry. apply list_to_map_proper; [|done]. by rewrite Hp.
Qed.

(** Removing one node together with its index entry keeps it too. *)
Lemma linked_remove s l1 l2 it k v :
  linked s → lru_ s = l1 ++ (it, (k, v)) :: l2 →
  linked (with_lru (l1 ++ l2) (with_index (delete k (index_ s)) s)).
Proof.
  intros [Hk Hn Hf Hi] E. rewrite E in *.
  assert ((index_entry <$> (l1 ++ (it, (k, v)) :: l2)) ≡ₚ (k, it) :: (index_entry <$> (l1 ++ l2))) as Hp.
  { rewrite !fmap_app, fmap_cons. simpl. by rewrite Permutation_middle. }
  assert (NoDup (((k, it) :: (index_entry <$> (l1 ++ l2))).*1)) as Hk' by (by rewrite <-Hp).
  constructor; simpl.
  - rewrite fmap_cons in Hk'. by apply NoDup_cons in Hk' as [_ ?].
  - rewrite fmap_app, fmap_cons in Hn. rewrite fmap_app.
    apply NoDup_app in Hn as (? & Hd & [_ ?]%NoDup_cons). apply NoDup_app. split_and!; [done| |done].
    intros x Hx ?. apply (Hd x Hx). by right.
  - rewrite fmap_app, fmap_cons in Hf. rewrite fmap_app.
    apply Forall_app in Hf as [? [_ ?]%Forall_cons]. by apply Forall_app.
  - rewrite Hi, (list_to_map_proper _ _ Hk Hp). simpl. rewrite delete_insert_id; [done|].
    apply not_elem_of_list_to_map_1. rewrite fmap_cons in Hk'. by apply NoDup_cons in Hk' as [? _].
Qed.

(** The eviction loop ends with the [capacity_] front entries, whatever the
    length it starts from. *)
Lemma evict_spec n s :
  linked s → length (lru_ s) < n →
  ∃ s', evict n s = Ok tt s' ∧ linked s' ∧ capacity_ s' = capacity_ s ∧
        lru_ s' = take (capacity_ s) (lru_ s).
Proof.
  revert s. induction n as [|n IH]; intros s Hs Hn; [lia|]. cbn [evict].
  unfold_M. case_bool_decide as Hc; [|exists s; rewrite take_ge by lia; done].
  destruct (lru_ s) as [|[it [k v]] l _] eqn:E using rev_ind; [simpl in Hc; lia|].
  unfold back, pop_back. rewrite last_snoc.
  assert (∀ (x : iterator * Entry) (o1 o2 : option EntryList),
    match l ++ [x] with [] => o1 | _ :: _ => o2 end = o2) as -> by (by destruct l).
  rewrite removelast_last. cbn [fmap option_fmap option_map snd fst].
  edestruct (IH (with_lru l (with_index (delete k (index_ s)) s))) as (s' & -> & ? & ? & Hl).
  - rewrite <-(app_nil_r l). by eapply linked_remove.
  - rewrite length_app in Hn. simpl in *. lia.
  - exists s'. split_and!; [done..|]. rewrite Hl. simpl. rewrite length_app in Hc. simpl in Hc.
    rewrite take_app_le by lia. done.
Qed.

End list_lemmas.

(** ** The store keeps its contract *)

Section store_contract.
Import KVStore.

Lemma entries_split s it k v l1 l2 :
  lru_ s = l1 ++ (it, (k, v)) :: l2 → k ∉ (snd <$> l1).*1 → k ∉ (snd <$> l2).*1 →
  Lru.lookup k (entries s) = Some v ∧
  Lru.remove k (entries s) = (snd <$> l1) ++ (snd <$> l2).
Proof.
  intros E H1 H2. unfold entries. rewrite E, fmap_app, fmap_cons. simpl. split.
  - unfold Lru.lookup, Lru.contents. rewrite list_to_map_app. simpl.
    rewrite lookup_union_r; [by rewrite lookup_insert_eq|].
    by apply not_elem_of_list_to_map_1.
  - rewrite remove_app, remove_cons, bool_decide_true by done.
    by rewrite !remove_notin.
Qed.

Lemma represents_create c : represents (create c) c [].
Proof.
  split_and!; [|done|done]. split; [|simpl; lia].
  constructor; simpl; [constructor..|done].
Qed.

Lemma setLocked_spec s c l k v :
  represents s c l →
  ∃ s', setLocked k v s = Ok tt s' ∧ represents s' c (Lru.set c k v l).
Proof.
  intros ([Hs Hb] & <- & <-). unfold setLocked. unfold_M.
  destruct (index_ s !! k) as [it|] eqn:E.
  - destruct (index_split s k it) as (w & l1 & l2 & El & Hit & H1 & H2); [done..|].
    rewrite El, assign_split by done. simpl. rewrite splice_split by done.
    eexists. split; [done|]. destruct (entries_split s it k w l1 l2) as [Hw Hr]; [done..|].
    split_and!; [split|done|].
    + apply linked_perm; [done|]. rewrite El, !fmap_cons, !fmap_app, !fmap_cons. simpl.
      by rewrite Permutation_middle.
    + simpl. rewrite El, length_app in Hb. simpl in *. rewrite length_app. destruct Hb; [by left|right; lia].
    + rewrite set_hit, Hr by eauto. unfold entries. simpl. by rewrite fmap_app.
  - assert (Lru.lookup k (entries s) = None) as Hk by (by apply index_None).
    assert (k ∉ (index_entry <$> lru_ s).*1) as Hk' by (by rewrite entries_keys, <-lookup_None).
    pose (s1 := with_index (<[k := next_node s]> (index_ s)) (emplace_front (k, v) s)).
    assert (linked s1) as Hs1.
    { destruct Hs as [? Hn Hf Hi]. constructor; simpl.
      - by constructor.
      - constructor; [|done]. intros ?. rewrite Forall_forall in Hf.
        specialize (Hf (next_node s)). naive_solver lia.
      - constructor; [lia|]. eapply Forall_impl; [done|]. simpl. lia.
      - by rewrite Hi. }
    assert (entries s1 = (k, v) :: entries s) as He1 by done.
    unfold Lru.set. rewrite Hk. unfold Lru.trim.
    case_bool_decide as Hc.
    + exists s1. split; [done|]. split_and!; [split; [done|by left]|done|done].
    + destruct (evict_spec (S (S (length (lru_ s)))) s1) as (s' & Hev & Hl' & Hc' & Hl); [done|simpl; lia|].
      exists s'. split; [exact Hev|]. split_and!; [split; [done|]|done|].
      * right. rewrite Hc', Hl, length_take. lia.
      * unfold entries. rewrite Hl, fmap_take. done.
Qed.

Lemma get_spec s c l k :
  represents s c l →
  ∃ s', KVStore.get k s = Ok (Lru.lookup k l) s' ∧ represents s' c (Lru.touch k l).
Proof.
  intros ([Hs Hb] & <- & <-). unfold KVStore.get, Lru.touch. unfold_M.
  destruct (index_ s !! k) as [it|] eqn:E.
  - destruct (index_split s k it) as (w & l1 & l2 & El & Hit & H1 & H2); [done..|].
    destruct (entries_split s it k w l1 l2) as [Hw Hr]; [done..|].
    rewrite El, splice_split by done. simpl. rewrite bool_decide_true by done. rewrite Hw, Hr.
    eexists. split; [done|]. split_and!; [split|done|].
    + apply linked_perm; [done|]. rewrite El, !fmap_cons, !fmap_app, !fmap_cons. simpl.
      by rewrite Permutation_middle.
    + simpl. rewrite El, length_app in Hb. simpl in *. rewrite length_app. destruct Hb; [by left|right; lia].
    + unfold entries. simpl. by rewrite fmap_app.
  - apply index_None in E as ->; [|done]. exists s. done.
Qed.

Lemma del_spec s c l k :
  represents s c l →
  ∃ s', KVStore.del k s = Ok (bool_decide (is_Some (Lru.lookup k l))) s' ∧
        represents s' c (Lru.remove k l).
Proof.
  intros ([Hs Hb] & <- & <-). unfold KVStore.del. unfold_M.
  destruct (index_ s !! k) as [it|] eqn:E.
  - destruct (index_split s k it) as (w & l1 & l2 & El & Hit & H1 & H2); [done..|].
    destruct (entries_split s it k w l1 l2) as [Hw Hr]; [done..|].
    rewrite El, unlink_split by done. simpl. rewrite Hw, Hr, bool_decide_true by eauto.
    eexists. split; [done|]. split_and!; [split|done|].
    + by eapply linked_remove.
    + simpl. rewrite El, !length_app in Hb. simpl in Hb. rewrite length_app. destruct Hb; [by left|right; lia].
    + unfold entries. simpl. by rewrite fmap_app.
  - apply index_None in E; [|done]. rewrite E, bool_decide_false by (by intros []).
    exists s. split; [done|]. split_and!; [done|done|].
    by rewrite remove_notin by (by apply lookup_None).
Qed.

Lemma increment_spec s c l k d :
  represents s c l →
  match Lru.increment c k d l with
  | Ok z l' => ∃ s', incrementBy k d s = Ok z s' ∧ represents s' c l'
  | Exn e l' => l' = l ∧ incrementBy k d s = Exn e s
  | Undef => incrementBy k d s = Undef
  end.
Proof.
  intros Hr. pose proof Hr as ([Hs Hb] & <- & <-). unfold incrementBy, Lru.increment. unfold_M.
  destruct (index_ s !! k) as [it|] eqn:E.
  - destruct (index_split s k it) as (w & l1 & l2 & El & Hit & H1 & H2); [done..|].
    destruct (entries_split s it k w l1 l2) as [Hw _]; [done..|].
    rewrite Hw, El, deref_split by done. simpl.
    destruct (stoll w) as [e|n]; [done|]. destruct (chk64 (n + d)) as [n'|]; [|done].
    destruct (setLocked_spec s (capacity_ s) (entries s) k (to_string n')) as (s' & -> & ?); [done|].
    eauto.
  - apply index_None in E; [|done]. rewrite E.
    destruct (chk64 (0 + d)) as [n'|]; [|done].
    destruct (setLocked_spec s (capacity_ s) (entries s) k (to_string n')) as (s' & -> & ?); [done|].
    eauto.
Qed.

Lemma foldl_fmap_entries {W} (fn : string → string → W → W) (l : EntryList) (w : W) :
  foldl (λ w n, fn n.2.1 n.2.2 w) w l = foldl (λ w e, fn e.1 e.2 w) w (snd <$> l).
Proof. revert w. induction l as [|n l IH]; intros w; simpl; [done|]. apply IH. Qed.

#[export] Instance represents_contract : StoreContract represents.
Proof.
  split.
  - apply represents_create.
  - intros. by apply setLocked_spec.
  - apply get_spec.
  - apply del_spec.
  - intros s c l k ([Hs _] & _ & <-). unfold exists_. unfold_M.
    by rewrite (bool_decide_ext _ _ (index_lookup s k Hs)).
  - intros s c l ([[Hk _ _ Hi] _] & _ & <-). unfold size_. unfold_M.
    rewrite Hi, map_size_list_to_map by done. unfold entries. by rewrite !length_fmap.
  - intros s c l W fn w (_ & _ & <-). unfold forEach. unfold_M. by rewrite foldl_fmap_entries.
  - intros. by apply increment_spec.
  - intros s c l ([Hs _] & _ & <-). rewrite <-entries_keys. apply Hs.
  - intros s c l ([_ Hb] & <- & <-). unfold entries. by rewrite length_fmap.
Qed.

End store_contract.

(** ** Histories of calls *)

Section histories.
Import KVStore.
Context (R : KVStore.state → nat → list Entry → Prop) `{!StoreContract R}.

Lemma run_op_spec s c l o :
  R s c l →
  match spec_op c o l with
  | Ok r l' => ∃ s', run_op o s = Ok r s' ∧ R s' c l'
  | Exn _ _ => False
  | Undef => run_op o s = Undef
  end.
Proof.
  intros Hr. destruct o as [k v|k|k|k| | |k d]; simpl; unfold_M.
  - destruct (store_set s c l k v) as (s' & -> & ?); eauto.
  - destruct (store_get s c l k) as (s' & -> & ?); eauto.
  - destruct (store_del s c l k) as (s' & -> & ?); eauto.
  - erewrite store_exists by done. eauto.
  - erewrite store_size by done. eauto.
  - erewrite store_forEach by done.
    assert (∀ w : list Entry, foldl (λ (w : list Entry) e, w ++ [(e.1, e.2)]) w l = w ++ l) as ->.
    { clear. induction l as [|[k v] l IH]; intros w; simpl; [by rewrite app_nil_r|].
      rewrite IH, <-app_assoc. done. }
    eauto.
  - pose proof (store_increment s c l k d Hr) as Hi.
    destruct (Lru.increment c k d l) as [z l'|e l'|].
    + destruct Hi as (s' & -> & ?). eauto.
    + destruct Hi as [-> ->]. eauto.
    + by rewrite Hi.
Qed.

Lemma run_ops_spec s c l os :
  R s c l →
  match spec_ops c os l with
  | Ok rs l' => ∃ s', run_ops os s = Ok rs s' ∧ R s' c l'
  | Exn _ _ => False
  | Undef => run_ops os s = Undef
  end.
Proof.
  revert s l. induction os as [|o os IH]; intros s l Hr; [by exists s|].
  cbn [spec_ops run_ops]. pose proof (run_op_spec s c l o Hr) as Ho.
  unfold mbind at 1, M_bind at 1. destruct (spec_op c o l) as [r l'|?|]; [|done|].
  - destruct Ho as (s' & Hrun & Hr'). rewrite (bind_Ok _ _ _ _ _ Hrun).
    specialize (IH s' l' Hr'). unfold_M. destruct (spec_ops c os l') as [rs l''|?|]; [|done|].
    + destruct IH as (s'' & -> & ?). eauto.
    + by rewrite IH.
  - unfold_M. by rewrite Ho.
Qed.

(** Every outcome of the implementation is the specification's. *)
Lemma run_op_inv s c l o r s' :
  R s c l → run_op o s = Ok r s' → ∃ l', spec_op c o l = Ok r l' ∧ R s' c l'.
Proof.
  intros Hr Hrun. pose proof (run_op_spec s c l o Hr) as Ho.
  destruct (spec_op c o l) as [r1 l'|?|]; [|done|congruence].
  destruct Ho as (s1 & E & ?). rewrite E in Hrun. simplify_eq. eauto.
Qed.

End histories.

(** ** Least-recently-used order *)

Section recency.
Import KVStore.
Implicit Types (D ks : list string) (k : string).

Lemma filter_ne_notin k D : k ∉ D → filter (.≠ k) D = D.
Proof.
  induction D as [|x D IH]; [done|]. intros [? ?]%not_elem_of_cons.
  rewrite filter_cons_True by done. by rewrite IH.
Qed.

Lemma filter_ne_length k D : NoDup D → length D ≤ S (length (filter (.≠ k) D)).
Proof.
  induction 1 as [|x D Hx HD IH]; simpl; [lia|]. rewrite filter_cons. case_decide as Hk.
  - simpl. lia.
  - subst x. rewrite filter_ne_notin by done. lia.
Qed.

Lemma filter_ne_length_in k D : k ∈ D → S (length (filter (.≠ k) D)) ≤ length D.
Proof. intros Hk. apply (length_filter_lt (.≠ k)) in Hk; [lia|naive_solver]. Qed.

Lemma recent_nodup ks : NoDup (recent ks).
Proof.
  unfold recent. assert (NoDup (@nil string)) as H by constructor.
  revert H. generalize (@nil string). induction ks as [|k ks IH]; intros D HD; simpl; [done|].
  apply IH. constructor; [|by apply NoDup_filter].
  rewrite list_elem_of_filter. naive_solver.
Qed.

Lemma recent_snoc ks k : recent (ks ++ [k]) = k :: filter (.≠ k) (recent ks).
Proof. unfold recent. by rewrite foldl_app. Qed.

(** Keeping only the [c] most recent keys before a touch loses nothing. *)
Lemma take_touch c k D :
  NoDup D → take c (k :: filter (.≠ k) (take c D)) = take c (k :: filter (.≠ k) D).
Proof.
  intros HD. destruct c as [|c]; [done|]. rewrite !firstn_cons. f_equal.
  destruct (decide (length D ≤ S c)); [by rewrite (take_ge D)|].
  rewrite <-(take_drop (S c) D) at 2. rewrite filter_app, take_app_le; [done|].
  assert (NoDup (take (S c) D)) as Ht by (eapply sublist_NoDup; [done|apply sublist_take]).
  apply (filter_ne_length k) in Ht. rewrite length_take in Ht. lia.
Qed.

Lemma set_keys c k v (l : list Entry) :
  c ≠ 0 → length l ≤ c → NoDup l.*1 →
  (Lru.set c k v l).*1 = take c (k :: filter (.≠ k) l.*1).
Proof.
  intros Hc Hl Hn. unfold Lru.set. destruct (Lru.lookup k l) eqn:E.
  - rewrite fmap_cons, remove_keys. simpl. rewrite take_ge; [done|]. simpl.
    etrans; [apply filter_ne_length_in|by rewrite length_fmap].
    apply lookup_is_Some. eauto.
  - unfold Lru.trim. rewrite bool_decide_false by done. rewrite fmap_take, fmap_cons. simpl.
    rewrite filter_ne_notin by (by apply lookup_None). done.
Qed.

Lemma touch_keys c k (l : list Entry) :
  length l ≤ c → is_Some (Lru.lookup k l) →
  (Lru.touch k l).*1 = take c (k :: filter (.≠ k) l.*1).
Proof.
  intros Hl Hk. unfold Lru.touch. pose proof Hk as [v ->].
  rewrite fmap_cons, remove_keys. simpl. rewrite take_ge; [done|]. simpl.
  etrans; [by apply filter_ne_length_in, lookup_is_Some|by rewrite length_fmap].
Qed.

(** One call renews the recency of the key it touches, and of no other. *)
Lemma spec_op_keys c o r (l l' : list Entry) :
  c ≠ 0 → length l ≤ c → NoDup l.*1 → is_del o = false → spec_op c o l = Ok r l' →
  l'.*1 = match touched o r with Some k => take c (k :: filter (.≠ k) l.*1) | None => l.*1 end.
Proof.
  intros Hc Hl Hn Hd Hs. destruct o as [k v|k|k|k| | |k d]; simplify_eq/=; try done; [by apply set_keys| |].
  - destruct (Lru.lookup k l) eqn:E; [apply touch_keys; eauto|]. unfold Lru.touch. by rewrite E.
  - unfold Lru.increment in Hs. repeat case_match; simplify_eq/=; try done; by apply set_keys.
Qed.

End recency.

(** ** Counters *)

Section counters.
Import KVStore.

Lemma increment_counter c k d l :
  Lru.increment c k d l =
  match Lru.counter k l with
  | None => Exn (InvalidArgument "value is not an integer") l
  | Some n =>
      match chk64 (n + d) with
      | Some n' => Ok n' (Lru.set c k (to_string n') l)
      | None => Undef
      end
  end.
Proof. unfold Lru.increment, Lru.counter. by repeat case_match; simplify_eq. Qed.

Lemma counter_set c k n l :
  in_int64 n = true → Lru.counter k (Lru.set c k (to_string n) l) = Some n.
Proof. intros. unfold Lru.counter. by rewrite lookup_set_same, stoll_to_string. Qed.

(** Increments whose sizes add up within range all succeed and add up. *)
Lemma spec_increments c k ds n l :
  Lru.counter k l = Some n →
  (Z.abs n + foldr (λ d, Z.add (Z.abs d)) 0 ds ≤ int64_max)%Z →
  ∃ rs l', spec_ops c (OIncr k <$> ds) l = Ok rs l' ∧
           Lru.counter k l' = Some (n + foldr Z.add 0 ds)%Z.
Proof.
  revert n l. induction ds as [|d ds IH]; intros n l Hn Hb.
  { exists [], l. split; [done|]. simpl. by rewrite Z.add_0_r. }
  simpl in Hb. assert (0 ≤ foldr (λ d, Z.add (Z.abs d)) 0 ds)%Z as Hpos.
  { clear. induction ds; simpl; lia. }
  assert (in_int64 (n + d) = true) as Hi.
  { apply in_int64_spec. unfold int64_min, int64_max in *. lia. }
  destruct (IH (n + d)%Z (Lru.set c k (to_string (n + d)) l)) as (rs & l' & Hrun & Hl');
    [by apply counter_set|lia|].
  exists (RInt (n + d) :: rs), l'. split.
  - rewrite fmap_cons. cbn [spec_ops spec_op]. unfold mbind, M_bind. simpl.
    rewrite increment_counter, Hn. unfold chk64. rewrite Hi. by rewrite Hrun.
  - rewrite Hl'. f_equal. simpl. lia.
Qed.

Lemma foldr_add_perm (ds ds' : list Z) : ds ≡ₚ ds' → foldr Z.add 0%Z ds = foldr Z.add 0%Z ds'.
Proof. induction 1; simpl; lia. Qed.

Lemma foldr_abs_perm (ds ds' : list Z) :
  ds ≡ₚ ds' → foldr (λ d, Z.add (Z.abs d)) 0%Z ds = foldr (λ d, Z.add (Z.abs d)) 0%Z ds'.
Proof. induction 1; simpl; lia. Qed.

End counters.

(** ** Properties *)

Section properties.
Import KVStore.

(** C1: The store is the abstract least-recently-used cache: from an empty store of
    any capacity, every sequence of calls returns exactly what the cache
    specification returns, ends in a well-formed store that represents the
    cache's contents in recency order, and never goes through a dangling
    iterator or an empty list; it is undefined only where the specification is,
    on signed overflow of an increment. *)
Theorem kvstore_refines_lru (c : nat) (os : list op) :
  match spec_ops c os [] with
  | Ok rs l => ∃ s, run_ops os (create c) = Ok rs s ∧ represents s c l
  | Exn _ _ => False
  | Undef => run_ops os (create c) = Undef
  end.
Proof. apply (run_ops_spec represents), represents_create. Qed.

(** C33: Eviction keeps the most recently used keys: after any sequence of calls
    without DEL, a store of capacity [c] holds exactly the [c] keys most
    recently stored, read or incremented, in that order. *)
Theorem lru_keeps_most_recent (c : nat) (os : list op) (rs : list ret) (s : state) :
  c ≠ 0 → forallb (negb ∘ is_del) os = true →
  run_ops os (create c) = Ok rs s →
  (entries s).*1 = take c (recent (omap (uncurry touched) (zip os rs))).
Proof.
  intros Hc Hd Hrun.
  cut (∀ ks s0 l, represents s0 c l → l.*1 = take c (recent ks) → run_ops os s0 = Ok rs s →
         (entries s).*1 = take c (recent (ks ++ omap (uncurry touched) (zip os rs)))).
  { intros Hgen. apply (Hgen [] (create c) []); [apply represents_create|by destruct c|done]. }
  clear Hrun. revert rs Hd. induction os as [|o os IH]; intros rs Hd ks s0 l Hr Hl Hrun.
  { injection Hrun as <- <-. rewrite app_nil_r. by destruct Hr as (_ & _ & ->). }
  simpl in Hd. destruct_bools. simpl in Hrun. unfold mbind at 1, M_bind at 1 in Hrun.
  destruct (run_op o s0) as [r s1|?|] eqn:Ho; [|done..].
  destruct (run_op_inv represents s0 c l o r s1) as (l1 & Hs & Hr1); [done..|].
  unfold_M. destruct (run_ops os s1) as [rs1 s2|?|] eqn:Hos; simplify_eq/=.
  pose proof (store_nodup _ _ _ Hr). destruct (store_bound _ _ _ Hr) as [|]; [done|].
  pose proof (spec_op_keys c o r l l1) as Hk. 
  destruct (touched o r) as [k|] eqn:Ht.
  - rewrite (cons_middle k), app_assoc. apply (IH rs1 ltac:(done) _ s1 l1); [done| |done].
    rewrite Hk by done. by rewrite Hl, recent_snoc, take_touch by apply recent_nodup.
  - apply (IH rs1 ltac:(done) _ s1 l1); [done| |done]. by rewrite Hk, Hl by done.
Qed.

Theorem lru_keeps_most_recent_witness :
  ∃ rs s, run_ops [OSet "a" "1"; OSet "b" "2"; OSet "c" "3"; OGet "a"; OSet "d" "4"] (create 3) = Ok rs s ∧
          (entries s).*1 = ["d"; "a"; "c"].
Proof.
  eexists _, _. split; [vm_compute; reflexivity|].
  exact (lru_keeps_most_recent 3 [OSet "a" "1"; OSet "b" "2"; OSet "c" "3"; OGet "a"; OSet "d" "4"]
    _ _ ltac:(done) eq_refl eq_refl).
Defined.

(** Storing a new key into a full store removes exactly the least recently used
    entry: the new key reads back, the victim is gone, and every other key
    keeps its value. *)
Theorem set_evicts_only_lru (s : state) (c : nat) (l : list Entry) (victim : Entry) (k v : string) :
  represents s c (l ++ [victim]) → c = S (length l) → k ∉ (l ++ [victim]).*1 →
  ∃ s', set k v s = Ok tt s' ∧
    ∀ j, Lru.lookup j (entries s') =
      if bool_decide (j = k) then Some v
      else if bool_decide (j = victim.1) then None
      else Lru.lookup j (l ++ [victim]).
Proof.
  intros Hr -> Hk. destruct (store_set s _ _ k v Hr) as (s' & Hs & (_ & _ & He)).
  exists s'. split; [done|]. intros j. rewrite He. unfold Lru.set.
  rewrite (proj2 (lookup_None k _)) by done. unfold Lru.trim.
  rewrite bool_decide_false by done. rewrite firstn_cons, take_app_length, lookup_cons.
  apply store_nodup in Hr. rewrite fmap_app in Hr. apply NoDup_app in Hr as (_ & Hd & _).
  destruct (decide (j = k)) as [->|Hj]; [by rewrite !bool_decide_true|].
  rewrite !(bool_decide_false (_ = k)), (bool_decide_false (k = j)) by done.
  case_bool_decide as Hv.
  - apply lookup_None. intros Hin. apply (Hd _ Hin). rewrite Hv. by left.
  - unfold Lru.lookup, Lru.contents. rewrite list_to_map_app, lookup_union_l; [done|].
    destruct victim as [vk vv]. simpl. by rewrite lookup_insert_ne.
Qed.

Theorem set_evicts_only_lru_witness :
  ∃ s s', run_ops [OSet "a" "1"; OSet "b" "2"] (create 2) = Ok [RUnit; RUnit] s ∧
          set "d" "4" s = Ok tt s' ∧ Lru.lookup "a" (entries s') = None.
Proof.
  destruct (run_ops_spec represents (create 2) 2 [] [OSet "a" "1"; OSet "b" "2"])
    as (s & Hs & Hr); [apply represents_create|].
  exists s. destruct (set_evicts_only_lru s 2 [("b", "2")] ("a", "1") "d" "4") as (s' & Hs' & Hl);
    [exact Hr|reflexivity|by vm_compute; set_solver|].
  exists s'. split_and!; [exact Hs|exact Hs'|]. rewrite (Hl "a"). reflexivity.
Defined.

(** [incrementBy] on every branch: a value that is not a number throws
    [invalid_argument] and leaves the store as it was; a sum outside [long
    long] is undefined behaviour; otherwise the sum is returned and stored in
    decimal under the key, which becomes the most recently used. *)
Theorem incrementBy_branches (s : state) (c : nat) (l : list Entry) (k : string) (d : Z) :
  represents s c l →
  match Lru.counter k l with
  | None => incrementBy k d s = Exn (InvalidArgument "value is not an integer") s
  | Some n =>
      if in_int64 (n + d) then
        ∃ s', incrementBy k d s = Ok (n + d)%Z s' ∧
              represents s' c (Lru.set c k (to_string (n + d)) l)
      else incrementBy k d s = Undef
  end.
Proof.
  intros Hr. pose proof (store_increment s c l k d Hr) as Hi. rewrite increment_counter in Hi.
  unfold chk64 in Hi. destruct (Lru.counter k l) as [n|]; [|by destruct Hi].
  by destruct (in_int64 (n + d)).
Qed.

Theorem incrementBy_branches_witness :
  incrementBy "n" 1 (create 0) = Ok 1%Z (mkState 0 [(0, ("n", "1"))] {["n" := 0]} 1).
Proof.
  destruct (incrementBy_branches (create 0) 0 [] "n" 1 (represents_create 0)) as (s' & Hs & _).
  rewrite Hs. vm_compute in Hs. by injection Hs as <-.
Defined.

(** Concurrent increments of one key lose no update: in whatever order the
    store's lock admits them, they all succeed and the key ends up holding the
    initial number plus the sum of the deltas. *)
Theorem increments_not_lost (s : state) (c : nat) (l : list Entry) (k : string) (n : Z)
    (ds order : list Z) :
  represents s c l → Lru.counter k l = Some n → order ≡ₚ ds →
  (Z.abs n + foldr (λ d, Z.add (Z.abs d)) 0 ds ≤ int64_max)%Z →
  ∃ rs s', run_ops (OIncr k <$> order) s = Ok rs s' ∧
           Lru.counter k (entries s') = Some (n + foldr Z.add 0 ds)%Z.
Proof.
  intros Hr Hn Hp Hb. rewrite <-(foldr_abs_perm _ _ Hp) in Hb. rewrite <-(foldr_add_perm _ _ Hp).
  destruct (spec_increments c k order n l Hn Hb) as (rs & l' & Hs & Hl').
  pose proof (run_ops_spec represents s c l (OIncr k <$> order) Hr) as Hrun. rewrite Hs in Hrun.
  destruct Hrun as (s' & Hrun & (_ & _ & He)). exists rs, s'. by rewrite He.
Qed.

Theorem increments_not_lost_witness :
  ∃ rs s', run_ops (OIncr "hits" <$> [5; 1; -2]%Z) (create 0) = Ok rs s' ∧
           Lru.counter "hits" (entries s') = Some 4%Z.
Proof.
  apply (increments_not_lost (create 0) 0 [] "hits" 0 [1; -2; 5]%Z [5; 1; -2]%Z).
  - apply represents_create.
  - reflexivity.
  - apply (Permutation_app_comm [5%Z] [1; -2]%Z).
  - vm_compute. discriminate.
Defined.

(** A value made of a number followed by anything that does not continue it is
    incremented as that number, so INCR replaces such a value by a number
    instead of failing. *)
Theorem incrementBy_ignores_suffix (s : state) (c : nat) (l : list Entry) (k junk : string) (n d : Z) :
  represents s c l →
  Lru.lookup k l = Some (to_string n +:+ junk) →
  in_int64 n = true → in_int64 (n + d) = true →
  ends_number junk = true →
  ∃ s', incrementBy k d s = Ok (n + d)%Z s' ∧
        Lru.lookup k (entries s') = Some (to_string (n + d)).
Proof.
  intros Hr Hl Hn Hd Hj. pose proof (store_increment s c l k d Hr) as Hi.
  rewrite increment_counter in Hi. unfold Lru.counter, chk64 in Hi.
  rewrite Hl, stoll_to_string_suffix, Hd in Hi by done.
  destruct Hi as (s' & Hs & (_ & _ & He)). exists s'. by rewrite He, lookup_set_same.
Qed.

Theorem incrementBy_ignores_suffix_witness :
  ∃ s s', set "v" "12abc" (create 0) = Ok tt s ∧
          incrementBy "v" 1 s = Ok 13%Z s' ∧ Lru.lookup "v" (entries s') = Some "13".
Proof.
  destruct (setLocked_spec (create 0) 0 [] "v" "12abc" (represents_create 0)) as (s & Hs & Hr).
  destruct (incrementBy_ignores_suffix s 0 [("v", "12abc")] "v" "abc" 12 1 Hr
    eq_refl eq_refl eq_refl eq_refl) as (s' & Hi & Hl).
  exists s, s'. split_and!; [exact Hs|exact Hi|exact Hl].
Defined.

End properties.
