(* ===== verification/Expiry.v ===== *)
(** * Key expiration: [ExpiryManager] and its sweeper thread

    [include/tinykv/storage/expiry_manager.hpp] and
    [src/storage/expiry_manager.cpp]. The manager keeps a priority queue of
    deadlines with lazily discarded entries and a map of the live deadlines.
    Its methods are functions on that state; the sweeper thread is a state
    machine whose control points are the places where [sweepLoop] holds or
    releases the mutex, interleaved with the other threads' calls, the delivery
    of their notifications, spurious wake-ups and the clock. Times are [steady_clock] time points in nanoseconds. *)

From S2P Require Import Prelude.

Record HeapEntry : Type := mkEntry { when : Z; key : string }.

#[export] Instance HeapEntry_eq_dec : EqDecision HeapEntry.
Proof. solve_decision. Defined.

Module ExpiryManager.

(** ** The manager's state and methods *)

Record state : Type := mkState {
  heap_ : list HeapEntry;
  currentExpiry_ : gmap string Z;
  stop_ : bool
}.

Definition create : state := mkState [] ∅ false.

(** [std::priority_queue] with [HeapEntryCompare]: the top is an entry with the
    earliest deadline. Which one, among entries of equal deadline, is left to
    the library: [is_top] allows any, [top] picks one. *)
Definition is_top (e : HeapEntry) (h : list HeapEntry) : Prop :=
  e ∈ h ∧ ∀ e', e' ∈ h → (when e ≤ when e')%Z.

Fixpoint top (h : list HeapEntry) : option HeapEntry :=
  match h with
  | [] => None
  | e :: h' =>
      match top h' with
      | None => Some e
      | Some e' => if (when e <=? when e')%Z then Some e else Some e'
      end
  end.

Fixpoint pop (e : HeapEntry) (h : list HeapEntry) : list HeapEntry :=
  match h with
  | [] => []
  | e' :: h' => if bool_decide (e = e') then h' else e' :: pop e h'
  end.

Definition schedule (k : string) (expiresAt : Z) (s : state) : state :=
  mkState (mkEntry expiresAt k :: heap_ s) (<[k := expiresAt]> (currentExpiry_ s)) (stop_ s).

Definition cancel (k : string) (s : state) : state :=
  mkState (heap_ s) (delete k (currentExpiry_ s)) (stop_ s).

Definition expiryOf (k : string) (s : state) : option Z := currentExpiry_ s !! k.

Definition stop (s : state) : state := mkState (heap_ s) (currentExpiry_ s) true.

(** The test [it != currentExpiry_.end() && it->second == entry.when]. *)
Definition isLive (e : HeapEntry) (s : state) : bool :=
  bool_decide (currentExpiry_ s !! key e = Some (when e)).

(** The body of [sweepLoop] after a timeout: pops the top entry and tells
    whether the callback is to be run for it. *)
Definition pop_top (e : HeapEntry) (s : state) : bool * state :=
  let h := pop e (heap_ s) in
  if isLive e s
  then (true, mkState h (delete (key e) (currentExpiry_ s)) (stop_ s))
  else (false, mkState h (currentExpiry_ s) (stop_ s)).

(** ** The sweeper thread *)

(** Where the thread is in [sweepLoop]. *)
Inductive pc : Type :=
| Loop                               (* at [while (!stop_)], mutex held *)
| WaitEmpty                          (* in [cv_.wait], mutex released *)
| WaitUntil (deadline : Z)           (* in [cv_.wait_until], mutex released *)
| Woken (deadline : option Z)        (* out of the wait, still without the mutex *)
| TimedOut                           (* the wait returned [timeout], mutex held *)
| Firing (e : HeapEntry)             (* before [onExpire(entry.key)], mutex released *)
| Exited.

Definition unlocked (p : pc) : bool :=
  match p with
  | WaitEmpty | WaitUntil _ | Woken _ | Firing _ | Exited => true
  | Loop | TimedOut => false
  end.

(** What a notification, or nothing at all, does to a thread that waits. *)
Definition wake (p : pc) : pc :=
  match p with
  | WaitEmpty => Woken None
  | WaitUntil d => Woken (Some d)
  | _ => p
  end.

Definition waiting (p : pc) : bool :=
  match p with WaitEmpty | WaitUntil _ => true | _ => false end.

(** The manager, the thread, the clock, two histories: the calls of [schedule]
    and the expirations with the time of the callback, and how many threads have
    released the mutex in [schedule] or [stop] and not yet notified. *)
Record system : Type := mkSystem {
  mgr : state;
  thread : pc;
  clock : Z;
  scheduled : list HeapEntry;
  fired : list (HeapEntry * Z);
  notifying : nat
}.

Definition boot (t0 : Z) : system := mkSystem create Loop t0 [] [] 0.

(** The thread's own steps. A wait that is over returns [timeout] if its
    deadline has passed when it has the mutex again, and may also return
    [no_timeout]. *)
Inductive sweeper_step : system → system → Prop :=
| loop_exit m t sc f n :
    stop_ m = true →
    sweeper_step (mkSystem m Loop t sc f n) (mkSystem m Exited t sc f n)
| loop_empty m t sc f n :
    stop_ m = false → heap_ m = [] →
    sweeper_step (mkSystem m Loop t sc f n) (mkSystem m WaitEmpty t sc f n)
| loop_wait m t sc f n e :
    stop_ m = false → is_top e (heap_ m) →
    sweeper_step (mkSystem m Loop t sc f n) (mkSystem m (WaitUntil (when e)) t sc f n)
| wake_timeout m t sc f n d :
    (d ≤ t)%Z →
    sweeper_step (mkSystem m (WaitUntil d) t sc f n) (mkSystem m TimedOut t sc f n)
| woken_late m t sc f n d :
    (d ≤ t)%Z →
    sweeper_step (mkSystem m (Woken (Some d)) t sc f n) (mkSystem m TimedOut t sc f n)
| woken m t sc f n o :
    sweeper_step (mkSystem m (Woken o) t sc f n) (mkSystem m Loop t sc f n)
| timeout_empty m t sc f n :
    heap_ m = [] →
    sweeper_step (mkSystem m TimedOut t sc f n) (mkSystem m Loop t sc f n)
| timeout_stale m t sc f n e m' :
    is_top e (heap_ m) → pop_top e m = (false, m') →
    sweeper_step (mkSystem m TimedOut t sc f n) (mkSystem m' Loop t sc f n)
| timeout_live m t sc f n e m' :
    is_top e (heap_ m) → pop_top e m = (true, m') →
    sweeper_step (mkSystem m TimedOut t sc f n) (mkSystem m' (Firing e) t sc f n)
| fire m t sc f n e :
    sweeper_step (mkSystem m (Firing e) t sc f n) (mkSystem m Loop t sc (f ++ [(e, t)]) n).

(** [cv_.notify_one()] at the end of [schedule], [cv_.notify_all()] in [stop]:
    without effect unless the thread waits at that moment. *)
Inductive notify_step : system → system → Prop :=
| do_notify m p t sc f n :
    notify_step (mkSystem m p t sc f (S n)) (mkSystem m (wake p) t sc f n).

(** A wait may end for no reason. *)
Inductive spurious_step : system → system → Prop :=
| do_wake m p t sc f n :
    waiting p = true →
    spurious_step (mkSystem m p t sc f n) (mkSystem m (wake p) t sc f n).

(** The other threads' calls, possible whenever the mutex is free, and time. *)
Inductive client_step : system → system → Prop :=
| do_schedule m p t sc f n k d :
    unlocked p = true →
    client_step (mkSystem m p t sc f n) (mkSystem (schedule k d m) p t (sc ++ [mkEntry d k]) f (S n))
| do_cancel m p t sc f n k :
    unlocked p = true →
    client_step (mkSystem m p t sc f n) (mkSystem (cancel k m) p t sc f n)
| do_stop m p t sc f n :
    unlocked p = true →
    client_step (mkSystem m p t sc f n) (mkSystem (stop m) p t sc f (S n))
| tick m p t sc f n t' :
    (t ≤ t')%Z →
    client_step (mkSystem m p t sc f n) (mkSystem m p t' sc f n).

(** The steps that are due whatever anybody does: those of the thread, and the
    notifications. *)
Definition forced (x y : system) : Prop := sweeper_step x y ∨ notify_step x y.

(** No call and no time in between. *)
Definition alone (x y : system) : Prop := forced x y ∨ spurious_step x y.

Definition step (x y : system) : Prop := alone x y ∨ client_step x y.

(** The number of times a key occurs in a history. *)
Definition count_key (k : string) (h : list HeapEntry) : nat :=
  length (filter (λ e, key e = k) h).

(** ** Invariants *)

(** Every live deadline has its entry in the heap. *)
Definition covered (s : state) : Prop :=
  ∀ k t, currentExpiry_ s !! k = Some t → mkEntry t k ∈ heap_ s.

(** While the thread waits for a deadline the heap holds an entry due by then,
    and after the timeout one that is due. *)
Definition on_time (x : system) : Prop :=
  match thread x with
  | TimedOut => ∃ e, e ∈ heap_ (mgr x) ∧ (when e ≤ clock x)%Z
  | WaitUntil d | Woken (Some d) => ∃ e, e ∈ heap_ (mgr x) ∧ (when e ≤ d)%Z
  | Firing e => (when e ≤ clock x)%Z
  | _ => True
  end.

(** A thread that waits, with no notification on its way, waits for the earliest
    deadline there is, and need not exit. *)
Definition attentive (x : system) : Prop :=
  match thread x with
  | WaitEmpty => notifying x = 0 → heap_ (mgr x) = [] ∧ stop_ (mgr x) = false
  | WaitUntil d => notifying x = 0 → (∀ e, e ∈ heap_ (mgr x) → (d ≤ when e)%Z) ∧ stop_ (mgr x) = false
  | Exited => stop_ (mgr x) = true
  | _ => True
  end.

(** The expirations of a key that happened or are certain to: the ones fired,
    the one being fired, and a live deadline. *)
Definition claims (k : string) (x : system) : nat :=
  count_key k (fired x).*1 +
  (match thread x with Firing e => if bool_decide (key e = k) then 1 else 0 | _ => 0 end) +
  (if bool_decide (is_Some (currentExpiry_ (mgr x) !! k)) then 1 else 0).

Record inv (x : system) : Prop := {
  inv_covered : covered (mgr x);
  inv_on_time : on_time x;
  inv_attentive : attentive x;
  inv_fired : Forall (λ '(e, t), (when e ≤ t)%Z ∧ e ∈ scheduled x) (fired x);
  inv_scheduled : Forall (.∈ scheduled x) (heap_ (mgr x));
  inv_firing : match thread x with Firing e => e ∈ scheduled x | _ => True end;
  inv_once : ∀ k, claims k x ≤ count_key k (scheduled x)
}.

(** *** The sweeper alone *)

(** What is left to do before the thread waits for the next deadline. *)
Definition work (x : system) : nat :=
  4 * (length (heap_ (mgr x)) + notifying x) +
  match thread x with Loop => 2 | WaitUntil _ => 1 | Woken _ | Firing _ => 3 | _ => 0 end.

(** The key whose callback is about to be run. *)
Definition firing_keys (x : system) : list string := match thread x with Firing e => [key e] | _ => [] end.

(** The keys expired so far, in order, the one being expired among them. *)
Definition expired (x : system) : list string := (key <$> (fired x).*1) ++ firing_keys x.

(** From [x], with nobody interfering, the keys [ks] have expired until [y]. *)
Record swept_to (x : system) (ks : list string) (y : system) : Prop := {
  sw_clock : clock y = clock x;
  sw_stop : stop_ (mgr y) = stop_ (mgr x);
  sw_fired : ∃ es, fired y = fired x ++ es ∧ Forall (λ z, z.2 = clock x) es;
  sw_expired : expired y = expired x ++ ks;
  sw_nodup : NoDup ks;
  sw_due : ∀ k, k ∈ ks → ∃ t, expiryOf k (mgr x) = Some t ∧ (t ≤ clock x)%Z;
  sw_live : ∀ k t, expiryOf k (mgr y) = Some t ↔ expiryOf k (mgr x) = Some t ∧ k ∉ ks
}.

(** ** Lemmas *)

Lemma top_None h : top h = None ↔ h = [].
Proof. destruct h as [|e h]; simpl; [done|]. by repeat case_match. Qed.

Lemma top_is_top h e : top h = Some e → is_top e h.
Proof.
  revert e. induction h as [|x h IH]; simpl; [done|]. intros e He.
  destruct (top h) as [e'|] eqn:E.
  - destruct (IH e' eq_refl) as [Hin Hmin].
    destruct (Z.leb_spec (when x) (when e')); simplify_eq.
    + split; [by left|]. intros y [->|Hy]%elem_of_cons; [lia|]. specialize (Hmin y Hy). lia.
    + split; [by right|]. intros y [->|Hy]%elem_of_cons; [lia|auto].
  - apply top_None in E as ->. simplify_eq. split; [by left|].
    intros y ->%list_elem_of_singleton. lia.
Qed.

Lemma is_top_le e e' h : is_top e h → e' ∈ h → (when e ≤ when e')%Z.
Proof. intros [_ H]. apply H. Qed.

Lemma pop_perm e h : e ∈ h → h ≡ₚ e :: pop e h.
Proof.
  induction h as [|x h IH]; [by intros ?%not_elem_of_nil|]. simpl. intros Hin.
  case_bool_decide; [by subst|]. apply elem_of_cons in Hin as [?|Hin]; [done|].
  rewrite (IH Hin) at 1. apply perm_swap.
Qed.

Lemma pop_length e h : e ∈ h → length h = S (length (pop e h)).
Proof. by intros ->%pop_perm%Permutation_length. Qed.

Lemma pop_elem e x h : e ∈ h → x ∈ h ↔ x = e ∨ x ∈ pop e h.
Proof. intros H%pop_perm. rewrite H at 1. apply elem_of_cons. Qed.

Lemma pop_top_cases e s b s' :
  pop_top e s = (b, s') →
  heap_ s' = pop e (heap_ s) ∧ stop_ s' = stop_ s ∧
  (b = true ∧ currentExpiry_ s !! key e = Some (when e) ∧
   currentExpiry_ s' = delete (key e) (currentExpiry_ s) ∨
   b = false ∧ currentExpiry_ s !! key e ≠ Some (when e) ∧
   currentExpiry_ s' = currentExpiry_ s).
Proof.
  unfold pop_top, isLive. case_bool_decide; intros [= <- <-]; simpl; eauto 10.
Qed.

Lemma covered_schedule k t s : covered s → covered (schedule k t s).
Proof.
  intros Hc k' t'. simpl. rewrite lookup_insert. case_decide; intros ?; simplify_eq; [by left|].
  right. by apply Hc.
Qed.

Lemma covered_cancel k s : covered s → covered (cancel k s).
Proof. intros Hc k' t'. simpl. intros [_ ?]%lookup_delete_Some. by apply Hc. Qed.

(** Popping discards only the popped entry, and the live deadline it carried. *)
Lemma covered_pop_top e s b s' :
  covered s → e ∈ heap_ s → pop_top e s = (b, s') → covered s'.
Proof.
  intros Hc He Hp. apply pop_top_cases in Hp as (Hh & _ & Hcur). intros k t Hk. rewrite Hh.
  destruct Hcur as [(_ & Hl & Hcur)|(_ & Hl & Hcur)]; rewrite Hcur in Hk.
  - apply lookup_delete_Some in Hk as [Hne Hk]. apply Hc in Hk.
    apply (pop_elem e) in Hk as [<-|?]; [|done..]. done.
  - pose proof Hk as Hk'. apply Hc in Hk'. apply (pop_elem e) in Hk' as [<-|?]; [|done..]. done.
Qed.

#[local] Hint Resolve covered_schedule covered_cancel covered_pop_top : tinykv.

Lemma count_key_app k h1 h2 : count_key k (h1 ++ h2) = count_key k h1 + count_key k h2.
Proof. unfold count_key. by rewrite filter_app, length_app. Qed.

Lemma count_key_one k e : count_key k [e] = if bool_decide (key e = k) then 1 else 0.
Proof. unfold count_key. rewrite filter_cons, filter_nil. by case_bool_decide; case_decide. Qed.

Lemma inv_boot t : inv (boot t).
Proof. by split. Qed.

(** The thread's pop step, live or stale. *)
Lemma inv_pop m t sc f n e b m' :
  inv (mkSystem m TimedOut t sc f n) → is_top e (heap_ m) → pop_top e m = (b, m') →
  inv (mkSystem m' (if b then Firing e else Loop) t sc f n).
Proof.
  intros [Hc (e0 & He0 & Ht) _ Hf Hs _ Ho] [He Hmin] Hp. simpl in *.
  pose proof Hp as (Hh & _ & Hcur)%pop_top_cases. split; simpl.
  - by eapply covered_pop_top.
  - destruct b; [|done]. unfold on_time. simpl. specialize (Hmin _ He0). simpl in Ht. lia.
  - by destruct b.
  - done.
  - rewrite Hh. rewrite (pop_perm _ _ He) in Hs. by apply Forall_cons in Hs as [_ ?].
  - destruct b; [|done]. rewrite Forall_forall in Hs. by apply Hs.
  - intros k. specialize (Ho k). unfold claims in *. simpl in *.
    destruct Hcur as [(-> & Hl & ->)|(-> & _ & ->)]; [|done].
    destruct (decide (key e = k)) as [<-|Hk].
    + rewrite lookup_delete_eq, Hl in *. rewrite (bool_decide_true (key e = key e)) by done.
      rewrite bool_decide_true in Ho by eauto. rewrite bool_decide_false by (by intros []). lia.
    + rewrite lookup_delete_ne, (bool_decide_false (key e = k)) by done. lia.
Qed.

Lemma inv_sweeper_step x y : inv x → sweeper_step x y → inv y.
Proof.
  intros Hi Hs. destruct Hs as [| |m t sc f n e Hst He|m t sc f n d Hd|m t sc f n d Hd| | |m t sc f n e m' He Hp|m t sc f n e m' He Hp|m t sc f n e];
    try (by apply (inv_pop _ _ _ _ _ _ _ _ Hi He Hp)); destruct Hi as [Hc Ht Hat Hf Hsc Hfi Ho];
    simpl in *; split; simpl in *; try done.
  - exists e. split; [by destruct He|lia].
  - intros _. by destruct He.
  - destruct Ht as (e & ? & ?). exists e. split; [done|simpl; lia].
  - destruct Ht as (e & ? & ?). exists e. split; [done|simpl; lia].
  - apply Forall_app. split; [done|]. by repeat constructor.
  - intros k. specialize (Ho k). unfold claims in *. simpl in *.
    rewrite fmap_app, count_key_app. simpl. rewrite count_key_one. lia.
Qed.

(** Waking up concerns only the thread. *)
Lemma inv_woken m p t sc f n n' :
  inv (mkSystem m p t sc f n) → inv (mkSystem m (wake p) t sc f n').
Proof. intros [Hc Ht Hat Hf Hsc Hfi Ho]. destruct p as [| |?|[]| | |]; by split. Qed.

Lemma inv_alone x y : inv x → alone x y → inv y.
Proof.
  intros Hi Hs. destruct Hs as [[Hs|Hs]|Hs]; [by eapply inv_sweeper_step|destruct Hs; eapply inv_woken, Hi..].
Qed.

Lemma inv_client_step x y : inv x → client_step x y → inv y.
Proof.
  intros [Hc Ht Hat Hf Hsc Hfi Ho] Hs.
  destruct Hs as [m p t sc f n k d Hu|m p t sc f n k Hu|m p t sc f n Hu|m p t sc f n t' Hle];
    simpl in *; split; simpl in *; eauto with tinykv.
  - unfold on_time in *. destruct p as [| |?|[]| | |]; simpl in *; try done;
      destruct Ht as (e & ? & ?); exists e; (split; [by right|done]).
  - unfold attentive in *. by destruct p.
  - eapply Forall_impl; [exact Hf|]. intros [e t0] [? ?]. split; [done|]. set_solver.
  - constructor; [set_solver|]. eapply Forall_impl; [exact Hsc|]. simpl. set_solver.
  - destruct p; try done. set_solver.
  - intros j. specialize (Ho j). unfold claims in *. simpl in *. rewrite count_key_app, count_key_one. simpl.
    destruct (decide (k = j)) as [<-|Hj].
    + rewrite lookup_insert_eq, (bool_decide_true (is_Some (Some d))), (bool_decide_true (k = k)) by eauto. lia.
    + rewrite lookup_insert_ne, (bool_decide_false (k = j)) by done. lia.
  - intros j. specialize (Ho j). unfold claims in *. simpl in *.
    destruct (decide (k = j)) as [<-|Hj].
    + rewrite lookup_delete_eq, (bool_decide_false (is_Some None)) by (by intros []). lia.
    + rewrite lookup_delete_ne by done. lia.
  - unfold attentive in *. by destruct p.
  - unfold on_time in *. destruct p as [| |?|[]| | |]; simpl in *; try done; try lia;
      destruct Ht as (e & ? & ?); exists e; (split; [done|lia]).
Qed.

Lemma inv_step x y : inv x → step x y → inv y.
Proof. intros ? [?|?]; eauto using inv_alone, inv_client_step. Qed.

Lemma inv_reachable t x : rtc step (boot t) x → inv x.
Proof.
  apply (rtc_ind_r inv (boot t)); [apply inv_boot|]. eauto using inv_step.
Qed.

(** ** The sweeper alone *)

(** Every step that is due brings the end nearer. *)
Lemma forced_work x y : inv x → stop_ (mgr x) = false → forced x y → work y < work x.
Proof.
  intros Hi Hst Hs. unfold work. destruct Hs as [Hs|Hs]; [|destruct Hs as [m p t sc f n]; destruct p; simpl; lia].
  destruct Hs as [| | | | | | |m t sc f n e m' He Hp|m t sc f n e m' He Hp|]; simpl in *; try congruence; try lia.
  - destruct Hi as [_ (e & He & _) _ _ _ _ _]. simpl in He. exfalso. by rewrite H in He; apply not_elem_of_nil in He.
  - apply pop_top_cases in Hp as (-> & _). rewrite (pop_length _ _ (proj1 He)). lia.
  - apply pop_top_cases in Hp as (-> & _). rewrite (pop_length _ _ (proj1 He)). lia.
Qed.

(** As long as something is due, a step is. *)
Lemma forced_or_settled x :
  inv x → stop_ (mgr x) = false →
  (∃ y, forced x y) ∨
  firing_keys x = [] ∧ ∀ k t, expiryOf k (mgr x) = Some t → (clock x < t)%Z.
Proof.
  intros Hi Hst. pose proof (inv_attentive _ Hi) as Hat. pose proof (inv_on_time _ Hi) as Ht.
  destruct x as [m p t sc f n]. unfold attentive, on_time in *. simpl in *.
  destruct n as [|n]; [|left; eexists; right; apply do_notify].
  destruct p as [| |d|o| |e|]; simpl.
  - left. destruct (top (heap_ m)) as [e|] eqn:E.
    + eexists. left. eapply loop_wait; [done|by apply top_is_top].
    + eexists. left. apply loop_empty; [done|by apply top_None].
  - right. split; [done|]. destruct (Hat eq_refl) as [Hh _]. intros k t0 Hk%(inv_covered _ Hi). simpl in Hk.
    rewrite Hh in Hk. by apply not_elem_of_nil in Hk.
  - destruct (Z.leb_spec d t); [left; eexists; left; by apply wake_timeout|]. right. split; [done|].
    destruct (Hat eq_refl) as [Hh _]. intros k t0 Hk%(inv_covered _ Hi). apply Hh in Hk. simpl in Hk. lia.
  - left. eexists. left. apply woken.
  - left. destruct (top (heap_ m)) as [e|] eqn:E; [|eexists; left; apply timeout_empty; by apply top_None].
    apply top_is_top in E. destruct (pop_top e m) as [[] m'] eqn:Ep; eexists; left; [by eapply timeout_live|by eapply timeout_stale].
  - left. eexists. left. apply fire.
  - congruence.
Qed.

Lemma swept_to_refl x : swept_to x [] x.
Proof.
  split; try done; try (by rewrite app_nil_r).
  - exists []. by rewrite app_nil_r.
  - constructor.
  - by intros k ?%not_elem_of_nil.
  - intros k t. split; [|tauto]. intros ?. split; [done|]. apply not_elem_of_nil.
Qed.

(** A step with nobody interfering expires nothing, or one key that is due. *)
Lemma alone_step x y :
  inv x → alone x y → clock y = clock x ∧ stop_ (mgr y) = stop_ (mgr x) ∧
  (∃ es, fired y = fired x ++ es ∧ Forall (λ z, z.2 = clock x) es) ∧
  ((expired y = expired x ∧ currentExpiry_ (mgr y) = currentExpiry_ (mgr x)) ∨
   ∃ k t, expired y = expired x ++ [k] ∧ currentExpiry_ (mgr x) !! k = Some t ∧ (t ≤ clock x)%Z ∧
          currentExpiry_ (mgr y) = delete k (currentExpiry_ (mgr x))).
Proof.
  intros Hi Hs. unfold expired, firing_keys. destruct Hs as [[Hs|Hs]|Hs].
  - destruct Hs as [| | | | | | |m t sc f n e m' He Hp|m t sc f n e m' He Hp|m t sc f n e]; simpl.
    all: try (split; [done|]; split; [done|]; split; [exists []; by rewrite app_nil_r|by left]).
    + apply pop_top_cases in Hp as (_ & Hst & [(? & _)|(_ & _ & Hcur)]); [done|].
      split; [done|]. split; [done|]. split; [exists []; by rewrite app_nil_r|by left].
    + apply pop_top_cases in Hp as (_ & Hst & [(_ & Hl & Hcur)|(? & _)]); [|done].
      split; [done|]. split; [done|]. split; [exists []; by rewrite app_nil_r|]. right. exists (key e), (when e).
      rewrite app_nil_r. split; [done|]. split; [done|]. split; [|done]. pose proof (inv_on_time _ Hi) as (e0 & He0 & Ht0).
      simpl in *. destruct He as [_ Hmin]. specialize (Hmin _ He0). lia.
    + split; [done|]. split; [done|]. split; [exists [(e, t)]; split; [done|by repeat constructor]|].
      left. split; [|done]. rewrite !fmap_app. simpl. by rewrite app_nil_r.
  - destruct Hs as [m p t sc f n]. split; [done|]. split; [done|]. split; [exists []; by rewrite app_nil_r|]. left. by destruct p.
  - destruct Hs as [m p t sc f n Hw]. split; [done|]. split; [done|]. split; [exists []; by rewrite app_nil_r|]. left. by destruct p.
Qed.

Lemma alone_swept x y : inv x → rtc alone x y → inv y ∧ ∃ ks, swept_to x ks y.
Proof.
  intros Hx. revert y. apply (rtc_ind_r (λ y, inv y ∧ ∃ ks, swept_to x ks y)).
  { split; [done|]. exists []. apply swept_to_refl. }
  intros y z _ Hs [Hy [ks [Hc Hst (es & Hf & He) Hex Hnd Hdue Hlive]]].
  split; [by eapply inv_alone|]. destruct (alone_step y z Hy Hs) as (Hc' & Hst' & (es' & Hf' & He') & Hcase).
  assert (∃ es0, fired z = fired x ++ es0 ∧ Forall (λ w, w.2 = clock x) es0) as Hfz.
  { exists (es ++ es'). split; [by rewrite Hf', Hf, app_assoc|]. apply Forall_app. split; [done|]. by rewrite Hc in He'. }
  unfold expiryOf in *. destruct Hcase as [[He1 Hl1]|(k & t & He1 & Hk & Hle & Hl1)].
  - exists ks. split; try done; [congruence|congruence|by rewrite He1|]. unfold expiryOf. by rewrite Hl1.
  - apply Hlive in Hk as [Hk Hnk]. exists (ks ++ [k]). split; try done; [congruence|congruence|by rewrite He1, Hex, app_assoc| | |].
    + apply NoDup_app. split; [done|]. split; [|apply NoDup_singleton]. by intros k' Hk' ->%list_elem_of_singleton.
    + intros k' [Hk'| ->%list_elem_of_singleton]%elem_of_app; [by apply Hdue|]. exists t. rewrite <-Hc. done.
    + intros k' t'. unfold expiryOf. rewrite Hl1, lookup_delete_Some, Hlive. set_solver.
Qed.

(** ** Properties *)

(** C12: In every execution of the sweeper with other threads scheduling and
    cancelling: a key is expired only at or after a deadline some call
    scheduled for it, no live deadline is ever missing from the heap, and a
    key is expired at most once per call of [schedule] for it. *)
Theorem expirations_are_sound (t0 : Z) (x : system) :
  rtc step (boot t0) x →
  Forall (λ '(e, t), (when e ≤ t)%Z ∧ e ∈ scheduled x) (fired x) ∧
  (∀ k t, expiryOf k (mgr x) = Some t → mkEntry t k ∈ heap_ (mgr x)) ∧
  (∀ k, count_key k (fired x).*1 ≤ count_key k (scheduled x)).
Proof.
  intros Hx%inv_reachable. split_and!; [apply Hx|apply Hx|].
  intros k. pose proof (inv_once _ Hx k) as Hk. unfold claims in Hk. lia.
Qed.

Theorem expirations_are_sound_witness :
  let e := mkEntry 5 "k" in
  let m := mkState [] ∅ false in
  rtc step (boot 0) (mkSystem m Loop 7 [e] [(e, 7%Z)] 0) ∧
  Forall (λ '(e', t), (when e' ≤ t)%Z ∧ e' ∈ [e]) [(e, 7%Z)].
Proof.
  intros e m. assert (rtc step (boot 0) (mkSystem m Loop 7 [e] [(e, 7%Z)] 0)) as Hr.
  { eapply rtc_l; [left; left; left; by apply loop_empty|].
    eapply rtc_l; [right; by apply (do_schedule _ _ _ _ _ _ "k" 5)|].
    eapply rtc_l; [right; by apply (tick _ _ _ _ _ _ 7)|].
    eapply rtc_l; [left; left; right; apply do_notify|].
    eapply rtc_l; [left; left; left; apply woken|].
    eapply rtc_l; [left; left; left; apply (loop_wait _ _ _ _ _ e); [reflexivity|by apply top_is_top]|].
    eapply rtc_l; [left; left; left; by apply wake_timeout|].
    eapply rtc_l; [left; left; left; apply (timeout_live _ _ _ _ _ e m); [by apply top_is_top|reflexivity]|].
    eapply rtc_l; [left; left; left; apply fire|]. reflexivity. }
  split; [exact Hr|]. exact (proj1 (expirations_are_sound 0 _ Hr)).
Defined.

(** C13: The sweeper expires what is due, and no notification is lost on the way:
    from every state any interleaving with other threads can reach before
    [stop], if no further call comes in, then as long as a live deadline has
    passed, or a callback is to be run, some step of the thread or a pending
    notification is due; each of those lowers a bound, so that after finitely
    many, whatever spurious wake-ups come in between, nothing is due any more,
    and then each key whose live deadline had passed has been expired once, none
    other, and the later deadlines are as they were. *)
Theorem sweeper_expires_what_is_due (t0 : Z) (x y : system) :
  rtc step (boot t0) x → stop_ (mgr x) = false → rtc alone x y →
  (∀ z, forced y z → work z < work y) ∧
  ((∃ z, forced y z) ∨
   ∃ es ks, fired y = fired x ++ es ∧ Forall (λ z, z.2 = clock x) es ∧ key <$> es.*1 = firing_keys x ++ ks ∧
     NoDup ks ∧ (∀ k, k ∈ ks ↔ ∃ t, expiryOf k (mgr x) = Some t ∧ (t ≤ clock x)%Z) ∧
     (∀ k t, expiryOf k (mgr y) = Some t ↔ expiryOf k (mgr x) = Some t ∧ (clock x < t)%Z)).
Proof.
  intros Hx%inv_reachable Hst Hrun. destruct (alone_swept _ _ Hx Hrun) as [Hy (ks & Hs)].
  rewrite <-(sw_stop _ _ _ Hs) in Hst. split; [intros z; by apply forced_work|].
  destruct (forced_or_settled y Hy Hst) as [Hz|[Hf Hlate]]; [by left|]. right.
  destruct Hs as [Hc _ (es & Hes & Ht) Hex Hnd Hdue Hlive]. rewrite Hc in Hlate.
  assert (∀ k, k ∈ ks ↔ ∃ t, expiryOf k (mgr x) = Some t ∧ (t ≤ clock x)%Z) as Hks.
  { intros k. split; [apply Hdue|]. intros (t & Hk & Hle). destruct (decide (k ∈ ks)) as [|Hn]; [done|].
    assert (expiryOf k (mgr y) = Some t) as H%Hlate by (by apply Hlive). lia. }
  exists es, ks. split_and!; try done.
  - unfold expired in Hex. rewrite Hf, app_nil_r, Hes, !fmap_app, <-app_assoc in Hex. by apply app_inv_head in Hex.
  - intros k t. split; [intros H; pose proof (Hlate _ _ H); apply Hlive in H; tauto|].
    intros [Hk Hlt]. apply Hlive. split; [done|]. intros (t' & Hk' & Hle)%Hdue. rewrite Hk in Hk'. injection Hk' as <-. lia.
Qed.

(** A thread that waits without a deadline, and a key scheduled meanwhile that is
    already due. *)
Theorem sweeper_expires_what_is_due_witness :
  let m := schedule "b" 9 (schedule "a" 3 create) in
  let sc := [mkEntry 3 "a"; mkEntry 9 "b"] in
  let x := mkSystem m WaitEmpty 5 sc [] 2 in
  let y := mkSystem (mkState [mkEntry 9 "b"] {["b" := 9%Z]} false) (WaitUntil 9) 5 sc [(mkEntry 3 "a", 5%Z)] 0 in
  rtc step (boot 5) x ∧ rtc alone x y ∧
  ((∃ z, forced y z) ∨ ∃ es ks, fired y = fired x ++ es ∧ key <$> es.*1 = ks ∧
     (∀ k, k ∈ ks ↔ ∃ t, expiryOf k m = Some t ∧ (t ≤ 5)%Z)).
Proof.
  intros m sc x y. assert (rtc step (boot 5) x) as Hx.
  { eapply rtc_l; [left; left; left; by apply loop_empty|].
    eapply rtc_l; [right; by apply (do_schedule _ _ _ _ _ _ "a" 3)|].
    eapply rtc_l; [right; by apply (do_schedule _ _ _ _ _ _ "b" 9)|]. reflexivity. }
  assert (rtc alone x y) as Hy.
  { eapply rtc_l; [left; right; apply do_notify|]. eapply rtc_l; [left; right; apply do_notify|].
    eapply rtc_l; [left; left; apply woken|].
    eapply rtc_l; [left; left; apply (loop_wait _ _ _ _ _ (mkEntry 3 "a")); [reflexivity|by apply top_is_top]|].
    eapply rtc_l; [left; left; by apply wake_timeout|].
    eapply rtc_l; [left; left; eapply (timeout_live _ _ _ _ _ (mkEntry 3 "a") (mkState [mkEntry 9 "b"] {["b" := 9%Z]} false));
      [by apply top_is_top|vm_compute; reflexivity]|].
    eapply rtc_l; [left; left; apply fire|].
    eapply rtc_l; [left; left; apply (loop_wait _ _ _ _ _ (mkEntry 9 "b")); [reflexivity|by apply top_is_top]|]. reflexivity. }
  split; [exact Hx|]. split; [exact Hy|].
  destruct (sweeper_expires_what_is_due 5 x y Hx eq_refl Hy) as [_ [H|(es & ks & H1 & _ & H2 & _ & H3 & _)]]; [left; exact H|].
  right. exists es, ks. split; [exact H1|]. split; [exact H2|exact H3].
Defined.

End ExpiryManager.
