(* ===== verification/Node.v ===== *)
(** * The objects of one server process

    The records of the classes a [tinykv-server] wires together in
    [src/server_main.cpp]: the store, the expiry manager, the executor's
    counters, the persistence manager with its append-only file writer, the
    replication manager with its registry and link; and the outside world they
    act on, the file system and the bytes written to sockets. *)

From S2P Require Import Prelude Storage Expiry.

(** ** The file system *)

(** Paths to contents, and the paths that cannot be opened for writing. *)
Record FS : Type := mkFS {
  files : gmap string string;
  unwritable : gset string
}.

Definition fs_read (path : string) (f : FS) : option string := files f !! path.

Definition fs_write (path contents : string) (f : FS) : FS :=
  mkFS (<[path := contents]> (files f)) (unwritable f).

Definition fs_contents (path : string) (f : FS) : string := default EmptyString (files f !! path).

(** [open(path, std::ios::app)]: keeps the contents, creates a missing file. *)
Definition fs_open_append (path : string) (f : FS) : option FS :=
  if bool_decide (path ∈ unwritable f) then None else Some (fs_write path (fs_contents path f) f).

(** [open(path, std::ios::trunc)]: empties the file, creating it if missing. *)
Definition fs_open_trunc (path : string) (f : FS) : option FS :=
  if bool_decide (path ∈ unwritable f) then None else Some (fs_write path EmptyString f).

(** ** Persistence *)

(** [AofWriter]: the path, whether [file_] is open, and what the stream has
    buffered and not yet written to the file. *)
Record AofWriter : Type := mkAof {
  path_ : string;
  file_open : bool;
  buffered : string
}.

Record PersistenceConfig : Type := mkPersistenceConfig {
  appendOnly : bool;
  dir : string;
  dbFilename : string;
  appendFilename : string;
  saveIntervalSeconds : Z
}.

(** The defaults of the struct's member initializers. *)
Definition defaultPersistenceConfig : PersistenceConfig :=
  mkPersistenceConfig true "./data" "dump.tkv" "tinykv.aof" 300.

Record PersistenceManager : Type := mkPersistence {
  config_ : PersistenceConfig;
  aofWriter_ : AofWriter
}.

(** ** Replication *)

Inductive ServerRole : Type := PRIMARY | REPLICA.

#[export] Instance ServerRole_eq_dec : EqDecision ServerRole.
Proof. solve_decision. Defined.

Record ReplicaLink : Type := mkLink {
  primaryHost_ : string;
  primaryPort_ : Z
}.

#[export] Instance ReplicaLink_eq_dec : EqDecision ReplicaLink.
Proof. solve_decision. Defined.

(** The manager's members, its registry's descriptors, and the link threads
    that are running. *)
Record ReplicationManager : Type := mkReplication {
  role_ : ServerRole;
  replicaLink_ : option ReplicaLink;
  replicaFds_ : list Z;
  link_threads : list ReplicaLink
}.

(** ** The process *)

(** [wire] holds what was handed to the sockets: each call's descriptor and
    bytes, whether or not the peer was still there to receive them. *)
Record Node : Type := mkNode {
  store_ : KVStore.state;
  expiry_ : ExpiryManager.state;
  totalCommands_ : Z;
  totalHits_ : Z;
  totalMisses_ : Z;
  persistence_ : option PersistenceManager;
  replication_ : option ReplicationManager;
  fs : FS;
  wire : list (Z * string)
}.

Definition set_store (s : KVStore.state) (n : Node) : Node :=
  mkNode s (expiry_ n) (totalCommands_ n) (totalHits_ n) (totalMisses_ n)
    (persistence_ n) (replication_ n) (fs n) (wire n).

Definition set_expiry (e : ExpiryManager.state) (n : Node) : Node :=
  mkNode (store_ n) e (totalCommands_ n) (totalHits_ n) (totalMisses_ n)
    (persistence_ n) (replication_ n) (fs n) (wire n).

Definition set_counters (c h m : Z) (n : Node) : Node :=
  mkNode (store_ n) (expiry_ n) c h m (persistence_ n) (replication_ n) (fs n) (wire n).

Definition set_persistence (p : option PersistenceManager) (n : Node) : Node :=
  mkNode (store_ n) (expiry_ n) (totalCommands_ n) (totalHits_ n) (totalMisses_ n)
    p (replication_ n) (fs n) (wire n).

Definition set_replication (r : option ReplicationManager) (n : Node) : Node :=
  mkNode (store_ n) (expiry_ n) (totalCommands_ n) (totalHits_ n) (totalMisses_ n)
    (persistence_ n) r (fs n) (wire n).

Definition set_fs (f : FS) (n : Node) : Node :=
  mkNode (store_ n) (expiry_ n) (totalCommands_ n) (totalHits_ n) (totalMisses_ n)
    (persistence_ n) (replication_ n) f (wire n).

Definition set_wire (w : list (Z * string)) (n : Node) : Node :=
  mkNode (store_ n) (expiry_ n) (totalCommands_ n) (totalHits_ n) (totalMisses_ n)
    (persistence_ n) (replication_ n) (fs n) w.

(** Calls on the store and on the expiry manager, from the process. *)
Definition on_store {A} (m : M KVStore.state A) : M Node A := zoom store_ set_store m.

Definition on_expiry (f : ExpiryManager.state → ExpiryManager.state) : M Node unit :=
  modify (λ n, set_expiry (f (expiry_ n)) n).

(** [writeRaw] and [writeLine], as calls of the process; how the bytes travel,
    and when the calls fail, is in [Net]. *)
Definition writeRaw (fd : Z) (data : string) : M Node unit :=
  modify (λ n, set_wire (wire n ++ [(fd, data)]) n).

Definition writeLine (fd : Z) (line : string) : M Node unit :=
  writeRaw fd (line +:+ String nl EmptyString).

(** A process with a given store and nothing else attached. *)
Definition bare_node (s : KVStore.state) (f : FS) : Node :=
  mkNode s ExpiryManager.create 0 0 0 None None f [].
