(* ===== verification/Persistence.v ===== *)
(** * Durability: the append-only file and the snapshot

    [src/persistence/aof.cpp], [src/persistence/snapshot.cpp] and the saving
    half of [src/persistence/persistence_manager.cpp]; reading the files back
    goes through the executor and is in [Recovery]. *)

From S2P Require Import Prelude CxxStd Storage Node.

Module Aof.

(** [AofWriter::AofWriter]: opens the file for appending. *)
Definition create (path : string) (f : FS) : AofWriter * FS :=
  match fs_open_append path f with
  | Some f' => (mkAof path true EmptyString, f')
  | None => (mkAof path false EmptyString, f)
  end.

(** [append]: into the stream's buffer. *)
Definition append (line : string) (w : AofWriter) : AofWriter :=
  if file_open w then mkAof (path_ w) true (buffered w +:+ line +:+ String nl EmptyString) else w.

(** A buffer that fills up writes out its first [n] bytes, for some [n] that is
    up to the library. *)
Definition spill (n : nat) (w : AofWriter) (f : FS) : AofWriter * FS :=
  if file_open w
  then (mkAof (path_ w) true (str_drop n (buffered w)),
        fs_write (path_ w) (fs_contents (path_ w) f +:+ str_take n (buffered w)) f)
  else (w, f).

Definition flush (w : AofWriter) (f : FS) : AofWriter * FS :=
  if file_open w
  then (mkAof (path_ w) true EmptyString, fs_write (path_ w) (fs_contents (path_ w) f +:+ buffered w) f)
  else (w, f).

(** [reset]: [close()] writes the buffer out, then the file is reopened
    truncated; a failed reopen leaves the stream closed. *)
Definition reset (w : AofWriter) (f : FS) : AofWriter * FS :=
  let f1 := (flush w f).2 in
  match fs_open_trunc (path_ w) f1 with
  | Some f2 => (mkAof (path_ w) true EmptyString, f2)
  | None => (mkAof (path_ w) false EmptyString, f1)
  end.

End Aof.

Module SnapshotManager.

(** One line of a snapshot. *)
Definition save_entry (k v out : string) : string :=
  out +:+ "SET " +:+ k +:+ " " +:+ v +:+ String nl EmptyString.

(** [save(out, store)]: what it writes to an empty stream. *)
Definition save : M KVStore.state string := KVStore.forEach save_entry EmptyString.

Definition saveToFile (path : string) : M Node bool :=
  n ← get;
  match fs_open_trunc path (fs n) with
  | None => mret false
  | Some f =>
      put (set_fs f n);;
      out ← on_store save;
      modify (λ n, set_fs (fs_write path out (fs n)) n);;
      mret true
  end.

End SnapshotManager.

Module Persistence.

Definition snapshotPath (c : PersistenceConfig) : string := dir c +:+ "/" +:+ dbFilename c.
Definition aofPath (c : PersistenceConfig) : string := dir c +:+ "/" +:+ appendFilename c.

(** The constructor, with [ensureDirAndAofPath] (the directory of a path is not
    part of the file system model). *)
Definition create (c : PersistenceConfig) (f : FS) : PersistenceManager * FS :=
  let '(w, f') := Aof.create (aofPath c) f in (mkPersistence c w, f').

Definition with_aof (p : PersistenceManager) (w : AofWriter) : PersistenceManager :=
  mkPersistence (config_ p) w.

(** [recordWrite(requestLine)]. *)
Definition recordWrite (requestLine : string) (p : PersistenceManager) : M Node unit :=
  if negb (appendOnly (config_ p)) then mret tt
  else modify (set_persistence (Some (with_aof p (Aof.append requestLine (aofWriter_ p))))).

(** [save()]: the result of [saveToFile] is not looked at. *)
Definition save (p : PersistenceManager) : M Node unit :=
  _ ← SnapshotManager.saveToFile (snapshotPath (config_ p));
  modify (λ n, let '(w, f) := Aof.reset (aofWriter_ p) (fs n) in
               set_fs f (set_persistence (Some (with_aof p w)) n)).

(** The flush the timer thread submits every second. *)
Definition flush (p : PersistenceManager) : M Node unit :=
  modify (λ n, let '(w, f) := Aof.flush (aofWriter_ p) (fs n) in
               set_fs f (set_persistence (Some (with_aof p w)) n)).

Definition spill (bytes : nat) (p : PersistenceManager) : M Node unit :=
  modify (λ n, let '(w, f) := Aof.spill bytes (aofWriter_ p) (fs n) in
               set_fs f (set_persistence (Some (with_aof p w)) n)).

(** One second of [timerLoop]: the tasks it submits and the seconds counted
    since the last snapshot. *)
Inductive task : Type := FlushTask | SaveTask.

Definition timer_tick (c : PersistenceConfig) (secondsSinceSnapshot : Z) : option (list task * Z) :=
  n ← chk32 (secondsSinceSnapshot + 1);
  if (0 <? saveIntervalSeconds c)%Z && (saveIntervalSeconds c <=? n)%Z
  then Some ([FlushTask; SaveTask], 0%Z)
  else Some ([FlushTask], n).

Fixpoint timer_ticks (c : PersistenceConfig) (t : nat) (secondsSinceSnapshot : Z)
    : option (list (list task) * Z) :=
  match t with
  | O => Some ([], secondsSinceSnapshot)
  | S t' =>
      '(ts, n) ← timer_tick c secondsSinceSnapshot;
      '(rest, n') ← timer_ticks c t' n;
      Some (ts :: rest, n')
  end.

End Persistence.

(** ** Lemmas *)

Lemma timer_tick_spec c s :
  (0 < saveIntervalSeconds c ≤ int32_max)%Z → (0 ≤ s < saveIntervalSeconds c)%Z →
  Persistence.timer_tick c s =
    Some (if bool_decide ((s + 1) mod saveIntervalSeconds c = 0)%Z
          then [Persistence.FlushTask; Persistence.SaveTask] else [Persistence.FlushTask],
          ((s + 1) mod saveIntervalSeconds c)%Z).
Proof.
  intros Hi Hs. unfold Persistence.timer_tick.
  rewrite (proj2 (chk32_Some (s + 1) (s + 1))) by (unfold int32_min, int32_max in *; lia). simpl.
  rewrite (proj2 (Z.ltb_lt _ _)) by lia. simpl.
  destruct (Z.leb_spec (saveIntervalSeconds c) (s + 1)).
  - assert (s + 1 = saveIntervalSeconds c)%Z as -> by lia. rewrite Z.mod_same by lia. done.
  - rewrite Z.mod_small by lia. rewrite bool_decide_false by lia. done.
Qed.

Lemma timer_ticks_spec c t s :
  (0 < saveIntervalSeconds c ≤ int32_max)%Z → (0 ≤ s < saveIntervalSeconds c)%Z →
  ∃ ts, Persistence.timer_ticks c t s = Some (ts, ((s + Z.of_nat t) mod saveIntervalSeconds c)%Z) ∧
    length ts = t ∧
    ∀ i l, ts !! i = Some l → (Persistence.FlushTask ∈ l) ∧
      (Persistence.SaveTask ∈ l ↔ ((s + Z.of_nat i + 1) mod saveIntervalSeconds c = 0)%Z).
Proof.
  intros Hi. revert s. induction t as [|t IH]; intros s Hs.
  - exists []. simpl. rewrite Z.add_0_r, Z.mod_small by lia. done.
  - cbn [Persistence.timer_ticks]. rewrite timer_tick_spec by done. simpl.
    destruct (IH ((s + 1) mod saveIntervalSeconds c)%Z) as (ts & -> & Hlen & Hts); [by apply Z.mod_pos_bound; lia|].
    simpl. eexists. split; [f_equal; f_equal; rewrite Zplus_mod_idemp_l; f_equal; lia|].
    split; [simpl; by f_equal|]. intros [|i] l Hl; simpl in Hl.
    + simplify_eq. rewrite Z.add_0_r. case_bool_decide; set_solver.
    + destruct (Hts i l Hl) as [Hf Hsv]. split; [done|]. rewrite Hsv.
      replace ((s + 1) mod saveIntervalSeconds c + Z.of_nat i + 1)%Z
        with ((s + 1) mod saveIntervalSeconds c + (Z.of_nat i + 1))%Z by lia.
      rewrite Zplus_mod_idemp_l. replace (s + 1 + (Z.of_nat i + 1))%Z with (s + Z.of_nat (S i) + 1)%Z by lia. done.
Qed.

(** ** Properties *)

(** The timer thread submits a flush every second and a snapshot exactly every
    [save_interval] seconds, for as long as it runs and with no overflow, if
    the interval is positive. *)
Theorem snapshot_every_interval (c : PersistenceConfig) (t : nat) :
  (0 < saveIntervalSeconds c ≤ int32_max)%Z →
  ∃ ts, Persistence.timer_ticks c t 0 = Some (ts, (Z.of_nat t mod saveIntervalSeconds c)%Z) ∧ length ts = t ∧
    ∀ i l, ts !! i = Some l → (Persistence.FlushTask ∈ l) ∧
      (Persistence.SaveTask ∈ l ↔ ((Z.of_nat i + 1) mod saveIntervalSeconds c = 0)%Z).
Proof. intros Hi. apply (timer_ticks_spec c t 0 Hi). lia. Qed.

Theorem snapshot_every_interval_witness :
  ∃ ts, Persistence.timer_ticks defaultPersistenceConfig 301 0 = Some (ts, 1%Z) ∧ length ts = 301.
Proof.
  destruct (snapshot_every_interval defaultPersistenceConfig 301) as (ts & H1 & H2 & _);
    [vm_compute; split; [reflexivity|discriminate]|].
  exists ts. split; [exact H1|exact H2].
Defined.
