(* ===== verification/Replication.v ===== *)
(** * Replication: the registry of replicas, the link to a primary, the role

    [src/replication/replica_registry.cpp], [src/replication/replica_link.cpp]
    and [src/replication/replication_manager.cpp]. *)

From S2P Require Import Prelude Node.

Module ReplicaRegistry.

Definition add (fd : Z) (r : ReplicationManager) : ReplicationManager :=
  mkReplication (role_ r) (replicaLink_ r) (replicaFds_ r ++ [fd]) (link_threads r).

Definition remove (fd : Z) (r : ReplicationManager) : ReplicationManager :=
  mkReplication (role_ r) (replicaLink_ r) (filter (.≠ fd) (replicaFds_ r)) (link_threads r).

Definition size (r : ReplicationManager) : nat := length (replicaFds_ r).

(** [propagate(line)]: one [writeLine] per registered descriptor, whose result
    is ignored. *)
Fixpoint propagate_to (line : string) (fds : list Z) : M Node unit :=
  match fds with
  | [] => mret tt
  | fd :: fds' => writeLine fd line;; propagate_to line fds'
  end.

Definition propagate (line : string) (r : ReplicationManager) : M Node unit :=
  propagate_to line (replicaFds_ r).

End ReplicaRegistry.

Module Replication.

(** [ReplicationManager::ReplicationManager()]. *)
Definition create : ReplicationManager := mkReplication PRIMARY None [] [].

(** [if (replicaLink_) { replicaLink_->stop(); replicaLink_.reset(); }]: the
    link's thread is joined and the link dropped. *)
Definition stop_link (r : ReplicationManager) : ReplicationManager :=
  match replicaLink_ r with
  | Some l => mkReplication (role_ r) None (replicaFds_ r) (filter (.≠ l) (link_threads r))
  | None => r
  end.

(** A new link, its thread started. *)
Definition start_link (host : string) (port : Z) (r : ReplicationManager) : ReplicationManager :=
  let l := mkLink host port in
  mkReplication (role_ r) (Some l) (replicaFds_ r) (link_threads r ++ [l]).

Definition set_role (role : ServerRole) (r : ReplicationManager) : ReplicationManager :=
  mkReplication role (replicaLink_ r) (replicaFds_ r) (link_threads r).

Definition replicaOf (host : string) (port : Z) (r : ReplicationManager) : ReplicationManager :=
  start_link host port (set_role REPLICA (stop_link r)).

Definition replicaOfNoOne (r : ReplicationManager) : ReplicationManager :=
  set_role PRIMARY (stop_link r).

(** A replica has exactly one running link thread, the one of its link; a
    primary has none. *)
Definition wf (r : ReplicationManager) : Prop :=
  link_threads r = option_list (replicaLink_ r) ∧
  (role_ r = REPLICA ↔ is_Some (replicaLink_ r)).

(** ** Lemmas *)

Lemma wf_create : wf create.
Proof. split; [done|]. simpl. split; [done|by intros []]. Qed.

Lemma stop_link_wf r : wf r → link_threads (stop_link r) = [] ∧ replicaLink_ (stop_link r) = None.
Proof.
  intros [Ht _]. unfold stop_link. destruct (replicaLink_ r) as [l|] eqn:E; simpl in *; [|done].
  rewrite Ht, filter_cons_False by naive_solver. done.
Qed.

Lemma replicaOf_wf h p r : wf r → wf (replicaOf h p r).
Proof. intros [Ht _]%stop_link_wf. split; simpl; [by rewrite Ht|]. split; eauto. Qed.

Lemma replicaOfNoOne_wf r : wf r → wf (replicaOfNoOne r).
Proof.
  intros [Ht Hl]%stop_link_wf. split; simpl; [by rewrite Ht, Hl|]. rewrite Hl.
  split; [done|by intros []].
Qed.

(** Propagation appends one copy of the line per replica to the wire. *)
Lemma propagate_to_wire line fds n :
  ReplicaRegistry.propagate_to line fds n =
  Ok tt (set_wire (wire n ++ ((λ fd, (fd, line +:+ String nl EmptyString)) <$> fds)) n).
Proof.
  revert n. induction fds as [|fd fds IH]; intros n; simpl.
  { rewrite app_nil_r. by destruct n. }
  unfold_M. unfold writeLine, writeRaw. unfold_M. rewrite IH. simpl. by rewrite <-app_assoc.
Qed.

End Replication.

(** ** Properties *)

(** What changes a replication manager: the registry, on behalf of replica
    connections, and the two forms of REPLICAOF. *)
Inductive replication_op : Type :=
| RegistryAdd (fd : Z)
| RegistryRemove (fd : Z)
| ReplicaOf (host : string) (port : Z)
| ReplicaOfNoOne.

Definition run_replication_op (r : ReplicationManager) (o : replication_op) : ReplicationManager :=
  match o with
  | RegistryAdd fd => ReplicaRegistry.add fd r
  | RegistryRemove fd => ReplicaRegistry.remove fd r
  | ReplicaOf host port => Replication.replicaOf host port r
  | ReplicaOfNoOne => Replication.replicaOfNoOne r
  end.

(** Role and link agree after any sequence of operations: a replica has exactly
    one running link thread, to the host and port of the last REPLICAOF, and a
    primary has none, however often the server changed sides. *)
Theorem replica_role_has_one_link (ops : list replication_op) (host : string) (port : Z) :
  let r := foldl run_replication_op Replication.create ops in
  Replication.wf r ∧
  link_threads (Replication.replicaOf host port r) = [mkLink host port] ∧
  link_threads (Replication.replicaOfNoOne r) = [] ∧
  replicaFds_ (Replication.replicaOf host port r) = replicaFds_ r.
Proof.
  intros r. assert (Replication.wf r) as Hr.
  { unfold r. induction ops as [|o ops IH] using rev_ind; [apply Replication.wf_create|].
    rewrite foldl_app. simpl. destruct o; simpl.
    - exact IH.
    - exact IH.
    - by apply Replication.replicaOf_wf.
    - by apply Replication.replicaOfNoOne_wf. }
  split; [done|]. pose proof (Replication.stop_link_wf r Hr) as [Ht _].
  split; [simpl; by rewrite Ht|]. split; [done|]. simpl. unfold Replication.stop_link. by destruct (replicaLink_ r).
Qed.
