(* ===== verification/Executor.v ===== *)
(** * The command executor

    [include/tinykv/command_executor.hpp] and [src/command_executor.cpp].
    [execute now cmd] is [CommandExecutor::execute(cmd)] on the whole process;
    [now] is the value [std::chrono::steady_clock::now()] returns when the
    command reads the clock (no command reads it twice). Durations are counted
    in nanoseconds in a 64-bit signed integer, as [steady_clock] does. *)

From S2P Require Import Prelude CxxStd Protocol Storage Expiry Node Persistence Replication.

(** ** Definitions *)

Definition arityError (cmd : Command) : string :=
  Reply.error ("wrong number of arguments for '" +:+ name cmd +:+ "'").

Definition incrementReply (k : string) (delta : Z) : M Node string :=
  catch (z ← on_store (KVStore.incrementBy k delta); mret (Reply.integer z))
        (λ e, match e with
              | InvalidArgument _ => mret (Reply.error "value is not an integer or out of range")
              | _ => throw e
              end).

(** The loop of [equalsIgnoreCase], run on strings of equal size. *)
Fixpoint equal_lower (a b : string) : bool :=
  match a, b with
  | String c a', String d b' => bool_decide (tolower c = tolower d) && equal_lower a' b'
  | _, _ => true
  end.

Definition equalsIgnoreCase (a b : string) : bool :=
  bool_decide (String.length a = String.length b) && equal_lower a b.

Definition parsePositiveSeconds (s : string) : option Z :=
  if negb (str_nonempty s) || negb (str_all isdigit s) then None
  else
    match stoll s with
    | inr value => if (value <=? 0)%Z then None else Some value
    | inl _ => None
    end.

Definition ns_per_second : Z := 1000000000.

(** [steady_clock::now() + std::chrono::seconds(seconds)]. *)
Definition deadline (now seconds : Z) : option Z :=
  ns ← chk64 (seconds * ns_per_second);
  chk64 (now + ns).

(** [duration_cast<seconds>(expiresAt - now).count()]: rounds toward zero. *)
Definition remaining_seconds (now expiresAt : Z) : option Z :=
  ns ← chk64 (expiresAt - now);
  Some (Z.quot ns ns_per_second).

Definition schedule (now : Z) (k : string) (seconds : Z) : M Node unit :=
  t ← defined (deadline now seconds);
  on_expiry (ExpiryManager.schedule k t).

Definition execute (now : Z) (cmd : Command) : M Node string :=
  modify (λ n, set_counters (wrap64 (totalCommands_ n + 1)) (totalHits_ n) (totalMisses_ n) n);;
  match type cmd with
  | SET =>
      match args cmd with
      | [k; v] =>
          on_store (KVStore.set k v);;
          on_expiry (ExpiryManager.cancel k);;
          mret Reply.ok
      | [k; v; ex; secs] =>
          if equalsIgnoreCase ex "EX" then
            match parsePositiveSeconds secs with
            | None => mret (Reply.error "invalid expire time in 'SET' command")
            | Some seconds =>
                on_store (KVStore.set k v);;
                schedule now k seconds;;
                mret Reply.ok
            end
          else mret (arityError cmd)
      | _ => mret (arityError cmd)
      end
  | GET =>
      match args cmd with
      | [k] =>
          v ← on_store (KVStore.get k);
          match v with
          | Some value =>
              modify (λ n, set_counters (totalCommands_ n) (wrap64 (totalHits_ n + 1)) (totalMisses_ n) n);;
              mret (Reply.bulk value)
          | None =>
              modify (λ n, set_counters (totalCommands_ n) (totalHits_ n) (wrap64 (totalMisses_ n + 1)) n);;
              mret Reply.nil
          end
      | _ => mret (arityError cmd)
      end
  | DEL =>
      match args cmd with
      | [k] =>
          existed ← on_store (KVStore.del k);
          on_expiry (ExpiryManager.cancel k);;
          mret (Reply.integer (if existed : bool then 1 else 0))
      | _ => mret (arityError cmd)
      end
  | PING =>
      match args cmd with
      | [] => mret Reply.ok
      | _ => mret (arityError cmd)
      end
  | INCR =>
      match args cmd with
      | [k] => incrementReply k 1
      | _ => mret (arityError cmd)
      end
  | DECR =>
      match args cmd with
      | [k] => incrementReply k (-1)
      | _ => mret (arityError cmd)
      end
  | TTL =>
      match args cmd with
      | [k] =>
          there ← on_store (KVStore.exists_ k);
          if negb there then mret (Reply.integer (-2))
          else
            e ← gets (λ n, ExpiryManager.expiryOf k (expiry_ n));
            match e with
            | None => mret (Reply.integer (-1))
            | Some expiresAt =>
                remaining ← defined (remaining_seconds now expiresAt);
                mret (Reply.integer (if (0 <? remaining)%Z then remaining else 0))
            end
      | _ => mret (arityError cmd)
      end
  | EXPIRE =>
      match args cmd with
      | [k; secs] =>
          there ← on_store (KVStore.exists_ k);
          if negb there then mret (Reply.integer 0)
          else
            match parsePositiveSeconds secs with
            | None => mret (Reply.error "value is not an integer or out of range")
            | Some seconds =>
                schedule now k seconds;;
                mret (Reply.integer 1)
            end
      | _ => mret (arityError cmd)
      end
  | PERSIST =>
      match args cmd with
      | [k] =>
          there ← on_store (KVStore.exists_ k);
          if negb there then mret (Reply.integer 0)
          else
            e ← gets (λ n, ExpiryManager.expiryOf k (expiry_ n));
            on_expiry (ExpiryManager.cancel k);;
            mret (Reply.integer (if bool_decide (is_Some e) then 1 else 0))
      | _ => mret (arityError cmd)
      end
  | SAVE =>
      match args cmd with
      | [] =>
          p ← gets persistence_;
          match p with
          | None => mret (Reply.error "persistence is not enabled")
          | Some p => Persistence.save p;; mret Reply.ok
          end
      | _ => mret (arityError cmd)
      end
  | REPLICAOF =>
      match args cmd with
      | [a0; a1] =>
          r ← gets replication_;
          match r with
          | None => mret (Reply.error "replication is not enabled")
          | Some r =>
              if equalsIgnoreCase a0 "NO" && equalsIgnoreCase a1 "ONE" then
                modify (set_replication (Some (Replication.replicaOfNoOne r)));;
                mret Reply.ok
              else
                match stoi a1 with
                | inl _ => mret (Reply.error "invalid port in 'REPLICAOF' command")
                | inr port =>
                    modify (set_replication (Some (Replication.replicaOf a0 port r)));;
                    mret Reply.ok
                end
          end
      | _ => mret (arityError cmd)
      end
  | SYNC => mret (Reply.error "SYNC is only valid as the first line of a fresh connection")
  | ROUTE => mret (Reply.error "ROUTE is only valid against tinykv-router, not tinykv-server")
  | NODES => mret (Reply.error "NODES is only valid against tinykv-router, not tinykv-server")
  | UNKNOWN => mret (Reply.error ("unknown command '" +:+ name cmd +:+ "'"))
  end.

(** ** The command table, on abstract state *)

(** What a client can observe of the data: the entries in recency order and
    the live deadlines. *)
Record Data : Type := mkData { entries : list Entry; ttl : gmap string Z }.

(** Commands that concern the data only: all but SAVE and REPLICAOF. *)
Definition data_command (t : CommandType) : bool :=
  match t with
  | SAVE | REPLICAOF => false
  | _ => true
  end.

Definition has (k : string) (d : Data) : bool := bool_decide (is_Some (Lru.lookup k (entries d))).

Definition spec_increment (c : nat) (k : string) (delta : Z) (d : Data) : option (string * Data) :=
  match Lru.counter k (entries d) with
  | None => Some (Reply.error "value is not an integer or out of range", d)
  | Some n =>
      z ← chk64 (n + delta);
      Some (Reply.integer z, mkData (Lru.set c k (to_string z) (entries d)) (ttl d))
  end.

(** The reply and the new data, for a store of capacity [c] at time [now];
    [None] where the program's arithmetic overflows. *)
Definition spec_execute (c : nat) (now : Z) (cmd : Command) (d : Data) : option (string * Data) :=
  match type cmd, args cmd with
  | SET, [k; v] => Some (Reply.ok, mkData (Lru.set c k v (entries d)) (delete k (ttl d)))
  | SET, [k; v; ex; secs] =>
      if equalsIgnoreCase ex "EX" then
        match parsePositiveSeconds secs with
        | None => Some (Reply.error "invalid expire time in 'SET' command", d)
        | Some s =>
            t ← deadline now s;
            Some (Reply.ok, mkData (Lru.set c k v (entries d)) (<[k := t]> (ttl d)))
        end
      else Some (arityError cmd, d)
  | GET, [k] =>
      Some (match Lru.lookup k (entries d) with Some v => Reply.bulk v | None => Reply.nil end,
            mkData (Lru.touch k (entries d)) (ttl d))
  | DEL, [k] =>
      Some (Reply.integer (if has k d then 1 else 0),
            mkData (Lru.remove k (entries d)) (delete k (ttl d)))
  | PING, [] => Some (Reply.ok, d)
  | INCR, [k] => spec_increment c k 1 d
  | DECR, [k] => spec_increment c k (-1) d
  | TTL, [k] =>
      if has k d then
        match ttl d !! k with
        | None => Some (Reply.integer (-1), d)
        | Some t => r ← remaining_seconds now t; Some (Reply.integer (Z.max 0 r), d)
        end
      else Some (Reply.integer (-2), d)
  | EXPIRE, [k; secs] =>
      if has k d then
        match parsePositiveSeconds secs with
        | None => Some (Reply.error "value is not an integer or out of range", d)
        | Some s => t ← deadline now s; Some (Reply.integer 1, mkData (entries d) (<[k := t]> (ttl d)))
        end
      else Some (Reply.integer 0, d)
  | PERSIST, [k] =>
      if has k d
      then Some (Reply.integer (if bool_decide (is_Some (ttl d !! k)) then 1 else 0),
                 mkData (entries d) (delete k (ttl d)))
      else Some (Reply.integer 0, d)
  | SYNC, _ => Some (Reply.error "SYNC is only valid as the first line of a fresh connection", d)
  | ROUTE, _ => Some (Reply.error "ROUTE is only valid against tinykv-router, not tinykv-server", d)
  | NODES, _ => Some (Reply.error "NODES is only valid against tinykv-router, not tinykv-server", d)
  | UNKNOWN, _ => Some (Reply.error ("unknown command '" +:+ name cmd +:+ "'"), d)
  | _, _ => Some (arityError cmd, d)
  end.

(** The process [n] holds the data [d] in a store of capacity [c]. *)
Definition holds (R : KVStore.state → nat → list Entry → Prop) (n : Node) (c : nat) (d : Data) : Prop :=
  R (store_ n) c (entries d) ∧
  ExpiryManager.currentExpiry_ (expiry_ n) = ttl d ∧
  ExpiryManager.covered (expiry_ n).

(** A command that changed nothing but the data and the counters. *)
Definition same_environment (n n' : Node) : Prop :=
  persistence_ n' = persistence_ n ∧ replication_ n' = replication_ n ∧
  fs n' = fs n ∧ wire n' = wire n ∧
  totalCommands_ n' = wrap64 (totalCommands_ n + 1).

(** The keys and values of the data are words of the protocol. *)
Definition words_only (d : Data) : Prop :=
  Forall (λ e, is_token e.1 = true ∧ is_token e.2 = true) (entries d).

(** [m] never throws, whatever state it runs from. *)
Definition no_throw {S A} (m : M S A) : Prop := ∀ s e s', m s ≠ Exn e s'.

(** The reply, too, is a single line. *)
Definition one_line (s : string) : bool :=
  str_nonempty s && str_all (λ c, negb (bool_decide (c = nl))) s.

(** ** Lemmas *)

Section executor.
Context (R : KVStore.state → nat → list Entry → Prop) `{!StoreContract R}.

Lemma on_store_Ok {A} (m : M KVStore.state A) n a s :
  m (store_ n) = Ok a s → on_store m n = Ok a (set_store s n).
Proof. apply zoom_Ok. Qed.

(** The count of commands comes first, and only changes the counters. *)
Lemma holds_counters n c d x y z : holds R n c d → holds R (set_counters x y z n) c d.
Proof. done. Qed.

Lemma holds_store n c d s l :
  holds R n c d → R s c l → holds R (set_store s n) c (mkData l (ttl d)).
Proof. intros (_ & ? & ?) ?. done. Qed.

Lemma holds_cancel n c d k :
  holds R n c d →
  holds R (set_expiry (ExpiryManager.cancel k (expiry_ n)) n) c (mkData (entries d) (delete k (ttl d))).
Proof.
  intros (? & <- & ?). split_and!; [done|done|]. by apply ExpiryManager.covered_cancel.
Qed.

Lemma holds_schedule n c d k t :
  holds R n c d →
  holds R (set_expiry (ExpiryManager.schedule k t (expiry_ n)) n) c (mkData (entries d) (<[k := t]> (ttl d))).
Proof.
  intros (? & <- & ?). split_and!; [done|done|]. by apply ExpiryManager.covered_schedule.
Qed.

Lemma exists_holds n c d k :
  holds R n c d → on_store (KVStore.exists_ k) n = Ok (has k d) n.
Proof.
  intros (Hs & _ & _). unfold on_store, zoom. rewrite (store_exists _ _ _ _ Hs).
  by destruct n.
Qed.

Lemma increment_holds n c d k delta :
  holds R n c d →
  match spec_increment c k delta d with
  | Some (r, d') => ∃ s, incrementReply k delta n = Ok r (set_store s n) ∧ holds R (set_store s n) c d'
  | None => incrementReply k delta n = Undef
  end.
Proof.
  intros Hh. pose proof Hh as (Hs & _ & _).
  pose proof (store_increment (store_ n) c (entries d) k delta Hs) as Hi.
  rewrite increment_counter in Hi. unfold spec_increment, incrementReply. unfold_M. unfold on_store. unfold_M.
  destruct (Lru.counter k (entries d)) as [m|].
  - destruct (chk64 (m + delta)) as [z|]; simpl.
    + destruct Hi as (s & -> & Hr). exists s. split; [done|]. by apply holds_store.
    + by rewrite Hi.
  - destruct Hi as [_ ->]. exists (store_ n). by destruct n.
Qed.

(** What remains of [execute] after the count, [m], run from [n], does what
    the table says. *)
Definition realises (c : nat) (n : Node) (m : M Node string) (o : option (string * Data)) : Prop :=
  match o with
  | Some (reply, d') =>
      ∃ n', m n = Ok reply n' ∧ holds R n' c d' ∧
            persistence_ n' = persistence_ n ∧ replication_ n' = replication_ n ∧
            fs n' = fs n ∧ wire n' = wire n ∧ totalCommands_ n' = totalCommands_ n
  | None => m n = Undef
  end.

Lemma realises_ret c n d r : holds R n c d → realises c n (mret r) (Some (r, d)).
Proof. intros. exists n. by split_and!. Qed.

Lemma realises_set c n d k v :
  holds R n c d →
  realises c n (on_store (KVStore.set k v);; on_expiry (ExpiryManager.cancel k);; mret Reply.ok)
    (Some (Reply.ok, mkData (Lru.set c k v (entries d)) (delete k (ttl d)))).
Proof.
  intros Hh. pose proof Hh as (Hs & _ & _). destruct (store_set _ _ _ k v Hs) as (s & Hset & Hr).
  unfold realises. rewrite (bind_Ok _ _ _ _ _ (on_store_Ok _ _ _ _ Hset)).
  eexists. split; [reflexivity|]. split; [|by split_and!].
  exact (holds_cancel _ c _ k (holds_store n c d s _ Hh Hr)).
Qed.

(** Setting a deadline, alone or after a store. *)
Lemma realises_schedule c n d now k secs r :
  holds R n c d →
  realises c n (schedule now k secs;; mret r)
    (t ← deadline now secs; Some (r, mkData (entries d) (<[k := t]> (ttl d)))).
Proof.
  intros Hh. unfold schedule. unfold_M. destruct (deadline now secs) as [t|]; [|done].
  eexists. split; [reflexivity|]. split; [|by split_and!]. by apply holds_schedule.
Qed.

Lemma realises_set_ex c n d now k v secs :
  holds R n c d →
  realises c n (on_store (KVStore.set k v);; schedule now k secs;; mret Reply.ok)
    (t ← deadline now secs; Some (Reply.ok, mkData (Lru.set c k v (entries d)) (<[k := t]> (ttl d)))).
Proof.
  intros Hh. pose proof Hh as (Hs & _ & _). destruct (store_set _ _ _ k v Hs) as (s & Hset & Hr).
  pose proof (realises_schedule c (set_store s n) _ now k secs Reply.ok
    (holds_store n c d s _ Hh Hr)) as Hsch.
  unfold realises in *. rewrite (bind_Ok _ _ _ _ _ (on_store_Ok _ _ _ _ Hset)). exact Hsch.
Qed.

Lemma realises_get c n d k :
  holds R n c d →
  realises c n
    (v ← on_store (KVStore.get k);
     match v with
     | Some value =>
         modify (λ n, set_counters (totalCommands_ n) (wrap64 (totalHits_ n + 1)) (totalMisses_ n) n);;
         mret (Reply.bulk value)
     | None =>
         modify (λ n, set_counters (totalCommands_ n) (totalHits_ n) (wrap64 (totalMisses_ n + 1)) n);;
         mret Reply.nil
     end)
    (Some (match Lru.lookup k (entries d) with Some v => Reply.bulk v | None => Reply.nil end,
           mkData (Lru.touch k (entries d)) (ttl d))).
Proof.
  intros Hh. pose proof Hh as (Hs & _ & _). destruct (store_get _ _ _ k Hs) as (s & Hget & Hr).
  unfold realises. rewrite (bind_Ok _ _ _ _ _ (on_store_Ok _ _ _ _ Hget)).
  pose proof (holds_store n c d s _ Hh Hr).
  destruct (Lru.lookup k (entries d)); (eexists; split; [reflexivity|by split_and!]).
Qed.

Lemma realises_del c n d k :
  holds R n c d →
  realises c n
    (existed ← on_store (KVStore.del k);
     on_expiry (ExpiryManager.cancel k);;
     mret (Reply.integer (if existed : bool then 1 else 0)))
    (Some (Reply.integer (if has k d then 1 else 0),
           mkData (Lru.remove k (entries d)) (delete k (ttl d)))).
Proof.
  intros Hh. pose proof Hh as (Hs & _ & _). destruct (store_del _ _ _ k Hs) as (s & Hdel & Hr).
  unfold realises. rewrite (bind_Ok _ _ _ _ _ (on_store_Ok _ _ _ _ Hdel)).
  eexists. split; [reflexivity|]. split; [|by split_and!].
  exact (holds_cancel _ c _ k (holds_store n c d s _ Hh Hr)).
Qed.

Lemma realises_increment c n d k delta :
  holds R n c d → realises c n (incrementReply k delta) (spec_increment c k delta d).
Proof.
  intros Hh. pose proof (increment_holds n c d k delta Hh) as Hi. unfold realises.
  destruct (spec_increment c k delta d) as [[r d']|]; [|done].
  destruct Hi as (s & Hrun & ?). eexists. split; [exact Hrun|by split_and!].
Qed.

(** A command that first asks whether its key exists. *)
Lemma realises_exists c n d k (m : bool → M Node string) o :
  holds R n c d → realises c n (m (has k d)) o →
  realises c n (b ← on_store (KVStore.exists_ k); m b) o.
Proof.
  intros Hh Hm. unfold realises in *.
  by rewrite (bind_Ok _ _ _ _ _ (exists_holds n c d k Hh)).
Qed.

Lemma realises_expiryOf c n d k (m : option Z → M Node string) o :
  holds R n c d → realises c n (m (ttl d !! k)) o →
  realises c n (e ← gets (λ n, ExpiryManager.expiryOf k (expiry_ n)); m e) o.
Proof. intros (_ & <- & _) Hm. done. Qed.

Lemma realises_remaining c n d now t :
  holds R n c d →
  realises c n
    (remaining ← defined (remaining_seconds now t);
     mret (Reply.integer (if (0 <? remaining)%Z then remaining else 0)))
    (r ← remaining_seconds now t; Some (Reply.integer (Z.max 0 r), d)).
Proof.
  intros Hh. unfold_M. destruct (remaining_seconds now t) as [r|]; [|done]. exists n.
  split; [|by split_and!]. do 2 f_equal. destruct (Z.ltb_spec 0 r); lia.
Qed.

Lemma realises_persist c n d k r :
  holds R n c d →
  realises c n (on_expiry (ExpiryManager.cancel k);; mret r)
    (Some (r, mkData (entries d) (delete k (ttl d)))).
Proof.
  intros Hh. eexists. split; [reflexivity|]. split; [|by split_and!]. by apply holds_cancel.
Qed.

#[local] Hint Resolve realises_ret realises_set realises_set_ex realises_schedule realises_get
  realises_del realises_increment realises_remaining realises_persist : tinykv.

(** Follows the program and the table branch by branch. *)
Ltac solve_realises :=
  repeat first
    [ solve [eauto 2 with tinykv]
    | eapply realises_exists; [eassumption|]; cbv beta
    | eapply realises_expiryOf; [eassumption|]; cbv beta
    | case_match; simplify_eq; cbn [negb] ].

Lemma execute_data n c d now cmd :
  holds R n c d → data_command (type cmd) = true →
  match spec_execute c now cmd d with
  | Some (reply, d') =>
      ∃ n', execute now cmd n = Ok reply n' ∧ holds R n' c d' ∧ same_environment n n'
  | None => execute now cmd n = Undef
  end.
Proof.
  intros Hh Hd.
  set (n1 := set_counters (wrap64 (totalCommands_ n + 1)) (totalHits_ n) (totalMisses_ n) n).
  assert (∃ m, execute now cmd n = m n1 ∧ realises c n1 m (spec_execute c now cmd d)) as (m & -> & Hm).
  { eexists. split; [reflexivity|]. assert (holds R n1 c d) as H1 by done. clearbody n1.
    unfold spec_execute. destruct (type cmd); try discriminate Hd; solve_realises. }
  unfold realises in Hm. destruct (spec_execute c now cmd d) as [[r d']|]; [|done].
  destruct Hm as (n' & ? & ? & ? & ? & ? & ? & Hc). exists n'. by split_and!.
Qed.

End executor.

(** ** Exceptions *)

Lemma no_throw_ret {S A} (a : A) : no_throw (S := S) (mret a).
Proof. by intros s e s'. Qed.

Lemma no_throw_bind {S A B} (m : M S A) (k : A → M S B) :
  no_throw m → (∀ a, no_throw (k a)) → no_throw (m ≫= k).
Proof.
  intros Hm Hk s e s'. unfold mbind, M_bind. pose proof (Hm s) as H.
  destruct (m s) as [a s1|e1 s1|]; [apply Hk|by destruct (H e1 s1)|done].
Qed.

Lemma no_throw_defined {S A} (o : option A) : no_throw (S := S) (defined o).
Proof. intros s e s'. by destruct o. Qed.

Lemma no_throw_get {S} : no_throw (get (S := S)).
Proof. by intros s e s'. Qed.

Lemma no_throw_gets {S A} (f : S → A) : no_throw (gets f).
Proof. by intros s e s'. Qed.

Lemma no_throw_put {S} (s : S) : no_throw (put s).
Proof. by intros s' e s''. Qed.

Lemma no_throw_modify {S} (f : S → S) : no_throw (modify f).
Proof. by intros s e s'. Qed.

Lemma no_throw_zoom {S T A} (g : S → T) (f : T → S → S) (m : M T A) :
  no_throw m → no_throw (zoom g f m).
Proof.
  intros Hm s e s'. unfold zoom. pose proof (Hm (g s)) as H.
  destruct (m (g s)) as [a t|e1 t|]; [done|by destruct (H e1 t)|done].
Qed.

Create HintDb throws.
#[export] Hint Resolve no_throw_ret no_throw_bind no_throw_defined no_throw_get no_throw_gets
  no_throw_put no_throw_modify no_throw_zoom : throws.

(** Decides [no_throw] by the shape of the code. *)
Ltac no_throw :=
  repeat first
    [ solve [eauto 2 with throws]
    | apply no_throw_bind; [|intros ?]
    | apply no_throw_zoom
    | case_match ].

Lemma no_throw_evict fuel : no_throw (KVStore.evict fuel).
Proof. induction fuel as [|fuel IH]; simpl; [by intros s e s'|]. no_throw. Qed.

#[export] Hint Resolve no_throw_evict : throws.

Lemma no_throw_setLocked k v : no_throw (KVStore.setLocked k v).
Proof. unfold KVStore.setLocked. no_throw. Qed.

#[export] Hint Resolve no_throw_setLocked : throws.

Lemma no_throw_save p : no_throw (Persistence.save p).
Proof.
  unfold Persistence.save, SnapshotManager.saveToFile, on_store, SnapshotManager.save, KVStore.forEach.
  no_throw.
Qed.

#[export] Hint Resolve no_throw_save : throws.

(** [incrementBy] throws only what [incrementReply] catches. *)
Lemma incrementBy_throws k d s e s' :
  KVStore.incrementBy k d s = Exn e s' → e = InvalidArgument "value is not an integer".
Proof.
  unfold KVStore.incrementBy. unfold_M. intros H.
  repeat case_match; simplify_eq/=; try done.
  all: match goal with H : KVStore.setLocked ?k ?v ?s = Exn _ _ |- _ => by apply no_throw_setLocked in H end.
Qed.

Lemma no_throw_incrementReply k d : no_throw (incrementReply k d).
Proof.
  intros n e n'. unfold incrementReply, on_store. unfold_M.
  destruct (KVStore.incrementBy k d (store_ n)) as [z s|e1 s|] eqn:E; [done| |done].
  by apply incrementBy_throws in E as ->.
Qed.

#[export] Hint Resolve no_throw_incrementReply : throws.

Lemma execute_no_throw now cmd : no_throw (execute now cmd).
Proof.
  unfold execute, schedule, on_store, on_expiry, KVStore.set, KVStore.get, KVStore.del, KVStore.exists_.
  no_throw.
Qed.

(** ** The table *)

(** Splits a table entry into its branches. *)
Ltac table_cases :=
  unfold spec_execute, spec_increment in *;
  repeat (case_match; simplify_option_eq; try done).

(** A command that is not recorded (an error, or not a write command) changes
    neither the contents nor the deadlines. *)
Lemma spec_unrecorded c now cmd d r d' :
  spec_execute c now cmd d = Some (r, d') →
  isWriteCommand (type cmd) && succeeded r = false →
  Lru.contents (entries d') = Lru.contents (entries d) ∧ ttl d' = ttl d.
Proof.
  intros H Hw. unfold spec_execute, spec_increment in H.
  destruct (type cmd); simpl in Hw; repeat case_match; simplify_option_eq; try done;
    simpl; by rewrite ?contents_touch.
Qed.

Lemma Forall_remove (P : Entry → Prop) k l : Forall P l → Forall P (Lru.remove k l).
Proof.
  rewrite !Forall_forall. intros H x Hx. apply H. by apply list_elem_of_filter in Hx as [_ ?].
Qed.

Lemma lookup_elem k v l : Lru.lookup k l = Some v → (k, v) ∈ l.
Proof. apply elem_of_list_to_map_2. Qed.

Lemma Forall_set (P : Entry → Prop) c k v l :
  P (k, v) → Forall P l → Forall P (Lru.set c k v l).
Proof.
  intros Hp Hl. unfold Lru.set, Lru.trim. repeat case_match.
  - constructor; [done|by apply Forall_remove].
  - by constructor.
  - apply Forall_take. by constructor.
Qed.

Lemma Forall_touch (P : Entry → Prop) k l : Forall P l → Forall P (Lru.touch k l).
Proof.
  intros Hl. unfold Lru.touch. destruct (Lru.lookup k l) as [v|] eqn:E; [|done].
  constructor; [|by apply Forall_remove]. rewrite Forall_forall in Hl. apply Hl.
  by apply lookup_elem.
Qed.

(** Any predicate on entries that the stored words and numbers satisfy is kept
    by every command. *)
Lemma spec_entries (P : Entry → Prop) c now cmd d r d' :
  spec_execute c now cmd d = Some (r, d') →
  (∀ k v rest, type cmd = SET → args cmd = k :: v :: rest → P (k, v)) →
  (∀ k z, type cmd = INCR ∨ type cmd = DECR → args cmd = [k] → in_int64 z = true → P (k, to_string z)) →
  Forall P (entries d) → Forall P (entries d').
Proof.
  intros H Hset Hinc Hd. unfold spec_execute, spec_increment in H.
  destruct (type cmd) eqn:Et; repeat case_match; simplify_option_eq; try done.
  all: repeat match goal with H : chk64 _ = Some _ |- _ => apply chk64_Some in H as [-> ?%in_int64_spec] end.
  all: simpl; eauto using Forall_set, Forall_touch, Forall_remove.
Qed.

Lemma spec_words c now cmd d r d' :
  spec_execute c now cmd d = Some (r, d') →
  Forall (λ t, is_token t = true) (args cmd) → words_only d → words_only d'.
Proof.
  intros H Ha. eapply spec_entries; [done| |].
  - intros k v rest _ Hargs. rewrite Hargs in Ha. by apply Forall_cons in Ha as [? [? _]%Forall_cons].
  - intros k z _ Hargs _. rewrite Hargs in Ha. apply Forall_cons in Ha as [? _]. split; simpl; auto with tinykv.
Qed.

Lemma one_line_integer z : one_line (Reply.integer z) = true.
Proof.
  unfold one_line, Reply.integer. rewrite str_all_app. simpl.
  apply token_no_nl. auto with tinykv.
Qed.

Lemma one_line_bulk v : is_token v = true → one_line (Reply.bulk v) = true.
Proof. intros. unfold one_line, Reply.bulk. rewrite str_all_app. by apply token_no_nl. Qed.

Lemma one_line_quoted a v b :
  str_all (λ c, negb (bool_decide (c = nl))) a = true →
  str_all (λ c, negb (bool_decide (c = nl))) b = true → is_token v = true →
  one_line (Reply.error (a +:+ v +:+ b)) = true.
Proof.
  intros Ha Hb Hv%token_no_nl. unfold one_line, Reply.error.
  rewrite !str_all_app, Ha, Hb, Hv. done.
Qed.

#[export] Hint Resolve one_line_integer one_line_bulk : tinykv.

Lemma spec_one_line c now cmd d r d' :
  spec_execute c now cmd d = Some (r, d') →
  is_token (name cmd) = true → words_only d → one_line r = true.
Proof.
  intros H Hn Hd. unfold spec_execute, spec_increment, arityError in H.
  repeat case_match; simplify_option_eq; auto using one_line_quoted with tinykv; try done.
  apply one_line_bulk. unfold words_only in Hd. rewrite Forall_forall in Hd.
  match goal with H : Lru.lookup _ _ = Some _ |- _ => apply lookup_elem, Hd in H as [_ ?] end.
  done.
Qed.

(** ** The administrative commands *)

(** SAVE and REPLICAOF always answer, and leave the data alone. *)
Lemma execute_admin now cmd n :
  data_command (type cmd) = false →
  ∃ r n', execute now cmd n = Ok r n' ∧ store_ n' = store_ n ∧ expiry_ n' = expiry_ n ∧
          wire n' = wire n.
Proof.
  intros Hd. unfold execute, Persistence.save, SnapshotManager.saveToFile, SnapshotManager.save,
    KVStore.forEach, on_store. destruct (type cmd); try discriminate Hd; unfold_M; simpl.
  all: repeat case_match; simplify_eq/=; eexists _, _; (split; [reflexivity|done]).
Qed.

(** Their replies. *)
Lemma admin_one_line now cmd n r n' :
  data_command (type cmd) = false → is_token (name cmd) = true → execute now cmd n = Ok r n' → one_line r = true.
Proof.
  intros Hd Hn. assert (one_line (arityError cmd) = true) as Ha by (by apply one_line_quoted).
  unfold execute, Persistence.save, SnapshotManager.saveToFile, SnapshotManager.save,
    KVStore.forEach, on_store. destruct (type cmd); try discriminate Hd; unfold_M; simpl.
  all: repeat case_match; intros; simplify_eq/=; done.
Qed.

(** Every command leaves the process holding some data. *)
Lemma execute_holds (R : KVStore.state → nat → list Entry → Prop) `{!StoreContract R} n c d now cmd r n' :
  holds R n c d → execute now cmd n = Ok r n' →
  ∃ d', holds R n' c d' ∧
    (data_command (type cmd) = true ∧ spec_execute c now cmd d = Some (r, d') ∧ same_environment n n' ∨
     data_command (type cmd) = false ∧ d' = d).
Proof.
  intros Hh He. destruct (data_command (type cmd)) eqn:Hd.
  - pose proof (execute_data R n c d now cmd Hh Hd) as Hx.
    destruct (spec_execute c now cmd d) as [[r1 d1]|]; [|congruence].
    destruct Hx as (n1 & E & Hh1 & Henv). rewrite E in He. simplify_eq. eauto 10.
  - destruct (execute_admin now cmd n Hd) as (r1 & n1 & E & Hs & Hex & _). rewrite E in He. simplify_eq.
    exists d. split; [|by right]. unfold holds in *. by rewrite Hs, Hex.
Qed.

(** ** Time *)

Lemma deadline_Some now s t :
  deadline now s = Some t ↔
  t = (now + s * ns_per_second)%Z ∧ (int64_min ≤ s * ns_per_second ≤ int64_max)%Z ∧
  (int64_min ≤ t ≤ int64_max)%Z.
Proof.
  unfold deadline. split.
  - intros H. simplify_option_eq.
    repeat match goal with H : chk64 _ = Some _ |- _ => apply chk64_Some in H as [-> ?] end. done.
  - intros (-> & H1 & H2). rewrite chk64_in by done. simpl. by rewrite chk64_in.
Qed.

Lemma deadline_None now s :
  (int64_max < s * ns_per_second)%Z → deadline now s = None.
Proof. intros. unfold deadline. rewrite (proj2 (chk64_None _)); [done|lia]. Qed.

Lemma remaining_spec now t :
  (0 ≤ now ≤ t)%Z → (t ≤ int64_max)%Z →
  remaining_seconds now t = Some ((t - now) / ns_per_second)%Z.
Proof.
  intros. unfold remaining_seconds. rewrite chk64_in by (unfold int64_min, int64_max in *; lia).
  simpl. rewrite Z.quot_div_nonneg; [done|lia|done].
Qed.

(** ** Properties *)

Section properties.
Import KVStore (represents).

(** A process that has just started holds no data. *)
Lemma bare_holds c f : holds represents (bare_node (KVStore.create c) f) c (mkData [] ∅).
Proof. split_and!; [apply represents_create|done|]. by intros k t. Qed.

(** [execute] never throws, from any state of the process: every failure is a
    reply line. *)
Theorem execute_never_throws (now : Z) (cmd : Command) (n : Node) :
  match execute now cmd n with
  | Exn _ _ => False
  | _ => True
  end.
Proof.
  pose proof (execute_no_throw now cmd n) as H.
  destruct (execute now cmd n) as [r n'|e n'|]; [done|by destruct (H e n')|done].
Qed.

(** What is not written to the append-only file and not sent to the replicas
    changes no data: a command that is not a write command, or whose reply is
    an error, leaves the contents of the store and every deadline as they
    were. *)
Theorem unrecorded_commands_keep_data (n : Node) (c : nat) (d : Data) (now : Z) (cmd : Command)
    (r : string) (n' : Node) :
  holds represents n c d → execute now cmd n = Ok r n' →
  isWriteCommand (type cmd) && succeeded r = false →
  ∃ d', holds represents n' c d' ∧
        Lru.contents (entries d') = Lru.contents (entries d) ∧ ttl d' = ttl d.
Proof.
  intros Hh He Hw. destruct (execute_holds represents _ _ _ _ _ _ _ Hh He) as (d' & Hh' & Hd).
  exists d'. split; [done|]. destruct Hd as [(_ & Hs & _)|[_ ->]]; [|done].
  by eapply spec_unrecorded.
Qed.

Theorem unrecorded_commands_keep_data_witness :
  ∃ n', execute 0 (mkCommand INCR "INCR" []) (bare_node (KVStore.create 0) (mkFS ∅ ∅))
          = Ok "-ERR wrong number of arguments for 'INCR'" n' ∧
        ∃ d', holds represents n' 0 d' ∧ Lru.contents (entries d') = ∅.
Proof.
  eexists. split; [vm_compute; reflexivity|].
  destruct (unrecorded_commands_keep_data (bare_node (KVStore.create 0) (mkFS ∅ ∅)) 0 (mkData [] ∅) 0
    (mkCommand INCR "INCR" []) "-ERR wrong number of arguments for 'INCR'" _ (bare_holds _ _) eq_refl eq_refl)
    as (d' & Hh & Hc & _).
  exists d'. split; [exact Hh|exact Hc].
Defined.

(** C34: Every reply is one non-empty line without line feed, for any command that
    came from the parser, as long as the stored keys and values are words; and
    they still are afterwards (a process starts with none). *)
Theorem replies_are_single_lines (n : Node) (c : nat) (d : Data) (now : Z) (line : string)
    (cmd : Command) (r : string) (n' : Node) :
  holds represents n c d → words_only d → parse line = inr cmd → execute now cmd n = Ok r n' →
  one_line r = true ∧ ∃ d', holds represents n' c d' ∧ words_only d'.
Proof.
  intros Hh Hw Hp He. apply parse_words in Hp as ([Hn Ha]%Forall_cons & _).
  destruct (execute_holds represents _ _ _ _ _ _ _ Hh He) as (d' & Hh' & [(_ & Hs & _)|[Hd ->]]).
  - split; [by eapply spec_one_line|]. exists d'. split; [done|]. by eapply spec_words.
  - split; [by eapply admin_one_line|]. by exists d.
Qed.

Theorem replies_are_single_lines_witness :
  ∃ cmd r n', parse "FLY me" = inr cmd ∧
    execute 0 cmd (bare_node (KVStore.create 0) (mkFS ∅ ∅)) = Ok r n' ∧ one_line r = true.
Proof.
  eexists _, _, _. split; [vm_compute; reflexivity|]. split; [vm_compute; reflexivity|].
  refine (proj1 (replies_are_single_lines (bare_node (KVStore.create 0) (mkFS ∅ ∅)) 0 (mkData [] ∅) 0
    "FLY me" _ _ _ (bare_holds _ _) _ eq_refl eq_refl)). apply Forall_nil_2.
Defined.

(** TTL after SET .. EX: read at any time [t] up to the deadline, it answers the
    whole seconds that remain, between 0 and the seconds asked for. *)
Theorem ttl_after_set_ex (n : Node) (c : nat) (d : Data) (k v ex secs : string) (s t0 t D : Z) :
  holds represents n c d →
  equalsIgnoreCase ex "EX" = true → parsePositiveSeconds secs = Some s →
  deadline t0 s = Some D → (0 ≤ t0 ≤ t)%Z → (t ≤ D)%Z →
  ∃ n1 n2,
    execute t0 (mkCommand SET "SET" [k; v; ex; secs]) n = Ok Reply.ok n1 ∧
    execute t (mkCommand TTL "TTL" [k]) n1 = Ok (Reply.integer ((D - t) / ns_per_second)) n2 ∧
    (0 ≤ (D - t) / ns_per_second ≤ s)%Z.
Proof.
  intros Hh Hex Hs HD Ht0 HtD. pose proof HD as (-> & _ & Hmax)%deadline_Some.
  assert (0 ≤ (t0 + s * ns_per_second - t) / ns_per_second ≤ s)%Z as Hrange.
  { split; [apply Z.div_pos; unfold ns_per_second in *; lia|].
    apply Z.div_le_upper_bound; unfold ns_per_second in *; lia. }
  pose proof (execute_data represents n c d t0 (mkCommand SET "SET" [k; v; ex; secs]) Hh eq_refl) as H1.
  unfold spec_execute in H1. simpl in H1. rewrite Hex, Hs, HD in H1.
  destruct H1 as (n1 & E1 & Hh1 & _).
  pose proof (execute_data represents n1 c _ t (mkCommand TTL "TTL" [k]) Hh1 eq_refl) as H2.
  unfold spec_execute, has in H2. cbn [type args entries ttl] in H2.
  rewrite lookup_set_same, bool_decide_true, lookup_insert_eq in H2 by eauto.
  rewrite remaining_spec in H2 by lia. cbn [mbind option_bind] in H2.
  rewrite Z.max_r in H2 by lia. destruct H2 as (n2 & E2 & _). eauto.
Qed.

Theorem ttl_after_set_ex_witness :
  ∃ n1 n2,
    execute 0 (mkCommand SET "SET" ["k"; "v"; "ex"; "10"]) (bare_node (KVStore.create 0) (mkFS ∅ ∅)) = Ok "+OK" n1 ∧
    execute 2500000000 (mkCommand TTL "TTL" ["k"]) n1 = Ok ":7" n2 ∧ (0 ≤ 7 ≤ 10)%Z.
Proof.
  apply (ttl_after_set_ex (bare_node (KVStore.create 0) (mkFS ∅ ∅)) 0 (mkData [] ∅) "k" "v" "ex" "10" 10 0
    2500000000 10000000000); [apply bare_holds|reflexivity|reflexivity|reflexivity|lia|lia].
Defined.

(** A TTL of more than about 292 years overflows the clock's 64-bit nanosecond
    count, although the argument is accepted: SET .. EX and EXPIRE are then
    undefined. *)
Theorem huge_ttl_is_undefined (n : Node) (c : nat) (d : Data) (k v ex secs : string) (s now : Z) :
  holds represents n c d →
  equalsIgnoreCase ex "EX" = true → parsePositiveSeconds secs = Some s →
  (int64_max < s * ns_per_second)%Z →
  execute now (mkCommand SET "SET" [k; v; ex; secs]) n = Undef ∧
  (has k d = true → execute now (mkCommand EXPIRE "EXPIRE" [k; secs]) n = Undef).
Proof.
  intros Hh Hex Hs Hbig. split.
  - pose proof (execute_data represents n c d now (mkCommand SET "SET" [k; v; ex; secs]) Hh eq_refl) as H1.
    unfold spec_execute in H1. simpl in H1. by rewrite Hex, Hs, deadline_None in H1.
  - intros Hk.
    pose proof (execute_data represents n c d now (mkCommand EXPIRE "EXPIRE" [k; secs]) Hh eq_refl) as H1.
    unfold spec_execute in H1. simpl in H1. by rewrite Hk, Hs, deadline_None in H1.
Qed.

Theorem huge_ttl_is_undefined_witness :
  execute 0 (mkCommand SET "SET" ["k"; "v"; "EX"; "9223372036854775807"])
    (bare_node (KVStore.create 0) (mkFS ∅ ∅)) = Undef.
Proof.
  apply (huge_ttl_is_undefined (bare_node (KVStore.create 0) (mkFS ∅ ∅)) 0 (mkData [] ∅) "k" "v" "EX"
    "9223372036854775807" 9223372036854775807 0 (bare_holds _ _) eq_refl eq_refl). reflexivity.
Defined.

(** Eviction does not cancel the victim's deadline: when storing a new key
    pushes out [j], a later INCR of [j] creates it anew and it inherits the
    deadline [t] of its earlier life. *)
Theorem evicted_key_keeps_deadline (n : Node) (c : nat) (d : Data) (l : list Entry) (j w k v : string) (now t : Z) :
  holds represents n c d → entries d = l ++ [(j, w)] → c = S (length l) →
  k ∉ (entries d).*1 → ttl d !! j = Some t →
  ∃ n1 n2,
    execute now (mkCommand SET "SET" [k; v]) n = Ok Reply.ok n1 ∧
    execute now (mkCommand GET "GET" [j]) n1 = Ok Reply.nil n2 ∧
    ∃ n3, execute now (mkCommand INCR "INCR" [j]) n2 = Ok (Reply.integer 1) n3 ∧
          ExpiryManager.expiryOf j (expiry_ n3) = Some t.
Proof.
  intros Hh He -> Hk Ht. pose proof Hh as (Hs & _ & _).
  assert (k ≠ j) as Hkj. { intros ->. apply Hk. rewrite He, fmap_app. set_solver. }
  pose proof (store_nodup _ _ _ Hs) as Hnd. rewrite He, fmap_app in Hnd.
  apply NoDup_app in Hnd as (_ & Hdis & _).
  assert (Lru.lookup j ((k, v) :: l) = None) as Hj.
  { rewrite lookup_cons, bool_decide_false by done. apply lookup_None. intros Hin.
    apply (Hdis _ Hin). by left. }
  assert (Lru.set (S (length l)) k v (entries d) = (k, v) :: l) as Hset.
  { unfold Lru.set. rewrite (proj2 (lookup_None k _)) by done. unfold Lru.trim.
    rewrite bool_decide_false by done. by rewrite He, firstn_cons, take_app_length. }
  pose proof (execute_data represents n _ d now (mkCommand SET "SET" [k; v]) Hh eq_refl) as H1.
  unfold spec_execute in H1. cbn [type args] in H1. rewrite Hset in H1. destruct H1 as (n1 & E1 & Hh1 & _).
  pose proof (execute_data represents n1 _ _ now (mkCommand GET "GET" [j]) Hh1 eq_refl) as H2.
  unfold spec_execute, Lru.touch in H2. cbn [type args entries ttl] in H2. rewrite Hj in H2.
  destruct H2 as (n2 & E2 & Hh2 & _).
  pose proof (execute_data represents n2 _ _ now (mkCommand INCR "INCR" [j]) Hh2 eq_refl) as H3.
  unfold spec_execute, spec_increment, Lru.counter in H3. cbn [type args entries ttl] in H3. rewrite Hj in H3.
  destruct H3 as (n3 & E3 & (_ & Httl & _) & _). exists n1, n2. split_and!; [done..|].
  exists n3. split; [done|]. unfold ExpiryManager.expiryOf. rewrite Httl. cbn [ttl].
  by rewrite lookup_delete_ne.
Qed.

Theorem evicted_key_keeps_deadline_witness :
  ∃ n, execute 0 (mkCommand SET "SET" ["a"; "1"; "EX"; "9"]) (bare_node (KVStore.create 1) (mkFS ∅ ∅))
         = Ok "+OK" n ∧
  ∃ n1 n2,
    execute 0 (mkCommand SET "SET" ["b"; "2"]) n = Ok "+OK" n1 ∧
    execute 0 (mkCommand GET "GET" ["a"]) n1 = Ok "$-1" n2 ∧
    ∃ n3, execute 0 (mkCommand INCR "INCR" ["a"]) n2 = Ok ":1" n3 ∧
          ExpiryManager.expiryOf "a" (expiry_ n3) = Some 9000000000%Z.
Proof.
  destruct (execute_data represents (bare_node (KVStore.create 1) (mkFS ∅ ∅)) 1 (mkData [] ∅) 0
    (mkCommand SET "SET" ["a"; "1"; "EX"; "9"]) (bare_holds _ _) eq_refl) as (n & E & Hh & _).
  exists n. split; [exact E|].
  apply (evicted_key_keeps_deadline n 1 _ [] "a" "1" "b" "2" 0 9000000000 Hh); [reflexivity|reflexivity| |reflexivity].
  vm_compute. set_solver.
Defined.

End properties.
