(* ===== verification/Table.v ===== *)
(** * The command table of docs/PROTOCOL.md

    What [CommandExecutor::execute] promises, written from the table of the
    protocol document and in its own terms: how numbers and options are read,
    the bounds of the arithmetic and the reply lines are spelled out here and
    share nothing with the definitions of [Executor]. The theorem says that
    [execute] is this table. *)

From S2P Require Import Prelude CxxStd Protocol Storage Expiry Node Persistence Replication Executor.

(** ** Definitions *)

(** *** Numbers as the document means them *)

Fixpoint read_digits (acc : Z) (s : string) : option Z :=
  match s with
  | EmptyString => Some acc
  | String c s' => if isdigit c then read_digits (10 * acc + (Z.of_N (code c) - 48)) s' else None
  end.

Definition natural (s : string) : option Z :=
  match s with
  | EmptyString => None
  | _ => read_digits 0 s
  end.

(** A sign, or none, and digits, and nothing else. *)
Definition integer (s : string) : option Z :=
  match s with
  | String "-" s' => Z.opp <$> natural s'
  | String "+" s' => natural s'
  | _ => natural s
  end.

(** The range of the program's integers. *)
Definition in_range (z : Z) : bool := (-9223372036854775808 <=? z)%Z && (z <=? 9223372036854775807)%Z.

(** The value of a counter: an integer, as the document has it, and the number
    the value begins with, as [std::stoll] has it. *)
Definition whole_integer (v : string) : option Z := n ← integer v; if in_range n then Some n else None.

Definition leading_integer (v : string) : option Z :=
  match stoll v with
  | inr n => Some n
  | inl _ => None
  end.

(** [seconds (positive integer)]. *)
Definition positive_seconds (s : string) : option Z :=
  n ← natural s; if (1 <=? n)%Z && in_range n then Some n else None.

Definition says_EX (s : string) : bool := bool_decide (s ∈ ["EX"; "Ex"; "eX"; "ex"]).

(** *** Times, in nanoseconds *)

Definition seconds_from (now s : Z) : option Z :=
  if in_range (s * 1000000000) && in_range (now + s * 1000000000) then Some (now + s * 1000000000)%Z else None.

Definition seconds_left (now t : Z) : option Z :=
  if in_range (t - now) then Some (if (t <=? now)%Z then 0 else (t - now) / 1000000000)%Z else None.

(** *** The table *)

Definition usage (cmd : Command) : string := "-ERR wrong number of arguments for '" +:+ name cmd +:+ "'".

Definition add (reading : string → option Z) (c : nat) (k : string) (delta : Z) (d : Data) : option (string * Data) :=
  match (match Lru.lookup k (entries d) with Some v => reading v | None => Some 0%Z end) with
  | None => Some ("-ERR value is not an integer or out of range", d)
  | Some n =>
      if in_range (n + delta)
      then Some (":" +:+ to_string (n + delta), mkData (Lru.set c k (to_string (n + delta)) (entries d)) (ttl d))
      else None
  end.

(** The reply and the new data, for a store of capacity [c] at time [now], with
    counters read by [reading]; [None] where a sum or a product leaves the range
    of the program's integers. *)
Definition command_table (reading : string → option Z) (c : nat) (now : Z) (cmd : Command) (d : Data)
    : option (string * Data) :=
  let value k := Lru.lookup k (entries d) in
  match type cmd, args cmd with
  | SET, [k; v] => Some ("+OK", mkData (Lru.set c k v (entries d)) (delete k (ttl d)))
  | SET, [k; v; ex; secs] =>
      if negb (says_EX ex) then Some (usage cmd, d)
      else
        match positive_seconds secs with
        | None => Some ("-ERR invalid expire time in 'SET' command", d)
        | Some s => t ← seconds_from now s; Some ("+OK", mkData (Lru.set c k v (entries d)) (<[k := t]> (ttl d)))
        end
  | GET, [k] =>
      match value k with
      | Some v => Some ("+" +:+ v, mkData (Lru.touch k (entries d)) (ttl d))
      | None => Some ("$-1", d)
      end
  | DEL, [k] =>
      Some (match value k with Some _ => ":1" | None => ":0" end, mkData (Lru.remove k (entries d)) (delete k (ttl d)))
  | PING, [] => Some ("+OK", d)
  | INCR, [k] => add reading c k 1 d
  | DECR, [k] => add reading c k (-1) d
  | TTL, [k] =>
      match value k, ttl d !! k with
      | None, _ => Some (":-2", d)
      | Some _, None => Some (":-1", d)
      | Some _, Some t => s ← seconds_left now t; Some (":" +:+ to_string s, d)
      end
  | EXPIRE, [k; secs] =>
      match value k, positive_seconds secs with
      | None, _ => Some (":0", d)
      | Some _, None => Some ("-ERR value is not an integer or out of range", d)
      | Some _, Some s => t ← seconds_from now s; Some (":1", mkData (entries d) (<[k := t]> (ttl d)))
      end
  | PERSIST, [k] =>
      match value k, ttl d !! k with
      | Some _, Some _ => Some (":1", mkData (entries d) (delete k (ttl d)))
      | _, _ => Some (":0", d)
      end
  | SYNC, _ => Some ("-ERR SYNC is only valid as the first line of a fresh connection", d)
  | ROUTE, _ => Some ("-ERR ROUTE is only valid against tinykv-router, not tinykv-server", d)
  | NODES, _ => Some ("-ERR NODES is only valid against tinykv-router, not tinykv-server", d)
  | UNKNOWN, _ => Some ("-ERR unknown command '" +:+ name cmd +:+ "'", d)
  | _, _ => Some (usage cmd, d)
  end.

(** The counter the command is about, if any, holds an integer or something that
    does not begin like one. *)
Definition proper_counter (cmd : Command) (d : Data) : Prop :=
  ∀ k v, type cmd = INCR ∨ type cmd = DECR → args cmd = [k] → Lru.lookup k (entries d) = Some v →
    integer v = None → strtoll v = None.

(** ** Lemmas *)

Lemma fits_in_int64 z : in_range z = in_int64 z.
Proof. done. Qed.

Lemma read_digits_spec acc s :
  read_digits acc s = if str_all isdigit s then Some (digits_value acc s) else None.
Proof.
  revert acc. induction s as [|c s IH]; intros acc; [done|]. simpl. destruct (isdigit c); [|done].
  rewrite IH. simpl. by rewrite Z.mul_comm.
Qed.

Lemma natural_spec s :
  natural s = if str_nonempty s && str_all isdigit s then Some (digits_value 0 s) else None.
Proof. destruct s; [done|]. apply read_digits_spec. Qed.

Lemma digit_no_sign (A : Type) c (a b e : A) : isdigit c = true → match c with "-" => a | "+" => b | _ => e end%char = e.
Proof. intros. by repeat case_match. Qed.

Lemma strtoll_natural s z : natural s = Some z → strtoll s = Some z.
Proof.
  rewrite natural_spec. destruct (str_nonempty s && str_all isdigit s) eqn:E; [|done]. destruct_bools. intros [= <-].
  unfold strtoll. rewrite digits_span by done. destruct s as [|c s]; [done|].
  match goal with H : str_all isdigit _ = true |- _ => pose proof H as Hd; simpl in Hd end. destruct_bools.
  rewrite digit_no_sign by done. by rewrite str_span_all.
Qed.

Lemma strtoll_integer s z : integer s = Some z → strtoll s = Some z.
Proof.
  unfold integer. destruct s as [|c s]; [done|].
  assert (∀ ds, str_nonempty ds && str_all isdigit ds = true → (str_span isdigit ds).1 = ds ∧ str_nonempty ds = true) as Hsp.
  { intros ds H. destruct_bools. by rewrite str_span_all. }
  destruct (decide (c = "-"%char)) as [->|]; [|destruct (decide (c = "+"%char)) as [->|]].
  - rewrite natural_spec. destruct (_ && _) eqn:E; [|done]. intros [= <-]. apply Hsp in E as [E1 E2].
    unfold strtoll. cbn [str_span isspace Ascii.is_space snd]. by rewrite E1, E2.
  - rewrite natural_spec. destruct (_ && _) eqn:E; [|done]. intros [= <-]. apply Hsp in E as [E1 E2].
    unfold strtoll. cbn [str_span isspace Ascii.is_space snd]. by rewrite E1, E2.
  - assert (∀ (A : Type) (a b e : A), match c with "-" => a | "+" => b | _ => e end%char = e) as ->.
    { intros. repeat case_match; done. }
    apply strtoll_natural.
Qed.

Lemma positive_seconds_spec s : positive_seconds s = parsePositiveSeconds s.
Proof.
  unfold positive_seconds, parsePositiveSeconds, stoll.
  destruct (natural s) as [n|] eqn:En; pose proof En as En'; rewrite natural_spec in En'.
  - destruct (str_nonempty s) eqn:Hne, (str_all isdigit s) eqn:Hd; try done. cbn [negb orb].
    rewrite (strtoll_natural _ _ En). simpl. rewrite fits_in_int64, andb_comm. destruct (in_int64 n); [|done]. simpl.
    destruct (Z.leb_spec 1 n), (Z.leb_spec n 0); done || lia.
  - by destruct (str_nonempty s), (str_all isdigit s).
Qed.

Lemma lower_e c : bool_decide (tolower c = tolower "E") = bool_decide (c = "E"%char) || bool_decide (c = "e"%char).
Proof.
  pose proof (ascii_forall (λ c, eqb (bool_decide (tolower c = tolower "E")) (bool_decide (c = "E"%char) || bool_decide (c = "e"%char)))) as H.
  specialize (H (ltac:(vm_compute; reflexivity)) c). by apply eqb_prop in H.
Qed.

Lemma lower_x c : bool_decide (tolower c = tolower "X") = bool_decide (c = "X"%char) || bool_decide (c = "x"%char).
Proof.
  pose proof (ascii_forall (λ c, eqb (bool_decide (tolower c = tolower "X")) (bool_decide (c = "X"%char) || bool_decide (c = "x"%char)))) as H.
  specialize (H (ltac:(vm_compute; reflexivity)) c). by apply eqb_prop in H.
Qed.

Lemma says_EX_spec s : says_EX s = equalsIgnoreCase s "EX".
Proof.
  unfold equalsIgnoreCase. destruct (decide (String.length s = 2)) as [Hl|Hl]; cycle 1.
  { rewrite (bool_decide_false (String.length s = _)) by done. apply bool_decide_false. intros H. apply Hl.
    set_unfold in H. naive_solver. }
  destruct s as [|c [|c' [|c'' s]]]; try discriminate Hl.
  cbn [equal_lower String.length]. rewrite lower_e, lower_x, andb_true_r. rewrite (bool_decide_true (2 = 2)) by done. cbn [andb].
  unfold says_EX. destruct (bool_decide (c = "E"%char) || _) eqn:E1, (bool_decide (c' = "X"%char) || _) eqn:E2; simpl.
  all: try (apply bool_decide_false; intros H; set_unfold in H; naive_solver).
  apply bool_decide_true. apply orb_true_iff in E1, E2. set_unfold. destruct E1, E2; destruct_bools; naive_solver.
Qed.

Lemma seconds_from_spec now s : seconds_from now s = deadline now s.
Proof.
  unfold seconds_from, deadline, chk64, ns_per_second. rewrite !fits_in_int64.
  destruct (in_int64 (s * 1000000000)); [|done]. unfold mbind, option_bind. cbn [andb]. reflexivity.
Qed.

Lemma seconds_left_spec now t : seconds_left now t = (r ← remaining_seconds now t; Some (Z.max 0 r)).
Proof.
  unfold seconds_left, remaining_seconds, chk64, ns_per_second. rewrite fits_in_int64. destruct (in_int64 (t - now)); [|done].
  simpl. f_equal. destruct (Z.leb_spec t now) as [H|H].
  - assert (Z.quot (t - now) 1000000000 ≤ 0)%Z; [|lia]. replace (t - now)%Z with (- (now - t))%Z by lia.
    rewrite Z.quot_opp_l by done. assert (0 ≤ Z.quot (now - t) 1000000000)%Z; [|lia]. by apply Z.quot_pos; lia.
  - rewrite Z.quot_div_nonneg by lia. assert (0 ≤ (t - now) / 1000000000)%Z; [|lia]. apply Z.div_pos; lia.
Qed.

Lemma add_spec c k delta d : add leading_integer c k delta d = spec_increment c k delta d.
Proof.
  unfold add, spec_increment, Lru.counter, leading_integer, chk64. 
  destruct (Lru.lookup k (entries d)) as [v|]; [destruct (stoll v)|]; try done; rewrite fits_in_int64; by destruct (in_int64 _).
Qed.

(** The table with the program's reading of counters is what [execute] has been
    proved to do. *)
Lemma command_table_spec c now cmd d : command_table leading_integer c now cmd d = spec_execute c now cmd d.
Proof.
  unfold command_table, spec_execute, has.
  destruct (type cmd); try reflexivity; destruct (args cmd) as [|k [|a [|b [|e [|? ?]]]]]; try reflexivity.
  all: rewrite ?add_spec, ?says_EX_spec, ?positive_seconds_spec; try reflexivity.
  all: destruct d as [l m]; cbn [entries ttl].
  { destruct (equalsIgnoreCase b "EX"); [|done]. destruct (parsePositiveSeconds e); [|done]. simpl. by rewrite seconds_from_spec. }
  all: unfold Lru.touch; destruct (Lru.lookup k l) as [v|] eqn:Hv; rewrite ?(bool_decide_true (is_Some (Some _))) by eauto;
    rewrite ?(bool_decide_false (is_Some None)) by (by intros []); try reflexivity.
  - destruct (m !! k) as [t|]; [|done]. rewrite seconds_left_spec. by destruct (remaining_seconds now t).
  - destruct (parsePositiveSeconds a); [|done]. by rewrite seconds_from_spec.
  - destruct (m !! k) eqn:E; [reflexivity|]. by rewrite delete_id.
Qed.

(** On a proper counter both readings are the same. *)
Lemma readings_agree v : (integer v = None → strtoll v = None) → whole_integer v = leading_integer v.
Proof.
  intros Hv. unfold whole_integer, leading_integer, stoll. destruct (integer v) as [z|] eqn:E.
  - rewrite (strtoll_integer _ _ E). simpl. rewrite fits_in_int64. by destruct (in_int64 z).
  - by rewrite Hv.
Qed.

Lemma proper_table c now cmd d :
  proper_counter cmd d → command_table whole_integer c now cmd d = command_table leading_integer c now cmd d.
Proof.
  intros H. unfold command_table. destruct (type cmd) eqn:Ht; try reflexivity;
    destruct (args cmd) as [|k [|? ?]] eqn:Ha; try reflexivity; unfold add;
    destruct (Lru.lookup k (entries d)) as [v|] eqn:Hv; try reflexivity; rewrite readings_agree; try done;
    apply (H k); auto.
Qed.

(** ** Properties *)

(** C3: [execute] implements the command table of docs/PROTOCOL.md, written out
    independently of the code: on a process that holds the data [d], every
    command other than SAVE and REPLICAOF gives the reply and the new data of
    the table (argument-count and unknown-command errors included), counts one
    command, and touches nothing else; it is undefined exactly where the
    arithmetic of the table leaves 64 bits. A counter is read as [std::stoll]
    does; if the value is an integer or does not begin like one, that is what
    the document asks for (a value such as 12abc it would refuse, and the code
    increments). *)
Theorem execute_refines_table (n : Node) (c : nat) (d : Data) (now : Z) (cmd : Command) :
  holds KVStore.represents n c d → data_command (type cmd) = true →
  match command_table leading_integer c now cmd d with
  | Some (reply, d') =>
      ∃ n', execute now cmd n = Ok reply n' ∧ holds KVStore.represents n' c d' ∧ same_environment n n'
  | None => execute now cmd n = Undef
  end ∧
  (proper_counter cmd d → command_table leading_integer c now cmd d = command_table whole_integer c now cmd d).
Proof.
  intros Hh Hc. split; [|intros; by rewrite proper_table]. rewrite command_table_spec.
  by apply (execute_data KVStore.represents).
Qed.

Theorem execute_refines_table_witness :
  ∃ n', execute 0 (mkCommand GET "GET" ["missing"]) (bare_node (KVStore.create 2) (mkFS ∅ ∅))
        = Ok "$-1" n' ∧ holds KVStore.represents n' 2 (mkData [] ∅).
Proof.
  destruct (execute_refines_table (bare_node (KVStore.create 2) (mkFS ∅ ∅)) 2 (mkData [] ∅) 0
    (mkCommand GET "GET" ["missing"]) (bare_holds _ _) eq_refl) as [(n' & He & Hh & _) _].
  exists n'. split; [exact He|exact Hh].
Defined.

(** The document and the code on a value that only begins like a number. *)
Theorem counter_with_suffix :
  let d := mkData [("k", "12abc")] ∅ in
  command_table whole_integer 0 0 (mkCommand INCR "INCR" ["k"]) d =
    Some ("-ERR value is not an integer or out of range", d) ∧
  command_table leading_integer 0 0 (mkCommand INCR "INCR" ["k"]) d = Some (":13", mkData [("k", "13")] ∅).
Proof. split; reflexivity. Qed.
