(* ===== verification/Recovery.v ===== *)
(** * Recovery: replaying the snapshot and the append-only file

    [src/persistence/replay.cpp], the loading halves of
    [src/persistence/snapshot.cpp] and [src/persistence/aof.cpp], and
    [PersistenceManager::recover]. Each replayed command reads the clock anew:
    [clock i] is what it reads for the [i]-th line of a file. *)

From S2P Require Import Prelude CxxStd Protocol Storage Expiry Node Persistence Replication Executor.

(** ** Definitions *)

(** One turn of the loop of [replayLines]. *)
Definition replayLine (now : Z) (line : string) : M Node unit :=
  if negb (str_nonempty line) then mret tt
  else
    match parse line with
    | inr cmd => _ ← execute now cmd; mret tt
    | inl _ => mret tt
    end.

Fixpoint replay_loop (clock : nat → Z) (i : nat) (lines : list string) : M Node unit :=
  match lines with
  | [] => mret tt
  | line :: lines' => replayLine (clock i) line;; replay_loop clock (S i) lines'
  end.

Definition replayLines (clock : nat → Z) (contents : string) : M Node unit :=
  replay_loop clock 0 (lines_of nl contents).

(** [SnapshotManager::load]. *)
Definition load (clock : nat → Z) (contents : string) : M Node unit := replayLines clock contents.

(** [SnapshotManager::loadFromFile]. *)
Definition loadFromFile (clock : nat → Z) (path : string) : M Node bool :=
  file ← gets (λ n, fs_read path (fs n));
  match file with
  | None => mret false
  | Some contents => load clock contents;; mret true
  end.

(** [AofLoader::replay]. *)
Definition replayAof (clock : nat → Z) (path : string) : M Node bool :=
  file ← gets (λ n, fs_read path (fs n));
  match file with
  | None => mret false
  | Some contents => replayLines clock contents;; mret true
  end.

(** [PersistenceManager::recover]; the clock is read again for the second
    file. *)
Definition recover (clock clock' : nat → Z) (p : PersistenceManager) : M Node unit :=
  _ ← loadFromFile clock (Persistence.snapshotPath (config_ p));
  if appendOnly (config_ p)
  then _ ← replayAof clock' (Persistence.aofPath (config_ p)); mret tt
  else mret tt.

(** ** What a log does to the contents *)

(** The effect of a command on the contents of an unbounded store; [None] when
    an increment overflows. *)
Definition add_to (k : string) (delta : Z) (m : gmap string string) : option (gmap string string) :=
  match (match m !! k with
         | None => Some 0%Z
         | Some v => match stoll v with inr n => Some n | inl _ => None end
         end) with
  | None => Some m
  | Some n => z ← chk64 (n + delta); Some (<[k := to_string z]> m)
  end.

Definition cmd_step (cmd : Command) (m : gmap string string) : option (gmap string string) :=
  match type cmd, args cmd with
  | SET, [k; v] => Some (<[k := v]> m)
  | SET, [k; v; ex; secs] =>
      if equalsIgnoreCase ex "EX" && bool_decide (is_Some (parsePositiveSeconds secs))
      then Some (<[k := v]> m) else Some m
  | DEL, [k] => Some (delete k m)
  | INCR, [k] => add_to k 1 m
  | DECR, [k] => add_to k (-1) m
  | _, _ => Some m
  end.

Definition line_step (line : string) (m : gmap string string) : option (gmap string string) :=
  if negb (str_nonempty line) then Some m
  else
    match parse line with
    | inr cmd => cmd_step cmd m
    | inl _ => Some m
    end.

Fixpoint log_run (lines : list string) (m : gmap string string) : option (gmap string string) :=
  match lines with
  | [] => Some m
  | line :: lines' => line_step line m ≫= log_run lines'
  end.

(** The bytes of a log: its lines, each terminated. *)
Definition log_text (lines : list string) : string :=
  str_concat ((λ line, line +:+ String nl EmptyString) <$> lines).

(** A line without line feed, as the line reader delivers them. *)
Definition no_nl (line : string) : bool := str_all (λ c, negb (bool_decide (c = nl))) line.

(** TTL arguments below this many seconds (about 126 years) cannot overflow the
    clock, for the first 146 years of the clock. *)
Definition sane_seconds : Z := 4000000000.
Definition sane_time (t : Z) : Prop := (0 ≤ t ≤ 2 ^ 62)%Z.

Definition sane_ttl (secs : string) : bool :=
  match parsePositiveSeconds secs with
  | Some z => (z <=? sane_seconds)%Z
  | None => true
  end.

Definition sane_args (cmd : Command) : bool :=
  match type cmd, args cmd with
  | SET, [_; _; _; secs] | EXPIRE, [_; secs] => sane_ttl secs
  | _, _ => true
  end.

(** A line that a server may have logged: a write command with sane
    arguments. *)
Definition loggable (line : string) : bool :=
  no_nl line &&
  match parse line with
  | inr cmd => isWriteCommand (type cmd) && sane_args cmd
  | inl _ => false
  end.

(** The line a snapshot holds for an entry, without its terminator. *)
Definition snapshot_line (e : Entry) : string := print_words ["SET"; e.1; e.2].

(** That line is short enough for the parser. *)
Definition fits (e : Entry) : bool :=
  (Z.of_nat (String.length (snapshot_line e)) <=? kMaxLineLength)%Z.

(** An entry whose snapshot line reads back. *)
Definition savable (e : Entry) : bool := is_token e.1 && is_token e.2 && fits e.

(** Requests of at most this many bytes only store entries that a snapshot can
    hold: a counter adds up to 20 digits to its key. *)
Definition safe_length : Z := 8172.

(** *** Keys that expire

    Expirations are not logged, so what a log says of a key that expired is out
    of date. [volatile] picks the keys that may expire. *)

(** The line does not count on a volatile key. *)
Definition respects (volatile : string → bool) (line : string) : bool :=
  match parse line with
  | inl _ => true
  | inr cmd =>
      match type cmd, args cmd with
      | INCR, [k] | DECR, [k] => negb (volatile k)
      | _, _ => true
      end
  end.

(** The same contents but for volatile keys. *)
Definition outside (volatile : string → bool) (m m' : gmap string string) : Prop :=
  ∀ k, volatile k = false → m !! k = m' !! k.

(** No key at all is volatile. *)
Definition never (k : string) : bool := false.

Definition savable_map (m : gmap string string) : Prop := map_Forall (λ k v, savable (k, v) = true) m.

(** What a process is attached to. *)
Definition attached (n : Node) : option PersistenceManager * option ReplicationManager * FS * list (Z * string) :=
  (persistence_ n, replication_ n, fs n, wire n).

(** ** Lemmas *)

Lemma log_run_app l1 l2 m : log_run (l1 ++ l2) m = log_run l1 m ≫= log_run l2.
Proof.
  revert m. induction l1 as [|x l1 IH]; intros m; simpl; [done|].
  destruct (line_step x m); simpl; [apply IH|done].
Qed.

Lemma log_text_app l1 l2 : log_text (l1 ++ l2) = log_text l1 +:+ log_text l2.
Proof. unfold log_text. by rewrite fmap_app, str_concat_app. Qed.

Lemma log_text_after s l1 l2 : (s +:+ log_text l1) +:+ log_text l2 = s +:+ log_text (l1 ++ l2).
Proof. by rewrite log_text_app, str_app_assoc. Qed.

Lemma log_text_snoc l x : log_text (l ++ [x]) = log_text l +:+ x +:+ String nl EmptyString.
Proof. rewrite log_text_app. unfold log_text at 2. simpl. by rewrite str_app_nil_r. Qed.

(** Reading a log back gives its lines. *)
Lemma lines_of_log lines : Forall (λ l, no_nl l = true) lines → lines_of nl (log_text lines) = lines.
Proof.
  induction 1 as [|x l Hx Hl IH]; [done|]. unfold log_text. rewrite fmap_cons. simpl.
  rewrite str_app_assoc, str_app_cons, str_app_nil_l, lines_of_line by done. by f_equal.
Qed.

Lemma counter_contents k l :
  Lru.counter k l =
  match Lru.contents l !! k with
  | None => Some 0%Z
  | Some v => match stoll v with inr n => Some n | inl _ => None end
  end.
Proof. unfold Lru.counter, Lru.lookup. by repeat case_match. Qed.

(** The contents after a command are a function of the contents before. *)
Lemma spec_contents now cmd d r d' :
  spec_execute 0 now cmd d = Some (r, d') →
  cmd_step cmd (Lru.contents (entries d)) = Some (Lru.contents (entries d')).
Proof.
  unfold spec_execute, cmd_step, spec_increment, add_to. rewrite <-?counter_contents. intros H.
  repeat (case_match; simplify_option_eq; try done);
    simpl; rewrite ?contents_set_unbounded, ?contents_touch, ?contents_remove; try done.
Qed.

Lemma deadline_sane now z :
  sane_time now → (0 < z ≤ sane_seconds)%Z → is_Some (deadline now z).
Proof.
  unfold sane_time, sane_seconds. intros. exists (now + z * ns_per_second)%Z. apply deadline_Some.
  unfold ns_per_second, int64_min, int64_max. lia.
Qed.

Lemma parsePositiveSeconds_pos s z : parsePositiveSeconds s = Some z → (0 < z)%Z.
Proof.
  unfold parsePositiveSeconds. intros H. repeat case_match; simplify_eq.
  by match goal with H : (_ <=? 0)%Z = false |- _ => apply Z.leb_gt in H end.
Qed.

Lemma spec_increment_defined c k delta d m' :
  add_to k delta (Lru.contents (entries d)) = Some m' → is_Some (spec_increment c k delta d).
Proof.
  unfold add_to, spec_increment. rewrite <-counter_contents.
  destruct (Lru.counter k (entries d)) as [z|]; [|by eauto].
  destruct (chk64 (z + delta)); [by eauto|done].
Qed.

Lemma sane_ttl_deadline now secs z :
  sane_time now → sane_ttl secs = true → parsePositiveSeconds secs = Some z → is_Some (deadline now z).
Proof.
  intros Ht Hs Hz. unfold sane_ttl in Hs. rewrite Hz in Hs. apply Z.leb_le in Hs.
  apply parsePositiveSeconds_pos in Hz. by apply deadline_sane.
Qed.

(** A sane write command whose increment does not overflow is defined. *)
Lemma spec_defined now cmd d m' :
  cmd_step cmd (Lru.contents (entries d)) = Some m' → sane_time now → sane_args cmd = true →
  isWriteCommand (type cmd) = true → is_Some (spec_execute 0 now cmd d).
Proof.
  intros Hs Ht Ha Hw. unfold sane_args, spec_execute, cmd_step in *.
  destruct (type cmd); try discriminate Hw; clear Hw;
    repeat case_match; simplify_eq; eauto using spec_increment_defined.
  all: match goal with Hp : parsePositiveSeconds ?a = Some ?z |- _ =>
         destruct (sane_ttl_deadline now a z) as [t ->]; [done|done|done|]; simpl; eauto end.
Qed.

Lemma loggable_no_nl lines : forallb loggable lines = true → Forall (λ l, no_nl l = true) lines.
Proof.
  intros Hl. apply Forall_forall. intros x Hx%list_elem_of_In.
  rewrite forallb_forall in Hl. apply Hl in Hx. unfold loggable in Hx. by destruct_bools.
Qed.

#[export] Instance outside_equivalence volatile : Equivalence (outside volatile).
Proof.
  split.
  - by intros m k _.
  - intros m m' H k Hk. by rewrite H.
  - intros m1 m2 m3 H12 H23 k Hk. by rewrite H12, H23.
Qed.

Lemma outside_never m m' : outside never m m' → m = m'.
Proof. intros H. apply map_eq. intros k. by apply H. Qed.

(** A line has the same effect on contents that are the same outside. *)
Lemma line_step_outside volatile line m1 m2 m1' :
  respects volatile line = true → outside volatile m1 m2 → line_step line m1 = Some m1' →
  ∃ m2', line_step line m2 = Some m2' ∧ outside volatile m1' m2' ∧
         ∀ k, m2' !! k = m2 !! k ∨ m2' !! k = m1' !! k.
Proof.
  intros Hv Ho. unfold line_step, respects in *. destruct (negb (str_nonempty line)).
  { intros [= <-]. eauto. }
  destruct (parse line) as [e|cmd]; [intros [= <-]; by eauto|].
  assert (∀ k (f : gmap string string → gmap string string),
    (∀ m k', k' ≠ k → f m !! k' = m !! k') → f m2 !! k = f m1 !! k →
    outside volatile (f m1) (f m2) ∧ ∀ k', f m2 !! k' = m2 !! k' ∨ f m2 !! k' = f m1 !! k') as Hf.
  { intros k f Hne Heq. split.
    - intros k' Hk'. destruct (decide (k' = k)) as [->|]; [done|]. rewrite !Hne by done. by apply Ho.
    - intros k'. destruct (decide (k' = k)) as [->|]; [by right|]. left. by apply Hne. }
  assert (∀ k delta, volatile k = false → add_to k delta m1 = Some m1' →
    ∃ m2', add_to k delta m2 = Some m2' ∧ outside volatile m1' m2' ∧ ∀ k, m2' !! k = m2 !! k ∨ m2' !! k = m1' !! k) as Hadd.
  { intros k delta Hk. unfold add_to. rewrite <-(Ho k Hk).
    destruct (match m1 !! k with Some _ => _ | None => _ end) as [z|]; [|intros [= <-]; by eauto].
    destruct (chk64 (z + delta)) as [z'|]; [|done]. intros [= <-]. eexists. split; [reflexivity|].
    apply (Hf k (λ m, <[k := to_string z']> m)); [|by rewrite !lookup_insert_eq].
    intros. by rewrite lookup_insert_ne. }
  assert (∀ k v, ∃ m2', Some (<[k := v]> m2) = Some m2' ∧ outside volatile (<[k := v]> m1) m2' ∧
    ∀ k', m2' !! k' = m2 !! k' ∨ m2' !! k' = <[k := v]> m1 !! k') as Hset.
  { intros k v. eexists. split; [reflexivity|]. apply (Hf k (λ m, <[k := v]> m)); [|by rewrite !lookup_insert_eq].
    intros. by rewrite lookup_insert_ne. }
  unfold cmd_step.
  destruct (type cmd); destruct (args cmd) as [|a0 [|a1 [|a2 [|a3 [|]]]]]; try (intros [= <-]; by eauto).
  - case_match; intros [= <-]; by eauto.
  - intros [= <-]. eexists. split; [reflexivity|]. apply (Hf a0 (delete a0)); [|by rewrite !lookup_delete_eq].
    intros. by rewrite lookup_delete_ne.
  - apply Hadd. by apply negb_true_iff.
  - apply Hadd. by apply negb_true_iff.
Qed.

Section replay.
Context (R : KVStore.state → nat → list Entry → Prop) `{!StoreContract R}.

(** Replaying a logged line on a process follows [line_step] on the contents. *)
Lemma replayLine_spec n d now line m' :
  holds R n 0 d → loggable line = true → sane_time now →
  line_step line (Lru.contents (entries d)) = Some m' →
  ∃ n' d', replayLine now line n = Ok tt n' ∧ holds R n' 0 d' ∧
           Lru.contents (entries d') = m' ∧ attached n' = attached n.
Proof.
  intros Hh Hl Ht Hs. unfold loggable in Hl. destruct_bools.
  unfold line_step, replayLine in *. destruct (negb (str_nonempty line)).
  { simplify_eq. exists n, d. by split_and!. }
  destruct (parse line) as [e|cmd]; [done|]. destruct_bools.
  assert (data_command (type cmd) = true) as Hd by by destruct (type cmd).
  destruct (spec_defined now cmd d m') as [[r d'] Hx]; [done..|].
  pose proof (execute_data R n 0 d now cmd Hh Hd) as Hex. rewrite Hx in Hex.
  destruct Hex as (n' & E & Hh' & (? & ? & ? & ? & _)). exists n', d'. unfold_M. rewrite E.
  apply spec_contents in Hx. unfold attached. split_and!; [done|done|congruence|congruence].
Qed.

Lemma replay_loop_spec clock i lines n d m' :
  holds R n 0 d → forallb loggable lines = true → (∀ i, sane_time (clock i)) →
  log_run lines (Lru.contents (entries d)) = Some m' →
  ∃ n' d', replay_loop clock i lines n = Ok tt n' ∧ holds R n' 0 d' ∧
           Lru.contents (entries d') = m' ∧ attached n' = attached n.
Proof.
  intros Hh Hl Ht. revert i n d Hh. induction lines as [|line lines IH]; intros i n d Hh Hr; simpl in *.
  { simplify_eq. exists n, d. by split_and!. }
  destruct_bools. apply bind_Some in Hr as (m1 & H1 & Hr).
  destruct (replayLine_spec n d (clock i) line m1) as (n1 & d1 & E1 & Hh1 & Hc1 & Hf1); [done..|].
  rewrite <-Hc1 in Hr.
  destruct (IH ltac:(done) (S i) n1 d1 Hh1 Hr) as (n2 & d2 & E2 & ? & ? & ?).
  exists n2, d2. rewrite (bind_Ok _ _ _ _ _ E1). split_and!; congruence.
Qed.

(** Loading a file that holds a log; a missing file is an empty one. *)
Lemma loadFromFile_spec n d clock path lines m' :
  holds R n 0 d → (∀ i, sane_time (clock i)) → forallb loggable lines = true →
  fs_contents path (fs n) = log_text lines →
  log_run lines (Lru.contents (entries d)) = Some m' →
  ∃ b n' d', loadFromFile clock path n = Ok b n' ∧ holds R n' 0 d' ∧
             Lru.contents (entries d') = m' ∧ attached n' = attached n.
Proof.
  intros Hh Ht Hl Hf Hr. unfold loadFromFile, load, replayLines, fs_read, fs_contents in *. unfold_M.
  destruct (files (fs n) !! path) as [txt|]; simpl in Hf.
  - subst txt. rewrite lines_of_log by (by apply loggable_no_nl).
    destruct (replay_loop_spec clock 0 lines n d m') as (n' & d' & -> & ?); [done..|]. eauto.
  - destruct lines as [|x lines]; [|by destruct x]. simplify_eq/=. exists false, n, d. by split_and!.
Qed.

(** [recover] on a fresh process rebuilds the contents the two logs stand for. *)
Lemma recover_spec n clock clock' p snap log m' :
  holds R n 0 (mkData [] ∅) → appendOnly (config_ p) = true →
  (∀ i, sane_time (clock i)) → (∀ i, sane_time (clock' i)) →
  forallb loggable (snap ++ log) = true →
  fs_contents (Persistence.snapshotPath (config_ p)) (fs n) = log_text snap →
  fs_contents (Persistence.aofPath (config_ p)) (fs n) = log_text log →
  log_run (snap ++ log) ∅ = Some m' →
  ∃ n' d', recover clock clock' p n = Ok tt n' ∧ holds R n' 0 d' ∧ Lru.contents (entries d') = m' ∧
            attached n' = attached n.
Proof.
  intros Hh Ha Ht Ht' Hl Hfs Hfa Hm. rewrite forallb_app in Hl. destruct_bools.
  rewrite log_run_app in Hm. apply bind_Some in Hm as (m & Hm & Hm').
  unfold recover. rewrite Ha. change replayAof with loadFromFile.
  destruct (loadFromFile_spec n (mkData [] ∅) clock (Persistence.snapshotPath (config_ p)) snap m)
    as (b1 & n1 & d1 & E1 & Hh1 & Hc1 & Hf1); [done..|].
  assert (fs n1 = fs n) as Hfs1 by (unfold attached in Hf1; congruence).
  destruct (loadFromFile_spec n1 d1 clock' (Persistence.aofPath (config_ p)) log m')
    as (b2 & n2 & d2 & E2 & Hh2 & Hc2 & Hf2); [done|done|done|by rewrite Hfs1|by rewrite Hc1|].
  rewrite (bind_Ok _ _ _ _ _ E1), (bind_Ok _ _ _ _ _ E2).
  exists n2, d2. split_and!; [done|done|done|congruence].
Qed.

End replay.

(** ** Snapshots *)

Lemma save_entry_line k v out :
  SnapshotManager.save_entry k v out = out +:+ snapshot_line (k, v) +:+ String nl EmptyString.
Proof.
  unfold SnapshotManager.save_entry, snapshot_line. cbn [print_words fst snd].
  rewrite !str_app_assoc. f_equal. rewrite !str_app_cons, !str_app_assoc.
  by rewrite ?str_app_cons, ?str_app_nil_l.
Qed.

Lemma save_text l :
  foldl (λ out e, SnapshotManager.save_entry e.1 e.2 out) EmptyString l = log_text (snapshot_line <$> l).
Proof.
  induction l as [|[k v] l IH] using rev_ind; [done|].
  rewrite foldl_app, fmap_app. simpl. rewrite save_entry_line, IH.
  by rewrite log_text_snoc.
Qed.

Lemma save_spec (R : KVStore.state → nat → list Entry → Prop) `{!StoreContract R} s c l :
  R s c l → SnapshotManager.save s = Ok (log_text (snapshot_line <$> l)) s.
Proof. intros Hr. unfold SnapshotManager.save. by rewrite (store_forEach _ _ _ _ _ Hr), save_text. Qed.

Lemma parse_snapshot_line e :
  savable e = true → parse (snapshot_line e) = inr (mkCommand SET "SET" [e.1; e.2]).
Proof.
  unfold savable, fits, snapshot_line. intros H. destruct_bools.
  rewrite parse_print; [done| |by apply Z.leb_le]. by repeat (apply List.Forall_cons; [done|]).
Qed.

Lemma snapshot_line_nonempty e : str_nonempty (snapshot_line e) = true.
Proof. done. Qed.

Lemma snapshot_line_no_nl e : is_token e.1 = true → is_token e.2 = true → no_nl (snapshot_line e) = true.
Proof.
  unfold no_nl, snapshot_line. intros H1 H2. cbn [print_words].
  rewrite str_all_app. simpl. rewrite str_all_app. simpl. by rewrite !token_no_nl.
Qed.

(** A line that is too long is skipped. *)
Lemma parse_long_snapshot_line e : fits e = false → ∃ x, parse (snapshot_line e) = inl x.
Proof. unfold fits. intros H%Z.leb_gt. unfold parse. rewrite (proj2 (Z.ltb_lt _ _)) by done. by eexists. Qed.

(** Loading a snapshot of words stores the entries whose lines fit one after the
    other, so the entry saved last becomes the most recently used. *)
Lemma replay_snapshot (R : KVStore.state → nat → list Entry → Prop) `{!StoreContract R}
    clock i c n l acc :
  holds R n c (mkData acc ∅) → Forall (λ e, is_token e.1 = true ∧ is_token e.2 = true) l →
  NoDup (l ++ acc).*1 → (c = 0 ∨ length (filter (λ e, fits e = true) l ++ acc) ≤ c) →
  ∃ n', replay_loop clock i (snapshot_line <$> l) n = Ok tt n' ∧
        holds R n' c (mkData (reverse (filter (λ e, fits e = true) l) ++ acc) ∅) ∧ fs n' = fs n.
Proof.
  intros Hh Hl. revert i n acc Hh. induction Hl as [|[k v] l [Hwk Hwv] Hl IH]; intros i n acc Hh Hnd Hc; [by exists n|].
  simpl in Hwk, Hwv. rewrite fmap_cons. cbn [replay_loop]. rewrite filter_cons in *.
  unfold replayLine at 1. rewrite snapshot_line_nonempty. cbn [negb].
  rewrite fmap_app, fmap_cons in Hnd. simpl in Hnd. apply NoDup_cons in Hnd as [Hk Hnd].
  case_decide as Hf; cycle 1.
  { destruct (parse_long_snapshot_line (k, v)) as [x ->]; [by destruct (fits (k, v))|].
    destruct (IH (S i) n acc Hh) as (n' & E & ?); [by rewrite fmap_app|done|]. exists n'. split; [|done]. unfold_M. exact E. }
  rewrite parse_snapshot_line by (unfold savable; simpl; by rewrite Hwk, Hwv, Hf).
  pose proof (execute_data R n c (mkData acc ∅) (clock i) (mkCommand SET "SET" [k; v]) Hh eq_refl) as Hx.
  cbn [spec_execute type args entries ttl] in Hx. rewrite delete_empty in Hx.
  assert (Lru.set c k v acc = (k, v) :: acc) as Hset.
  { unfold Lru.set. rewrite (proj2 (lookup_None k acc)) by set_solver. unfold Lru.trim.
    case_bool_decide; [done|]. apply take_ge. simpl in *. rewrite length_app in Hc. lia. }
  rewrite Hset in Hx. destruct Hx as (n1 & E1 & Hh1 & (_ & _ & Hf1 & _)).
  destruct (IH (S i) n1 ((k, v) :: acc) Hh1) as (n2 & E2 & Hh2 & Hf2).
  - rewrite fmap_app, fmap_cons. simpl. rewrite <-Permutation_middle. by constructor.
  - simpl in *. rewrite length_app in *. simpl in *. lia.
  - exists n2. simpl. unfold_M. rewrite E1. split_and!; [done| |congruence].
    by rewrite reverse_cons, <-app_assoc.
Qed.

Lemma snapshot_line_loggable e : savable e = true → loggable (snapshot_line e) = true.
Proof. intros He. pose proof He as H. unfold savable in H. destruct_bools.
  unfold loggable. by rewrite snapshot_line_no_nl, parse_snapshot_line.
Qed.

Lemma snapshot_lines_loggable l :
  forallb savable l = true → forallb loggable (snapshot_line <$> l) = true.
Proof.
  induction l as [|e l IH]; [done|]. rewrite fmap_cons. simpl. intros. destruct_bools.
  by rewrite snapshot_line_loggable, IH.
Qed.

(** What a snapshot stands for: its entries, over what was there before. *)
Lemma log_run_snapshot l m :
  forallb savable l = true → NoDup l.*1 →
  log_run (snapshot_line <$> l) m = Some (Lru.contents l ∪ m).
Proof.
  revert m. induction l as [|[k v] l IH]; intros m Hl Hnd; [|rewrite fmap_cons in *; simpl in *].
  { simpl. unfold Lru.contents. simpl. by rewrite map_empty_union. }
  destruct_bools. apply NoDup_cons in Hnd as [Hk Hnd].
  unfold line_step. rewrite snapshot_line_nonempty, parse_snapshot_line by done. simpl.
  rewrite IH by done. f_equal. unfold Lru.contents. simpl.
  rewrite <-insert_union_r by (by apply not_elem_of_list_to_map_1). by rewrite insert_union_l.
Qed.

Lemma command_name_length w t :
  commandTypeFromName w = t →
  (t = SET → 3 ≤ String.length w) ∧ (t = INCR ∨ t = DECR → 4 ≤ String.length w).
Proof.
  assert (String.length (toUpper w) = String.length w) as <-.
  { unfold toUpper. induction w as [|a w IH]; simpl; by rewrite ?IH. }
  intros <-. unfold commandTypeFromName. split.
  all: repeat case_bool_decide; first [intros [|]|intros ?]; try discriminate.
  all: match goal with H : toUpper ?s = _ |- _ => rewrite H end; simpl; lia.
Qed.

Lemma snapshot_line_length k v :
  String.length (snapshot_line (k, v)) = String.length k + String.length v + 5.
Proof. unfold snapshot_line. cbn [print_words fst snd]. rewrite !str_length_app. cbn [String.length]. rewrite str_length_app. simpl. lia. Qed.

Lemma savable_intro k v :
  is_token k = true → is_token v = true →
  (Z.of_nat (String.length k + String.length v + 5) ≤ kMaxLineLength)%Z → savable (k, v) = true.
Proof.
  intros Hk Hv Hl. unfold savable, fits. rewrite snapshot_line_length. simpl. rewrite Hk, Hv. simpl.
  by apply Z.leb_le.
Qed.

(** Commands read from lines of safe length keep the entries savable. *)
Lemma spec_savable c now line cmd d r d' :
  parse line = inr cmd → (Z.of_nat (String.length line) ≤ safe_length)%Z →
  spec_execute c now cmd d = Some (r, d') →
  Forall (λ e, savable e = true) (entries d) → Forall (λ e, savable e = true) (entries d').
Proof.
  intros (Hw & Hlen & _ & Ht)%parse_words Hsafe Hx. unfold safe_length in *.
  pose proof (command_name_length (name cmd) (type cmd)) as Hn. rewrite <-Ht in Hn. specialize (Hn eq_refl).
  apply Forall_cons in Hw as [_ Hw]. unfold words_length in Hlen. simpl in Hlen.
  eapply spec_entries; [done| |].
  - intros k v rest Hty Ha. rewrite Ha in *. simpl in Hlen.
    apply Forall_cons in Hw as [? [? _]%Forall_cons].
    apply savable_intro; [done|done|]. pose proof (proj1 Hn Hty). unfold kMaxLineLength. lia.
  - intros k z Hty Ha Hz. rewrite Ha in *. simpl in Hlen. apply Forall_cons in Hw as [? _].
    pose proof (to_string_length z Hz).
    apply savable_intro; [done|auto with tinykv|]. pose proof (proj2 Hn Hty). unfold kMaxLineLength. lia.
Qed.
(** ** Properties *)

Section properties.
Import KVStore (represents).

(** C36: A snapshot of a store whose keys and values are words, loaded into an empty
    store that is large enough, restores exactly the entries whose line, SET and
    the two words, is not longer than the parser's 8192 bytes; the recency order
    comes back reversed, because the snapshot lists the most recently used entry
    first and loading makes the last one read the most recent. *)
Theorem snapshot_roundtrip (s : KVStore.state) (c : nat) (l : list Entry) (n : Node) (c' : nat) (clock : nat → Z) :
  represents s c l → Forall (λ e, is_token e.1 = true ∧ is_token e.2 = true) l →
  holds represents n c' (mkData [] ∅) → c' = 0 ∨ length (filter (λ e, fits e = true) l) ≤ c' →
  ∃ out n', SnapshotManager.save s = Ok out s ∧ load clock out n = Ok tt n' ∧
            holds represents n' c' (mkData (reverse (filter (λ e, fits e = true) l)) ∅).
Proof.
  intros Hs Hl Hh Hc. exists (log_text (snapshot_line <$> l)).
  destruct (replay_snapshot represents clock 0 c' n l []) as (n' & E & Hh' & _); [done|done| | |].
  - rewrite app_nil_r. by eapply store_nodup.
  - by rewrite app_nil_r.
  - rewrite app_nil_r in Hh'. exists n'. split; [by eapply (save_spec represents)|]. split; [|done].
    unfold load, replayLines. rewrite lines_of_log; [done|].
    apply Forall_forall. intros x (e & -> & He)%list_elem_of_fmap. rewrite Forall_forall in Hl.
    apply snapshot_line_no_nl; by apply Hl.
Qed.

Theorem snapshot_roundtrip_witness :
  ∃ s out n', KVStore.run_ops [KVStore.OSet "a" "1"; KVStore.OSet "b" "2"] (KVStore.create 0)
                = Ok [KVStore.RUnit; KVStore.RUnit] s ∧
    SnapshotManager.save s = Ok out s ∧
    load (λ _, 0%Z) out (bare_node (KVStore.create 2) (mkFS ∅ ∅)) = Ok tt n' ∧
    holds represents n' 2 (mkData [("a", "1"); ("b", "2")] ∅).
Proof.
  destruct (run_ops_spec represents (KVStore.create 0) 0 [] [KVStore.OSet "a" "1"; KVStore.OSet "b" "2"])
    as (s & Hs & Hr); [apply represents_create|].
  destruct (snapshot_roundtrip s 0 [("b", "2"); ("a", "1")] (bare_node (KVStore.create 2) (mkFS ∅ ∅)) 2
    (λ _, 0%Z) Hr ltac:(by repeat constructor) (bare_holds _ _) ltac:(right; vm_compute; lia)) as (out & n' & H1 & H2 & H3).
  exists s, out, n'. split_and!; [exact Hs|exact H1|exact H2|exact H3].
Defined.


(** The parser's limit counts against a snapshot line, which is longer than the
    request that created a counter: a key of 8187 bytes can be incremented, but
    its snapshot line has 8193 bytes, is skipped on loading, and the key is
    lost. *)
Theorem longest_counter_lost_by_snapshot (k : string) (clock : nat → Z) (now : Z) (f f' : FS) :
  is_token k = true → Z.of_nat (String.length k) = 8187%Z →
  ∃ cmd n out n',
    parse (print_words ["INCR"; k]) = inr cmd ∧
    execute now cmd (bare_node (KVStore.create 0) f) = Ok (Reply.integer 1) n ∧
    SnapshotManager.save (store_ n) = Ok out (store_ n) ∧
    load clock out (bare_node (KVStore.create 0) f') = Ok tt n' ∧
    n' = bare_node (KVStore.create 0) f'.
Proof.
  intros Hk Hlen. exists (mkCommand INCR "INCR" [k]).
  pose proof (execute_data represents (bare_node (KVStore.create 0) f) 0 (mkData [] ∅) now
    (mkCommand INCR "INCR" [k]) (bare_holds _ _) eq_refl) as (n & E & (Hs & _) & _).
  exists n, (log_text [snapshot_line (k, "1")]), (bare_node (KVStore.create 0) f').
  assert (Z.of_nat (String.length (snapshot_line (k, "1"))) = 8193%Z) as Hl.
  { rewrite snapshot_line_length. simpl. lia. }
  split_and!; [|exact E|exact (save_spec represents _ _ _ Hs)| |done].
  - rewrite parse_print; [done|by repeat (apply List.Forall_cons; [done|])|].
    unfold print_words. rewrite str_length_app. unfold kMaxLineLength. simpl. lia.
  - unfold load, replayLines. rewrite lines_of_log.
    + simpl. unfold replayLine. rewrite snapshot_line_nonempty. simpl. unfold parse. by rewrite Hl.
    + apply List.Forall_cons; [|done]. unfold no_nl, snapshot_line. cbn [print_words fst snd].
      rewrite str_all_app. simpl. rewrite str_all_app, token_no_nl by done. done.
Qed.

Theorem longest_counter_lost_by_snapshot_witness :
  let k := Nat.iter (Z.to_nat 8187) (String "k") EmptyString in
  ∃ n, execute 0 (mkCommand INCR "INCR" [k]) (bare_node (KVStore.create 0) (mkFS ∅ ∅))
       = Ok (Reply.integer 1) n.
Proof.
  intros k.
  destruct (longest_counter_lost_by_snapshot k (λ _, 0%Z) 0 (mkFS ∅ ∅) (mkFS ∅ ∅))
    as (cmd & n & out & n' & Hp & He & _); [vm_compute; reflexivity|vm_compute; reflexivity|].
  exists n. rewrite parse_print in Hp.
  - injection Hp as <-. exact He.
  - repeat (apply List.Forall_cons; [vm_compute; reflexivity|]). apply List.Forall_nil.
  - vm_compute. discriminate.
Defined.

End properties.
