(* ===== verification/Server.v ===== *)
(** * The server: connection handling, durability and the replica stream

    [src/server_main.cpp] wires the components together. [handleLine] is one
    turn of the loop of [handleConnection]; a [run_events] history interleaves
    the turns of all connections with the background work at the granularity of
    turns, and the theorems on races split a turn into its two halves, the
    execution and the recording. *)

From S2P Require Import Prelude CxxStd Protocol Storage Expiry Node Persistence Replication Executor Recovery.

(** ** Definitions *)

(** The objects [main] owns and passes by reference. *)
Definition the_persistence : M Node PersistenceManager := p ← gets persistence_; defined p.
Definition the_replication : M Node ReplicationManager := r ← gets replication_; defined r.

Definition on_registry (f : ReplicationManager → ReplicationManager) : M Node unit :=
  r ← the_replication; modify (set_replication (Some (f r))).

Definition recordAndPropagateIfWrite (cmd : Command) (line response : string) : M Node unit :=
  if succeeded response && isWriteCommand (type cmd) then
    p ← the_persistence;
    Persistence.recordWrite line p;;
    r ← the_replication;
    ReplicaRegistry.propagate line r
  else mret tt.

(** [handleSyncConnection] up to its read loop: [true] when the dump was sent
    and the connection is now a replica stream. [sent] is the result of
    [writeRaw]. *)
Definition beginSync (fd : Z) (sent : bool) : M Node bool :=
  on_registry (ReplicaRegistry.add fd);;
  snapshot ← on_store SnapshotManager.save;
  writeRaw fd snapshot;;
  if sent then mret true
  else on_registry (ReplicaRegistry.remove fd);; mret false.

(** The end of [handleSyncConnection], when the replica has hung up. *)
Definition endSync (fd : Z) : M Node unit := on_registry (ReplicaRegistry.remove fd).

(** What the loop does after a turn: read on, leave it, or (after SYNC) read
    and discard. *)
Inductive next : Type := Continue | Break | Stream.

(** One turn of the loop of [handleConnection]; [sent] is the result of the
    turn's [writeLine] or [writeRaw]. *)
Definition handleLine (fd now : Z) (sent : bool) (line : string) : M Node next :=
  if negb (str_nonempty line) then mret Continue
  else
    match parse line with
    | inl e =>
        writeLine fd (Reply.error (what e));;
        mret (if sent then Continue else Break)
    | inr cmd =>
        if bool_decide (type cmd = SYNC) then
          streaming ← beginSync fd sent;
          mret (if streaming : bool then Stream else Break)
        else
          r ← the_replication;
          if isWriteCommand (type cmd) && bool_decide (role_ r = REPLICA) then
            writeLine fd Reply.readOnlyError;;
            mret (if sent then Continue else Break)
          else
            response ← execute now cmd;
            recordAndPropagateIfWrite cmd line response;;
            writeLine fd response;;
            mret (if sent then Continue else Break)
    end.

(** A line read from a connection, the clock when it is executed, and whether
    the reply could be written. *)
Record Request : Type := mkRequest { req_line : string; req_now : Z; req_sent : bool }.

(** [handleConnection] with nobody else running: the lines the client sends
    until it hangs up. *)
Fixpoint handleConnection (fd : Z) (reqs : list Request) : M Node unit :=
  match reqs with
  | [] => mret tt
  | q :: reqs' =>
      o ← handleLine fd (req_now q) (req_sent q) (req_line q);
      match o with
      | Continue => handleConnection fd reqs'
      | Break => mret tt
      | Stream => endSync fd
      end
  end.

(** Commands that take down the link of the process and join its thread. *)
Definition joins_link (cmd : Command) : bool :=
  match type cmd, args cmd with
  | REPLICAOF, [a0; a1] =>
      equalsIgnoreCase a0 "NO" && equalsIgnoreCase a1 "ONE" || match stoi a1 with inr _ => true | inl _ => false end
  | _, _ => false
  end.

(** The callback [main] gives to the replication manager. It runs on the thread of
    the link, which cannot join itself: [std::thread::join] throws
    [std::system_error], nobody catches it, and the process ends. *)
Definition applyReplicatedLine (now : Z) (line : string) : M Node unit :=
  match parse line with
  | inr cmd =>
      if joins_link cmd then throw (SystemError "Resource deadlock avoided")
      else
        response ← execute now cmd;
        recordAndPropagateIfWrite cmd line response
  | inl _ => mret tt
  end.

(** The callback [main] gives to the expiry manager. *)
Definition onExpire (k : string) : M Node unit := _ ← on_store (KVStore.del k); mret tt.

(** One pop of the sweeper at time [now], with its callback. *)
Definition sweepTurn (now : Z) : M Node unit :=
  n ← get;
  match ExpiryManager.top (ExpiryManager.heap_ (expiry_ n)) with
  | Some e =>
      if (when e <=? now)%Z then
        let '(live, s) := ExpiryManager.pop_top e (expiry_ n) in
        put (set_expiry s n);;
        if live : bool then onExpire (key e) else mret tt
      else mret tt
  | None => mret tt
  end.

Inductive event : Type :=
| Requested (fd now : Z) (sent : bool) (line : string)   (* a turn of a connection *)
| HungUp (fd : Z)                                        (* a replica stream ends *)
| Replicated (now : Z) (line : string)                   (* a line from our primary *)
| Flushed                                                (* the timer's flush task *)
| Spilled (bytes : nat)                                  (* the log's buffer fills up *)
| Saved                                                  (* the timer's snapshot task *)
| Swept (now : Z).                                       (* the sweeper *)

Definition run_event (ev : event) : M Node unit :=
  match ev with
  | Requested fd now sent line => _ ← handleLine fd now sent line; mret tt
  | HungUp fd => endSync fd
  | Replicated now line => applyReplicatedLine now line
  | Flushed => p ← the_persistence; Persistence.flush p
  | Spilled bytes => p ← the_persistence; Persistence.spill bytes p
  | Saved => p ← the_persistence; Persistence.save p
  | Swept now => sweepTurn now
  end.

Fixpoint run_events (evs : list event) : M Node unit :=
  match evs with
  | [] => mret tt
  | ev :: evs' => run_event ev;; run_events evs'
  end.

(** [main] up to [recover]: the objects of a process on the file system [f]. *)
Definition construct (maxKeys : nat) (cfg : PersistenceConfig) (f : FS) : Node :=
  let '(p, f') := Persistence.create cfg f in
  mkNode (KVStore.create maxKeys) ExpiryManager.create 0 0 0 (Some p) (Some Replication.create) f' [].

(** [main] up to [server.run]. *)
Definition start (maxKeys : nat) (cfg : PersistenceConfig) (clock clock' : nat → Z) (f : FS)
    : res Node unit :=
  (p ← the_persistence; recover clock clock' p) (construct maxKeys cfg f).

(** The process ends, and with it what its streams had buffered; the files
    stay. *)
Definition crash (n : Node) : FS := fs n.

(** ** Durability *)

(** The two files can be written, and are two files. *)
Definition usable (cfg : PersistenceConfig) (f : FS) : Prop :=
  appendOnly cfg = true ∧ Persistence.snapshotPath cfg ≠ Persistence.aofPath cfg ∧
  (Persistence.snapshotPath cfg ∉ unwritable f) ∧ (Persistence.aofPath cfg ∉ unwritable f).

(** The append-only file with what its writer has buffered, and the snapshot. *)
Definition log_bytes (cfg : PersistenceConfig) (n : Node) : string :=
  fs_contents (Persistence.aofPath cfg) (fs n) +:+
  match persistence_ n with Some p => buffered (aofWriter_ p) | None => EmptyString end.

Definition snapshot_bytes (cfg : PersistenceConfig) (n : Node) : string :=
  fs_contents (Persistence.snapshotPath cfg) (fs n).

(** The files, with what the writer has buffered, stand for the contents [m]. *)
Definition durable_files (cfg : PersistenceConfig) (n : Node) (m : gmap string string) : Prop :=
  ∃ w snap log,
    persistence_ n = Some (mkPersistence cfg w) ∧ file_open w = true ∧
    path_ w = Persistence.aofPath cfg ∧ usable cfg (fs n) ∧
    fs_contents (Persistence.snapshotPath cfg) (fs n) = log_text snap ∧
    fs_contents (Persistence.aofPath cfg) (fs n) +:+ buffered w = log_text log ∧
    forallb loggable (snap ++ log) = true ∧ log_run (snap ++ log) ∅ = Some m.

(** A process whose files stand for the contents it holds, but for the keys [v]
    that may expire. *)
Definition durable (v : string → bool) (cfg : PersistenceConfig) (n : Node) : Prop :=
  ∃ d m, holds KVStore.represents n 0 d ∧ Forall (λ e, savable e = true) (entries d) ∧
       durable_files cfg n m ∧ savable_map m ∧ outside v m (Lru.contents (entries d)) ∧ is_Some (replication_ n).

(** A request line that a snapshot can follow up on. *)
Definition safe_line (line : string) : bool :=
  no_nl line && (Z.of_nat (String.length line) <=? safe_length)%Z &&
  (match parse line with
   | inr cmd => sane_args cmd
   | inl _ => true
   end).

(** The events of a history in which only the keys [v] expire: the sweeper runs
    when no other key's deadline has passed. *)
Definition safe_event (v : string → bool) (n : Node) (ev : event) : Prop :=
  match ev with
  | Requested _ _ _ line | Replicated _ line => safe_line line = true ∧ respects v line = true
  | Swept now => map_Forall (λ k t, (t ≤ now)%Z → v k = true) (ExpiryManager.currentExpiry_ (expiry_ n))
  | _ => True
  end.

Fixpoint safe_events (v : string → bool) (evs : list event) (n : Node) : Prop :=
  match evs with
  | [] => True
  | ev :: evs' => safe_event v n ev ∧ ∀ n', run_event ev n = Ok tt n' → safe_events v evs' n'
  end.

(** A server's life on one machine: it starts on empty files, serves safe
    events, and is now and then restarted after a flush, as at a clean
    shutdown. *)
Inductive history (v : string → bool) (cfg : PersistenceConfig) : Node → Prop :=
| hist_boot f clock clock' n :
    usable cfg f → fs_read (Persistence.snapshotPath cfg) f = None →
    fs_read (Persistence.aofPath cfg) f = None →
    (∀ i, sane_time (clock i)) → (∀ i, sane_time (clock' i)) →
    start 0 cfg clock clock' f = Ok tt n → history v cfg n
| hist_event n ev n' :
    history v cfg n → safe_event v n ev → run_event ev n = Ok tt n' → history v cfg n'
| hist_restart n nf clock clock' n' :
    history v cfg n → run_event Flushed n = Ok tt nf →
    (∀ i, sane_time (clock i)) → (∀ i, sane_time (clock' i)) →
    start 0 cfg clock clock' (crash nf) = Ok tt n' → history v cfg n'.

(** One step of that life. *)
Inductive history_step (v : string → bool) (cfg : PersistenceConfig) : Node → Node → Prop :=
| step_event n ev n' :
    safe_event v n ev → run_event ev n = Ok tt n' → history_step v cfg n n'
| step_restart n nf clock clock' n' :
    run_event Flushed n = Ok tt nf →
    (∀ i, sane_time (clock i)) → (∀ i, sane_time (clock' i)) →
    start 0 cfg clock clock' (crash nf) = Ok tt n' → history_step v cfg n n'.

(** The bytes handed to a socket so far. *)
Definition sent_to (fd : Z) (n : Node) : string :=
  str_concat (filter (λ x, x.1 = fd) (wire n)).*2.

(** What the link thread of a replica does with the lines it receives. *)
Fixpoint apply_stream (clock : nat → Z) (i : nat) (lines : list string) : M Node unit :=
  match lines with
  | [] => mret tt
  | line :: lines' => applyReplicatedLine (clock i) line;; apply_stream clock (S i) lines'
  end.

(** A line that gives no key a deadline. *)
Definition timeless (line : string) : bool :=
  match parse line with
  | inl _ => true
  | inr cmd =>
      match type cmd with
      | EXPIRE => false
      | SET => negb (bool_decide (length (args cmd) = 4))
      | _ => true
      end
  end.

(** One turn of the loop of [ReplicaLink::runLoop]: whether the primary accepts
    the connection, whether SYNC can be sent, and the lines that arrive, with
    the clock when each is applied, before the connection ends. *)
Record LinkAttempt : Type := mkLinkAttempt {
  link_connected : bool;
  sync_sent : bool;
  received : list string;
  link_clock : nat → Z
}.

Definition link_turn (a : LinkAttempt) : M Node unit :=
  if negb (link_connected a) then mret tt
  else if negb (sync_sent a) then mret tt
  else apply_stream (link_clock a) 0 (received a).

(** [runLoop] until [stop]: each turn is followed by a pause and another
    attempt. *)
Fixpoint runLoop (attempts : list LinkAttempt) : M Node unit :=
  match attempts with
  | [] => mret tt
  | a :: attempts' => link_turn a;; runLoop attempts'
  end.

(** The replica on [fd] is registered once. *)
Definition registered (fd : Z) (n : Node) : Prop :=
  ∃ r, replication_ n = Some r ∧ filter (.= fd) (replicaFds_ r) = [fd].

(** What was sent to [fd] since [base] stands for the contents of the process, but
    for the keys [v] that may expire. *)
Definition streams (v : string → bool) (fd : Z) (base : string) (n : Node) : Prop :=
  ∃ d m lines, holds KVStore.represents n 0 d ∧ Forall (λ e, savable e = true) (entries d) ∧
    is_Some (persistence_ n) ∧ registered fd n ∧
    sent_to fd n = base +:+ log_text lines ∧ forallb loggable lines = true ∧
    log_run lines ∅ = Some m ∧ outside v m (Lru.contents (entries d)).

(** An event that does not concern the connection [fd]. *)
Definition elsewhere (fd : Z) (ev : event) : Prop :=
  match ev with
  | Requested fd' _ _ _ | HungUp fd' => fd' ≠ fd
  | _ => True
  end.

(** A short life of a server, for the examples. *)
Definition sample_start : res Node unit :=
  start 0 defaultPersistenceConfig (λ _, 0%Z) (λ _, 0%Z) (mkFS ∅ ∅).

Definition sample_events : list event :=
  [Requested 4 0 true "SET a 1"; Requested 5 0 true "incr hits"; Spilled 9; Saved;
   Requested 4 0 false "DEL a"; Requested 5 0 true "GET hits"].

Definition state_of {A} (r : res Node A) : Node :=
  match r with
  | Ok _ n | Exn _ n => n
  | Undef => construct 0 defaultPersistenceConfig (mkFS ∅ ∅)
  end.

Definition sample_node : Node := state_of (run_events sample_events (state_of sample_start)).

(** The same life with a key that expires. *)
Definition is_session (k : string) : bool := String.eqb k "session".

Definition session_node : Node :=
  state_of (run_events [Requested 4 0 true "SET session x EX 1"; Swept 2000000000] sample_node).

(** The value a process holds for a key. *)
Definition value_of (k : string) (n : Node) : option string :=
  match KVStore.get k (store_ n) with
  | Ok v _ => v
  | _ => None
  end.

(** The value after a restart on the files the process leaves behind. *)
Definition value_after_restart (k : string) (n : Node) : option string :=
  match start 0 defaultPersistenceConfig (λ _, 0%Z) (λ _, 0%Z) (crash n) with
  | Ok _ n' => value_of k n'
  | _ => None
  end.

(** The two halves of a turn, for interleavings inside it. *)
Definition executed (line : string) : M Node (string * (Command * string)) :=
  match parse line with
  | inr cmd => response ← execute 0 cmd; mret (line, (cmd, response))
  | inl e => throw e
  end.

Definition recorded (x : string * (Command * string)) : M Node unit :=
  recordAndPropagateIfWrite x.2.1 x.1 x.2.2.

(** ** Lemmas *)

Lemma fs_contents_write path path' s f :
  fs_contents path (fs_write path' s f) = if decide (path' = path) then s else fs_contents path f.
Proof.
  unfold fs_contents, fs_write. simpl. rewrite lookup_insert. by case_decide.
Qed.

(** Only the persistence manager and the files matter. *)
Lemma durable_files_same cfg n n' m :
  persistence_ n' = persistence_ n → fs n' = fs n → durable_files cfg n m → durable_files cfg n' m.
Proof. unfold durable_files. by intros -> ->. Qed.

Lemma durable_files_record cfg n m m' line p :
  durable_files cfg n m → persistence_ n = Some p → loggable line = true → line_step line m = Some m' →
  ∃ n', Persistence.recordWrite line p n = Ok tt n' ∧ durable_files cfg n' m' ∧
        store_ n' = store_ n ∧ expiry_ n' = expiry_ n ∧ replication_ n' = replication_ n.
Proof.
  intros (w & snap & log & Hp & Ho & Hpa & Hu & Hs & Hl & Hf & Hr) Hp' Hline Hstep.
  unfold Persistence.recordWrite. rewrite Hp in Hp'. injection Hp' as <-. cbn [config_].
  pose proof Hu as (-> & _). eexists. split; [reflexivity|]. split; [|done].
  exists (Aof.append line w), snap, (log ++ [line]). unfold Aof.append. rewrite Ho. simpl.
  split_and!; [by rewrite Ho|done|done|done|done| | |].
  - rewrite <-str_app_assoc, Hl. by rewrite log_text_snoc.
  - by rewrite app_assoc, forallb_app, Hf; simpl; rewrite Hline.
  - rewrite app_assoc, log_run_app, Hr. simpl. by rewrite Hstep.
Qed.

Lemma durable_files_flush cfg n m p :
  durable_files cfg n m → persistence_ n = Some p →
  ∃ n', Persistence.flush p n = Ok tt n' ∧ durable_files cfg n' m ∧
        store_ n' = store_ n ∧ expiry_ n' = expiry_ n ∧ replication_ n' = replication_ n ∧
        ∃ p', persistence_ n' = Some p' ∧ buffered (aofWriter_ p') = EmptyString.
Proof.
  intros (w & snap & log & Hp & Ho & Hpa & Hu & Hs & Hl & Hf & Hr) Hp'. rewrite Hp in Hp'. injection Hp' as <-.
  unfold Persistence.flush, Aof.flush. unfold_M. cbn [aofWriter_]. rewrite Ho.
  eexists. split; [reflexivity|]. pose proof Hu as (_ & Hne & _).
  split; [|split_and!; [done..|]; by eexists].
  exists (mkAof (path_ w) true EmptyString), snap, log. simpl.
  rewrite !fs_contents_write, Hpa, decide_False, decide_True by done.
  by rewrite str_app_nil_r, Hl.
Qed.

Lemma reset_trunc w f :
  file_open w = true → path_ w ∉ unwritable f →
  ∃ f', Aof.reset w f = (mkAof (path_ w) true EmptyString, f') ∧ unwritable f' = unwritable f ∧
        ∀ path, fs_contents path f' = if decide (path_ w = path) then EmptyString else fs_contents path f.
Proof.
  intros Ho Hw. unfold Aof.reset, Aof.flush, fs_open_trunc. rewrite Ho. simpl. rewrite bool_decide_false by done.
  eexists. split; [reflexivity|]. split; [done|]. intros path. rewrite !fs_contents_write. by case_decide.
Qed.

Lemma durable_files_save cfg n d m p :
  holds KVStore.represents n 0 d → Forall (λ e, savable e = true) (entries d) →
  durable_files cfg n m → persistence_ n = Some p →
  ∃ n', Persistence.save p n = Ok tt n' ∧ durable_files cfg n' (Lru.contents (entries d)) ∧
        store_ n' = store_ n ∧ expiry_ n' = expiry_ n ∧ replication_ n' = replication_ n.
Proof.
  intros (Hst & _) Hsv (w & snap & log & Hp & Ho & Hpa & Hu & Hs & Hl & Hf & Hr) Hp'.
  rewrite Hp in Hp'. injection Hp' as <-. pose proof Hu as (Ha & Hne & Hw1 & Hw2).
  assert (forallb savable (entries d) = true) as Hsv'.
  { apply forallb_forall. intros e He%list_elem_of_In. rewrite Forall_forall in Hsv. auto. }
  unfold Persistence.save, SnapshotManager.saveToFile, on_store, fs_open_trunc. unfold_M. cbn [config_ aofWriter_].
  rewrite bool_decide_false by done. cbn [store_ set_fs fs].
  rewrite (save_spec KVStore.represents _ _ _ Hst). cbn [set_store fs set_fs].
  match goal with |- context [Aof.reset w ?f] => destruct (reset_trunc w f) as (f' & -> & Hun & Hc) end.
  { done. } { by rewrite Hpa. }
  eexists. split; [reflexivity|]. split; [|done].
  exists (mkAof (path_ w) true EmptyString), (snapshot_line <$> entries d), [].
  assert (∀ c w1, Persistence.with_aof (mkPersistence c w) w1 = mkPersistence c w1) as Hwa by done.
  simpl. rewrite !Hc, Hpa, decide_False, decide_True, !fs_contents_write, decide_True by done.
  split_and!; [by rewrite Hwa|done|done| |done|done| |].
  - unfold usable. by rewrite Hun.
  - rewrite app_nil_r. by apply snapshot_lines_loggable.
  - rewrite app_nil_r, log_run_snapshot; [by rewrite map_union_empty|done|].
    by eapply (store_nodup (R := KVStore.represents)).
Qed.

Lemma durable_same v cfg n n' :
  store_ n' = store_ n → expiry_ n' = expiry_ n → persistence_ n' = persistence_ n → fs n' = fs n →
  is_Some (replication_ n') → durable v cfg n → durable v cfg n'.
Proof.
  intros Hs He Hp Hf Hr (d & m & Hh & Hsv & Hd & ? & ? & _). exists d, m. unfold holds in *. rewrite Hs, He.
  split; [done|]. split; [done|]. split; [by eapply durable_files_same|done].
Qed.

Lemma durable_writeLine v cfg n fd line : durable v cfg n → ∃ n', writeLine fd line n = Ok tt n' ∧ durable v cfg n'.
Proof.
  intros Hd. eexists. split; [reflexivity|]. pose proof Hd as (_ & _ & _ & _ & _ & _ & _ & Hr). by eapply durable_same.
Qed.

Lemma durable_persistence v cfg n : durable v cfg n → ∃ p, persistence_ n = Some p.
Proof. intros (d & m & _ & _ & (w & _ & _ & ? & _) & _). eauto. Qed.

Lemma contents_savable l : Forall (λ e, savable e = true) l → savable_map (Lru.contents l).
Proof. rewrite Forall_forall. intros Hl k x Hk. apply Hl. by eapply elem_of_list_to_map_2. Qed.

Lemma durable_save v cfg n p :
  durable v cfg n → persistence_ n = Some p → ∃ n', Persistence.save p n = Ok tt n' ∧ durable v cfg n'.
Proof.
  intros (d & m & Hh & Hsv & Hd & _ & _ & Hr) Hp.
  destruct (durable_files_save cfg n d m p) as (n' & E & Hd' & Hs & He & Hr'); [done..|].
  exists n'. split; [done|]. exists d, (Lru.contents (entries d)). unfold holds in *. rewrite Hs, He, Hr'.
  split; [done|]. split; [done|]. split; [done|]. split; [|done].
  by apply contents_savable.
Qed.

Lemma durable_flush v cfg n p :
  durable v cfg n → persistence_ n = Some p → ∃ n', Persistence.flush p n = Ok tt n' ∧ durable v cfg n'.
Proof.
  intros (d & m & Hh & Hsv & Hd & Hm & Ho & Hr) Hp.
  destruct (durable_files_flush cfg n m p) as (n' & E & Hd' & Hs & He & Hr' & _); [done..|].
  exists n'. split; [done|]. exists d, m. unfold holds in *. by rewrite Hs, He, Hr'.
Qed.

(** SAVE and REPLICAOF. *)
Lemma durable_admin v cfg n now cmd r n' :
  durable v cfg n → data_command (type cmd) = false → execute now cmd n = Ok r n' → durable v cfg n'.
Proof.
  intros Hd Hc E. pose proof Hd as (_ & _ & _ & _ & _ & _ & _ & Hr).
  assert (durable v cfg (set_counters (wrap64 (totalCommands_ n + 1)) (totalHits_ n) (totalMisses_ n) n)) as Hd1
    by by eapply durable_same.
  unfold execute in E. destruct (type cmd); try discriminate Hc.
  - destruct (args cmd); unfold_M; [|by simplify_eq]. simpl in E.
    destruct (durable_persistence _ _ _ Hd) as [p Hp]. rewrite Hp in E.
    destruct (durable_save _ _ _ p Hd1 Hp) as (n1 & E1 & Hd2). rewrite E1 in E. by simplify_eq.
  - unfold_M. simpl in E. repeat case_match; simplify_eq; try done.
    all: eapply (durable_same _ _ n); by eauto.
Qed.

(** The contents a line leaves behind are savable if those of the process are. *)
Lemma savable_step (m m' : gmap string string) l :
  savable_map m → Forall (λ e, savable e = true) l →
  (∀ k, m' !! k = m !! k ∨ m' !! k = Lru.contents l !! k) → savable_map m'.
Proof.
  intros Hm Hl Hk k x Hx. destruct (Hk k) as [E|E]; rewrite Hx in E; [by apply Hm|].
  by apply (contents_savable l).
Qed.

(** A command of a safe line, executed and recorded. *)
Lemma durable_turn v cfg n now line cmd r n1 :
  durable v cfg n → parse line = inr cmd → safe_line line = true → respects v line = true →
  execute now cmd n = Ok r n1 →
  ∃ n2, recordAndPropagateIfWrite cmd line r n1 = Ok tt n2 ∧ durable v cfg n2.
Proof.
  intros Hd Hp Hsafe Hv E. pose proof Hd as (d & m & Hh & Hsv & Hf & Hm & Ho & Hr).
  unfold safe_line in Hsafe. rewrite Hp in Hsafe. destruct_bools.
  destruct (execute_holds KVStore.represents n 0 d now cmd r n1 Hh E)
    as (d1 & Hh1 & [(Hdc & Hx & (Hpe & Hre & Hfs & _))|(Hdc & ->)]).
  - pose proof (spec_savable _ _ _ _ _ _ _ Hp ltac:(by apply Z.leb_le) Hx Hsv) as Hsv1.
    pose proof (durable_files_same cfg n n1 _ Hpe Hfs Hf) as Hf1.
    unfold recordAndPropagateIfWrite. destruct (succeeded r && isWriteCommand (type cmd)) eqn:Hw.
    + destruct_bools.
      assert (line_step line (Lru.contents (entries d)) = Some (Lru.contents (entries d1))) as Hstep.
      { unfold line_step. rewrite Hp. destruct line; [done|]. simpl. by eapply spec_contents. }
      assert (loggable line = true) as Hlog.
      { unfold loggable. rewrite Hp. by repeat (apply andb_true_iff; split). }
      destruct (line_step_outside v line _ m _ Hv (symmetry Ho) Hstep) as (m' & Hstep' & Ho' & Hk).
      pose proof Hf1 as (w & _ & _ & Hp1 & _).
      destruct (durable_files_record cfg n1 _ _ line _ Hf1 Hp1 Hlog Hstep') as (n2 & E2 & Hf2 & Hs2 & He2 & Hr2).
      unfold the_persistence, the_replication. unfold_M. rewrite Hp1, E2, Hr2, Hre. destruct Hr as [rep Hrep].
      rewrite Hrep. unfold ReplicaRegistry.propagate. rewrite Replication.propagate_to_wire.
      eexists. split; [reflexivity|]. exists d1, m'. unfold holds in *. simpl. rewrite Hs2, He2.
      split; [done|]. split; [done|]. split; [by eapply (durable_files_same _ n2)|].
      split; [by eapply savable_step|]. split; [by symmetry|]. by rewrite Hr2, Hre, Hrep.
    + exists n1. split; [done|]. exists d1, m. split; [done|]. split; [done|]. split; [done|]. split; [done|]. split; [|by rewrite Hre].
      destruct (spec_unrecorded _ _ _ _ _ _ Hx) as [-> _]; [by rewrite andb_comm|done].
  - exists n1. split; [|by eapply durable_admin]. unfold recordAndPropagateIfWrite.
    destruct (type cmd); try discriminate Hdc; by rewrite andb_false_r.
Qed.

Lemma durable_registry v cfg n f : durable v cfg n → ∃ n', on_registry f n = Ok tt n' ∧ durable v cfg n' ∧ store_ n' = store_ n.
Proof.
  intros Hd. pose proof Hd as (_ & _ & _ & _ & _ & _ & _ & [r Hr]). unfold on_registry, the_replication. unfold_M. rewrite Hr.
  eexists. split; [reflexivity|]. split; [|done]. eapply durable_same; [..|done]; eauto.
Qed.

Lemma durable_beginSync v cfg n fd sent : durable v cfg n → ∃ b n', beginSync fd sent n = Ok b n' ∧ durable v cfg n'.
Proof.
  intros Hd. unfold beginSync. destruct (durable_registry v cfg n (ReplicaRegistry.add fd) Hd) as (n1 & E1 & Hd1 & _).
  rewrite (bind_Ok _ _ _ _ _ E1). pose proof Hd1 as (d & m & (Hs & _) & _ & _ & _ & _ & Hr).
  unfold on_store, writeRaw. unfold_M. rewrite (save_spec KVStore.represents _ _ _ Hs). cbn [set_store wire].
  match goal with |- context [set_wire ?w ?x] => assert (durable v cfg (set_wire w x)) as Hd2 end.
  { eapply durable_same; [..|exact Hd1]; done. }
  destruct sent; [by eexists true, _|].
  destruct (durable_registry v cfg _ (ReplicaRegistry.remove fd) Hd2) as (n3 & E3 & Hd3 & _).
  cbn [set_store wire] in E3. rewrite E3. by eexists false, n3.
Qed.

Lemma the_persistence_bind {A} n p (k : PersistenceManager → M Node A) :
  persistence_ n = Some p → (the_persistence ≫= k) n = k p n.
Proof. intros Hp. unfold the_persistence. unfold_M. by rewrite Hp. Qed.

Lemma the_replication_bind {A} n r (k : ReplicationManager → M Node A) :
  replication_ n = Some r → (the_replication ≫= k) n = k r n.
Proof. intros Hr. unfold the_replication. unfold_M. by rewrite Hr. Qed.

Lemma durable_spill v cfg n p bytes :
  durable v cfg n → persistence_ n = Some p → ∃ n', Persistence.spill bytes p n = Ok tt n' ∧ durable v cfg n'.
Proof.
  intros (d & m & Hh & Hsv & (w & snap & log & Hp & Ho & Hpa & Hu & Hs & Hl & Hf) & Hm) Hp'.
  rewrite Hp in Hp'. injection Hp' as <-. unfold Persistence.spill, Aof.spill. unfold_M. cbn [aofWriter_]. rewrite Ho.
  eexists. split; [reflexivity|]. exists d, m. split; [exact Hh|]. split; [done|]. split; [|done].
  exists (mkAof (path_ w) true (str_drop bytes (buffered w))), snap, log. pose proof Hu as (_ & Hne & _).
  simpl. rewrite !fs_contents_write, Hpa, decide_False, decide_True by done.
  by rewrite str_app_assoc, str_take_drop.
Qed.

Lemma durable_handleLine v cfg n fd now sent line o n' :
  durable v cfg n → safe_line line = true → respects v line = true → handleLine fd now sent line n = Ok o n' →
  durable v cfg n'.
Proof.
  intros Hd Hsafe Hv. unfold handleLine. destruct (negb (str_nonempty line)); [by unfold_M; intros; simplify_eq|].
  destruct (parse line) as [e|cmd] eqn:Hp.
  { destruct (durable_writeLine v cfg n fd (Reply.error (what e)) Hd) as (n1 & E1 & Hd1).
    rewrite (bind_Ok _ _ _ _ _ E1). unfold_M. by intros; simplify_eq. }
  case_bool_decide.
  { destruct (durable_beginSync v cfg n fd sent Hd) as (b & n1 & E1 & Hd1).
    rewrite (bind_Ok _ _ _ _ _ E1). unfold_M. by intros; simplify_eq. }
  pose proof Hd as (_ & _ & _ & _ & _ & _ & _ & [rep Hrep]).
  rewrite (the_replication_bind _ _ _ Hrep).
  destruct (isWriteCommand (type cmd) && bool_decide (role_ rep = REPLICA)).
  { destruct (durable_writeLine v cfg n fd Reply.readOnlyError Hd) as (n1 & E1 & Hd1).
    rewrite (bind_Ok _ _ _ _ _ E1). unfold_M. by intros; simplify_eq. }
  destruct (execute now cmd n) as [r n1|e n1|] eqn:E; [|by unfold_M; rewrite E..].
  destruct (durable_turn v cfg n now line cmd r n1) as (n2 & E2 & Hd2); [done..|].
  destruct (durable_writeLine v cfg n2 fd r Hd2) as (n3 & E3 & Hd3).
  rewrite (bind_Ok _ _ _ _ _ E), (bind_Ok _ _ _ _ _ E2), (bind_Ok _ _ _ _ _ E3). unfold_M.
  by intros; simplify_eq.
Qed.

(** A turn of the sweeper deletes nothing, or a key that had a deadline. *)
Lemma sweepTurn_spec now n c d n' :
  holds KVStore.represents n c d → sweepTurn now n = Ok tt n' →
  (persistence_ n' = persistence_ n ∧ replication_ n' = replication_ n ∧ fs n' = fs n ∧ wire n' = wire n) ∧
  ∃ d', holds KVStore.represents n' c d' ∧
    (d' = d ∨ ∃ k t, ttl d !! k = Some t ∧ (t ≤ now)%Z ∧ d' = mkData (Lru.remove k (entries d)) (delete k (ttl d))).
Proof.
  intros Hh. unfold sweepTurn. unfold_M. destruct (ExpiryManager.top _) as [e|] eqn:Htop; [|intros [= <-]; split; [done|]; exists d; by auto].
  destruct (Z.leb_spec (when e) now) as [Hle|]; [|intros [= <-]; split; [done|]; exists d; by auto].
  pose proof Hh as (Hs & Ht & Hc). destruct (ExpiryManager.top_is_top _ _ Htop) as [Hin _].
  destruct (ExpiryManager.pop_top e (expiry_ n)) as [live s] eqn:Epop.
  pose proof (ExpiryManager.covered_pop_top _ _ _ _ Hc Hin Epop) as Hc'.
  apply ExpiryManager.pop_top_cases in Epop as (_ & _ & [(-> & Hk & Hcur)|(-> & _ & Hcur)]).
  - unfold onExpire, on_store. unfold_M. cbn [store_ set_expiry].
    destruct (store_del _ _ _ (key e) Hs) as (s' & -> & Hs'). intros [= <-]. split; [done|].
    eexists. split; [|right; exists (key e), (when e); split_and!; [by rewrite <-Ht, Hk|done|reflexivity]].
    split; [done|]. split; [|done]. simpl. by rewrite Hcur, Ht.
  - intros [= <-]. split; [done|]. exists d. split; [|by left]. split; [done|]. split; [|done]. simpl. by rewrite Hcur.
Qed.

(** So the contents outside the keys that expire stay. *)
Lemma sweep_outside v now n d n' :
  holds KVStore.represents n 0 d → safe_event v n (Swept now) → sweepTurn now n = Ok tt n' →
  (persistence_ n' = persistence_ n ∧ replication_ n' = replication_ n ∧ fs n' = fs n ∧ wire n' = wire n) ∧
  ∃ d', holds KVStore.represents n' 0 d' ∧ outside v (Lru.contents (entries d)) (Lru.contents (entries d')) ∧
    (Forall (λ e, savable e = true) (entries d) → Forall (λ e, savable e = true) (entries d')).
Proof.
  intros Hh Hv E. destruct (sweepTurn_spec now n 0 d n' Hh E) as (Hn & d' & Hh' & Hd'). split; [done|].
  exists d'. split; [done|]. destruct Hd' as [->|(k & t & Hk & Ht & ->)]; [done|]. split; [|by apply Forall_remove].
  destruct Hh as (_ & He & _). simpl in Hv. rewrite He in Hv. pose proof (Hv k t Hk Ht).
  intros k' Hv'. simpl. rewrite contents_remove, lookup_delete_ne; congruence.
Qed.

Lemma durable_sweep v cfg n now n' :
  durable v cfg n → safe_event v n (Swept now) → sweepTurn now n = Ok tt n' → durable v cfg n'.
Proof.
  intros (d & m & Hh & Hsv & Hf & Hm & Ho & Hr) Hs E.
  destruct (sweep_outside v now n d n' Hh Hs E) as ((Hp & Hre & Hfs & _) & d' & Hh' & Ho' & Hsv').
  exists d', m. rewrite Hre. split_and!; try done; [apply Hh'..|by auto|by eapply durable_files_same|by etransitivity].
Qed.

Lemma durable_event v cfg n ev n' :
  durable v cfg n → safe_event v n ev → run_event ev n = Ok tt n' → durable v cfg n'.
Proof.
  intros Hd Hsafe. pose proof (durable_persistence v cfg n Hd) as [p Hp].
  destruct ev as [fd now sent line|fd|now line| |bytes| |now]; cbn [run_event safe_event] in *; rewrite ?(the_persistence_bind _ _ _ Hp).
  - destruct (handleLine fd now sent line n) as [o n1|e n1|] eqn:E; [|by unfold_M; rewrite E..].
    rewrite (bind_Ok _ _ _ _ _ E). intros [= <-]. destruct Hsafe. by eapply durable_handleLine.
  - destruct (durable_registry v cfg n (ReplicaRegistry.remove fd) Hd) as (n1 & E & ? & _).
    unfold endSync. rewrite E. by intros [= <-].
  - unfold applyReplicatedLine. destruct (parse line) as [e|cmd] eqn:Hl; [by intros [= <-]|]. destruct (joins_link cmd); [done|].
    destruct (execute now cmd n) as [r n1|e n1|] eqn:E; [|by unfold_M; rewrite E..].
    destruct (durable_turn v cfg n now line cmd r n1) as (n2 & E2 & Hd2); [done|done|apply Hsafe|apply Hsafe|done|].
    rewrite (bind_Ok _ _ _ _ _ E), E2. by intros [= <-].
  - destruct (durable_flush v cfg n p Hd Hp) as (n1 & -> & ?). by intros [= <-].
  - destruct (durable_spill v cfg n p bytes Hd Hp) as (n1 & -> & ?). by intros [= <-].
  - destruct (durable_save v cfg n p Hd Hp) as (n1 & -> & ?). by intros [= <-].
  - by eapply durable_sweep.
Qed.

(** The objects of a new process on files that stand for some contents. *)
Lemma construct_spec cfg f :
  usable cfg f →
  ∃ f', construct 0 cfg f =
    mkNode (KVStore.create 0) ExpiryManager.create 0 0 0
      (Some (mkPersistence cfg (mkAof (Persistence.aofPath cfg) true EmptyString)))
      (Some Replication.create) f' [] ∧
    usable cfg f' ∧ ∀ path, fs_contents path f' = fs_contents path f.
Proof.
  intros (? & ? & ? & ?). unfold construct, Persistence.create, Aof.create, fs_open_append.
  rewrite bool_decide_false by done. simpl. eexists. split; [reflexivity|]. split; [by split_and!|].
  intros path. rewrite fs_contents_write. by case_decide; subst.
Qed.

(** Starting on files that stand for [m] gives a process that holds [m], and
    leaves the files as they are. *)
Lemma start_on_files cfg f clock clock' snap log m :
  usable cfg f → (∀ i, sane_time (clock i)) → (∀ i, sane_time (clock' i)) →
  fs_contents (Persistence.snapshotPath cfg) f = log_text snap →
  fs_contents (Persistence.aofPath cfg) f = log_text log →
  forallb loggable (snap ++ log) = true → log_run (snap ++ log) ∅ = Some m →
  ∃ n d, start 0 cfg clock clock' f = Ok tt n ∧ holds KVStore.represents n 0 d ∧
         Lru.contents (entries d) = m ∧ durable_files cfg n m ∧ is_Some (replication_ n) ∧
         log_bytes cfg n = fs_contents (Persistence.aofPath cfg) f ∧ snapshot_bytes cfg n = fs_contents (Persistence.snapshotPath cfg) f.
Proof.
  intros Hu Ht Ht' Hs Hl Hf Hm. destruct (construct_spec cfg f Hu) as (f' & Hc & Hu' & Hfs).
  unfold start. rewrite Hc. erewrite the_persistence_bind by reflexivity.
  match goal with |- context [recover _ _ ?p ?n0] =>
    destruct (recover_spec KVStore.represents n0 clock clock' p snap log m) as (n & d & -> & Hh & Hd & Ha) end;
    [|by apply Hu|done|done|done|by simpl; rewrite Hfs|by simpl; rewrite Hfs|done|].
  { split_and!; [apply (store_create 0)|done|done]. }
  unfold attached in Ha. simpl in Ha. injection Ha as Hpe Hre Hfn _.
  exists n, d. split; [done|]. split; [exact Hh|]. split; [done|]. split; [|split; [by rewrite Hre|]].
  - eexists _, snap, log. split; [exact Hpe|]. rewrite Hfn, !Hfs. simpl. by rewrite str_app_nil_r.
  - unfold log_bytes, snapshot_bytes. rewrite Hfn, !Hfs, Hpe. simpl. by rewrite str_app_nil_r.
Qed.

Lemma start_spec cfg f clock clock' snap log m :
  usable cfg f → (∀ i, sane_time (clock i)) → (∀ i, sane_time (clock' i)) →
  fs_contents (Persistence.snapshotPath cfg) f = log_text snap →
  fs_contents (Persistence.aofPath cfg) f = log_text log →
  forallb loggable (snap ++ log) = true → log_run (snap ++ log) ∅ = Some m →
  ∃ n d, start 0 cfg clock clock' f = Ok tt n ∧ holds KVStore.represents n 0 d ∧
         Lru.contents (entries d) = m ∧ durable_files cfg n m ∧ is_Some (replication_ n).
Proof. intros. destruct (start_on_files cfg f clock clock' snap log m) as (n & d & ? & ? & ? & ? & ? & _); try done. by exists n, d. Qed.

Lemma savable_contents l : NoDup l.*1 → savable_map (Lru.contents l) → Forall (λ e, savable e = true) l.
Proof.
  intros Hnd Hm. rewrite Forall_forall. intros [k x] Hin. apply Hm. by apply elem_of_list_to_map.
Qed.

(** A flush and a restart on the files give what the files stand for. *)
Lemma files_restart cfg n m clock clock' :
  durable_files cfg n m → (∀ i, sane_time (clock i)) → (∀ i, sane_time (clock' i)) →
  ∃ nf n' d', run_event Flushed n = Ok tt nf ∧ start 0 cfg clock clock' (crash nf) = Ok tt n' ∧
    holds KVStore.represents n' 0 d' ∧ Lru.contents (entries d') = m ∧ durable_files cfg n' m ∧ is_Some (replication_ n').
Proof.
  intros Hf Ht Ht'. pose proof Hf as (w0 & _ & _ & Hp & _). simpl. rewrite (the_persistence_bind _ _ _ Hp).
  destruct (durable_files_flush cfg n _ _ Hf Hp) as (n1 & E1 & Hf1 & _ & _ & _ & p' & Hp' & Hb).
  destruct Hf1 as (w & snap & log & Hp1 & _ & _ & Hu & Hs & Hl & Hlg & Hrun). rewrite Hp1 in Hp'. simplify_eq.
  simpl in Hb. rewrite Hb, str_app_nil_r in Hl.
  destruct (start_spec cfg (fs n1) clock clock' snap log m) as (n' & d' & E' & ?); [done..|].
  by exists n1, n', d'.
Qed.

(** A flush and a restart keep the contents, and durability. *)
Lemma durable_restart v cfg n nf clock clock' :
  durable v cfg n → run_event Flushed n = Ok tt nf →
  (∀ i, sane_time (clock i)) → (∀ i, sane_time (clock' i)) →
  ∃ d n' d', holds KVStore.represents n 0 d ∧ start 0 cfg clock clock' (crash nf) = Ok tt n' ∧
    holds KVStore.represents n' 0 d' ∧ outside v (Lru.contents (entries d')) (Lru.contents (entries d)) ∧ durable v cfg n'.
Proof.
  intros (d & m & Hh & Hsv & Hf & Hm & Ho & Hr) E Ht Ht'.
  destruct (files_restart cfg n m clock clock' Hf Ht Ht') as (nf' & n' & d' & E1 & E' & Hh' & Hc & Hf' & Hr').
  rewrite E in E1. injection E1 as <-.
  exists d, n', d'. split; [done|]. split; [done|]. split; [done|]. rewrite Hc. split; [done|].
  exists d', m. split; [done|]. rewrite Hc. split_and!; try done.
  apply savable_contents; [|by rewrite Hc]. eapply (store_nodup (R := KVStore.represents)), Hh'.
Qed.

Lemma history_durable v cfg n : history v cfg n → durable v cfg n.
Proof.
  induction 1 as [f clock clock' n Hu H1 H2 Ht Ht' Hst|n ev n' _ IH Hs E|n nf clock clock' n' _ IH E Ht Ht' Hst].
  - unfold fs_read in *.
    destruct (start_spec cfg f clock clock' [] [] ∅) as (n0 & d & E & Hh & Hc & Hf & Hr);
      [done|done|done|unfold fs_contents; by rewrite H1|unfold fs_contents; by rewrite H2|done|done|].
    rewrite E in Hst. simplify_eq. exists d, ∅. rewrite Hc.
    split_and!; try done. apply savable_contents; [|by rewrite Hc].
    eapply (store_nodup (R := KVStore.represents)), Hh.
  - by eapply durable_event.
  - destruct (durable_restart v cfg n nf clock clock' IH E Ht Ht') as (d & n1 & d' & _ & E1 & _ & _ & Hd).
    rewrite E1 in Hst. by simplify_eq.
Qed.

(** ** The replica stream *)

Lemma sent_to_app fd n l :
  sent_to fd (set_wire (wire n ++ l) n) = sent_to fd n +:+ str_concat (filter (λ x, x.1 = fd) l).*2.
Proof. unfold sent_to. simpl. by rewrite filter_app, fmap_app, str_concat_app. Qed.

Lemma filter_sent (fd : Z) (data : string) (fds : list Z) :
  (filter (λ x, x.1 = fd) ((λ fd, (fd, data)) <$> fds)).*2 = (λ _, data) <$> filter (.= fd) fds.
Proof.
  induction fds as [|x fds IH]; [done|]. rewrite fmap_cons, !filter_cons. simpl.
  case_decide; [|done]. by rewrite !fmap_cons, IH.
Qed.

Lemma sent_to_propagate (fd : Z) line (fds : list Z) :
  filter (.= fd) fds = [fd] →
  str_concat (filter (λ x, x.1 = fd) ((λ fd, (fd, line +:+ String nl EmptyString)) <$> fds)).*2 =
  log_text [line].
Proof. rewrite filter_sent. by intros ->. Qed.

(** Streaming only looks at the data, the attachments and the wire. *)
Lemma streams_same v fd base n n' :
  store_ n' = store_ n → expiry_ n' = expiry_ n → is_Some (persistence_ n') →
  registered fd n' → sent_to fd n' = sent_to fd n → streams v fd base n → streams v fd base n'.
Proof.
  intros Hs He Hp Hr Hw (d & m & lines & Hh & Hsv & _ & _ & Hst). exists d, m, lines.
  unfold holds in *. rewrite Hs, He, Hw. done.
Qed.

Lemma streams_write v fd base n fd' data :
  fd' ≠ fd → streams v fd base n → streams v fd base (set_wire (wire n ++ [(fd', data)]) n).
Proof.
  intros Hne Hs. pose proof Hs as (_ & _ & _ & _ & _ & Hp & Hr & _). eapply streams_same; [..|exact Hs]; try done.
  rewrite sent_to_app, filter_cons_False by (simpl; congruence). simpl. by rewrite str_app_nil_r.
Qed.

Lemma streams_writeLine v fd base n fd' line :
  fd' ≠ fd → streams v fd base n → ∃ n', writeLine fd' line n = Ok tt n' ∧ streams v fd base n'.
Proof. intros. eexists. split; [reflexivity|]. by apply streams_write. Qed.

(** What saving, flushing and spilling leave alone. *)
Lemma save_frame p n n' :
  Persistence.save p n = Ok tt n' →
  store_ n' = store_ n ∧ expiry_ n' = expiry_ n ∧ replication_ n' = replication_ n ∧ wire n' = wire n ∧
  is_Some (persistence_ n').
Proof.
  unfold Persistence.save, SnapshotManager.saveToFile, SnapshotManager.save, KVStore.forEach, on_store. unfold_M.
  intros H. repeat case_match; simplify_eq/=; by eauto 10.
Qed.

Lemma flush_frame p n n' :
  Persistence.flush p n = Ok tt n' ∨ (∃ bytes, Persistence.spill bytes p n = Ok tt n') →
  store_ n' = store_ n ∧ expiry_ n' = expiry_ n ∧ replication_ n' = replication_ n ∧ wire n' = wire n ∧
  is_Some (persistence_ n').
Proof.
  unfold Persistence.flush, Persistence.spill. unfold_M.
  intros [H|[bytes H]]; repeat case_match; simplify_eq/=; by eauto 10.
Qed.

Lemma streams_frame v fd base n n' :
  streams v fd base n →
  store_ n' = store_ n ∧ expiry_ n' = expiry_ n ∧ replication_ n' = replication_ n ∧ wire n' = wire n ∧
  is_Some (persistence_ n') → streams v fd base n'.
Proof.
  intros Hs (? & ? & Hr & Hw & ?). pose proof Hs as (_ & _ & _ & _ & _ & _ & Hreg & _).
  eapply streams_same; [..|exact Hs]; try done.
  - unfold registered in *. by rewrite Hr.
  - unfold sent_to. by rewrite Hw.
Qed.

Lemma streams_admin v fd base n now cmd r n' :
  streams v fd base n → data_command (type cmd) = false → execute now cmd n = Ok r n' → streams v fd base n'.
Proof.
  intros Hs Hc E. pose proof Hs as (_ & _ & _ & _ & _ & [p Hp] & (rep & Hrep & Hreg) & _).
  assert (streams v fd base (set_counters (wrap64 (totalCommands_ n + 1)) (totalHits_ n) (totalMisses_ n) n)) as Hs1.
  { eapply streams_frame; [exact Hs|]. by eauto 10. }
  unfold execute in E. destruct (type cmd); try discriminate Hc.
  - destruct (args cmd); unfold_M; [|by simplify_eq]. simpl in E. rewrite Hp in E.
    case_match eqn:E1; simplify_eq. eapply streams_frame; [exact Hs1|]. destruct a. by eapply save_frame.
  - unfold_M. simpl in E. repeat (case_match; rewrite ?Hrep in *; simplify_eq/=; try done).
    all: eapply streams_same; [..|exact Hs1]; try done.

    all: eexists; split; [reflexivity|]; simpl; unfold Replication.stop_link; by destruct (replicaLink_ rep).
Qed.

Lemma streams_turn v fd base n now line cmd r n1 :
  streams v fd base n → parse line = inr cmd → safe_line line = true → respects v line = true →
  execute now cmd n = Ok r n1 →
  ∃ n2, recordAndPropagateIfWrite cmd line r n1 = Ok tt n2 ∧ streams v fd base n2.
Proof.
  intros Hst Hp Hsafe Hv E.
  pose proof Hst as (d & m & lines & Hh & Hsv & [p Hpe] & (rep & Hrep & Hreg) & Hsent & Hlog & Hrun & Ho).
  unfold safe_line in Hsafe. rewrite Hp in Hsafe. destruct_bools.
  destruct (execute_holds KVStore.represents n 0 d now cmd r n1 Hh E)
    as (d1 & Hh1 & [(Hdc & Hx & (Hpe1 & Hre1 & Hfs1 & Hw1 & _))|(Hdc & ->)]).
  - pose proof (spec_savable _ _ _ _ _ _ _ Hp ltac:(by apply Z.leb_le) Hx Hsv) as Hsv1.
    unfold recordAndPropagateIfWrite. destruct (succeeded r && isWriteCommand (type cmd)) eqn:Hw.
    + destruct_bools.
      assert (line_step line (Lru.contents (entries d)) = Some (Lru.contents (entries d1))) as Hstep.
      { unfold line_step. rewrite Hp. destruct line; [done|]. simpl. by eapply spec_contents. }
      destruct (line_step_outside v line _ m _ Hv (symmetry Ho) Hstep) as (m' & Hstep' & Ho' & _).
      rewrite (the_persistence_bind _ p) by congruence.
      destruct (Persistence.recordWrite line p n1) as [[] n2|? ?|] eqn:E2;
        [|unfold Persistence.recordWrite in E2; unfold_M; by case_match..].
      assert (store_ n2 = store_ n1 ∧ expiry_ n2 = expiry_ n1 ∧ replication_ n2 = replication_ n1 ∧
        wire n2 = wire n1 ∧ is_Some (persistence_ n2)) as (Hs2 & He2 & Hr2 & Hw2 & Hp2).
      { unfold Persistence.recordWrite in E2. unfold_M. case_match; simplify_eq; simpl; eauto 10.
        rewrite Hpe1, Hpe. eauto 10. }
      rewrite (bind_Ok _ _ _ _ _ E2), (the_replication_bind _ rep) by congruence.
      unfold ReplicaRegistry.propagate. rewrite Replication.propagate_to_wire.
      eexists. split; [reflexivity|]. exists d1, m', (lines ++ [line]).
      split; [unfold holds in *; simpl; by rewrite Hs2, He2|]. split; [done|]. split; [done|].
      split; [exists rep; simpl; split; congruence|].
      rewrite sent_to_app, sent_to_propagate, log_text_app, <-str_app_assoc by done.
      split; [f_equal; unfold sent_to in *; congruence|].
      split; [rewrite forallb_app, Hlog; simpl; unfold loggable; rewrite Hp; by repeat (apply andb_true_iff; split)|].
      split; [rewrite log_run_app, Hrun; simpl; by rewrite Hstep'|by symmetry].
    + exists n1. split; [done|]. exists d1, m, lines. split; [done|]. split; [done|].
      split; [rewrite Hpe1; eauto|]. split; [exists rep; by rewrite Hre1|].
      split; [unfold sent_to in *; by rewrite Hw1|]. split; [done|]. split; [done|].
      destruct (spec_unrecorded _ _ _ _ _ _ Hx) as [-> _]; [by rewrite andb_comm|done].
  - exists n1. split; [|by eapply streams_admin]. unfold recordAndPropagateIfWrite.
    destruct (type cmd); try discriminate Hdc; by rewrite andb_false_r.
Qed.

Lemma streams_registry v fd base n f n' :
  streams v fd base n →
  (∀ r, filter (.= fd) (replicaFds_ (f r)) = filter (.= fd) (replicaFds_ r)) →
  on_registry f n = Ok tt n' → streams v fd base n'.
Proof.
  intros Hs Hf. pose proof Hs as (_ & _ & _ & _ & _ & Hp & (rep & Hrep & Hreg) & _).
  unfold on_registry. rewrite (the_replication_bind _ _ _ Hrep). intros [= <-].
  eapply streams_same; [..|exact Hs]; try done. exists (f rep). by rewrite Hf.
Qed.

Lemma registry_add_other (fd fd' : Z) r :
  fd' ≠ fd → filter (.= fd) (replicaFds_ (ReplicaRegistry.add fd' r)) = filter (.= fd) (replicaFds_ r).
Proof. intros. simpl. by rewrite filter_app, filter_cons_False, app_nil_r by done. Qed.

Lemma registry_remove_other (fd fd' : Z) r :
  fd' ≠ fd → filter (.= fd) (replicaFds_ (ReplicaRegistry.remove fd' r)) = filter (.= fd) (replicaFds_ r).
Proof. intros. simpl. rewrite list_filter_filter. apply list_filter_iff. naive_solver. Qed.

Lemma streams_beginSync v fd base n fd' sent b n' :
  fd' ≠ fd → streams v fd base n → beginSync fd' sent n = Ok b n' → streams v fd base n'.
Proof.
  intros Hne Hs. pose proof Hs as (_ & _ & _ & _ & _ & _ & (rep & Hrep & _) & _). unfold beginSync.
  destruct (on_registry (ReplicaRegistry.add fd') n) as [[] n1|? ?|] eqn:E1;
    [|unfold on_registry in E1; by rewrite (the_replication_bind _ _ _ Hrep) in E1..].
  rewrite (bind_Ok _ _ _ _ _ E1).
  apply (streams_registry v fd base) in E1; [|done|intros; by apply registry_add_other].
  pose proof E1 as (d & _ & _ & (Hst & _) & _).
  unfold on_store, writeRaw. unfold_M. rewrite (save_spec KVStore.represents _ _ _ Hst). cbn [set_store wire].
  match goal with |- context [set_wire ?w ?x] => assert (streams v fd base (set_wire w x)) as Hs2 end.
  { apply (streams_write v fd base (set_store (store_ n1) n1) fd'); [done|by destruct n1]. }
  cbn [set_store wire] in Hs2. destruct sent; [by intros [= <- <-]|].
  case_match eqn:E3; intros; simplify_eq. destruct a.
  eapply streams_registry; [exact Hs2| |exact E3]. intros. by apply registry_remove_other.
Qed.

Lemma streams_handleLine v fd base n fd' now sent line o n' :
  fd' ≠ fd → streams v fd base n → safe_line line = true → respects v line = true →
  handleLine fd' now sent line n = Ok o n' → streams v fd base n'.
Proof.
  intros Hne Hs Hsafe Hv. unfold handleLine. destruct (negb (str_nonempty line)); [by unfold_M; intros; simplify_eq|].
  destruct (parse line) as [e|cmd] eqn:Hp.
  { destruct (streams_writeLine v fd base n fd' (Reply.error (what e)) Hne Hs) as (n1 & E1 & Hs1).
    rewrite (bind_Ok _ _ _ _ _ E1). unfold_M. by intros; simplify_eq. }
  case_bool_decide.
  { destruct (beginSync fd' sent n) as [b n1|? ?|] eqn:E1; [|by unfold_M; rewrite E1..].
    rewrite (bind_Ok _ _ _ _ _ E1). unfold_M. intros. simplify_eq. by eapply streams_beginSync. }
  pose proof Hs as (_ & _ & _ & _ & _ & _ & (rep & Hrep & _) & _).
  rewrite (the_replication_bind _ _ _ Hrep).
  destruct (isWriteCommand (type cmd) && bool_decide (role_ rep = REPLICA)).
  { destruct (streams_writeLine v fd base n fd' Reply.readOnlyError Hne Hs) as (n1 & E1 & Hs1).
    rewrite (bind_Ok _ _ _ _ _ E1). unfold_M. by intros; simplify_eq. }
  destruct (execute now cmd n) as [r n1|e n1|] eqn:E; [|by unfold_M; rewrite E..].
  destruct (streams_turn v fd base n now line cmd r n1) as (n2 & E2 & Hs2); [done..|].
  destruct (streams_writeLine v fd base n2 fd' r Hne Hs2) as (n3 & E3 & Hs3).
  rewrite (bind_Ok _ _ _ _ _ E), (bind_Ok _ _ _ _ _ E2), (bind_Ok _ _ _ _ _ E3). unfold_M.
  by intros; simplify_eq.
Qed.

Lemma streams_sweep v fd base n now n' :
  streams v fd base n → safe_event v n (Swept now) → sweepTurn now n = Ok tt n' → streams v fd base n'.
Proof.
  intros (d & m & lines & Hh & Hsv & Hp & Hreg & Hsent & Hl & Hrun & Ho) Hs E.
  destruct (sweep_outside v now n d n' Hh Hs E) as ((Hpe & Hre & _ & Hw) & d' & Hh' & Ho' & Hsv').
  exists d', m, lines. unfold registered, sent_to in *. rewrite Hpe, Hre, Hw.
  split_and!; try done; [apply Hh'..|by auto|by etransitivity].
Qed.

Lemma streams_event v fd base n ev n' :
  streams v fd base n → safe_event v n ev → elsewhere fd ev → run_event ev n = Ok tt n' → streams v fd base n'.
Proof.
  intros Hs Hsafe Hel. pose proof Hs as (_ & _ & _ & _ & _ & [p Hp] & _).
  destruct ev as [fd' now sent line|fd'|now line| |bytes| |now]; cbn [run_event safe_event elsewhere] in *;
    rewrite ?(the_persistence_bind _ _ _ Hp).
  - destruct (handleLine fd' now sent line n) as [o n1|e n1|] eqn:E; [|by unfold_M; rewrite E..].
    rewrite (bind_Ok _ _ _ _ _ E). intros [= <-]. destruct Hsafe. by eapply streams_handleLine.
  - intros E. eapply streams_registry; [exact Hs| |exact E]. intros. by apply registry_remove_other.
  - unfold applyReplicatedLine. destruct (parse line) as [e|cmd] eqn:Hl; [by intros [= <-]|]. destruct (joins_link cmd); [done|].
    destruct (execute now cmd n) as [r n1|e n1|] eqn:E; [|by unfold_M; rewrite E..].
    destruct (streams_turn v fd base n now line cmd r n1) as (n2 & E2 & Hs2); [done|done|apply Hsafe|apply Hsafe|done|].
    rewrite (bind_Ok _ _ _ _ _ E), E2. by intros [= <-].
  - intros E. eapply streams_frame; [exact Hs|]. eapply flush_frame. by left.
  - intros E. eapply streams_frame; [exact Hs|]. eapply flush_frame. by right; eexists.
  - intros E. eapply streams_frame; [exact Hs|]. by eapply save_frame.
  - by eapply streams_sweep.
Qed.

Lemma streams_events v fd base n evs n' :
  streams v fd base n → safe_events v evs n → Forall (elsewhere fd) evs →
  run_events evs n = Ok tt n' → streams v fd base n'.
Proof.
  intros Hs Hev Hel. revert n Hs Hev. induction Hel as [|ev evs Hel _ IH]; intros n Hs Hev; simpl.
  { by intros [= <-]. }
  destruct Hev as [Hsafe Hev]. destruct (run_event ev n) as [[] n1|? ?|] eqn:E; [|by unfold_M; rewrite E..].
  rewrite (bind_Ok _ _ _ _ _ E). apply IH; [by eapply streams_event|by auto].
Qed.

Lemma filter_notin (fd : Z) l : fd ∉ l → filter (.= fd) l = [].
Proof.
  induction l as [|x l IH]; [done|]. rewrite not_elem_of_cons. intros [Hx Hl].
  rewrite filter_cons_False by congruence. auto.
Qed.

(** SYNC starts the stream with a dump of the contents. *)
Lemma streams_begin v cfg fd n r b n' :
  durable v cfg n → replication_ n = Some r → fd ∉ replicaFds_ r →
  beginSync fd true n = Ok b n' → streams v fd (sent_to fd n) n'.
Proof.
  intros (d & m & Hh & Hsv & Hf & _) Hr Hfd. pose proof Hh as (Hst & _). pose proof Hf as (w & _ & _ & Hp & _).
  unfold beginSync, on_registry. unfold the_replication, on_store, writeRaw. unfold_M. rewrite Hr. cbn [store_ set_replication].
  rewrite (save_spec KVStore.represents _ _ _ Hst). cbn [set_store set_replication wire]. intros [= _ <-].
  exists d, (Lru.contents (entries d)), (snapshot_line <$> entries d).
  split; [exact Hh|]. split; [done|]. split; [simpl; by rewrite Hp|].
  assert (forallb savable (entries d) = true) as Hsv'.
  { apply forallb_forall. intros e He%list_elem_of_In. rewrite Forall_forall in Hsv. auto. }
  split.
  { eexists. split; [reflexivity|]. simpl. rewrite filter_app, filter_cons_True, filter_nil by done.
    by rewrite filter_notin. }
  split.
  { unfold sent_to. simpl. rewrite filter_app, fmap_app, str_concat_app, filter_cons_True by done. simpl.
    by rewrite str_app_nil_r. }
  split; [by apply snapshot_lines_loggable|]. split; [|done]. rewrite log_run_snapshot; [by rewrite map_union_empty|done|].
  by eapply (store_nodup (R := KVStore.represents)).
Qed.

Lemma spec_timeless c now line cmd d r d' :
  parse line = inr cmd → timeless line = true → spec_execute c now cmd d = Some (r, d') → ttl d = ∅ → ttl d' = ∅.
Proof.
  intros Hp Ht Hx Hd. unfold timeless in Ht. rewrite Hp in Ht. unfold spec_execute, spec_increment in Hx.
  destruct (type cmd); try done; destruct (args cmd) as [|a0 [|a1 [|a2 [|a3 [|]]]]];
    repeat (case_match || simplify_option_eq || done); simpl; by rewrite ?Hd, ?delete_empty.
Qed.

(** A replica that applies loggable lines follows [log_run]. *)
Lemma applyReplicatedLine_spec n d now line m' :
  holds KVStore.represents n 0 d → is_Some (persistence_ n) → is_Some (replication_ n) →
  loggable line = true → sane_time now → line_step line (Lru.contents (entries d)) = Some m' →
  ∃ n' d', applyReplicatedLine now line n = Ok tt n' ∧ holds KVStore.represents n' 0 d' ∧
    Lru.contents (entries d') = m' ∧ is_Some (persistence_ n') ∧ replication_ n' = replication_ n ∧
    (timeless line = true → ttl d = ∅ → ttl d' = ∅).
Proof.
  intros Hh [p Hp] [rep Hrep] Hl Ht Hs. unfold loggable in Hl. destruct_bools.
  unfold line_step, applyReplicatedLine in *.
  destruct (parse line) as [e|cmd] eqn:Hpl; [done|]. destruct line as [|a line]; [done|]. simpl in Hs. destruct_bools.
  assert (joins_link cmd = false) as -> by (unfold joins_link; by destruct (type cmd)).
  assert (data_command (type cmd) = true) as Hd by by destruct (type cmd).
  destruct (spec_defined now cmd d m') as [[r d'] Hx]; [done..|].
  pose proof (execute_data KVStore.represents n 0 d now cmd Hh Hd) as Hex. rewrite Hx in Hex.
  destruct Hex as (n1 & E & Hh1 & (Hp1 & Hr1 & _)). rewrite (bind_Ok _ _ _ _ _ E).
  pose proof (λ H, spec_timeless _ _ _ _ _ _ _ Hpl H Hx) as Htl.
  apply spec_contents in Hx. assert (Lru.contents (entries d') = m') as Hc by congruence.
  unfold recordAndPropagateIfWrite. case_match; [|exists n1, d'; rewrite Hp1, Hr1, Hp, Hrep; eauto 10].
  rewrite (the_persistence_bind _ p) by congruence.
  unfold Persistence.recordWrite, ReplicaRegistry.propagate, the_replication. unfold_M.
  destruct (negb (appendOnly (config_ p))); simpl; rewrite Hr1, Hrep, Replication.propagate_to_wire.
  all: eexists _, d'; split; [reflexivity|]; simpl; rewrite ?Hp1, ?Hr1, ?Hp, ?Hrep; eauto 10.
Qed.

Lemma apply_stream_spec clock i lines n d m' :
  holds KVStore.represents n 0 d → is_Some (persistence_ n) → is_Some (replication_ n) →
  forallb loggable lines = true → (∀ i, sane_time (clock i)) →
  log_run lines (Lru.contents (entries d)) = Some m' →
  ∃ n' d', apply_stream clock i lines n = Ok tt n' ∧ holds KVStore.represents n' 0 d' ∧
           Lru.contents (entries d') = m' ∧ is_Some (persistence_ n') ∧ replication_ n' = replication_ n ∧
           (forallb timeless lines = true → ttl d = ∅ → ttl d' = ∅).
Proof.
  intros Hh Hp Hr Hl Ht. revert i n d Hh Hp Hr. induction lines as [|line lines IH]; intros i n d Hh Hp Hr Hrun; simpl in *.
  { simplify_eq. eauto 10. }
  destruct_bools. apply bind_Some in Hrun as (m1 & H1 & Hrun).
  destruct (applyReplicatedLine_spec n d (clock i) line m1) as (n1 & d1 & E1 & Hh1 & Hc1 & Hp1 & Hr1 & Ht1); [done..|].
  rewrite <-Hc1 in Hrun. rewrite <-Hr1 in Hr.
  destruct (IH ltac:(done) (S i) n1 d1 Hh1 Hp1 Hr Hrun) as (n2 & d2 & E2 & ? & ? & ? & Hr2 & Ht2).
  exists n2, d2. rewrite (bind_Ok _ _ _ _ _ E1). split; [done|]. split; [done|]. split; [done|]. split; [done|].
  split; [congruence|]. intros [? ?]%andb_true_iff Hd. auto.
Qed.

(** Failed attempts change nothing. *)
Lemma runLoop_failed failed attempts n :
  forallb (λ a, negb (link_connected a && sync_sent a)) failed = true →
  runLoop (failed ++ attempts) n = runLoop attempts n.
Proof.
  induction failed as [|a failed IH]; [done|]. simpl. intros H. destruct_bools.
  rewrite <-IH by done. unfold link_turn. by destruct (link_connected a), (sync_sent a).
Qed.

(** A new process holds nothing. *)
Lemma construct_empty cfg f :
  holds KVStore.represents (construct 0 cfg f) 0 (mkData [] ∅) ∧
  is_Some (persistence_ (construct 0 cfg f)) ∧ is_Some (replication_ (construct 0 cfg f)).
Proof.
  unfold construct, Persistence.create, Aof.create.
  case_match; (split; [split; [apply (store_create 0)|done]|by split; eexists]).
Qed.

(** Runs of a server stay in its history. *)
Lemma history_run v cfg n evs n' :
  history v cfg n → safe_events v evs n → run_events evs n = Ok tt n' → history v cfg n'.
Proof.
  revert n. induction evs as [|ev evs IH]; intros n Hh; simpl.
  { intros _. by intros [= <-]. }
  intros [Hsafe Hev]. destruct (run_event ev n) as [[] n1|? ?|] eqn:E; [|by unfold_M; rewrite E..].
  rewrite (bind_Ok _ _ _ _ _ E). apply IH; [by eapply hist_event|by auto].
Qed.

(** ** Properties *)

Section properties.
Import KVStore (represents).

(** C2: Durability: in a safe history, a flush followed by the end of the process
    and a restart gives a server with the same keys and values, however often
    the log's buffer spilled, snapshots were taken, the sweeper ran and the
    server was restarted before. Left out are the keys [v] that the sweeper may
    take: expirations are not logged. A safe history ([history v cfg]) is one of
    an unbounded server with the append-only file on and both files usable,
    started on empty files: every request and replicated line has at most 8172
    bytes and no expiry argument over 4,000,000,000 seconds, no INCR or DECR is
    of a key in [v], the sweeper takes no other keys than those, restarts come
    after a flush, and nothing on the way was undefined. *)
Theorem restart_preserves_contents (v : string → bool) (cfg : PersistenceConfig) (n : Node) (clock clock' : nat → Z) :
  history v cfg n → (∀ i, sane_time (clock i)) → (∀ i, sane_time (clock' i)) →
  ∃ nf n' d d', run_event Flushed n = Ok tt nf ∧ start 0 cfg clock clock' (crash nf) = Ok tt n' ∧
    holds represents n 0 d ∧ holds represents n' 0 d' ∧
    outside v (Lru.contents (entries d')) (Lru.contents (entries d)).
Proof.
  intros Hd%history_durable Ht Ht'. destruct (durable_persistence v cfg n Hd) as [p Hp].
  destruct (durable_flush v cfg n p Hd Hp) as (nf & E & _).
  assert (run_event Flushed n = Ok tt nf) as E' by (simpl; by rewrite (the_persistence_bind _ _ _ Hp)).
  destruct (durable_restart v cfg n nf clock clock' Hd E' Ht Ht') as (d & n' & d' & ? & ? & ? & ? & _).
  exists nf, n', d, d'. done.
Qed.

Lemma sample_usable : usable defaultPersistenceConfig (mkFS ∅ ∅).
Proof. split_and!; [done|by vm_compute|set_solver|set_solver]. Qed.

Lemma sample_history v : v "hits" = false → history v defaultPersistenceConfig sample_node.
Proof.
  intros Hv. eapply (history_run _ _ (state_of sample_start) sample_events).
  - eapply (hist_boot _ _ (mkFS ∅ ∅) (λ _, 0%Z) (λ _, 0%Z)); [apply sample_usable|done|done|done|done|].
    vm_compute. reflexivity.
  - repeat (split; [try split; vm_compute; rewrite ?Hv; done|intros ? _]). done.
  - vm_compute. reflexivity.
Qed.

Lemma session_history : history is_session defaultPersistenceConfig session_node.
Proof.
  eapply (hist_event _ _ (state_of (run_events [Requested 4 0 true "SET session x EX 1"] sample_node)) (Swept 2000000000)).
  - eapply (history_run _ _ sample_node [Requested 4 0 true "SET session x EX 1"]); [by apply sample_history| |].
    + split; [by split; vm_compute|intros ? _]. done.
    + vm_compute. reflexivity.
  - apply (bool_decide_eq_true_1 _). vm_compute. reflexivity.
  - vm_compute. reflexivity.
Qed.

Theorem restart_preserves_contents_witness :
  value_of "session" session_node = None ∧
  ∃ nf n' d d', run_event Flushed session_node = Ok tt nf ∧
    start 0 defaultPersistenceConfig (λ _, 0%Z) (λ _, 0%Z) (crash nf) = Ok tt n' ∧
    holds represents session_node 0 d ∧ holds represents n' 0 d' ∧
    outside is_session (Lru.contents (entries d')) (Lru.contents (entries d)).
Proof.
  split; [vm_compute; reflexivity|].
  apply (restart_preserves_contents is_session defaultPersistenceConfig session_node (λ _, 0%Z) (λ _, 0%Z) session_history); done.
Defined.

(** C5: Replication: a replica that starts empty, whose link at last reaches the
    primary after any number of failed attempts, and that applies, line by
    line, what the primary sends on its connection from SYNC on, holds the
    primary's keys and values, for every later safe history of the primary in
    which the stream stays up (other replicas and clients may come and go). As
    after a restart, the keys [v] that the primary's sweeper may have taken are
    left out: expirations are not sent. Safe is as for restarts: the primary is
    unbounded, lines have at most 8172 bytes, expiry arguments are sane, and no
    key in [v] is counted; turns are not interrupted ([Journal] is about that). *)
Theorem replica_converges (v : string → bool) (cfg cfg' : PersistenceConfig) (n0 n1 n2 : Node) (fd : Z)
    (r : ReplicationManager) (b : bool) (evs : list event) (f : FS) (clock : nat → Z) (failed : list LinkAttempt) :
  history v cfg n0 → replication_ n0 = Some r → fd ∉ replicaFds_ r →
  beginSync fd true n0 = Ok b n1 →
  safe_events v evs n1 → Forall (elsewhere fd) evs → run_events evs n1 = Ok tt n2 →
  (∀ i, sane_time (clock i)) →
  forallb (λ a, negb (link_connected a && sync_sent a)) failed = true →
  ∃ bytes nr dp dr,
    sent_to fd n2 = sent_to fd n0 +:+ bytes ∧
    runLoop (failed ++ [mkLinkAttempt true true (lines_of nl bytes) clock]) (construct 0 cfg' f) = Ok tt nr ∧
    holds represents n2 0 dp ∧ holds represents nr 0 dr ∧
    outside v (Lru.contents (entries dr)) (Lru.contents (entries dp)).
Proof.
  intros Hd%history_durable Hr Hfd Hb Hev Hel Hrun Ht Hfail.
  pose proof (streams_events _ _ _ _ _ _ (streams_begin v cfg fd n0 r b n1 Hd Hr Hfd Hb) Hev Hel Hrun)
    as (dp & m & lines & Hh & _ & _ & _ & Hsent & Hlog & Hlr & Ho).
  destruct (construct_empty cfg' f) as (Hh0 & Hp0 & Hr0).
  destruct (apply_stream_spec clock 0 lines (construct 0 cfg' f) (mkData [] ∅) m)
    as (nr & dr & E & Hhr & Hc & _); [done..|].
  exists (log_text lines), nr, dp, dr. rewrite runLoop_failed, Hc by done.
  rewrite lines_of_log by (by apply loggable_no_nl). simpl. unfold link_turn. simpl.
  by rewrite (bind_Ok _ _ _ _ _ E).
Qed.

Theorem replica_converges_witness :
  ∃ n2 bytes nr dp dr,
    run_events [Requested 8 0 true "SET b 2"; Requested 8 0 true "INCR hits"]
      (state_of (beginSync 7 true session_node)) = Ok tt n2 ∧
    sent_to 7 n2 = sent_to 7 session_node +:+ bytes ∧
    runLoop [mkLinkAttempt false false [] (λ _, 0%Z); mkLinkAttempt true true (lines_of nl bytes) (λ _, 0%Z)]
      (construct 0 defaultPersistenceConfig (mkFS ∅ ∅)) = Ok tt nr ∧
    holds represents n2 0 dp ∧ holds represents nr 0 dr ∧
    outside is_session (Lru.contents (entries dr)) (Lru.contents (entries dp)).
Proof.
  eexists. destruct (replica_converges is_session defaultPersistenceConfig defaultPersistenceConfig session_node
    (state_of (beginSync 7 true session_node))
    (state_of (run_events [Requested 8 0 true "SET b 2"; Requested 8 0 true "INCR hits"]
                (state_of (beginSync 7 true session_node))))
    7 Replication.create true [Requested 8 0 true "SET b 2"; Requested 8 0 true "INCR hits"] (mkFS ∅ ∅) (λ _, 0%Z)
    [mkLinkAttempt false false [] (λ _, 0%Z)])
    as (bytes & nr & dp & dr & H1 & H2 & H3 & H4 & H5).
  - exact session_history.
  - vm_compute. reflexivity.
  - apply not_elem_of_nil.
  - vm_compute. reflexivity.
  - repeat (split; [split; vm_compute; reflexivity|intros ? _]). exact I.
  - repeat (apply List.Forall_cons; [vm_compute; discriminate|]). apply List.Forall_nil.
  - vm_compute. reflexivity.
  - done.
  - reflexivity.
  - exists bytes, nr, dp, dr. split; [vm_compute; reflexivity|]. split; [exact H1|]. split; [exact H2|].
    split; [exact H3|]. split; [exact H4|exact H5].
Defined.

(** [save] does not look at the result of [saveToFile]: when the snapshot cannot
    be written, SAVE still answers +OK and empties the append-only file, and
    what the file had recorded since the last good snapshot is gone. *)
Theorem failed_save_drops_log (cfg : PersistenceConfig) (n : Node) (w : AofWriter) (now : Z) :
  persistence_ n = Some (mkPersistence cfg w) → path_ w = Persistence.aofPath cfg → file_open w = true →
  Persistence.snapshotPath cfg ∈ unwritable (fs n) → Persistence.aofPath cfg ∉ unwritable (fs n) →
  ∃ n', execute now (mkCommand SAVE "SAVE" []) n = Ok Reply.ok n' ∧
    fs_contents (Persistence.aofPath cfg) (fs n') = EmptyString ∧
    fs_contents (Persistence.snapshotPath cfg) (fs n') = fs_contents (Persistence.snapshotPath cfg) (fs n).
Proof.
  intros Hp Hpa Ho Hs Ha. unfold execute. unfold_M. cbn [type args persistence_ set_counters]. rewrite Hp.
  unfold Persistence.save, SnapshotManager.saveToFile, fs_open_trunc. unfold_M. cbn [config_ aofWriter_ fs set_counters].
  rewrite bool_decide_true by done. cbn [fs set_counters].
  destruct (reset_trunc w (fs n)) as (f' & -> & _ & Hc); [done|by rewrite Hpa|].
  eexists. split; [reflexivity|]. simpl. rewrite !Hc, Hpa, decide_True, decide_False by (done || congruence || set_solver).
  done.
Qed.

Theorem failed_save_drops_log_witness :
  let f := mkFS ∅ {["./data/dump.tkv"]} in
  ∃ n', run_events [Requested 4 0 true "SET k v"; Flushed] (construct 0 defaultPersistenceConfig f) = Ok tt n' ∧
    value_after_restart "k" n' = Some "v" ∧
    ∃ n2, execute 0 (mkCommand SAVE "SAVE" []) n' = Ok Reply.ok n2 ∧
          fs_contents (Persistence.aofPath defaultPersistenceConfig) (fs n2) = EmptyString ∧
          value_after_restart "k" n2 = None.
Proof.
  intros f. set (n' := state_of (run_events [Requested 4 0 true "SET k v"; Flushed] (construct 0 defaultPersistenceConfig f))).
  exists n'. split; [vm_compute; reflexivity|]. split; [vm_compute; reflexivity|].
  destruct (failed_save_drops_log defaultPersistenceConfig n'
    (mkAof "./data/tinykv.aof" true EmptyString) 0) as (n2 & H1 & H2 & _);
    [vm_compute; reflexivity|reflexivity|reflexivity
    |apply (bool_decide_eq_true_1 _); vm_compute; reflexivity
    |apply (bool_decide_eq_false_1 _); vm_compute; reflexivity|].
  exists n2. split; [exact H1|]. split; [exact H2|].
  assert (n2 = state_of (execute 0 (mkCommand SAVE "SAVE" []) n')) as -> by (rewrite H1; reflexivity).
  vm_compute. reflexivity.
Defined.

(** Execution and recording are not one critical section: two connections can
    execute SET k a and SET k b in this order and record them in the other, so
    that the file (and every replica) ends with the value the server has
    replaced. *)
Theorem log_order_can_differ :
  ∃ n, (x ← executed "SET k a"; y ← executed "SET k b"; recorded y;; recorded x;; run_event Flushed)
         (state_of sample_start) = Ok tt n ∧
       value_of "k" n = Some "b" ∧ value_after_restart "k" n = Some "a".
Proof. eexists. split; [vm_compute; reflexivity|]. split; vm_compute; reflexivity. Qed.

(** A crash between the snapshot and the reset of the log applies the
    increments of the log twice. *)
Theorem crash_inside_save_counts_twice :
  ∃ n, (run_events [Requested 4 0 true "INCR hits"; Flushed];;
        SnapshotManager.saveToFile (Persistence.snapshotPath defaultPersistenceConfig))
         (state_of sample_start) = Ok true n ∧
       value_of "hits" n = Some "1" ∧ value_after_restart "hits" n = Some "2".
Proof. eexists. split; [vm_compute; reflexivity|]. split; vm_compute; reflexivity. Qed.

(** A crash after the log's buffer spilled in the middle of a line: the cut
    line is replayed as a command of its own. *)
Theorem torn_line_is_replayed :
  ∃ n, run_events [Requested 4 0 true "SET balance 12345"; Spilled 14] (state_of sample_start) = Ok tt n ∧
       value_of "balance" n = Some "12345" ∧ value_after_restart "balance" n = Some "12".
Proof. eexists. split; [vm_compute; reflexivity|]. split; vm_compute; reflexivity. Qed.

(** Expirations are neither logged nor propagated: a counter that starts anew
    after its key expired goes on from the old value after a restart. *)
Theorem expired_counter_resumes_after_restart :
  ∃ n, run_events [Requested 4 0 true "SET c 41 EX 1"; Swept 1000000000; Requested 4 2000000000 true "INCR c";
                   Flushed] (state_of sample_start) = Ok tt n ∧
       value_of "c" n = Some "1" ∧ value_after_restart "c" n = Some "42".
Proof. eexists. split; [vm_compute; reflexivity|]. split; vm_compute; reflexivity. Qed.

(** A replica whose stream contains a REPLICAOF ends: the thread of the link
    would have to join itself. *)
Theorem replicated_replicaof_terminates :
  ∃ replica, Server.handleLine 4 0 true "REPLICAOF 127.0.0.1 6380" (state_of sample_start) = Ok Continue replica ∧
    ∃ n', run_event (Replicated 0 "REPLICAOF NO ONE") replica = Exn (SystemError "Resource deadlock avoided") n'.
Proof. eexists. split; [vm_compute; reflexivity|]. eexists. vm_compute. reflexivity. Qed.

(** SYNC sends what the primary has; a replica does not drop what it has
    besides. A key deleted while the link was down survives on the replica. *)
Theorem resync_keeps_deleted_keys :
  ∃ primary bytes replica,
    (run_events [Requested 4 0 true "SET a 1"; Requested 4 0 true "DEL a"; Requested 4 0 true "SET b 2"];;
     beginSync 7 true) (state_of sample_start) = Ok true primary ∧ sent_to 7 primary = bytes ∧
    (run_events [Replicated 0 "SET a 1"];; apply_stream (λ _, 0%Z) 0 (lines_of nl bytes))
      (state_of sample_start) = Ok tt replica ∧
    value_of "a" primary = None ∧ value_of "a" replica = Some "1" ∧ value_of "b" replica = Some "2".
Proof.
  eexists _, _, _. split; [vm_compute; reflexivity|]. split; [reflexivity|]. split; [vm_compute; reflexivity|].
  split; [vm_compute; reflexivity|]. split; vm_compute; reflexivity.
Qed.

End properties.
