(* ===== verification/Invariants.v ===== *)
(** * What every server process keeps

    A small program logic for the monad, [keeps P m]: [m] takes states that
    satisfy [P] to states that satisfy [P]. It is closed under the monad's
    combinators, so that an invariant of the whole process is proved once per
    leaf operation. The invariant is that of the types and of the components:
    the machine integers are in range, the store's list and index agree and
    respect the capacity, every live deadline is in the heap, and the role
    agrees with the link. *)

From S2P Require Import Prelude CxxStd Protocol Storage Expiry Node Persistence Replication Executor.
From S2P Require Import Recovery Server.

(** ** Definitions *)

Definition keeps {St A} (P : St → Prop) (m : M St A) : Prop := ∀ s, P s →
  match m s with
  | Ok _ s' | Exn _ s' => P s'
  | Undef => True
  end.

(** Unsigned 64-bit counters. *)
Definition counters_typed (n : Node) : Prop :=
  (0 ≤ totalCommands_ n < 2 ^ 64)%Z ∧ (0 ≤ totalHits_ n < 2 ^ 64)%Z ∧ (0 ≤ totalMisses_ n < 2 ^ 64)%Z.

(** Deadlines are 64-bit time points, stale ones included. *)
Definition deadlines_typed (e : ExpiryManager.state) : Prop :=
  Forall (λ x, in_int64 (when x) = true) (ExpiryManager.heap_ e).

(** The replication manager is attached, the port of its link is an [int], and
    the role agrees with the link. *)
Definition replication_typed (o : option ReplicationManager) : Prop :=
  match o with
  | Some r => Replication.wf r ∧ (∀ l, replicaLink_ r = Some l → in_int32 (primaryPort_ l) = true)
  | None => False
  end.

Definition attached_typed (n : Node) : Prop :=
  counters_typed n ∧ deadlines_typed (expiry_ n) ∧ replication_typed (replication_ n).

(** The store and the deadlines represent some data, in a store of capacity [c]. *)
Definition holds_data (c : nat) (n : Node) : Prop := ∃ d, holds KVStore.represents n c d.

(** The invariant of a process whose store has capacity [c]. *)
Definition well_typed (c : nat) (n : Node) : Prop := holds_data c n ∧ attached_typed n.

(** The parts of a process the invariant is about. *)
Definition same_core (n n' : Node) : Prop :=
  store_ n' = store_ n ∧ expiry_ n' = expiry_ n ∧ replication_ n' = replication_ n ∧
  totalCommands_ n' = totalCommands_ n ∧ totalHits_ n' = totalHits_ n ∧ totalMisses_ n' = totalMisses_ n.

Definition leaves_core {A} (m : M Node A) : Prop := ∀ n,
  match m n with
  | Ok _ n' | Exn _ n' => same_core n n'
  | Undef => True
  end.

(** ** The logic *)

Section logic.
Context {St : Type} (P : St → Prop).

Lemma keeps_ret {A} (a : A) : keeps P (mret a).
Proof. by intros s. Qed.

Lemma keeps_bind {A B} (m : M St A) (k : A → M St B) :
  keeps P m → (∀ a, keeps P (k a)) → keeps P (m ≫= k).
Proof.
  intros Hm Hk s Hs. specialize (Hm s Hs). unfold mbind, M_bind.
  destruct (m s) as [a s'|e s'|]; [by apply Hk|done|done].
Qed.

Lemma keeps_get : keeps P get.
Proof. by intros s. Qed.

Lemma keeps_gets {A} (f : St → A) : keeps P (gets f).
Proof. by intros s. Qed.

Lemma keeps_defined {A} (o : option A) : keeps P (defined o).
Proof. intros s Hs. by destruct o. Qed.

Lemma keeps_throw {A} (e : exn) : keeps P (throw (A := A) e).
Proof. by intros s. Qed.

Lemma keeps_modify (f : St → St) : (∀ s, P s → P (f s)) → keeps P (modify f).
Proof. intros Hf s Hs. by apply Hf. Qed.

Lemma keeps_catch {A} (m : M St A) (h : exn → M St A) :
  keeps P m → (∀ e, keeps P (h e)) → keeps P (catch m h).
Proof.
  intros Hm Hh s Hs. specialize (Hm s Hs). unfold catch. destruct (m s) as [a s'|e s'|]; [done|by apply Hh|done].
Qed.

(** What is read from the state inherits what [P] says of it. *)
Lemma keeps_gets_bind {A B} (f : St → A) (φ : A → Prop) (k : A → M St B) :
  (∀ s, P s → φ (f s)) → (∀ a, φ a → keeps P (k a)) → keeps P (x ← gets f; k x).
Proof. intros Hf Hk s Hs. unfold mbind, M_bind, gets. apply Hk; [by apply Hf|done]. Qed.
End logic.

Create HintDb keeps.
#[export] Hint Resolve keeps_ret keeps_bind keeps_get keeps_gets keeps_defined keeps_throw keeps_catch : keeps.

(** Decides [keeps] by the shape of the code, up to the leaves. *)
Ltac keeps :=
  repeat first
    [ solve [eauto 2 with keeps]
    | apply keeps_bind; [|intros ?]
    | apply keeps_catch; [|intros ?]
    | case_match ].

(** ** The leaves *)

Lemma attached_set_store s n : attached_typed n → attached_typed (set_store s n).
Proof. done. Qed.

Lemma keeps_on_store {A} (m : M KVStore.state A) : keeps attached_typed (on_store m).
Proof. intros n Hn. unfold on_store, zoom. by destruct (m (store_ n)). Qed.

Lemma keeps_count (f g h : Node → Z) :
  (∀ n, counters_typed n → (0 ≤ f n < 2 ^ 64)%Z ∧ (0 ≤ g n < 2 ^ 64)%Z ∧ (0 ≤ h n < 2 ^ 64)%Z) →
  keeps attached_typed (modify (λ n, set_counters (f n) (g n) (h n) n)).
Proof. intros H. apply keeps_modify. intros n (Hc & He & Hr). split; [exact (H n Hc)|done]. Qed.

Lemma keeps_cancel k : keeps attached_typed (on_expiry (ExpiryManager.cancel k)).
Proof. by apply keeps_modify. Qed.

Lemma keeps_schedule now k secs : keeps attached_typed (schedule now k secs).
Proof.
  intros n Hn. unfold schedule. unfold_M. destruct (deadline now secs) as [t|] eqn:Ht; [|done].
  apply deadline_Some in Ht as (_ & _ & Ht%in_int64_spec). destruct Hn as (Hc & He & Hr).
  split; [done|]. split; [|done]. unfold on_expiry. simpl. by constructor.
Qed.

Lemma stoi_range s z : stoi s = inr z → in_int32 z = true.
Proof. unfold stoi. intros H. repeat case_match; by simplify_eq. Qed.

Lemma stop_link_links r : Replication.wf r → replicaLink_ (Replication.stop_link r) = None.
Proof. intros H. by apply Replication.stop_link_wf. Qed.

Lemma keeps_replicaOf host port r :
  replication_typed (Some r) → in_int32 port = true →
  keeps attached_typed (modify (set_replication (Some (Replication.replicaOf host port r)))).
Proof.
  intros [Hw _] Hp. apply keeps_modify. intros n (Hc & He & Hr). split; [done|]. split; [done|].
  split; [by apply Replication.replicaOf_wf|]. simpl. by intros l [= <-].
Qed.

Lemma keeps_replicaOfNoOne r :
  replication_typed (Some r) →
  keeps attached_typed (modify (set_replication (Some (Replication.replicaOfNoOne r)))).
Proof.
  intros [Hw _]. apply keeps_modify. intros n (Hc & He & Hr). split; [done|]. split; [done|].
  split; [by apply Replication.replicaOfNoOne_wf|]. simpl. by rewrite stop_link_links.
Qed.

#[export] Hint Resolve keeps_on_store keeps_cancel keeps_schedule keeps_replicaOf keeps_replicaOfNoOne stoi_range : keeps.

(** Operations that touch neither the data nor the counters nor the role. *)
Lemma keeps_core {A} (m : M Node A) : leaves_core m → keeps attached_typed m.
Proof.
  intros Hm n (Hc & He & Hr). specialize (Hm n).
  assert (∀ n', same_core n n' → attached_typed n') as H.
  { intros n' (_ & E2 & E3 & E4 & E5 & E6). unfold attached_typed, counters_typed. by rewrite E2, E3, E4, E5, E6. }
  destruct (m n); [by apply H|by apply H|done].
Qed.

Lemma keeps_core_data {A} c (m : M Node A) : leaves_core m → keeps (holds_data c) m.
Proof.
  intros Hm n [d Hd]. specialize (Hm n).
  assert (∀ n', same_core n n' → holds_data c n') as H.
  { intros n' (E1 & E2 & _). exists d. unfold holds in *. by rewrite E1, E2. }
  destruct (m n); [by apply H|by apply H|done].
Qed.

Lemma core_write fd data : leaves_core (Node.writeRaw fd data).
Proof. done. Qed.

Lemma core_record line p : leaves_core (Persistence.recordWrite line p).
Proof. intros n. unfold Persistence.recordWrite. unfold_M. by destruct (negb _). Qed.

Lemma core_propagate line r : leaves_core (ReplicaRegistry.propagate line r).
Proof. intros n. unfold ReplicaRegistry.propagate. by rewrite Replication.propagate_to_wire. Qed.

Lemma core_flush p : leaves_core (Persistence.flush p).
Proof. intros n. unfold Persistence.flush. unfold_M. by destruct (Aof.flush _ _). Qed.

Lemma core_spill bytes p : leaves_core (Persistence.spill bytes p).
Proof. intros n. unfold Persistence.spill. unfold_M. by destruct (Aof.spill _ _ _). Qed.

Lemma core_snapshot : leaves_core (on_store SnapshotManager.save).
Proof. intros n. by destruct n. Qed.

Lemma core_save p : leaves_core (Persistence.save p).
Proof.
  intros n. unfold Persistence.save, SnapshotManager.saveToFile, SnapshotManager.save, KVStore.forEach, on_store. unfold_M.
  destruct (fs_open_trunc _ _); simpl; repeat case_match; simplify_eq/=; done.
Qed.

#[export] Hint Resolve core_write core_record core_propagate core_flush core_spill core_snapshot core_save : keeps.
#[export] Hint Resolve keeps_core keeps_core_data : keeps.

(** ** The operations *)

Lemma attached_execute now cmd : keeps attached_typed (execute now cmd).
Proof.
  unfold execute, incrementReply. apply keeps_bind.
  { apply keeps_count. intros n (? & ? & ?). auto using wrap64_bound. }
  intros _. destruct (type cmd); try solve [keeps].
  - destruct (args cmd) as [|k [|]]; keeps.
    all: apply keeps_count; intros n (? & ? & ?); auto using wrap64_bound.
  - destruct (args cmd) as [|a0 [|a1 [|]]]; try solve [keeps].
    apply (keeps_gets_bind _ _ replication_typed); [by intros n (_ & _ & ?)|].
    intros [r|] Hr; keeps. all: eauto with keeps.
Qed.

Lemma data_execute c now cmd : keeps (holds_data c) (execute now cmd).
Proof.
  intros n [d Hd]. pose proof (execute_no_throw now cmd n) as Hnt.
  destruct (execute now cmd n) as [r n'|e n'|] eqn:E; [|by destruct (Hnt e n')|done].
  destruct (execute_holds KVStore.represents _ _ _ _ _ _ _ Hd E) as (d' & ? & _). by exists d'.
Qed.

Lemma keeps_and {St A} (P Q : St → Prop) (m : M St A) :
  keeps P m → keeps Q m → keeps (λ s, P s ∧ Q s) m.
Proof. intros Hp Hq s [? ?]. specialize (Hp s ltac:(done)). specialize (Hq s ltac:(done)). by destruct (m s). Qed.

Lemma typed_execute c now cmd : keeps (well_typed c) (execute now cmd).
Proof. apply keeps_and; [apply data_execute|apply attached_execute]. Qed.

Lemma typed_core {A} c (m : M Node A) : leaves_core m → keeps (well_typed c) m.
Proof. intros. apply keeps_and; [by apply keeps_core_data|by apply keeps_core]. Qed.

Lemma typed_registry c (f : ReplicationManager → ReplicationManager) :
  (∀ r, role_ (f r) = role_ r ∧ replicaLink_ (f r) = replicaLink_ r ∧ link_threads (f r) = link_threads r) →
  keeps (well_typed c) (on_registry f).
Proof.
  intros Hf n (Hd & Hc & He & Hr). unfold on_registry, the_replication. unfold_M.
  destruct (replication_ n) as [r|] eqn:E; [|done]. split; [exact Hd|]. split; [done|]. split; [done|].
  destruct (Hf r) as (E1 & E2 & E3). destruct Hr as [[Hw1 Hw2] Hp]. simpl. unfold Replication.wf.
  rewrite E1, E2, E3. done.
Qed.

Lemma typed_add c fd : keeps (well_typed c) (on_registry (ReplicaRegistry.add fd)).
Proof. by apply typed_registry. Qed.

Lemma typed_remove c fd : keeps (well_typed c) (on_registry (ReplicaRegistry.remove fd)).
Proof. by apply typed_registry. Qed.

#[export] Hint Resolve typed_execute typed_core typed_add typed_remove : keeps.

Lemma typed_recordAndPropagate c cmd line r : keeps (well_typed c) (recordAndPropagateIfWrite cmd line r).
Proof. unfold recordAndPropagateIfWrite, the_persistence, the_replication. keeps. Qed.

#[export] Hint Resolve typed_recordAndPropagate : keeps.

Lemma typed_handleLine c fd now sent line : keeps (well_typed c) (handleLine fd now sent line).
Proof. unfold handleLine, beginSync, the_replication, Node.writeLine. keeps. Qed.

Lemma typed_onExpire c k : keeps (well_typed c) (onExpire k).
Proof.
  intros n ((d & Hs & Ht & Hc) & Ha). unfold onExpire, on_store. unfold_M.
  destruct (store_del _ _ _ k Hs) as (s' & -> & Hr). split; [|exact Ha].
  exists (mkData (Lru.remove k (entries d)) (ttl d)). by split.
Qed.

Lemma typed_pop c e n live s :
  well_typed c n → e ∈ ExpiryManager.heap_ (expiry_ n) → ExpiryManager.pop_top e (expiry_ n) = (live, s) →
  well_typed c (set_expiry s n).
Proof.
  intros ((d & Hs & Ht & Hc) & Hcnt & He & Hr) Hin Epop. split.
  - exists (mkData (entries d) (ExpiryManager.currentExpiry_ s)). split; [done|]. split; [done|].
    by eapply ExpiryManager.covered_pop_top.
  - split; [done|]. split; [|done]. unfold deadlines_typed in *. simpl.
    apply ExpiryManager.pop_top_cases in Epop as (-> & _). apply Forall_forall. intros x Hx.
    rewrite Forall_forall in He. apply He. apply (ExpiryManager.pop_elem e); [done|]. by right.
Qed.

Lemma typed_sweepTurn c now : keeps (well_typed c) (sweepTurn now).
Proof.
  intros n Hn. unfold sweepTurn. unfold mbind, M_bind, get.
  destruct (ExpiryManager.top _) as [e|] eqn:Etop; [|done].
  destruct (when e <=? now)%Z; [|done].
  destruct (ExpiryManager.top_is_top _ _ Etop) as [Hin _].
  destruct (ExpiryManager.pop_top e (expiry_ n)) as [live s] eqn:Epop.
  pose proof (typed_pop c e n live s Hn Hin Epop) as Hn'. unfold put. destruct live; [|done].
  exact (typed_onExpire c (key e) _ Hn').
Qed.

#[export] Hint Resolve typed_handleLine typed_sweepTurn : keeps.

Lemma typed_event c ev : keeps (well_typed c) (run_event ev).
Proof. destruct ev; simpl; unfold endSync, applyReplicatedLine, the_persistence; keeps. Qed.

#[export] Hint Resolve typed_event : keeps.

Lemma typed_events c evs : keeps (well_typed c) (run_events evs).
Proof. induction evs as [|ev evs IH]; simpl; keeps. Qed.

Lemma typed_replay c clock i lines : keeps (well_typed c) (replay_loop clock i lines).
Proof. revert i. induction lines as [|l lines IH]; intros i; simpl; [keeps|]. unfold replayLine. keeps. Qed.

#[export] Hint Resolve typed_replay : keeps.

Lemma typed_recover c clock clock' p : keeps (well_typed c) (recover clock clock' p).
Proof. unfold recover, loadFromFile, replayAof, load, replayLines. keeps. Qed.

Lemma typed_construct c cfg f : well_typed c (construct c cfg f).
Proof.
  unfold construct, Persistence.create, Aof.create.
  case_match; (split; [exists (mkData [] ∅); split; [apply store_create|done]|]).
  all: split; [split_and!; simpl; lia|]; split; [constructor|]; split; [apply Replication.wf_create|done].
Qed.

(** ** Properties *)

(** C15: A process stays well typed: from its start on any files with any clock, and
    through any history of requests, replicated lines, hang-ups, flushes, saves
    and sweeps, as long as nothing is undefined, the counters are unsigned
    64-bit values, every deadline is a signed 64-bit time point and the port of
    the link an [int]; the store's list and index agree, hold each key once and
    respect the capacity; every live deadline has its entry in the heap; and the
    server has exactly one link thread as a replica and none as a primary. *)
Theorem process_stays_well_typed (c : nat) (cfg : PersistenceConfig) (clock clock' : nat → Z) (f : FS)
    (n n' : Node) (evs : list event) :
  start c cfg clock clock' f = Ok tt n → run_events evs n = Ok tt n' →
  counters_typed n' ∧
  (∃ d, KVStore.represents (store_ n') c (entries d) ∧ NoDup (entries d).*1 ∧ (c = 0 ∨ length (entries d) ≤ c) ∧
     ∀ k t, ExpiryManager.expiryOf k (expiry_ n') = Some t →
       (int64_min ≤ t ≤ int64_max)%Z ∧ mkEntry t k ∈ ExpiryManager.heap_ (expiry_ n')) ∧
  ∃ r, replication_ n' = Some r ∧ link_threads r = option_list (replicaLink_ r) ∧
    (role_ r = Node.REPLICA ↔ is_Some (replicaLink_ r)) ∧
    ∀ l, replicaLink_ r = Some l → (int32_min ≤ primaryPort_ l ≤ int32_max)%Z.
Proof.
  intros Hst Hrun. assert (well_typed c n') as ((d & Hs & Ht & Hc) & Hcnt & He & Hr).
  { assert (keeps (well_typed c) (p ← the_persistence; recover clock clock' p)) as Hk.
    { apply keeps_bind; [unfold the_persistence; keeps|]. intros p. apply typed_recover. }
    specialize (Hk _ (typed_construct c cfg f)). unfold start in Hst. rewrite Hst in Hk.
    pose proof (typed_events c evs n Hk) as H. by rewrite Hrun in H. }
  split; [done|]. split.
  - exists d. split; [done|]. split; [by eapply store_nodup|]. split; [by eapply store_bound|].
    intros k t Hk. apply Hc in Hk as Hin. split; [|done]. unfold deadlines_typed in He. rewrite Forall_forall in He.
    apply He in Hin. by apply in_int64_spec in Hin.
  - destruct (replication_ n') as [r|]; [|done]. destruct Hr as [[Hw1 Hw2] Hp]. exists r. split; [done|].
    split; [done|]. split; [done|]. intros l Hl. by apply in_int32_spec, Hp.
Qed.

Theorem process_stays_well_typed_witness :
  ∃ n', run_events [Requested 4 0 true "SET a 1 EX 10"; Requested 4 5 true "REPLICAOF h 1"; Swept 20000000000]
          (state_of (start 1 defaultPersistenceConfig (λ _, 0%Z) (λ _, 0%Z) (mkFS ∅ ∅))) = Ok tt n' ∧
        (0 ≤ totalCommands_ n' < 2 ^ 64)%Z.
Proof.
  eexists. split; [vm_compute; reflexivity|].
  refine (proj1 (proj1 (process_stays_well_typed 1 defaultPersistenceConfig (λ _, 0%Z) (λ _, 0%Z) (mkFS ∅ ∅)
    (state_of (start 1 defaultPersistenceConfig (λ _, 0%Z) (λ _, 0%Z) (mkFS ∅ ∅))) _
    [Requested 4 0 true "SET a 1 EX 10"; Requested 4 5 true "REPLICAOF h 1"; Swept 20000000000] _ _)));
    vm_compute; reflexivity.
Defined.
