(* ===== verification/Ring.v ===== *)
(** * The consistent hash ring

    [include/tinykv/sharding/consistent_hash_ring.hpp] and
    [src/sharding/consistent_hash_ring.cpp]. The [std::map] from positions to
    node ids is the list of its pairs in increasing order of position. *)

From S2P Require Import Prelude CxxStd.

(** ** The hash *)

Definition kOffsetBasis : Z := 1469598103934665603.
Definition kPrime : Z := 1099511628211.

Definition hash_byte (hash : Z) (c : ascii) : Z :=
  wrap64 (Z.lxor hash (Z.of_N (N_of_ascii c)) * kPrime).

Fixpoint hash_bytes (hash : Z) (data : string) : Z :=
  match data with
  | EmptyString => hash
  | String c data' => hash_bytes (hash_byte hash c) data'
  end.

(** [hash ^= hash >> 33]. *)
Definition xor_shift (hash : Z) : Z := Z.lxor hash (Z.shiftr hash 33).

Definition finalize (hash : Z) : Z :=
  xor_shift (wrap64 (xor_shift (wrap64 (xor_shift hash * 18397679294719823053)) * 14181476777654086739)).

Definition fnv1a64 (data : string) : Z := finalize (hash_bytes kOffsetBasis data).

(** ** The ordered map *)

Abbreviation position_map := (list (Z * string)).

Fixpoint ring_set (h : Z) (v : string) (m : position_map) : position_map :=
  match m with
  | [] => [(h, v)]
  | (p, w) :: m' =>
      if (h <? p)%Z then (h, v) :: m
      else if (h =? p)%Z then (h, v) :: m'
      else (p, w) :: ring_set h v m'
  end.

Definition ring_erase (h : Z) (m : position_map) : position_map := filter (λ e, e.1 ≠ h) m.

(** The first position that is not below [h]. *)
Fixpoint lower_bound (h : Z) (m : position_map) : option (Z * string) :=
  match m with
  | [] => None
  | e :: m' => if (h <=? e.1)%Z then Some e else lower_bound h m'
  end.

(** ** The ring *)

Record ConsistentHashRing : Type := mkRing {
  virtualNodesPerNode_ : Z;
  ring_ : position_map;
  nodes_ : list string
}.

(** The constructor; 150 is the default argument. *)
Definition create_ring (virtualNodesPerNode : Z) : ConsistentHashRing := mkRing virtualNodesPerNode [] [].
Definition default_virtual_nodes : Z := 150.

Definition virtual_position (nodeId : string) (i : Z) : Z := fnv1a64 (nodeId +:+ "#" +:+ to_string i).

(** The positions the loops of [addNode] and [removeNode] visit, in order. *)
Definition positions (v : Z) (nodeId : string) : list Z := virtual_position nodeId <$> seqZ 0 v.

Definition addNode (nodeId : string) (r : ConsistentHashRing) : ConsistentHashRing :=
  mkRing (virtualNodesPerNode_ r)
    (foldl (λ m p, ring_set p nodeId m) (ring_ r) (positions (virtualNodesPerNode_ r) nodeId))
    (nodes_ r ++ [nodeId]).

Definition removeNode (nodeId : string) (r : ConsistentHashRing) : ConsistentHashRing :=
  mkRing (virtualNodesPerNode_ r)
    (foldl (λ m p, ring_erase p m) (ring_ r) (positions (virtualNodesPerNode_ r) nodeId))
    (filter (.≠ nodeId) (nodes_ r)).

Definition getNode (key : string) (r : ConsistentHashRing) : string :=
  match ring_ r with
  | [] => EmptyString
  | first :: _ =>
      match lower_bound (fnv1a64 key) (ring_ r) with
      | Some e => e.2
      | None => first.2
      end
  end.

Definition nodeCount (r : ConsistentHashRing) : nat := length (nodes_ r).

(** ** What the ring promises *)

(** How far clockwise [p] is from [h] on the circle of 64-bit positions. *)
Definition distance (h p : Z) : Z := ((p - h) mod 2 ^ 64)%Z.

(** [e] is the entry that comes first clockwise from [h]. *)
Definition nearest (h : Z) (e : Z * string) (m : position_map) : Prop :=
  e ∈ m ∧ ∀ e', e' ∈ m → (distance h e.1 ≤ distance h e'.1)%Z.

(** Positions are 64-bit and strictly increasing. *)
Fixpoint sorted_from (lo : Z) (m : position_map) : Prop :=
  match m with
  | [] => True
  | e :: m' => (lo ≤ e.1 < 2 ^ 64)%Z ∧ sorted_from (e.1 + 1) m'
  end.

(** A ring built by [addNode] and [removeNode]. *)
Inductive ring_reachable (v : Z) : ConsistentHashRing → Prop :=
| ring_create : ring_reachable v (create_ring v)
| ring_added r n : ring_reachable v r → ring_reachable v (addNode n r)
| ring_removed r n : ring_reachable v r → ring_reachable v (removeNode n r).

(** No virtual node of [nodeId] shares its position with another node's. *)
Definition no_collision (nodeId : string) (r : ConsistentHashRing) : Prop :=
  ∀ p w, (p, w) ∈ ring_ r → p ∈ positions (virtualNodesPerNode_ r) nodeId → w = nodeId.

(** ** Lemmas *)

Lemma xor_shift_bound z : (0 ≤ z < 2 ^ 64)%Z → (0 ≤ xor_shift z < 2 ^ 64)%Z.
Proof.
  intros Hz. unfold xor_shift.
  assert (0 ≤ Z.shiftr z 33 < 2 ^ 64)%Z as Hs.
  { rewrite Z.shiftr_div_pow2 by lia. split; [apply Z.div_pos; lia|].
    apply Z.div_lt_upper_bound; [lia|]. nia. }
  split; [apply Z.lxor_nonneg; lia|].
  destruct (decide (Z.lxor z (Z.shiftr z 33) = 0%Z)) as [->|Hn]; [lia|].
  apply Z.log2_lt_pow2; [pose proof (proj2 (Z.lxor_nonneg z (Z.shiftr z 33))); lia|].
  assert (∀ y, (0 ≤ y < 2 ^ 64)%Z → (Z.log2 y < 64)%Z) as Hlog.
  { intros y Hy. destruct (decide (y = 0%Z)) as [->|]; [done|]. apply Z.log2_lt_pow2; lia. }
  pose proof (Z.log2_lxor z (Z.shiftr z 33) ltac:(lia) ltac:(lia)).
  pose proof (Hlog _ Hz). pose proof (Hlog _ Hs). lia.
Qed.

Lemma fnv1a64_bound s : (0 ≤ fnv1a64 s < 2 ^ 64)%Z.
Proof.
  unfold fnv1a64, finalize. apply xor_shift_bound, wrap64_bound.
Qed.

Lemma sorted_from_weaken lo lo' m : (lo' ≤ lo)%Z → sorted_from lo m → sorted_from lo' m.
Proof. destruct m; simpl; [done|]. intros ? [? ?]. split; [lia|done]. Qed.

Lemma sorted_from_elem lo m e : sorted_from lo m → e ∈ m → (lo ≤ e.1 < 2 ^ 64)%Z.
Proof.
  revert lo. induction m as [|x m IH]; simpl; intros lo; [by intros _ ?%not_elem_of_nil|].
  intros [Hx Hm] [->|He]%elem_of_cons; [done|]. specialize (IH _ Hm He). lia.
Qed.

Lemma sorted_from_unique lo m p v w : sorted_from lo m → (p, v) ∈ m → (p, w) ∈ m → v = w.
Proof.
  revert lo. induction m as [|[q x] m IH]; simpl; intros lo; [by intros _ ?%not_elem_of_nil|].
  intros [Hx Hm] [?|Hv]%elem_of_cons [?|Hw]%elem_of_cons; simplify_eq.
  - done.
  - apply (sorted_from_elem _ _ _ Hm) in Hw. simpl in Hw. lia.
  - apply (sorted_from_elem _ _ _ Hm) in Hv. simpl in Hv. lia.
  - by eapply IH.
Qed.

Lemma ring_set_sorted lo h v m :
  (lo ≤ h < 2 ^ 64)%Z → sorted_from lo m → sorted_from lo (ring_set h v m).
Proof.
  revert lo. induction m as [|[p w] m IH]; simpl; intros lo Hh; [done|]. intros [Hp Hm].
  destruct (Z.ltb_spec h p); [simpl; split; [lia|split; [lia|done]]|].
  destruct (Z.eqb_spec h p); [by subst|]. simpl. split; [lia|]. apply IH; [lia|done].
Qed.

Lemma ring_set_elem lo h v m p w :
  sorted_from lo m → (p, w) ∈ ring_set h v m ↔ (p = h ∧ w = v) ∨ (p ≠ h ∧ (p, w) ∈ m).
Proof.
  revert lo. induction m as [|[q x] m IH]; simpl; intros lo.
  { intros _. rewrite elem_of_cons. set_solver. }
  intros [Hq Hm]. assert ((q, x) ∉ m) as Hqm.
  { intros Hin. apply (sorted_from_elem _ _ _ Hm) in Hin. simpl in Hin. lia. }
  destruct (Z.ltb_spec h q); [|destruct (Z.eqb_spec h q)].
  - rewrite !elem_of_cons. assert ((p, w) ∈ m → p ≠ h).
    { intros Hin ->. apply (sorted_from_elem _ _ _ Hm) in Hin. simpl in Hin. lia. }
    split; [|naive_solver]. intros [?|[?|?]]; simplify_eq; [by left|right; split; [lia|by left]|naive_solver].
  - subst. rewrite !elem_of_cons. assert ((p, w) ∈ m → p ≠ q).
    { intros Hin ->. apply (sorted_from_elem _ _ _ Hm) in Hin. simpl in Hin. lia. }
    naive_solver.
  - rewrite !elem_of_cons, (IH _ Hm). split; [|naive_solver].
    intros [?|?]; simplify_eq; [right; split; [done|by left]|naive_solver].
Qed.

Lemma ring_erase_sorted lo h m : sorted_from lo m → sorted_from lo (ring_erase h m).
Proof.
  revert lo. induction m as [|e m IH]; intros lo; [done|]. intros [He Hm].
  unfold ring_erase. rewrite filter_cons. case_decide; simpl.
  - split; [done|]. by apply IH.
  - apply (sorted_from_weaken (e.1 + 1)); [lia|]. by apply IH.
Qed.

Lemma ring_erase_elem h m e : e ∈ ring_erase h m ↔ e.1 ≠ h ∧ e ∈ m.
Proof. unfold ring_erase. by rewrite list_elem_of_filter. Qed.

Lemma set_all_spec lo v m ps :
  sorted_from lo m → Forall (λ p, (lo ≤ p < 2 ^ 64)%Z) ps →
  sorted_from lo (foldl (λ m p, ring_set p v m) m ps) ∧
  ∀ p w, (p, w) ∈ foldl (λ m p, ring_set p v m) m ps ↔ (p ∈ ps ∧ w = v) ∨ ((p ∉ ps) ∧ (p, w) ∈ m).
Proof.
  intros Hm Hps. revert m Hm. induction Hps as [|q ps Hq Hps IH]; intros m Hm; simpl.
  { split; [done|]. set_solver. }
  destruct (IH (ring_set q v m)) as [Hs He]; [by apply ring_set_sorted|]. split; [done|].
  intros p w. rewrite He, (ring_set_elem _ _ _ _ _ _ Hm), elem_of_cons.
  destruct (decide (p ∈ ps)), (decide (p = q)); naive_solver.
Qed.

Lemma erase_all_spec lo m ps :
  sorted_from lo m →
  sorted_from lo (foldl (λ m p, ring_erase p m) m ps) ∧
  ∀ e, e ∈ foldl (λ m p, ring_erase p m) m ps ↔ (e.1 ∉ ps) ∧ e ∈ m.
Proof.
  revert m. induction ps as [|q ps IH]; intros m Hm; simpl.
  { split; [done|]. set_solver. }
  destruct (IH (ring_erase q m)) as [Hs He]; [by apply ring_erase_sorted|]. split; [done|].
  intros e. rewrite He, ring_erase_elem, not_elem_of_cons. naive_solver.
Qed.

Lemma positions_bound v id : Forall (λ p, (0 ≤ p < 2 ^ 64)%Z) (positions v id).
Proof. apply Forall_forall. intros p (i & -> & _)%list_elem_of_fmap. apply fnv1a64_bound. Qed.

(** Every reachable ring is sorted and only names nodes that were added and not
    removed since. *)
Lemma ring_reachable_inv v r :
  ring_reachable v r →
  sorted_from 0 (ring_ r) ∧ (∀ p w, (p, w) ∈ ring_ r → w ∈ nodes_ r ∧ p ∈ positions v w) ∧
  virtualNodesPerNode_ r = v.
Proof.
  induction 1 as [|r n _ (Hs & Hin & Hv)|r n _ (Hs & Hin & Hv)]; simpl.
  - split; [done|]. split; [|done]. by intros p w ?%not_elem_of_nil.
  - rewrite Hv. destruct (set_all_spec 0 n (ring_ r) (positions v n)) as [Hs' He];
      [done|apply positions_bound|]. split; [done|]. split; [|done].
    intros p w. rewrite He. intros [[? ->]|[_ [? ?]%Hin]]; set_solver.
  - rewrite Hv. destruct (erase_all_spec 0 (ring_ r) (positions v n)) as [Hs' He]; [done|].
    split; [done|]. split; [|done]. intros p w [Hp [Hw Hpw]%Hin]%He. simpl in Hp. split; [|done].
    apply list_elem_of_filter. split; [congruence|done].
Qed.

Lemma distance_ahead h p : (0 ≤ h < 2 ^ 64)%Z → (h ≤ p < 2 ^ 64)%Z → distance h p = (p - h)%Z.
Proof. intros. unfold distance. rewrite Z.mod_small; lia. Qed.

Lemma distance_behind h p : (0 ≤ p < h)%Z → (h < 2 ^ 64)%Z → distance h p = (p - h + 2 ^ 64)%Z.
Proof.
  intros. unfold distance. symmetry. apply (Z.mod_unique _ _ (-1)); lia.
Qed.

Lemma distance_cases h p :
  (0 ≤ h < 2 ^ 64)%Z → (0 ≤ p < 2 ^ 64)%Z →
  (h ≤ p ∧ distance h p = p - h)%Z ∨ (p < h ∧ distance h p = p - h + 2 ^ 64)%Z.
Proof.
  intros. destruct (Z.le_gt_cases h p); [left|right]; (split; [done|]).
  - apply distance_ahead; lia.
  - apply distance_behind; lia.
Qed.

Lemma distance_inj h p q :
  (0 ≤ h < 2 ^ 64)%Z → (0 ≤ p < 2 ^ 64)%Z → (0 ≤ q < 2 ^ 64)%Z → distance h p = distance h q → p = q.
Proof.
  intros Hh Hp Hq. pose proof (distance_cases h p Hh Hp). pose proof (distance_cases h q Hh Hq). lia.
Qed.

Lemma lower_bound_Some lo h m e :
  sorted_from lo m → lower_bound h m = Some e →
  e ∈ m ∧ (h ≤ e.1)%Z ∧ ∀ e', e' ∈ m → (h ≤ e'.1)%Z → (e.1 ≤ e'.1)%Z.
Proof.
  revert lo. induction m as [|x m IH]; simpl; intros lo; [done|]. intros [Hx Hm].
  destruct (Z.leb_spec h x.1).
  - intros [= <-]. split; [by left|]. split; [done|]. intros e' [->|He']%elem_of_cons ?; [lia|].
    apply (sorted_from_elem _ _ _ Hm) in He'. lia.
  - intros He. destruct (IH _ Hm He) as (? & ? & Hmin). split; [by right|]. split; [done|].
    intros e' [->|He']%elem_of_cons ?; [lia|auto].
Qed.

Lemma lower_bound_None h m : lower_bound h m = None → ∀ e, e ∈ m → (e.1 < h)%Z.
Proof.
  induction m as [|x m IH]; simpl; [by intros _ e ?%not_elem_of_nil|].
  destruct (Z.leb_spec h x.1); [done|]. intros Hn e [->|He]%elem_of_cons; [done|auto].
Qed.

(** The entry [getNode] finds is the nearest clockwise. *)
Lemma getNode_finds key r :
  sorted_from 0 (ring_ r) → ring_ r ≠ [] →
  ∃ p, nearest (fnv1a64 key) (p, getNode key r) (ring_ r).
Proof.
  intros Hs Hne. unfold getNode. destruct (ring_ r) as [|first m] eqn:E; [done|]. rewrite <-E in *.
  pose proof (fnv1a64_bound key) as Hh. set (h := fnv1a64 key) in *.
  destruct (lower_bound h (ring_ r)) as [[p w]|] eqn:Hl; simpl.
  - destruct (lower_bound_Some _ _ _ _ Hs Hl) as (Hin & Hp & Hmin). simpl in *.
    exists p. split; [done|]. intros e' He'. simpl.
    pose proof (sorted_from_elem _ _ _ Hs Hin) as Hb. pose proof (sorted_from_elem _ _ _ Hs He') as Hb'. simpl in Hb.
    rewrite distance_ahead by lia. destruct (Z.le_gt_cases h e'.1).
    + rewrite distance_ahead by lia. specialize (Hmin e' He'). lia.
    + rewrite distance_behind by lia. lia.
  - exists first.1. assert (first ∈ ring_ r) as Hin by (rewrite E; by left).
    split; [by destruct first|]. intros e' He'. simpl.
    pose proof (lower_bound_None _ _ Hl _ Hin). pose proof (lower_bound_None _ _ Hl _ He').
    pose proof (sorted_from_elem _ _ _ Hs Hin). pose proof (sorted_from_elem _ _ _ Hs He').
    rewrite !distance_behind by lia. rewrite E in He', Hs. destruct Hs as [_ Hs].
    apply elem_of_cons in He' as [->|He']; [lia|]. apply (sorted_from_elem _ _ _ Hs) in He'. lia.
Qed.

(** There is only one nearest entry. *)
Lemma nearest_unique h m e e' :
  sorted_from 0 m → (0 ≤ h < 2 ^ 64)%Z → nearest h e m → nearest h e' m → e = e'.
Proof.
  intros Hs Hh [Hin Hmin] [Hin' Hmin']. specialize (Hmin _ Hin'). specialize (Hmin' _ Hin).
  destruct e as [p w], e' as [p' w']. simpl in *.
  pose proof (sorted_from_elem _ _ _ Hs Hin). pose proof (sorted_from_elem _ _ _ Hs Hin'). simpl in *.
  assert (p = p') as -> by (apply (distance_inj h); lia).
  by rewrite (sorted_from_unique _ _ _ _ _ Hs Hin Hin').
Qed.

Lemma getNode_nearest_eq key r p w :
  sorted_from 0 (ring_ r) → nearest (fnv1a64 key) (p, w) (ring_ r) → getNode key r = w.
Proof.
  intros Hs Hn. assert (ring_ r ≠ []) as Hne.
  { destruct Hn as [Hin _]. intros E. rewrite E in Hin. by apply not_elem_of_nil in Hin. }
  destruct (getNode_finds key r Hs Hne) as [q Hq].
  pose proof (nearest_unique _ _ _ _ Hs (fnv1a64_bound key) Hq Hn). by simplify_eq.
Qed.

(** ** Properties *)

(** C19: The ring implements consistent hashing: the owner of a key is the node of
    the position that comes first clockwise from the key's hash, wrapping past
    the top, for every ring built by adding and removing nodes. *)
Theorem getNode_is_clockwise_successor (v : Z) (r : ConsistentHashRing) (key : string) :
  ring_reachable v r → ring_ r ≠ [] →
  ∃ p, nearest (fnv1a64 key) (p, getNode key r) (ring_ r) ∧ getNode key r ∈ nodes_ r.
Proof.
  intros (Hs & Hin & _)%ring_reachable_inv Hne. destruct (getNode_finds key r Hs Hne) as [p Hp].
  exists p. split; [done|]. by eapply Hin, Hp.
Qed.

(** The ring of three shards of the deployment scripts, with four virtual nodes
    each. *)
Lemma sample_ring_reachable :
  ring_reachable 4 (addNode "shard2" (addNode "shard1" (addNode "shard0" (create_ring 4)))).
Proof. do 3 constructor. constructor. Qed.

Theorem getNode_is_clockwise_successor_witness :
  let r := addNode "shard2" (addNode "shard1" (addNode "shard0" (create_ring 4))) in
  ∃ p, nearest (fnv1a64 "user:1") (p, getNode "user:1" r) (ring_ r) ∧ getNode "user:1" r ∈ nodes_ r.
Proof.
  intros r. apply (getNode_is_clockwise_successor 4 r "user:1" sample_ring_reachable). by vm_compute.
Defined.

(** C20: Adding a node moves keys only to the new node: every other key keeps its
    owner. *)
Theorem add_moves_keys_only_to_new_node (v : Z) (r : ConsistentHashRing) (nodeId key : string) :
  ring_reachable v r →
  getNode key (addNode nodeId r) = nodeId ∨ getNode key (addNode nodeId r) = getNode key r.
Proof.
  intros Hr. pose proof (ring_reachable_inv _ _ Hr) as (Hs & _ & Hv).
  destruct (set_all_spec 0 nodeId (ring_ r) (positions (virtualNodesPerNode_ r) nodeId)) as [Hs' He];
    [done|apply positions_bound|]. set (P := positions _ nodeId) in *.
  destruct (decide (ring_ (addNode nodeId r) = [])) as [Hn|Hne].
  { right. destruct (ring_ r) as [|[p w] m] eqn:Er; [unfold getNode; by rewrite Hn, Er|].
    exfalso. destruct (decide (p ∈ P)) as [Hp|Hp].
    - assert ((p, nodeId) ∈ ring_ (addNode nodeId r)) as Hin; [|rewrite Hn in Hin; by apply not_elem_of_nil in Hin].
      simpl. rewrite Er. apply He. by left.
    - assert ((p, w) ∈ ring_ (addNode nodeId r)) as Hin; [|rewrite Hn in Hin; by apply not_elem_of_nil in Hin].
      simpl. rewrite Er. apply He. right. split; [done|by left]. }
  destruct (getNode_finds key (addNode nodeId r) Hs' Hne) as [p [Hin Hmin]].
  destruct (proj1 (He _ _) Hin) as [[_ Hw]|[Hp Hold]]; [by left|]. right. symmetry.
  apply (getNode_nearest_eq key r p); [done|]. split; [done|]. intros [q w] Hq. simpl.
  destruct (decide (q ∈ P)).
  - apply (Hmin (q, nodeId)), He. by left.
  - apply (Hmin (q, w)), He. by right.
Qed.

Theorem add_moves_keys_only_to_new_node_witness :
  let r := addNode "shard2" (addNode "shard1" (addNode "shard0" (create_ring 4))) in
  getNode "user:1" (addNode "shard3" r) = "shard3" ∨ getNode "user:1" (addNode "shard3" r) = getNode "user:1" r.
Proof.
  intros r. apply (add_moves_keys_only_to_new_node 4 r "shard3" "user:1" sample_ring_reachable).
Defined.

(** C21: Removing a node moves only its own keys, as long as none of its virtual
    nodes shares its position with another node's. *)
Theorem remove_moves_only_its_keys (v : Z) (r : ConsistentHashRing) (nodeId key : string) :
  ring_reachable v r → no_collision nodeId r → getNode key r ≠ nodeId →
  getNode key (removeNode nodeId r) = getNode key r.
Proof.
  intros Hr Hc Hk. pose proof (ring_reachable_inv _ _ Hr) as (Hs & _ & _).
  destruct (erase_all_spec 0 (ring_ r) (positions (virtualNodesPerNode_ r) nodeId)) as [Hs' He]; [done|].
  destruct (decide (ring_ r = [])) as [E|Hne].
  { assert (ring_ (removeNode nodeId r) = []) as E'.
    { destruct (ring_ (removeNode nodeId r)) as [|e m] eqn:E'; [done|].
      assert (e ∈ ring_ (removeNode nodeId r)) as Hin by (rewrite E'; by left).
      simpl in Hin. apply He in Hin as [_ Hin]. rewrite E in Hin. by apply not_elem_of_nil in Hin. }
    unfold getNode. by rewrite E, E'. }
  destruct (getNode_finds key r Hs Hne) as [p [Hin Hmin]].
  apply (getNode_nearest_eq key (removeNode nodeId r) p); [done|]. split.
  - apply He. split; [|done]. simpl. intros Hp. by apply Hk, (Hc p).
  - intros e [_ He']%He. by apply Hmin.
Qed.

Theorem remove_moves_only_its_keys_witness :
  let r := addNode "shard2" (addNode "shard1" (addNode "shard0" (create_ring 4))) in
  ∃ nodeId, nodeId ≠ getNode "user:1" r ∧ nodeId ∈ nodes_ r ∧
            getNode "user:1" (removeNode nodeId r) = getNode "user:1" r.
Proof.
  intros r. exists (if decide (getNode "user:1" r = "shard0") then "shard1" else "shard0").
  split; [by vm_compute|]. split; [apply (bool_decide_eq_true_1 _); vm_compute; reflexivity|].
  apply (remove_moves_only_its_keys 4 r _ "user:1" sample_ring_reachable); [|by vm_compute].
  intros p w Hin Hp.
  assert (Forall (λ e, bool_decide (e.1 ∈ positions 4
    (if decide (getNode "user:1" r = "shard0") then "shard1" else "shard0")) = true →
    e.2 = (if decide (getNode "user:1" r = "shard0") then "shard1" else "shard0")) (ring_ r)) as Hf.
  { vm_compute. repeat constructor; discriminate. }
  rewrite Forall_forall in Hf. apply (Hf _ Hin). by apply bool_decide_eq_true.
Defined.
