(* ===== verification/Config.v ===== *)
(** * Configuration files and command lines

    [src/config.cpp], the settings [main] of [src/server_main.cpp] and of
    [src/router_main.cpp] derive from a file and a command line, and the shard
    list of a topology file ([ShardTopology::parseShards] is in [Topology]). *)

From S2P Require Import Prelude CxxStd Node.

(** ** Definitions *)

(** The characters of [" \t\r\n"]. *)
Definition is_blank (c : ascii) : bool :=
  bool_decide (c = " "%char) || bool_decide (c = "009"%char) || bool_decide (c = cr) || bool_decide (c = nl).

(** From [find_first_not_of] on, and up to [find_last_not_of]. *)
Definition trim_left (s : string) : string := (str_span is_blank s).2.

Fixpoint trim_right (s : string) : string :=
  match s with
  | EmptyString => EmptyString
  | String c s' =>
      let t := trim_right s' in
      if is_blank c && negb (str_nonempty t) then EmptyString else String c t
  end.

Definition trim (s : string) : string := trim_right (trim_left s).

(** [find(c)] with the [substr]s before and after the character. *)
Definition split_at (c : ascii) (s : string) : option (string * string) :=
  let '(a, b) := str_span (λ x, negb (bool_decide (x = c))) s in
  match b with
  | EmptyString => None
  | String _ b' => Some (a, b')
  end.

Module Config.

Definition values : Type := gmap string string.

(** One turn of the loop of [loadFromFile]. *)
Definition load_line (line : string) (values_ : values) : values :=
  let trimmed := trim line in
  match trimmed with
  | EmptyString => values_
  | String c _ =>
      if bool_decide (c = "#"%char) then values_
      else
        match split_at "=" trimmed with
        | None => values_
        | Some (a, b) =>
            let key := trim a in
            let value := trim b in
            if str_nonempty key then <[key := value]> values_ else values_
        end
  end.

Definition load (contents : string) (values_ : values) : values :=
  foldl (λ m line, load_line line m) values_ (lines_of nl contents).

Definition loadFromFile (path : string) (f : FS) (values_ : values) : bool * values :=
  match fs_read path f with
  | None => (false, values_)
  | Some contents => (true, load contents values_)
  end.

Definition set (key value : string) (values_ : values) : values := <[key := value]> values_.

Definition getString (key def : string) (values_ : values) : string := default def (values_ !! key).

Definition getInt (key : string) (def : Z) (values_ : values) : Z :=
  match values_ !! key with
  | None => def
  | Some v => match stoi v with inr z => z | inl _ => def end
  end.

Definition getBool (key : string) (def : bool) (values_ : values) : bool :=
  match values_ !! key with
  | None => def
  | Some v =>
      let v := str_map tolower v in
      if bool_decide (v = "true") || bool_decide (v = "1") || bool_decide (v = "yes") then true
      else if bool_decide (v = "false") || bool_decide (v = "0") || bool_decide (v = "no") then false
      else def
  end.

End Config.

(** The command line of the server; [inl] is the exception of [std::stoi] that
    nothing catches. *)
Record Args : Type := mkArgs { configPath : string; arg_port : Z; arg_maxKeys : Z }.

Fixpoint parseArgs_from (argv : list string) (a : Args) : exn + Args :=
  match argv with
  | arg :: ((value :: rest) as tail) =>
      if bool_decide (arg = "--config") then parseArgs_from rest (mkArgs value (arg_port a) (arg_maxKeys a))
      else if bool_decide (arg = "--port") then
        match stoi value with
        | inl e => inl e
        | inr z => parseArgs_from rest (mkArgs (configPath a) z (arg_maxKeys a))
        end
      else if bool_decide (arg = "--max-keys") then
        match stoi value with
        | inl e => inl e
        | inr z => parseArgs_from rest (mkArgs (configPath a) (arg_port a) z)
        end
      else parseArgs_from tail a
  | _ => inr a
  end.

(** [argv] without the program's name. *)
Definition parseArgs (argv : list string) : exn + Args := parseArgs_from argv (mkArgs "tinykv.conf" (-1) (-1)).

(** What [main] computes before it creates its objects. *)
Record Settings : Type := mkSettings { set_port : Z; set_maxKeys : Z; set_persistence_config : PersistenceConfig }.

Definition server_settings (a : Args) (config : Config.values) : Settings :=
  let port := if bool_decide (arg_port a = -1)%Z then Config.getInt "port" 6380 config else arg_port a in
  let maxKeysRaw := if bool_decide (arg_maxKeys a = -1)%Z then Config.getInt "max_keys" 0 config else arg_maxKeys a in
  mkSettings port (if (0 <? maxKeysRaw)%Z then maxKeysRaw else 0%Z)
    (mkPersistenceConfig (Config.getBool "appendonly" true config) (Config.getString "dir" "./data" config)
       (Config.getString "dbfilename" "dump.tkv" config) (Config.getString "appendfilename" "tinykv.aof" config)
       (Config.getInt "save_interval" 300 config)).

(** ** Well-formed files *)

(** Text that survives [trim]: no blank at either end, and no line feed. *)
Definition trimmed_line (s : string) : bool :=
  bool_decide (trim s = s) && str_all (λ c, negb (bool_decide (c = nl))) s.

Definition key_ok (k : string) : bool :=
  trimmed_line k && str_all (λ c, negb (bool_decide (c = "="%char))) k &&
  (match k with EmptyString => false | String c _ => negb (bool_decide (c = "#"%char)) end).

(** An assignment, written with any blanks around its two sides. *)
Record Assignment : Type := mkAssignment { before : string; lhs : string; mid1 : string; mid2 : string; rhs : string; after : string }.

Definition blanks (s : string) : bool := str_all (λ c, is_blank c && negb (bool_decide (c = nl))) s.

Definition assignment_ok (x : Assignment) : bool :=
  blanks (before x) && blanks (mid1 x) && blanks (mid2 x) && blanks (after x) &&
  key_ok (lhs x) && trimmed_line (rhs x) && str_nonempty (rhs x).

Definition assignment_line (x : Assignment) : string :=
  before x +:+ lhs x +:+ mid1 x +:+ String "=" (mid2 x +:+ rhs x +:+ after x).

(** A line that assigns nothing: blank, or a comment. *)
Definition silent_line (s : string) : bool :=
  str_all (λ c, negb (bool_decide (c = nl))) s &&
  (match trim s with EmptyString => true | String c _ => bool_decide (c = "#"%char) end).

(** A file: lines that assign, and lines that do not. *)
Definition file_line (l : Assignment + string) : string :=
  match l with inl x => assignment_line x | inr s => s end.

Definition file_line_ok (l : Assignment + string) : bool :=
  match l with inl x => assignment_ok x | inr s => silent_line s end.

Definition file_values (ls : list (Assignment + string)) (m : Config.values) : Config.values :=
  foldl (λ m l, match l with inl x => <[lhs x := rhs x]> m | inr _ => m end) m ls.

Definition file_text (ls : list (Assignment + string)) : string :=
  str_concat ((λ l, file_line l +:+ String nl EmptyString) <$> ls).

(** ** Lemmas *)

Lemma trim_left_blank a s : str_all is_blank a = true → trim_left (a +:+ s) = trim_left s.
Proof.
  unfold trim_left. induction a as [|c a IH]; [done|]. rewrite str_app_cons. simpl. intros. destruct_bools.
  rewrite H. rewrite <-(IH H0). by destruct (str_span is_blank (a +:+ s)).
Qed.

Lemma trim_right_blank s b : str_all is_blank b = true → trim_right (s +:+ b) = trim_right s.
Proof.
  intros Hb. assert (trim_right b = EmptyString) as Hn.
  { induction b as [|c b IH]; [done|]. simpl in *. destruct_bools. by rewrite IH, H. }
  induction s as [|c s IH]; [done|]. rewrite str_app_cons. simpl. by rewrite IH.
Qed.

Lemma trim_blank_left a s : str_all is_blank a = true → trim (a +:+ s) = trim s.
Proof. intros. unfold trim. by rewrite trim_left_blank. Qed.

Lemma trim_left_cons c s : is_blank c = false → trim_left (String c s) = String c s.
Proof. intros H. unfold trim_left. simpl. by rewrite H. Qed.

(** The first character of what [trim] keeps is not blank. *)
Lemma trim_left_head s c t : trim_left s = String c t → is_blank c = false.
Proof.
  unfold trim_left. destruct (str_span is_blank s) as [a b] eqn:E. simpl. intros ->.
  apply str_span_spec in E as (_ & _ & [?|(? & ? & ? & ?)]); [done|by simplify_eq].
Qed.

Lemma trim_right_nonblank c s : is_blank c = false → trim_right (String c s) = String c (trim_right s).
Proof. intros H. simpl. by rewrite H. Qed.

Lemma trim_fix_head c s : trim (String c s) = String c s → is_blank c = false ∧ trim_right s = s.
Proof.
  unfold trim. intros H. destruct (is_blank c) eqn:Hc.
  - exfalso. destruct (trim_left (String c s)) as [|c' t] eqn:E; [done|].
    pose proof (trim_left_head _ _ _ E) as Hc'. rewrite trim_right_nonblank in H by done. congruence.
  - rewrite trim_left_cons, trim_right_nonblank in H by done. by injection H.
Qed.

(** Trimming text between blanks gives the text. *)
Lemma trim_padded a s b :
  str_all is_blank a = true → str_all is_blank b = true → trim s = s → trim (a +:+ s +:+ b) = s.
Proof.
  intros Ha Hb Hs. rewrite trim_blank_left by done. destruct s as [|c s].
  - rewrite str_app_nil_l. unfold trim. rewrite <-(str_app_nil_r b), trim_left_blank by done. done.
  - apply trim_fix_head in Hs as [Hc Hs]. rewrite str_app_cons. unfold trim.
    rewrite trim_left_cons, trim_right_nonblank by done. by rewrite trim_right_blank, Hs.
Qed.

Lemma blanks_blank s : blanks s = true → str_all is_blank s = true.
Proof. apply str_all_impl. intros c H. by destruct_bools. Qed.

Lemma blanks_no_nl s : blanks s = true → str_all (λ c, negb (bool_decide (c = nl))) s = true.
Proof. apply str_all_impl. intros c H. apply andb_true_iff in H as [_ ?]. done. Qed.

Lemma blanks_no_eq s : blanks s = true → str_all (λ c, negb (bool_decide (c = "="%char))) s = true.
Proof.
  apply str_all_impl. intros c H. apply andb_true_iff in H as [H _]. apply negb_true_iff, bool_decide_eq_false.
  by intros ->.
Qed.

Lemma trim_nonempty_right c s b :
  is_blank c = false → str_all is_blank b = true → trim_right s = s →
  trim (String c (s +:+ b)) = String c s.
Proof.
  intros Hc Hb Hs. unfold trim. rewrite trim_left_cons, trim_right_nonblank by done.
  by rewrite trim_right_blank, Hs.
Qed.

(** The right-hand end of a trimmed, non-empty text stops the trimming. *)
Lemma trim_right_app s t : str_nonempty t = true → trim_right t = t → trim_right (s +:+ t) = s +:+ t.
Proof.
  intros Hne Ht. induction s as [|c s IH]; [done|]. rewrite str_app_cons. simpl. rewrite IH.
  assert (str_nonempty (s +:+ t) = true) as ->; [|by rewrite andb_false_r].
  destruct s; [done|done].
Qed.

Lemma trim_right_of_trim s : trim s = s → trim_right s = s.
Proof. destruct s as [|c s]; [done|]. intros [Hc Hs]%trim_fix_head. by rewrite trim_right_nonblank, Hs. Qed.

Lemma load_assignment x m :
  assignment_ok x = true → Config.load_line (assignment_line x) m = <[lhs x := rhs x]> m.
Proof.
  destruct x as [a k b c v d]. unfold assignment_ok, key_ok, trimmed_line, assignment_line. simpl. intros H. destruct_bools.
  destruct k as [|ck k]; [done|]. destruct_bools.
  match goal with H : trim (String ck k) = _ |- _ => pose proof H as Hk; apply trim_fix_head in H as [Hck Hkt] end.
  match goal with H : trim v = v |- _ => pose proof H as Hv; apply trim_right_of_trim in H as Hvr end.
  unfold Config.load_line.
  assert (trim (a +:+ String ck k +:+ b +:+ String "=" (c +:+ v +:+ d)) =
          String ck (k +:+ b +:+ String "=" (c +:+ v))) as ->.
  { rewrite trim_blank_left by auto using blanks_blank. rewrite str_app_cons.
    assert (k +:+ b +:+ String "=" (c +:+ v +:+ d) = (k +:+ b +:+ String "=" (c +:+ v)) +:+ d) as ->.
    { by rewrite !str_app_assoc, str_app_cons, !str_app_assoc. }
    apply trim_nonempty_right; [done|by apply blanks_blank|].
    rewrite <-str_app_assoc. change (String "=" (c +:+ v)) with (String "=" c +:+ v).
    rewrite <-str_app_assoc. by apply trim_right_app. }
  rewrite bool_decide_false by done. unfold split_at.
  change (String ck (k +:+ b +:+ String "=" (c +:+ v))) with (String ck k +:+ b +:+ String "=" (c +:+ v)).
  rewrite <-str_app_assoc, str_span_app; [| |done].
  - assert (trim (String ck k +:+ b) = String ck k) as ->.
    { rewrite <-(str_app_nil_l (String ck k +:+ b)). by apply trim_padded; [|apply blanks_blank|]. }
    assert (trim (c +:+ v) = v) as ->; [|done].
    rewrite <-(str_app_nil_r v) at 1. by apply trim_padded; [apply blanks_blank| |].
  - rewrite str_all_app. apply andb_true_iff. split; [done|]. by apply blanks_no_eq.
Qed.

Lemma load_silent s m : silent_line s = true → Config.load_line s m = m.
Proof.
  unfold silent_line, Config.load_line. intros H. destruct_bools. destruct (trim s) as [|c t]; [done|].
  match goal with H : bool_decide _ = true |- _ => by rewrite H | H : _ = "#"%char |- _ => by rewrite bool_decide_true end.
Qed.

Lemma file_line_no_nl l :
  file_line_ok l = true → str_all (λ c, negb (bool_decide (c = nl))) (file_line l) = true.
Proof.
  destruct l as [x|s]; simpl; unfold silent_line, assignment_ok, key_ok, trimmed_line, assignment_line;
    intros H; destruct_bools; [|done].
  rewrite !str_all_app. simpl. rewrite !str_all_app.
  repeat (apply andb_true_iff; split); auto using blanks_no_nl.
Qed.

Lemma load_file_text ls m :
  forallb file_line_ok ls = true → Config.load (file_text ls) m = file_values ls m.
Proof.
  unfold Config.load. revert m. induction ls as [|l ls IH]; intros m H; [done|]. simpl in H. destruct_bools.
  unfold file_text. rewrite fmap_cons. simpl. rewrite str_app_assoc, str_app_cons, str_app_nil_l.
  rewrite lines_of_line by (by apply file_line_no_nl). simpl. fold (file_text ls). rewrite IH by done.
  destruct l as [x|s]; simpl in *; [by rewrite load_assignment|by rewrite load_silent].
Qed.

(** ** Properties *)

(** Reading a configuration file back: whatever blanks surround keys, equal
    signs and values, and whatever comments and blank lines stand in between,
    the file gives each key the value of its last assignment. *)
Theorem config_file_roundtrip (ls : list (Assignment + string)) (path : string) (f : FS) :
  forallb file_line_ok ls = true → fs_read path f = Some (file_text ls) →
  Config.loadFromFile path f ∅ = (true, file_values ls ∅).
Proof. intros Hok Hf. unfold Config.loadFromFile. by rewrite Hf, load_file_text. Qed.

Theorem config_file_roundtrip_witness :
  let f := mkFS {["tinykv.conf" := "# server" +:+ String nl ("  port = 7001 " +:+ String nl EmptyString)]} ∅ in
  Config.loadFromFile "tinykv.conf" f ∅ = (true, {["port" := "7001"]}).
Proof.
  intros f. apply (config_file_roundtrip [inr "# server"; inl (mkAssignment "  " "port" " " " " "7001" " ")]
    "tinykv.conf" f); vm_compute; reflexivity.
Defined.

(** The integer settings never throw: a missing, malformed or out-of-range
    value gives the default, every other the integer it denotes, which fits an
    [int]. *)
Theorem getInt_total (key : string) (def : Z) (m : Config.values) :
  in_int32 def = true → in_int32 (Config.getInt key def m) = true ∧
  ∀ z, in_int32 z = true → m !! key = Some (to_string z) → Config.getInt key def m = z.
Proof.
  intros Hd. unfold Config.getInt. split.
  - destruct (m !! key) as [v|]; [|done]. unfold stoi. destruct (strtoll v) as [z|]; [|done].
    by destruct (in_int32 z) eqn:E.
  - intros z Hz ->. unfold stoi. rewrite <-(str_app_nil_r (to_string z)), strtoll_to_string_suffix by done.
    by rewrite Hz.
Qed.

Theorem getInt_total_witness :
  in_int32 (Config.getInt "save_interval" 300 {["save_interval" := "99999999999"]}) = true ∧
  Config.getInt "port" 6380 {["port" := "-7"]} = (-7)%Z.
Proof.
  split; [apply (getInt_total "save_interval" 300); reflexivity|].
  apply (getInt_total "port" 6380 {["port" := "-7"]}); reflexivity.
Defined.
