(* ===== verification/Topology.v ===== *)
(** * Shards, their health, and failover

    [src/sharding/shard_topology.cpp] and [src/sharding/health_checker.cpp].
    Only the health checker's thread changes the topology, one shard at a time;
    the router reads it. What a node answers is up to the network: [net i host
    port line] is the reply line to the [i]-th request of a check, [None] when
    the node cannot be reached, the request cannot be sent or no line comes
    back. *)

From S2P Require Import Prelude CxxStd Config.

(** ** Definitions *)

Inductive NodeRole : Type := PRIMARY | REPLICA.
Inductive NodeHealth : Type := UP | DOWN.

#[export] Instance NodeRole_eq_dec : EqDecision NodeRole.
Proof. solve_decision. Defined.

#[export] Instance NodeHealth_eq_dec : EqDecision NodeHealth.
Proof. solve_decision. Defined.

Record ShardNode : Type := mkShardNode {
  address : string;
  health : NodeHealth;
  consecutiveMisses : Z
}.

Record Shard : Type := mkShard {
  id : string;
  primary : ShardNode;
  shard_hasReplica : bool;
  replica : ShardNode;
  activeAddress : string;
  failedOver : bool
}.

(** The [shards_] of a [ShardTopology]. *)
Abbreviation topology := (list Shard).

Module ShardTopology.

Definition splitCsv (csv : string) : list string := filter (λ t, str_nonempty t = true) (lines_of "," csv).

Definition parseShard (config : Config.values) (shardId : string) : Shard :=
  let primaryAddr := Config.getString (shardId +:+ ".primary") "" config in
  let replicaAddr := Config.getString (shardId +:+ ".replica") "" config in
  mkShard shardId (mkShardNode primaryAddr UP 0) (str_nonempty replicaAddr) (mkShardNode replicaAddr UP 0)
    primaryAddr false.

Definition parseShards (config : Config.values) : topology :=
  parseShard config <$> splitCsv (Config.getString "shards" "" config).

(** [findShard]: the first shard of that id. *)
Fixpoint findShard (shardId : string) (t : topology) : option Shard :=
  match t with
  | [] => None
  | s :: t' => if bool_decide (id s = shardId) then Some s else findShard shardId t'
  end.

(** Writing through the pointer [findShard] returned. *)
Fixpoint updateShard (shardId : string) (s' : Shard) (t : topology) : topology :=
  match t with
  | [] => []
  | s :: t' => if bool_decide (id s = shardId) then s' :: t' else s :: updateShard shardId s' t'
  end.

Definition shardIds (t : topology) : list string := id <$> t.

Definition activeAddressFor (shardId : string) (t : topology) : string :=
  match findShard shardId t with Some s => activeAddress s | None => EmptyString end.

Definition hasReplica (shardId : string) (t : topology) : bool :=
  match findShard shardId t with Some s => shard_hasReplica s | None => false end.

Definition primaryAddress (shardId : string) (t : topology) : string :=
  match findShard shardId t with Some s => address (primary s) | None => EmptyString end.

Definition replicaAddress (shardId : string) (t : topology) : string :=
  match findShard shardId t with Some s => address (replica s) | None => EmptyString end.

Definition alreadyFailedOver (shardId : string) (t : topology) : bool :=
  match findShard shardId t with Some s => failedOver s | None => false end.

Definition nodeOf (role : NodeRole) (s : Shard) : ShardNode :=
  match role with PRIMARY => primary s | REPLICA => replica s end.

Definition with_node (role : NodeRole) (n : ShardNode) (s : Shard) : Shard :=
  match role with
  | PRIMARY => mkShard (id s) n (shard_hasReplica s) (replica s) (activeAddress s) (failedOver s)
  | REPLICA => mkShard (id s) (primary s) (shard_hasReplica s) n (activeAddress s) (failedOver s)
  end.

(** The update of a node's record; [None] when the [int] counter overflows. *)
Definition ping_node (success : bool) (maxMissedPings : Z) (n : ShardNode) : option ShardNode :=
  if success then Some (mkShardNode (address n) UP 0)
  else
    misses ← chk32 (consecutiveMisses n + 1);
    Some (mkShardNode (address n) (if (maxMissedPings <=? misses)%Z then DOWN else health n) misses).

Definition recordPingResult (shardId : string) (role : NodeRole) (success : bool) (maxMissedPings : Z)
    (t : topology) : option topology :=
  match findShard shardId t with
  | None => Some t
  | Some s =>
      n ← ping_node success maxMissedPings (nodeOf role s);
      Some (updateShard shardId (with_node role n s) t)
  end.

Definition healthOf (shardId : string) (role : NodeRole) (t : topology) : NodeHealth :=
  match findShard shardId t with
  | None => DOWN
  | Some s => health (nodeOf role s)
  end.

Definition promoteReplica (shardId : string) (t : topology) : bool * topology :=
  match findShard shardId t with
  | None => (false, t)
  | Some s =>
      if negb (shard_hasReplica s) || failedOver s then (false, t)
      else (true, updateShard shardId
                    (mkShard (id s) (primary s) (shard_hasReplica s) (replica s) (address (replica s)) true) t)
  end.

Record NodeSnapshot : Type := mkNodeSnapshot {
  snap_shardId : string;
  snap_role : NodeRole;
  snap_address : string;
  snap_health : NodeHealth;
  snap_active : bool
}.

Definition shard_snapshot (s : Shard) : list NodeSnapshot :=
  mkNodeSnapshot (id s) PRIMARY (address (primary s)) (health (primary s))
    (bool_decide (activeAddress s = address (primary s))) ::
  (if shard_hasReplica s
   then [mkNodeSnapshot (id s) REPLICA (address (replica s)) (health (replica s))
           (bool_decide (activeAddress s = address (replica s)))]
   else []).

Definition snapshot (t : topology) : list NodeSnapshot := t ≫= shard_snapshot.

End ShardTopology.

(** [address.rfind(':')] with the two [substr]s. *)
Fixpoint split_last (c : ascii) (s : string) : option (string * string) :=
  match s with
  | EmptyString => None
  | String d s' =>
      match split_last c s' with
      | Some (a, b) => Some (String d a, b)
      | None => if bool_decide (d = c) then Some (EmptyString, s') else None
      end
  end.

Definition splitAddress (addr : string) : option (string * Z) :=
  match split_last ":" addr with
  | None => None
  | Some (host, rest) =>
      match stoi rest with
      | inr port => Some (host, port)
      | inl _ => None
      end
  end.

Module HealthChecker.
Import ShardTopology.

Definition network : Type := nat → string → Z → string → option string.

(** A fresh connection, one request, and whether the reply is [+OK]. *)
Definition ask (net : network) (i : nat) (addr line : string) : bool :=
  match splitAddress addr with
  | None => false
  | Some (host, port) => bool_decide (net i host port line = Some "+OK")
  end.

Definition pingNode (net : network) (i : nat) (addr : string) : bool := ask net i addr "PING".

(** [checkShard]: the addresses that were sent REPLICAOF NO ONE, and the
    topology after the check. *)
Definition checkShard (net : network) (maxMissedPings : Z) (shardId : string) (t : topology)
    : option (list string * topology) :=
  let primaryUp := pingNode net 0 (primaryAddress shardId t) in
  t1 ← recordPingResult shardId PRIMARY primaryUp maxMissedPings t;
  let afterPrimary := healthOf shardId PRIMARY t1 in
  if negb (hasReplica shardId t1) then Some ([], t1)
  else
    let replicaAddr := replicaAddress shardId t1 in
    let replicaUp := pingNode net 1 replicaAddr in
    t2 ← recordPingResult shardId REPLICA replicaUp maxMissedPings t1;
    let afterReplica := healthOf shardId REPLICA t2 in
    if negb (bool_decide (afterPrimary = DOWN)) then Some ([], t2)
    else if negb (bool_decide (afterReplica = UP)) then Some ([], t2)
    else if alreadyFailedOver shardId t2 then Some ([], t2)
    else
      let promoted := ask net 2 replicaAddr "REPLICAOF NO ONE" in
      Some ([replicaAddr], if promoted then (promoteReplica shardId t2).2 else t2).

(** One round of [runLoop] over the shards, each check with its own answers. *)
Fixpoint check_round (nets : nat → network) (maxMissedPings : Z) (ids : list string) (t : topology)
    : option topology :=
  match ids with
  | [] => Some t
  | shardId :: ids' =>
      '(_, t') ← checkShard (nets 0) maxMissedPings shardId t;
      check_round (λ i, nets (S i)) maxMissedPings ids' t'
  end.

(** [n] checks of the same shard in a row, with the same answers. *)
Fixpoint checks (net : network) (maxMissedPings : Z) (shardId : string) (n : nat) (t : topology)
    : option topology :=
  match n with
  | O => Some t
  | S n' => '(_, t') ← checkShard net maxMissedPings shardId t; checks net maxMissedPings shardId n' t'
  end.

(** The topologies a router can get to. *)
Inductive reachable (maxMissedPings : Z) (t0 : topology) : topology → Prop :=
| reach_start : reachable maxMissedPings t0 t0
| reach_check t net shardId sent t' :
    reachable maxMissedPings t0 t → checkShard net maxMissedPings shardId t = Some (sent, t') →
    reachable maxMissedPings t0 t'.

End HealthChecker.

(** ** What the parts promise *)

(** What never changes about a shard. *)
Definition layout (s : Shard) : string * string * bool * string :=
  (id s, address (primary s), shard_hasReplica s, address (replica s)).

(** The active address is the primary's until the failover, and the replica's
    from then on. *)
Definition shard_ok (s : Shard) : Prop :=
  activeAddress s = (if failedOver s then address (replica s) else address (primary s)) ∧
  (failedOver s = true → shard_hasReplica s = true).

(** A node is DOWN exactly when it has missed the limit. *)
Definition node_ok (maxMissedPings : Z) (n : ShardNode) : Prop :=
  (0 ≤ consecutiveMisses n)%Z ∧ (health n = DOWN ↔ (maxMissedPings ≤ consecutiveMisses n)%Z).

(** The misses since the last successful ping. *)
Fixpoint trailing_misses (pings : list bool) : Z :=
  match pings with
  | [] => 0
  | true :: _ => 0
  | false :: pings' => trailing_misses pings' + 1
  end.

(** How a shard may change: its layout never, its failover only once. *)
Definition evolves (maxMissedPings : Z) (s s' : Shard) : Prop :=
  layout s' = layout s ∧ (shard_ok s → shard_ok s') ∧
  (failedOver s = true → failedOver s' = true ∧ activeAddress s' = activeAddress s) ∧
  (node_ok maxMissedPings (primary s) → node_ok maxMissedPings (primary s')) ∧
  (node_ok maxMissedPings (replica s) → node_ok maxMissedPings (replica s')).

(** A topology of two shards, one of them with a replica. *)
Definition sample_config : Config.values :=
  {["shards" := "shard0,shard1"; "shard0.primary" := "127.0.0.1:6381"; "shard0.replica" := "127.0.0.1:6391";
    "shard1.primary" := "127.0.0.1:6382"]}.

(** Everything of a shard but the health of its nodes. *)
Definition role_view (s : Shard) : string * string * bool * string * string * bool :=
  (layout s, activeAddress s, failedOver s).

(** ** Lemmas *)

Section topology.
Import ShardTopology HealthChecker.

#[local] Instance evolves_preorder max : PreOrder (evolves max).
Proof.
  split.
  - intros s. split_and!; auto.
  - intros s1 s2 s3 (L1 & O1 & F1 & P1 & R1) (L2 & O2 & F2 & P2 & R2). split_and!; auto; [congruence|].
    intros H. destruct (F1 H) as [H' E1]. destruct (F2 H') as [? E2]. split; [done|congruence].
Qed.

Lemma findShard_id shardId t s : findShard shardId t = Some s → id s = shardId.
Proof.
  induction t as [|x t IH]; simpl; [done|]. case_bool_decide; [by intros; simplify_eq|done].
Qed.

Lemma findShard_update shardId t s s' j :
  findShard shardId t = Some s → id s' = shardId →
  findShard j (updateShard shardId s' t) = if decide (j = shardId) then Some s' else findShard j t.
Proof.
  intros Hf Hid. induction t as [|x t IH]; simpl in *; [done|].
  case_bool_decide as Hx.
  - simpl. case_bool_decide; case_decide; try done; subst; try congruence.
    by rewrite bool_decide_false by congruence.
  - simpl. case_bool_decide; [|by apply IH]. case_decide; [congruence|done].
Qed.

Lemma update_evolves max shardId t s s' j :
  findShard shardId t = Some s → evolves max s s' →
  option_Forall2 (evolves max) (findShard j t) (findShard j (updateShard shardId s' t)).
Proof.
  intros Hf He. pose proof (findShard_id _ _ _ Hf) as Hid. rewrite (findShard_update _ _ s).
  - case_decide; [subst j; rewrite Hf; by constructor|]. destruct (findShard j t); by constructor.
  - done.
  - destruct He as [Hl _]. unfold layout in Hl. congruence.
Qed.

Lemma ping_node_ok max b n n' :
  (1 ≤ max)%Z → ping_node b max n = Some n' →
  address n' = address n ∧ (node_ok max n → node_ok max n').
Proof.
  unfold ping_node, node_ok. intros Hm. destruct b.
  - intros [= <-]. simpl. split; [done|]. intros _. split; [lia|]. split; [done|lia].
  - intros H. simplify_option_eq. match goal with H : chk32 _ = Some _ |- _ => apply chk32_Some in H as [-> _] end.
    simpl. split; [done|]. intros [H0 Hh]. split; [lia|].
    destruct (Z.leb_spec max (consecutiveMisses n + 1)); [done|]. rewrite Hh. lia.
Qed.

Lemma record_evolves max shardId role b t t' j :
  (1 ≤ max)%Z → recordPingResult shardId role b max t = Some t' →
  option_Forall2 (evolves max) (findShard j t) (findShard j t').
Proof.
  intros Hm. unfold recordPingResult. destruct (findShard shardId t) as [s|] eqn:Hf.
  - intros H. simplify_option_eq. eapply update_evolves; [done|].
    match goal with H : ping_node _ _ _ = Some _ |- _ => apply ping_node_ok in H as [Ha Hn]; [|done] end.
    destruct role; unfold evolves, layout, shard_ok in *; simpl in *; rewrite Ha; split_and!; auto.
  - intros [= <-]. destruct (findShard j t); by constructor.
Qed.

Lemma promote_evolves max shardId t j :
  option_Forall2 (evolves max) (findShard j t) (findShard j (promoteReplica shardId t).2).
Proof.
  unfold promoteReplica. destruct (findShard shardId t) as [s|] eqn:Hf;
    [|simpl; destruct (findShard j t); by constructor].
  destruct (negb (shard_hasReplica s) || failedOver s) eqn:E; simpl; [destruct (findShard j t); by constructor|].
  destruct_bools. eapply update_evolves; [done|].
  unfold evolves, layout, shard_ok. simpl. split_and!; auto; congruence.
Qed.

#[local] Instance option_evolves_preorder max : PreOrder (option_Forall2 (evolves max)).
Proof.
  split.
  - intros [s|]; by constructor.
  - intros o1 o2 o3 [s1 s2 H12|] H23; inversion H23; subst; constructor. by etrans.
Qed.

(** A check moves every shard the allowed way. *)
Lemma check_evolves net max shardId t sent t' j :
  (1 ≤ max)%Z → checkShard net max shardId t = Some (sent, t') →
  option_Forall2 (evolves max) (findShard j t) (findShard j t').
Proof.
  intros Hm. unfold checkShard. intros H. apply bind_Some in H as (t1 & H1 & H).
  apply (record_evolves _ _ _ _ _ _ j Hm) in H1. case_match; [by simplify_eq|].
  apply bind_Some in H as (t2 & H2 & H). apply (record_evolves _ _ _ _ _ _ j Hm) in H2.
  assert (option_Forall2 (evolves max) (findShard j t) (findShard j t2)) as H12 by by etrans.
  repeat case_match; simplify_eq; try done. etrans; [exact H12|]. apply promote_evolves.
Qed.

Lemma reachable_evolves max t0 t j :
  (1 ≤ max)%Z → reachable max t0 t → option_Forall2 (evolves max) (findShard j t0) (findShard j t).
Proof.
  intros Hm. induction 1 as [|t net shardId sent t' _ IH Hc]; [done|].
  etrans; [exact IH|]. by eapply check_evolves.
Qed.

Lemma parseShards_fresh config j s :
  findShard j (parseShards config) = Some s →
  shard_ok s ∧ (∀ max, (1 ≤ max)%Z → node_ok max (primary s) ∧ node_ok max (replica s)) ∧
  layout s = layout (parseShard config j).
Proof.
  unfold parseShards. induction (splitCsv _) as [|x l IH]; [done|]. rewrite fmap_cons. simpl.
  case_bool_decide; [|done]. subst. intros [= <-]. unfold shard_ok, node_ok. simpl. split_and!; try done.
  intros. split_and!; simpl; try lia; split; (done || lia).
Qed.

End topology.

Section properties.
Import ShardTopology HealthChecker.

Lemma pings_node max pings n :
  (1 ≤ max)%Z → consecutiveMisses n = 0%Z → health n = UP → (Z.of_nat (length pings) ≤ int32_max)%Z →
  ∃ n', foldr (λ b o, o ≫= ping_node b max) (Some n) pings = Some n' ∧
        consecutiveMisses n' = trailing_misses pings ∧ node_ok max n' ∧ (trailing_misses pings ≤ Z.of_nat (length pings))%Z.
Proof.
  intros Hm H0 Hu. induction pings as [|b pings IH]; simpl; intros Hl.
  - exists n. unfold node_ok. rewrite H0, Hu. split_and!; try done; try lia. split; [done|lia].
  - destruct IH as (n1 & -> & Hc & Hok & Hle); [lia|]. simpl. destruct b.
    + eexists. split; [reflexivity|]. simpl. split; [done|]. unfold node_ok. simpl. split; [|lia].
      split; [lia|]. split; [done|lia].
    + destruct (ping_node false max n1) as [n2|] eqn:E.
      * exists n2. split; [done|]. destruct (ping_node_ok _ _ _ _ Hm E) as [_ Hok'].
        unfold ping_node in E. simplify_option_eq.
        match goal with H : chk32 _ = Some _ |- _ => apply chk32_Some in H as [-> _] end. simpl in *.
        split; [lia|]. split; [auto|lia].
      * exfalso. unfold ping_node in E. destruct Hok as [? _].
        assert (chk32 (consecutiveMisses n1 + 1) = Some (consecutiveMisses n1 + 1)%Z) as Hk.
        { apply chk32_Some. split; [done|]. unfold int32_min, int32_max in *. lia. }
        by rewrite Hk in E.
Qed.

Lemma record_find shardId role b max t s n :
  findShard shardId t = Some s → ping_node b max (nodeOf role s) = Some n →
  ∃ t', recordPingResult shardId role b max t = Some t' ∧ findShard shardId t' = Some (with_node role n s).
Proof.
  intros Hf Hn. unfold recordPingResult. rewrite Hf, Hn. simpl. eexists. split; [reflexivity|].
  rewrite (findShard_update _ _ s); [by rewrite decide_True|done|].
  apply findShard_id in Hf. by destruct role.
Qed.

(** A node is DOWN exactly when its last [maxMissedPings] pings, or more, all
    failed; one success makes it UP again. Holds for every history of pings up
    to the [int] range, listed newest first. *)
Theorem health_tracks_missed_pings (max : Z) (shardId : string) (role : NodeRole) (t : topology) (s : Shard)
    (pings : list bool) :
  (1 ≤ max)%Z → findShard shardId t = Some s →
  health (nodeOf role s) = UP → consecutiveMisses (nodeOf role s) = 0%Z →
  (Z.of_nat (length pings) ≤ int32_max)%Z →
  ∃ t', foldr (λ b o, o ≫= recordPingResult shardId role b max) (Some t) pings = Some t' ∧
        (healthOf shardId role t' = DOWN ↔ (max ≤ trailing_misses pings)%Z).
Proof.
  intros Hm Hf Hu H0 Hl. destruct (pings_node max pings (nodeOf role s)) as (n & Hn & Hc & [_ Hok] & _); [done..|].
  assert (∃ t' s', foldr (λ b o, o ≫= recordPingResult shardId role b max) (Some t) pings = Some t' ∧
    findShard shardId t' = Some s' ∧ nodeOf role s' = n) as (t' & s' & Ht & Hf' & <-).
  { clear Hc Hok Hl. revert n Hn. induction pings as [|b pings IH]; simpl; intros n Hn.
    - simplify_eq. eauto.
    - apply bind_Some in Hn as (n1 & Hn1 & Hn). destruct (IH n1 Hn1) as (t1 & s1 & -> & Hf1 & <-).
      destruct (record_find shardId role b max t1 s1 n Hf1 Hn) as (t2 & Hr & Hf2).
      exists t2, (with_node role n s1). simpl. split; [done|]. split; [done|]. by destruct role. }
  exists t'. split; [done|]. unfold healthOf. by rewrite Hf', Hok, Hc.
Qed.

Theorem health_tracks_missed_pings_witness :
  ∃ t', foldr (λ b o, o ≫= recordPingResult "shard0" PRIMARY b 3) (Some (parseShards sample_config))
          [false; false; false; true; false] = Some t' ∧
        (healthOf "shard0" PRIMARY t' = DOWN ↔ (3 ≤ 3)%Z).
Proof.
  apply (health_tracks_missed_pings 3 "shard0" PRIMARY (parseShards sample_config)
    (parseShard sample_config "shard0") [false; false; false; true; false]);
    [lia|vm_compute; reflexivity|reflexivity|reflexivity|vm_compute; discriminate].
Defined.

(** C14: Failover happens at most once per shard and is never undone: from the
    configured topology, after any number of checks with any answers, a shard's
    active address is its primary's before the failover and its replica's from
    then on, its configuration is untouched, and its health records agree with
    its miss counts. *)
Theorem failover_is_one_way (max : Z) (config : Config.values) (t t' : topology) (j : string) (s : Shard) :
  (1 ≤ max)%Z → reachable max (parseShards config) t → reachable max t t' →
  findShard j t = Some s →
  ∃ s', findShard j t' = Some s' ∧
    layout s = layout (parseShard config j) ∧ layout s' = layout s ∧
    shard_ok s ∧ shard_ok s' ∧ node_ok max (primary s') ∧ node_ok max (replica s') ∧
    (failedOver s = true → failedOver s' = true ∧ activeAddress s' = activeAddress s).
Proof.
  intros Hm Hr Hr' Hs.
  pose proof (reachable_evolves max _ _ j Hm Hr) as H1. pose proof (reachable_evolves max _ _ j Hm Hr') as H2.
  rewrite Hs in H1, H2. inversion H1 as [s0 s1 H01 Hf0 Es1|]. inversion H2 as [s2 s' H12 Es2 Hf2|]. subst.
  symmetry in Hf0. destruct (parseShards_fresh _ _ _ Hf0) as (Ho & Hn & Hl). destruct (Hn max Hm) as [Hnp Hnr].
  destruct H01 as (L1 & O1 & F1 & P1 & R1), H12 as (L2 & O2 & F2 & P2 & R2).
  exists s'. split; [done|]. split; [congruence|]. auto 10.
Qed.

Theorem failover_is_one_way_witness :
  let net : network := λ _ _ port _, if bool_decide (port = 6391)%Z then Some "+OK" else None in
  ∃ t s s', checkShard net 1 "shard0" (parseShards sample_config) = Some (["127.0.0.1:6391"], t) ∧
    findShard "shard0" t = Some s ∧ activeAddress s = "127.0.0.1:6391" ∧
    checkShard (λ _ _ _ _, Some "+OK") 1 "shard0" t = Some ([], s') ∧
    activeAddressFor "shard0" s' = "127.0.0.1:6391".
Proof.
  intros net. eexists _, _, _. split; [vm_compute; reflexivity|]. split; [vm_compute; reflexivity|].
  split; [reflexivity|]. split; [vm_compute; reflexivity|].
  match goal with |- activeAddressFor _ ?t2 = _ =>
    match goal with |- _ => edestruct (failover_is_one_way 1 sample_config) with (t' := t2) (j := "shard0")
      as (s' & Hf & _ & _ & _ & _ & _ & _ & Hfo) end end.
  - lia.
  - eapply (reach_check _ _ (parseShards sample_config) net "shard0"); [constructor|]. vm_compute. reflexivity.
  - eapply (reach_check _ _ _ (λ _ _ _ _, Some "+OK") "shard0"); [constructor|]. vm_compute. reflexivity.
  - vm_compute. reflexivity.
  - unfold activeAddressFor. rewrite Hf. destruct (Hfo eq_refl) as [_ ->]. reflexivity.
Defined.

Lemma record_frame shardId role b max t t' j :
  recordPingResult shardId role b max t = Some t' →
  role_view <$> findShard j t' = role_view <$> findShard j t.
Proof.
  unfold recordPingResult. destruct (findShard shardId t) as [s|] eqn:Hf; [|by intros [= <-]].
  intros (n & Hn & [= <-])%bind_Some. pose proof (findShard_id _ _ _ Hf) as Hid.
  rewrite (findShard_update _ _ s) by (destruct role; done). case_decide; [|done]. subst j. rewrite Hf. simpl.
  f_equal. unfold role_view, layout.
  assert (address n = address (nodeOf role s)) as Ha.
  { unfold ping_node in Hn. case_match; simplify_option_eq; done. }
  destruct role; simpl in *; by rewrite ?Ha.
Qed.

Lemma record_other_health shardId role role' b max t t' j :
  role' ≠ role → recordPingResult shardId role b max t = Some t' →
  healthOf j role' t' = healthOf j role' t.
Proof.
  intros Hne. unfold recordPingResult, healthOf. destruct (findShard shardId t) as [s|] eqn:Hf; [|by intros [= <-]].
  intros (n & Hn & [= <-])%bind_Some. pose proof (findShard_id _ _ _ Hf) as Hid.
  rewrite (findShard_update _ _ s) by (destruct role; done). case_decide; [|done]. subst j. rewrite Hf.
  by destruct role, role'.
Qed.

Lemma role_view_reads j t t' :
  role_view <$> findShard j t' = role_view <$> findShard j t →
  activeAddressFor j t' = activeAddressFor j t ∧ hasReplica j t' = hasReplica j t ∧
  replicaAddress j t' = replicaAddress j t ∧ alreadyFailedOver j t' = alreadyFailedOver j t.
Proof.
  unfold activeAddressFor, hasReplica, replicaAddress, alreadyFailedOver.
  destruct (findShard j t'), (findShard j t); simpl; intros H; simplify_eq; done.
Qed.

(** What promotion does to the shard and to the others. *)
Lemma promote_find shardId t j :
  j ≠ shardId → findShard j (promoteReplica shardId t).2 = findShard j t.
Proof.
  intros Hj. unfold promoteReplica. destruct (findShard shardId t) as [s|] eqn:Hf; [|done].
  destruct (negb (shard_hasReplica s) || failedOver s); [done|]. simpl. rewrite (findShard_update _ _ s); [by rewrite decide_False|done|].
  by apply findShard_id in Hf.
Qed.

Lemma promote_health shardId t j role :
  healthOf j role (promoteReplica shardId t).2 = healthOf j role t.
Proof.
  unfold promoteReplica, healthOf. destruct (findShard shardId t) as [s|] eqn:Hf; [|done].
  destruct (negb (shard_hasReplica s) || failedOver s); [done|]. simpl. rewrite (findShard_update _ _ s); [|done|by apply findShard_id in Hf].
  case_decide; [|done]. subst j. rewrite Hf. by destruct role.
Qed.

Lemma promote_spec shardId t s :
  findShard shardId t = Some s → shard_hasReplica s = true → failedOver s = false →
  activeAddressFor shardId (promoteReplica shardId t).2 = address (replica s) ∧
  alreadyFailedOver shardId (promoteReplica shardId t).2 = true.
Proof.
  intros Hf Hr Hfo. unfold promoteReplica, activeAddressFor, alreadyFailedOver. rewrite Hf, Hr, Hfo. simpl.
  rewrite (findShard_update _ _ s); [by rewrite decide_True|done|by apply findShard_id in Hf].
Qed.

(** C23: REPLICAOF NO ONE is only sent when the primary is down, the replica up and
    the shard not failed over; and only that moves a shard's active address. *)
Theorem promotion_only_when_needed (net : network) (max : Z) (shardId : string) (t : topology)
    (sent : list string) (t' : topology) :
  checkShard net max shardId t = Some (sent, t') →
  (sent = [] → ∀ j, activeAddressFor j t' = activeAddressFor j t) ∧
  (sent ≠ [] → sent = [replicaAddress shardId t] ∧
     healthOf shardId PRIMARY t' = DOWN ∧ healthOf shardId REPLICA t' = UP ∧
     alreadyFailedOver shardId t = false ∧ ∀ j, j ≠ shardId → activeAddressFor j t' = activeAddressFor j t).
Proof.
  unfold checkShard. intros H. apply bind_Some in H as (t1 & H1 & H).
  pose proof (λ j, role_view_reads j _ _ (record_frame _ _ _ _ _ _ j H1)) as V1.
  case_match; [simplify_eq; split; [intros _ j; apply V1|done]|].
  apply bind_Some in H as (t2 & H2 & H).
  pose proof (λ j, role_view_reads j _ _ (record_frame _ _ _ _ _ _ j H2)) as V2.
  assert (∀ j, activeAddressFor j t2 = activeAddressFor j t) as Ha.
  { intros j. destruct (V1 j) as [<- _]. by destruct (V2 j) as [<- _]. }
  destruct (V1 shardId) as (_ & _ & Hra & Hfo1), (V2 shardId) as (_ & _ & _ & Hfo2).
  pose proof (record_other_health shardId REPLICA PRIMARY _ _ _ _ shardId ltac:(done) H2) as Hp.
  repeat (case_match; simplify_eq; [split; [intros _; exact Ha|done]|]). simplify_eq. destruct_bools.
  split; [done|]. intros _. rewrite Hra. split; [done|].
  assert (∀ role, healthOf shardId role (if ask net 2 (replicaAddress shardId t) "REPLICAOF NO ONE"
    then (promoteReplica shardId t2).2 else t2) = healthOf shardId role t2) as Hh.
  { intros role. case_match; [apply promote_health|done]. }
  rewrite !Hh, Hp. split; [done|]. split; [done|]. split; [congruence|].
  intros j Hj. rewrite <-Ha. case_match; [|done]. unfold activeAddressFor. by rewrite promote_find.
Qed.

Theorem promotion_only_when_needed_witness :
  let net : network := λ _ _ port _, if bool_decide (port = 6391)%Z then Some "+OK" else None in
  ∃ t', checkShard net 1 "shard0" (parseShards sample_config) = Some (["127.0.0.1:6391"], t') ∧
        healthOf "shard0" PRIMARY t' = DOWN ∧ activeAddressFor "shard1" t' = "127.0.0.1:6382".
Proof.
  intros net. eexists. split; [vm_compute; reflexivity|].
  match goal with |- healthOf _ _ ?t' = _ ∧ _ =>
    destruct (promotion_only_when_needed net 1 "shard0" (parseShards sample_config) ["127.0.0.1:6391"] t')
      as [_ H]; [vm_compute; reflexivity|] end.
  destruct (H ltac:(discriminate)) as (_ & H1 & _ & _ & H2). split; [exact H1|].
  rewrite (H2 "shard1" ltac:(discriminate)). vm_compute. reflexivity.
Defined.

(** One check in which the primary is silent and the replica answers. *)
Lemma check_silent net max shardId t s :
  findShard shardId t = Some s → shard_hasReplica s = true → failedOver s = false →
  health (primary s) = UP → (0 ≤ consecutiveMisses (primary s) < max)%Z → (max ≤ int32_max)%Z →
  pingNode net 0 (address (primary s)) = false →
  pingNode net 1 (address (replica s)) = true →
  ask net 2 (address (replica s)) "REPLICAOF NO ONE" = true →
  let last := (max <=? consecutiveMisses (primary s) + 1)%Z in
  ∃ t' s', checkShard net max shardId t = Some (if last then [address (replica s)] else [], t') ∧
    findShard shardId t' = Some s' ∧ layout s' = layout s ∧
    (∀ j, j ≠ shardId → activeAddressFor j t' = activeAddressFor j t) ∧
    (if last
     then activeAddressFor shardId t' = address (replica s) ∧ alreadyFailedOver shardId t' = true
     else activeAddressFor shardId t' = activeAddressFor shardId t ∧
          failedOver s' = false ∧ health (primary s') = UP ∧
          consecutiveMisses (primary s') = (consecutiveMisses (primary s) + 1)%Z).
Proof.
  intros Hf Hr Hfo Hu Hm Hmax Hping Hping1 Hask last. unfold checkShard, primaryAddress. rewrite Hf, Hping.
  set (n1 := mkShardNode (address (primary s)) (if last then DOWN else UP) (consecutiveMisses (primary s) + 1)).
  assert (health n1 = if last then DOWN else UP) as Hn1 by done.
  assert (address n1 = address (primary s) ∧ consecutiveMisses n1 = (consecutiveMisses (primary s) + 1)%Z) as [Ha1 Hc1] by done.
  destruct (record_find shardId PRIMARY false max t s n1) as (t1 & E1 & Hf1); [done| |].
  { unfold ping_node. simpl. rewrite Hu, (proj2 (chk32_Some _ (consecutiveMisses (primary s) + 1))); [done|].
    unfold int32_min, int32_max in *. lia. }
  rewrite E1. simpl. clearbody n1.
  assert (hasReplica shardId t1 = true) as -> by (unfold hasReplica; by rewrite Hf1).
  assert (replicaAddress shardId t1 = address (replica s)) as -> by (unfold replicaAddress; by rewrite Hf1).
  assert (healthOf shardId PRIMARY t1 = health n1) as -> by (unfold healthOf; by rewrite Hf1).
  rewrite Hping1.
  destruct (record_find shardId REPLICA true max t1 (with_node PRIMARY n1 s) (mkShardNode (address (replica s)) UP 0))
    as (t2 & E2 & Hf2); [done|done|].
  rewrite E2. simpl.
  assert (∀ j, activeAddressFor j t2 = activeAddressFor j t) as Hact.
  { intros j. apply role_view_reads. by rewrite (record_frame _ _ _ _ _ _ _ E2), (record_frame _ _ _ _ _ _ _ E1). }
  assert (healthOf shardId REPLICA t2 = UP) as -> by (unfold healthOf; by rewrite Hf2).
  assert (alreadyFailedOver shardId t2 = false) as -> by (unfold alreadyFailedOver; by rewrite Hf2).
  rewrite Hask, Hn1. destruct last; simpl.
  - pose proof (promote_evolves max shardId t2 shardId) as He. rewrite Hf2 in He.
    inversion He as [s1 s' Hev Es1 Es'|]. subst. eexists _, s'. split; [reflexivity|]. split; [done|].
    destruct Hev as [Hl _]. split; [rewrite Hl; unfold layout; simpl; by rewrite Ha1|].
    split; [|exact (promote_spec shardId t2 _ Hf2 Hr Hfo)].
    intros j Hj. rewrite <-Hact. unfold activeAddressFor. by rewrite promote_find.
  - eexists t2, _. split; [reflexivity|]. split; [exact Hf2|]. unfold layout. simpl. rewrite Ha1. done.
Qed.

(** Checks the primary does not answer, as long as they are fewer than the
    limit: nothing is promoted. *)
Lemma checks_silent net max shardId host port n t s :
  findShard shardId t = Some s → shard_hasReplica s = true → failedOver s = false →
  health (primary s) = UP → (0 ≤ consecutiveMisses (primary s))%Z → (consecutiveMisses (primary s) + Z.of_nat n < max ≤ int32_max)%Z →
  pingNode net 0 (address (primary s)) = false → splitAddress (address (replica s)) = Some (host, port) →
  (∀ i line, 1 ≤ i → net i host port line = Some "+OK") →
  ∃ t' s', checks net max shardId n t = Some t' ∧ findShard shardId t' = Some s' ∧ layout s' = layout s ∧
    activeAddressFor shardId t' = activeAddressFor shardId t ∧ failedOver s' = false ∧ health (primary s') = UP ∧
    consecutiveMisses (primary s') = (consecutiveMisses (primary s) + Z.of_nat n)%Z.
Proof.
  intros Hf Hr Hfo Hu H0 Hm Hping Hsplit Hnet. revert t s Hf Hr Hfo Hu H0 Hm Hping Hsplit.
  induction n as [|n IH]; intros t s Hf Hr Hfo Hu H0 Hm Hping Hsplit.
  { exists t, s. rewrite Z.add_0_r. done. }
  assert (∀ i line, 1 ≤ i → ask net i (address (replica s)) line = true) as Hask.
  { intros i line Hi. unfold ask. rewrite Hsplit, Hnet by done. by apply bool_decide_true. }
  destruct (check_silent net max shardId t s) as (t1 & s1 & E & Hf1 & Hl & _ & Hend);
    [done|done|done|done|lia|lia|done|by apply Hask|apply Hask; lia|].
  simpl. rewrite E. simpl. rewrite (proj2 (Z.leb_gt _ _)) in Hend by lia.
  destruct Hend as (Ha1 & Hfo1 & Hu1 & Hc1). pose proof Hl as Hl'. unfold layout in Hl'. injection Hl' as Hi Ha Hh Hb.
  destruct (IH t1 s1) as (t' & s' & Ec & Hf' & Hl2 & Ha2 & ? & ? & Hc2); [done|congruence|done|done|lia|lia|congruence|congruence|].
  exists t', s'. split_and!; try done; try congruence. lia.
Qed.

Lemma checks_app net max shardId n n' t :
  checks net max shardId (n + n') t = (checks net max shardId n t ≫= checks net max shardId n').
Proof.
  revert t. induction n as [|n IH]; intros t; [done|]. simpl. destruct (checkShard net max shardId t) as [[? t1]|]; [|done].
  apply IH.
Qed.

(** C22: Failover completes on time: when the primary of a shard does not answer
    any more and its replica does, the shard is served by the replica after
    [maxMissedPings] checks, and after any smaller number of checks it is served
    by whatever served it before, and not failed over. *)
Theorem failover_completes (net : network) (max : Z) (shardId : string) (t : topology) (s : Shard) (host : string) (port : Z) :
  (1 ≤ max ≤ int32_max)%Z → findShard shardId t = Some s →
  health (primary s) = UP → consecutiveMisses (primary s) = 0%Z →
  shard_hasReplica s = true → failedOver s = false →
  pingNode net 0 (address (primary s)) = false →
  splitAddress (address (replica s)) = Some (host, port) →
  (∀ i line, 1 ≤ i → net i host port line = Some "+OK") →
  (∀ n, (Z.of_nat n < max)%Z → ∃ t', checks net max shardId n t = Some t' ∧
     activeAddressFor shardId t' = activeAddressFor shardId t ∧ alreadyFailedOver shardId t' = false) ∧
  ∃ t', checks net max shardId (Z.to_nat max) t = Some t' ∧
        activeAddressFor shardId t' = address (replica s) ∧ alreadyFailedOver shardId t' = true.
Proof.
  intros Hmax Hf Hu H0 Hr Hfo Hping Hsplit Hnet. split.
  - intros n Hn. destruct (checks_silent net max shardId host port n t s) as (t' & s' & E & Hf' & _ & Ha & Hfo' & _);
      [done..|lia|lia|done|done|done|]. exists t'. split; [done|]. split; [done|]. unfold alreadyFailedOver. by rewrite Hf'.
  - destruct (checks_silent net max shardId host port (Z.to_nat (max - 1)) t s) as (t1 & s1 & E & Hf1 & Hl & _ & Hfo1 & Hu1 & Hc1);
      [done..|lia|lia|done|done|done|]. unfold layout in Hl. injection Hl as Hi Ha Hh Hb.
    assert (∀ i line, 1 ≤ i → ask net i (address (replica s1)) line = true) as Hask.
    { intros i line Hle. unfold ask. rewrite Hb, Hsplit, Hnet by done. by apply bool_decide_true. }
    destruct (check_silent net max shardId t1 s1) as (t2 & s2 & E2 & _ & _ & _ & Hend);
      [done|congruence|done|done|lia|lia|congruence|by apply Hask|apply Hask; lia|].
    rewrite (proj2 (Z.leb_le _ _)) in E2, Hend by lia. exists t2. rewrite Hb in Hend. split; [|done].
    replace (Z.to_nat max) with (Z.to_nat (max - 1) + 1) by lia. rewrite checks_app, E. simpl. by rewrite E2.
Qed.

Theorem failover_completes_witness :
  let net : network := λ _ _ port _, if bool_decide (port = 6391)%Z then Some "+OK" else None in
  (∃ t', checks net 3 "shard0" 2 (parseShards sample_config) = Some t' ∧ alreadyFailedOver "shard0" t' = false) ∧
  ∃ t', checks net 3 "shard0" 3 (parseShards sample_config) = Some t' ∧
        activeAddressFor "shard0" t' = "127.0.0.1:6391" ∧ alreadyFailedOver "shard0" t' = true.
Proof.
  intros net. destruct (failover_completes net 3 "shard0" (parseShards sample_config)
    (parseShard sample_config "shard0") "127.0.0.1" 6391) as [Hbefore Hafter];
    [vm_compute; split; discriminate|vm_compute; reflexivity|reflexivity|reflexivity|reflexivity|reflexivity
    |vm_compute; reflexivity|vm_compute; reflexivity|intros i line _; reflexivity|].
  split; [|exact Hafter]. destruct (Hbefore 2) as (t' & E & _ & H); [lia|]. exists t'. split; [exact E|exact H].
Defined.

End properties.
