(* ===== verification/Net.v ===== *)
(** * Framing: lines over TCP

    [src/net/line_protocol.cpp] and [src/net/tcp_client.cpp]. The operating
    system is a parameter: what each [send] and [recv] returns. [recv] delivers
    the bytes of a connection in chunks of its choosing. *)

From S2P Require Import Prelude CxxStd Config.

(** ** Definitions *)

(** [kMaxLineLength] of the reader. *)
Definition kMaxBuffered : Z := 8192.

(** The size of the reader's [chunk]. *)
Definition kChunk : nat := 4096.

Section writer.
(** What the [i]-th call of [send] returns when asked to send so many bytes. *)
Variable send : nat → nat → Z.

(** The loop of [writeRaw]: its result and the bytes handed to the network. *)
Fixpoint writeRaw_loop (fuel i : nat) (data : string) : bool * string :=
  match data with
  | EmptyString => (true, EmptyString)
  | String _ _ =>
      match fuel with
      | O => (false, EmptyString)
      | S fuel' =>
          let sent := send i (String.length data) in
          if (sent <=? 0)%Z then (false, EmptyString)
          else
            let '(ok, out) := writeRaw_loop fuel' (S i) (str_drop (Z.to_nat sent) data) in
            (ok, str_take (Z.to_nat sent) data +:+ out)
      end
  end.

(** Every turn of the loop sends something, so the length of the data bounds
    their number. *)
Definition writeRaw (data : string) : bool * string := writeRaw_loop (String.length data) 0 data.

Definition writeLine (line : string) : bool * string := writeRaw (line +:+ String nl EmptyString).

End writer.

(** [if (!outLine.empty() && outLine.back() == '\r') outLine.pop_back()]. *)
Fixpoint strip_cr (s : string) : string :=
  match s with
  | EmptyString => EmptyString
  | String c EmptyString => if bool_decide (c = cr) then EmptyString else s
  | String c s' => String c (strip_cr s')
  end.

(** [readLine] on a reader that holds [buffer_] and a connection that will
    deliver [chunks] and then end: the line, or [None] for the result [false],
    with the buffer and the connection left behind. *)
Fixpoint readLine (buffer_ : string) (chunks : list string) : option string * (string * list string) :=
  match split_at nl buffer_ with
  | Some (line, rest) => (Some (strip_cr line), (rest, chunks))
  | None =>
      if (kMaxBuffered <? Z.of_nat (String.length buffer_))%Z then (None, (buffer_, chunks))
      else
        match chunks with
        | [] => (None, (buffer_, []))
        | chunk :: chunks' => readLine (buffer_ +:+ chunk) chunks'
        end
  end.

(** [while (reader.readLine(fd, line)) ...]: the lines a connection yields, and
    what is left unread. *)
Fixpoint read_lines (fuel : nat) (buffer_ : string) (chunks : list string) : list string * (string * list string) :=
  match fuel with
  | O => ([], (buffer_, chunks))
  | S fuel' =>
      match readLine buffer_ chunks with
      | (Some line, (buffer', chunks')) =>
          let '(lines, final) := read_lines fuel' buffer' chunks' in (line :: lines, final)
      | (None, final) => ([], final)
      end
  end.

(** The other end of a connection: host and port. *)
Definition endpoint : Type := string * Z.

(** [htons(static_cast<uint16_t>(port))]: the port is cut to 16 bits. *)
Definition endpoint_of (host : string) (port : Z) : endpoint := (host, port mod 65536)%Z.

(** [TcpClient]: the peer its socket is connected to ([None] for [fd_ = -1]), the
    reader's buffer, and what the connection has delivered or will deliver. *)
Record TcpClient : Type := mkClient {
  fd_ : option endpoint;
  reader_buffer : string;
  incoming : list string
}.

Definition fd_open (c : TcpClient) : bool := if fd_ c is Some _ then true else false.

Module TcpClient.

Definition create : TcpClient := mkClient None EmptyString [].

(** [connect]: [accepted] tells whether the address is valid and the peer
    accepts; the reader keeps its buffer. *)
Definition connect (host : string) (port : Z) (accepted : bool) (chunks : list string) (c : TcpClient)
    : bool * TcpClient :=
  if accepted then (true, mkClient (Some (endpoint_of host port)) (reader_buffer c) chunks)
  else (false, mkClient None (reader_buffer c) []).

Definition close (c : TcpClient) : TcpClient := mkClient None (reader_buffer c) [].

(** [sendLine]: [sent] is the result of [writeLine]. *)
Definition sendLine (sent : bool) (c : TcpClient) : bool := fd_open c && sent.

Definition receiveLine (c : TcpClient) : option string * TcpClient :=
  if fd_open c then
    let '(line, (b, cs)) := readLine (reader_buffer c) (incoming c) in (line, mkClient (fd_ c) b cs)
  else (None, c).

Definition isConnected (c : TcpClient) : bool := fd_open c.

(** More bytes reach the socket. *)
Definition arrive (chunks : list string) (c : TcpClient) : TcpClient :=
  mkClient (fd_ c) (reader_buffer c) (incoming c ++ chunks).

End TcpClient.

(** ** What framing promises *)

(** A line as it travels: no line feed inside, and within the limit. *)
Definition frame_ok (l : string) : bool :=
  str_all (λ c, negb (bool_decide (c = nl))) l && (Z.of_nat (String.length l) <=? kMaxBuffered)%Z.

Definition frames (ls : list string) : string :=
  str_concat ((λ l, l +:+ String nl EmptyString) <$> ls).

(** ** Lemmas *)

Lemma str_drop_length k s : String.length (str_drop k s) = String.length s - k.
Proof. revert s. induction k as [|k IH]; intros [|c s]; simpl; [done..|apply IH]. Qed.

Lemma str_app_inj_l a b c : a +:+ b = a +:+ c → b = c.
Proof. induction a as [|x a IH]; [done|]. rewrite !str_app_cons. intros [= H]. auto. Qed.

(** The bytes handed over are a prefix of the data, the whole of it on
    success. *)
Lemma writeRaw_loop_spec send fuel i data ok out :
  String.length data ≤ fuel → writeRaw_loop send fuel i data = (ok, out) →
  ∃ rest, data = out +:+ rest ∧ (ok = true ↔ rest = EmptyString).
Proof.
  revert i data ok out. induction fuel as [|fuel IH]; intros i data ok out Hl; (destruct data as [|c data]; simpl).
  - intros [= <- <-]. by exists EmptyString.
  - simpl in Hl. lia.
  - intros [= <- <-]. by exists EmptyString.
  - case_match eqn:Hs; [intros [= <- <-]; exists (String c data); done|].
    destruct (writeRaw_loop _ _ _ _) as [ok' out'] eqn:E. intros [= <- <-]. apply Z.leb_gt in Hs.
    destruct (Z.to_nat (send i (S (String.length data)))) as [|k] eqn:Hk; [lia|]. simpl in *.
    apply IH in E as (rest & Hd & Hok); [|rewrite str_drop_length; lia].
    exists rest. split; [|done]. rewrite !str_app_cons. f_equal. rewrite str_app_assoc, <-Hd. by rewrite str_take_drop.
Qed.

Lemma writeRaw_loop_sends send fuel i data :
  (∀ j k, 0 < k → (0 < send j k)%Z) → String.length data ≤ fuel → (writeRaw_loop send fuel i data).1 = true.
Proof.
  intros Hp. revert i data. induction fuel as [|fuel IH]; intros i data Hl; (destruct data as [|c data]; simpl in *);
    [done|lia|done|].
  pose proof (Hp i (S (String.length data)) ltac:(lia)) as Hs. rewrite (proj2 (Z.leb_gt _ _)) by lia.
  destruct (Z.to_nat (send i (S (String.length data)))) as [|k] eqn:Hk; [lia|]. simpl.
  specialize (IH (S i) (str_drop k data)). rewrite str_drop_length in IH.
  destruct (writeRaw_loop _ _ _ _); apply IH; lia.
Qed.

Lemma split_at_line c l rest :
  str_all (λ x, negb (bool_decide (x = c))) l = true → split_at c (l +:+ String c rest) = Some (l, rest).
Proof. intros H. unfold split_at. rewrite str_span_app; [done|done|]. by rewrite bool_decide_true. Qed.

Lemma split_at_none c s :
  str_all (λ x, negb (bool_decide (x = c))) s = true → split_at c s = None.
Proof. intros H. unfold split_at. by rewrite str_span_all. Qed.

(** A text is its first line and the rest, or has no line feed. *)
Lemma split_at_cases c s :
  (str_all (λ x, negb (bool_decide (x = c))) s = true ∧ split_at c s = None) ∨
  (∃ l rest, s = l +:+ String c rest ∧ str_all (λ x, negb (bool_decide (x = c))) l = true ∧
             split_at c s = Some (l, rest)).
Proof.
  destruct (str_span (λ x, negb (bool_decide (x = c))) s) as [a b] eqn:E.
  apply str_span_spec in E as (-> & Ha & [->|(d & b' & -> & Hd)]).
  - left. rewrite str_app_nil_r. split; [done|by apply split_at_none].
  - right. apply negb_false_iff, bool_decide_eq_true in Hd as ->. exists a, b'. split; [done|].
    split; [done|by apply split_at_line].
Qed.

(** Where the first line feed of a text stands. *)
Lemma first_line_unique c l1 r1 l2 r2 :
  str_all (λ x, negb (bool_decide (x = c))) l1 = true → str_all (λ x, negb (bool_decide (x = c))) l2 = true →
  l1 +:+ String c r1 = l2 +:+ String c r2 → l1 = l2 ∧ r1 = r2.
Proof.
  intros H1 H2 E. pose proof (split_at_line c l1 r1 H1) as S1. rewrite E, split_at_line in S1 by done.
  by simplify_eq.
Qed.

(** Reading one line does not depend on how the bytes are cut into chunks. *)
Lemma readLine_first l rest buffer_ chunks :
  frame_ok l = true → buffer_ +:+ str_concat chunks = l +:+ String nl rest →
  ∃ buffer' chunks', readLine buffer_ chunks = (Some (strip_cr l), (buffer', chunks')) ∧
                     buffer' +:+ str_concat chunks' = rest.
Proof.
  intros Hl. unfold frame_ok in Hl. destruct_bools. revert buffer_.
  induction chunks as [|chunk chunks IH]; intros buffer_ E; simpl in E.
  - rewrite str_app_nil_r in E. subst buffer_. simpl. rewrite split_at_line by done.
    exists rest, []. by rewrite str_app_nil_r.
  - cbn [readLine]. destruct (split_at_cases nl buffer_) as [[Hn ->]|(l' & r' & -> & Hl' & ->)].
    + rewrite (proj2 (Z.ltb_ge _ _)); [apply IH; by rewrite str_app_assoc|].
      (* the buffer is a prefix of the line *)
      match goal with H : (_ <=? _)%Z = true |- _ => apply Z.leb_le in H end.
      enough (String.length buffer_ ≤ String.length l) by lia.
      clear IH. revert l E H H0. induction buffer_ as [|b buffer_ IHb]; intros l E Hnl Hle; simpl; [lia|].
      destruct l as [|x l].
      * rewrite str_app_cons, str_app_nil_l in E. injection E as -> E. done.
      * rewrite !str_app_cons in E. injection E as -> E. simpl in *. destruct_bools.
        specialize (IHb ltac:(done) l E ltac:(done) ltac:(lia)). lia.
    + rewrite str_app_assoc, str_app_cons in E. apply first_line_unique in E as [-> E]; [|done|done].
      by exists r', (chunk :: chunks).
Qed.

Lemma readLine_end tail buffer_ chunks :
  frame_ok tail = true → buffer_ +:+ str_concat chunks = tail → readLine buffer_ chunks = (None, (tail, [])).
Proof.
  intros Ht. unfold frame_ok in Ht. destruct_bools. revert buffer_.
  induction chunks as [|chunk chunks IH]; intros buffer_ E; cbn [readLine str_concat] in *.
  - rewrite str_app_nil_r in E. subst. rewrite split_at_none by done. by case_match.
  - assert (str_all (λ c, negb (bool_decide (c = nl))) buffer_ = true ∧
      String.length buffer_ ≤ String.length tail) as [Hb Hle].
    { subst tail. rewrite str_all_app in H. destruct_bools. rewrite str_length_app. split; [done|lia]. }
    rewrite split_at_none by done. match goal with H : (_ <=? _)%Z = true |- _ => apply Z.leb_le in H end.
    rewrite (proj2 (Z.ltb_ge _ _)) by lia. apply IH. by rewrite str_app_assoc.
Qed.

Lemma frames_cons l ls tail : frames (l :: ls) +:+ tail = l +:+ String nl (frames ls +:+ tail).
Proof. unfold frames. rewrite fmap_cons. simpl. by rewrite !str_app_assoc, str_app_cons, str_app_nil_l. Qed.

Lemma read_lines_frames ls tail buffer_ chunks :
  forallb frame_ok ls = true → frame_ok tail = true →
  buffer_ +:+ str_concat chunks = frames ls +:+ tail →
  read_lines (S (length ls)) buffer_ chunks = (strip_cr <$> ls, (tail, [])).
Proof.
  intros Hls Ht. revert buffer_ chunks. induction ls as [|l ls IH]; intros buffer_ chunks E.
  - unfold read_lines. by rewrite (readLine_end tail).
  - simpl in Hls. destruct_bools. rewrite frames_cons in E.
    destruct (readLine_first l _ _ _ H E) as (b' & cs' & Hr & E').
    change (length (l :: ls)) with (S (length ls)). remember (S (length ls)) as fuel eqn:Hf.
    cbn [read_lines]. rewrite Hr. subst fuel. by rewrite (IH ltac:(done) b' cs' E').
Qed.

(** ** Properties *)

(** Framing does not depend on how TCP cuts the bytes: lines of at most 8192
    bytes are read back one by one, a trailing carriage return removed, from
    any chunks with the same bytes; an unfinished line at the end of the
    connection is not delivered and stays in the buffer. *)
Theorem framing_ignores_chunks (ls : list string) (tail : string) (chunks : list string) :
  forallb frame_ok ls = true → frame_ok tail = true → str_concat chunks = frames ls +:+ tail →
  read_lines (S (length ls)) EmptyString chunks = (strip_cr <$> ls, (tail, [])).
Proof. intros. by apply read_lines_frames. Qed.

Theorem framing_ignores_chunks_witness :
  read_lines 3 EmptyString
    ["SET a"; " 1" +:+ String cr EmptyString; String nl ("GET a" +:+ String nl "PI"); "NG"]
  = (["SET a 1"; "GET a"], ("PING", [])).
Proof.
  apply (framing_ignores_chunks ["SET a 1" +:+ String cr EmptyString; "GET a"] "PING"); vm_compute; reflexivity.
Defined.

(** [writeRaw] with partial sends: whatever [send] returns, what reaches the
    network is a prefix of the data, and all of it exactly when the result is
    true; it is true whenever every [send] makes progress. *)
Theorem writeRaw_is_all_or_prefix (send : nat → nat → Z) (data : string) :
  (∃ rest, data = (writeRaw send data).2 +:+ rest ∧ ((writeRaw send data).1 = true ↔ rest = EmptyString)) ∧
  ((∀ i k, 0 < k → (0 < send i k)%Z) → (writeRaw send data).1 = true).
Proof.
  split.
  - unfold writeRaw. destruct (writeRaw_loop _ _ _ _) as [ok out] eqn:E.
    by eapply writeRaw_loop_spec in E.
  - intros Hp. by apply writeRaw_loop_sends.
Qed.

(** C18: End to end: lines of at most 8192 bytes without line feed and without a
    trailing carriage return, written one after the other, each with any pattern
    of partial sends that gets it out completely, are exactly the lines the
    peer's reader delivers, however the bytes are cut on the way. *)
Theorem lines_survive_the_wire (out : list ((nat → nat → Z) * string)) (chunks : list string) :
  forallb (λ x, frame_ok x.2 && bool_decide (strip_cr x.2 = x.2)) out = true →
  forallb (λ x, (writeLine x.1 x.2).1) out = true →
  str_concat chunks = str_concat ((λ x, (writeLine x.1 x.2).2) <$> out) →
  read_lines (S (length out)) EmptyString chunks = (out.*2, (EmptyString, [])).
Proof.
  intros Hok Hsent E.
  assert (str_concat ((λ x, (writeLine x.1 x.2).2) <$> out) = frames out.*2 ∧ forallb frame_ok out.*2 = true ∧
    strip_cr <$> out.*2 = out.*2) as (Eo & Hf & Hs).
  { clear E. induction out as [|[send l] out IH]; [done|]. simpl in Hok, Hsent. destruct_bools.
    destruct IH as (IH1 & IH2 & IH3); [done|done|]. unfold frames. rewrite !fmap_cons. simpl.
    rewrite IH1. fold (frames out.*2). split_and!.
    - f_equal. unfold writeLine, writeRaw in *.
      destruct (writeRaw_loop send _ _ _) as [ok w] eqn:Ew. simpl in *. subst ok.
      apply writeRaw_loop_spec in Ew as (rest & -> & Hr); [|done].
      rewrite (proj1 Hr eq_refl). by rewrite str_app_nil_r.
    - apply andb_true_iff. done.
    - by f_equal. }
  rewrite Eo in E. pose proof (read_lines_frames out.*2 EmptyString EmptyString chunks) as Hr.
  rewrite length_fmap, Hs, str_app_nil_r in Hr. by apply Hr.
Qed.

Theorem lines_survive_the_wire_witness :
  read_lines 3 EmptyString ["+"; "OK" +:+ String nl ":4"; "2"; String nl EmptyString] = (["+OK"; ":42"], (EmptyString, [])).
Proof.
  apply (lines_survive_the_wire [(λ _ k, Z.of_nat k, "+OK"); (λ _ _, 1%Z, ":42")]); vm_compute; reflexivity.
Defined.

(** A request longer than 8192 bytes is not always refused by closing the
    connection: it is delivered to the parser (which answers with an error)
    when its line feed arrives in the chunk that crosses the limit, and closes
    the connection when it arrives later. *)
Theorem oversized_line_depends_on_chunks (a b c : string) :
  str_all (λ x, negb (bool_decide (x = nl))) (a +:+ b +:+ c) = true →
  Z.of_nat (String.length a) = 4096%Z → Z.of_nat (String.length b) = 4096%Z → String.length c = 1 →
  readLine EmptyString [a; b; c +:+ String nl EmptyString] = (Some (strip_cr (a +:+ b +:+ c)), (EmptyString, [])) ∧
  readLine EmptyString [a; b; c; String nl EmptyString] = (None, (a +:+ b +:+ c, [String nl EmptyString])).
Proof.
  intros Hnl Ha Hb Hc. rewrite !str_all_app in Hnl. destruct_bools.
  assert (∀ buf cs, str_all (λ x, negb (bool_decide (x = nl))) buf = true →
    (Z.of_nat (String.length buf) ≤ kMaxBuffered)%Z → ∀ ch, readLine buf (ch :: cs) = readLine (buf +:+ ch) cs) as Hstep.
  { intros buf cs Hbuf Hlen ch. cbn [readLine]. rewrite split_at_none by done.
    by rewrite (proj2 (Z.ltb_ge _ _)). }
  assert (str_all (λ x, negb (bool_decide (x = nl))) (a +:+ b) = true) as Hab by (rewrite str_all_app; by apply andb_true_iff).
  assert (Z.of_nat (String.length (a +:+ b)) = 8192%Z) as Hlab by (rewrite str_length_app; lia).
  split; rewrite (Hstep EmptyString), str_app_nil_l, (Hstep a), (Hstep (a +:+ b)); unfold kMaxBuffered; try done; try lia.
  - rewrite <-(str_app_assoc a b c), <-str_app_assoc. cbn [readLine].
    rewrite split_at_line; [done|]. rewrite str_all_app. by apply andb_true_iff.
  - cbn [readLine]. rewrite split_at_none by (rewrite str_all_app; by apply andb_true_iff).
    rewrite (proj2 (Z.ltb_lt _ _)); [by rewrite str_app_assoc|].
    unfold kMaxBuffered. rewrite str_length_app. lia.
Qed.
