(* ===== verification/Bench.v ===== *)
(** * The load generator

    [benchmarks/bench_main.cpp]: its command line, the thread of each client and
    what [main] counts. The arithmetic on [double] (the ratio of SET to GET, the
    random draws, the statistics) is a parameter or left out, and so are the
    report and the CSV file. *)

From S2P Require Import Prelude CxxStd Protocol Net.

(** ** Definitions *)

Module Bench.

Section bench.

(** [double], the value of [0.5], [std::stod], and whether the [i]-th draw of the
    client falls below the ratio. *)
Context {double : Type} (half : double) (stod : string → exn + double) (draw : double → Z → Z → bool).

Record BenchConfig : Type := mkConfig {
  host : string;
  port : Z;
  clients : Z;
  requestsPerClient : Z;
  setGetRatio : double;
  valueSize : Z;
  csvOut : string
}.

Definition default_config : BenchConfig := mkConfig "127.0.0.1" 6380 10 1000 half 64 EmptyString.

Definition map_ok {A B} (f : A → B) (x : exn + A) : exn + B :=
  match x with inl e => inl e | inr a => inr (f a) end.

(** What an option does with its value; [None] if there is no such option. *)
Definition apply_option (arg value : string) (c : BenchConfig) : option (exn + BenchConfig) :=
  let '(mkConfig h p n r ratio v csv) := c in
  if bool_decide (arg = "--host") then Some (inr (mkConfig value p n r ratio v csv))
  else if bool_decide (arg = "--port") then Some (map_ok (λ z, mkConfig h z n r ratio v csv) (stoi value))
  else if bool_decide (arg = "--clients") then Some (map_ok (λ z, mkConfig h p z r ratio v csv) (stoi value))
  else if bool_decide (arg = "--requests-per-client") then
    Some (map_ok (λ z, mkConfig h p n z ratio v csv) (stoi value))
  else if bool_decide (arg = "--set-get-ratio") then
    Some (map_ok (λ x, mkConfig h p n r x v csv) (stod value))
  else if bool_decide (arg = "--value-size") then Some (map_ok (λ z, mkConfig h p n r ratio z csv) (stoi value))
  else if bool_decide (arg = "--csv-out") then Some (inr (mkConfig h p n r ratio v value))
  else None.

(** An option at the end of the line has the empty string as its value. *)
Fixpoint parseArgs_from (argv : list string) (c : BenchConfig) : exn + BenchConfig :=
  match argv with
  | [] => inr c
  | [arg] => default (inr c) (apply_option arg EmptyString c)
  | arg :: ((value :: rest) as tail) =>
      match apply_option arg value c with
      | None => parseArgs_from tail c
      | Some (inl e) => inl e
      | Some (inr c') => parseArgs_from rest c'
      end
  end.

Definition parseArgs (argv : list string) : exn + BenchConfig := parseArgs_from argv default_config.

Record ClientResult : Type := mkResult { latencies : list Z; errors : Z }.

Fixpoint repeat_char (n : nat) (c : ascii) : string :=
  match n with O => EmptyString | S n' => String c (repeat_char n' c) end.

Definition request_key (clientId i : Z) : string :=
  "bench:c" +:+ to_string clientId +:+ ":k" +:+ to_string (Z.rem i 1000).

(** The [i]-th request of a client. *)
Definition request (c : BenchConfig) (clientId i : Z) : string :=
  let key := request_key clientId i in
  if draw (setGetRatio c) clientId i
  then "SET " +:+ key +:+ " " +:+ repeat_char (Z.to_nat (valueSize c)) "x"
  else "GET " +:+ key.

(** The connection of a client: whether the server accepts it, what it delivers,
    which requests go out, and the clock before and after each. *)
Record Link : Type := mkLink {
  accepted : bool;
  delivered : list string;
  goes_out : Z → bool;
  starts : Z → Z;
  ends : Z → Z
}.

(** The [left] last turns of the loop: what it counts, and the lines it sent. *)
Fixpoint request_loop (c : BenchConfig) (clientId : Z) (l : Link) (left : nat) (i : Z) (client : TcpClient) :
    ClientResult * list string :=
  match left with
  | O => (mkResult [] 0, [])
  | S left' =>
      let line := request c clientId i in
      if negb (TcpClient.sendLine (goes_out l i) client) then (mkResult [] 1, [line])
      else
        match TcpClient.receiveLine client with
        | (None, _) => (mkResult [] 1, [line])
        | (Some _, client') =>
            let '(r, lines) := request_loop c clientId l left' (i + 1) client' in
            (mkResult ((ends l i - starts l i)%Z :: latencies r) (errors r), line :: lines)
        end
  end.

(** [runClient]; [None] if a negative size makes [std::string] or [reserve] throw
    [length_error], which ends the process. *)
Definition runClient (c : BenchConfig) (clientId : Z) (l : Link) : option (ClientResult * list string) :=
  let '(connected, client) := TcpClient.connect (host c) (port c) (accepted l) (delivered l) TcpClient.create in
  if negb connected then Some (mkResult [] (requestsPerClient c), [])
  else if ((valueSize c <? 0) || (requestsPerClient c <? 0))%Z then None
  else Some (request_loop c clientId l (Z.to_nat (requestsPerClient c)) 0 client).

(** The sums of [main] over the clients; [totalErrors] is an [int]. *)
Fixpoint totals (results : list ClientResult) (total : Z) (totalErrors : Z) : option (Z * Z) :=
  match results with
  | [] => Some (total, totalErrors)
  | r :: rs => e ← chk32 (totalErrors + errors r); totals rs (total + Z.of_nat (length (latencies r)))%Z e
  end.

(** The number of requests and of errors that [main] reports. *)
Inductive report : Type :=
| Terminated
| Overflowed
| Counted (total totalErrors : Z).

Definition main (argv : list string) (net : nat → Link) : exn + report :=
  map_ok (λ c,
    if (clients c <? 0)%Z then Terminated
    else
      match mapM (λ i, runClient c (Z.of_nat i) (net i)) (seq 0 (Z.to_nat (clients c))) with
      | None => Terminated
      | Some rs =>
          match totals rs.*1 0 0 with
          | Some (total, e) => Counted total e
          | None => Overflowed
          end
      end) (parseArgs argv).

End bench.
End Bench.

(** ** Lemmas *)

Section lemmas.
Context {double : Type} (draw : double → Z → Z → bool).
Local Abbreviation request := (Bench.request draw).
Local Abbreviation request_loop := (Bench.request_loop draw).

Lemma repeat_char_length n c : String.length (Bench.repeat_char n c) = n.
Proof. induction n as [|n IH]; simpl; congruence. Qed.

Lemma repeat_char_token n : 0 < n → is_token (Bench.repeat_char n "x") = true.
Proof.
  intros Hn. unfold is_token. apply andb_true_iff. split; [by destruct n; [lia|]|].
  clear Hn. by induction n as [|n IH].
Qed.

Lemma request_key_token id i : is_token (Bench.request_key id i) = true.
Proof. unfold Bench.request_key, is_token. rewrite !str_all_app. by rewrite !to_string_no_space. Qed.

Lemma request_key_length id i :
  in_int32 id = true → in_int32 i = true → String.length (Bench.request_key id i) ≤ 50.
Proof.
  intros Hid Hi. unfold Bench.request_key. rewrite !str_length_app.
  assert (∀ z, in_int32 z = true → in_int64 z = true) as H64.
  { intros z. unfold in_int32, in_int64, int32_min, int32_max, int64_min, int64_max. lia. }
  pose proof (to_string_length id (H64 _ Hid)).
  assert (in_int32 (Z.rem i 1000) = true) as Hr.
  { unfold in_int32, int32_min, int32_max in *. pose proof (Z.rem_bound_abs i 1000). lia. }
  pose proof (to_string_length _ (H64 _ Hr)). simpl. lia.
Qed.

(** The loop stops at the first request that fails, which is its only error. *)
Lemma request_loop_spec c id l n i cl r lines :
  request_loop c id l n i cl = (r, lines) →
  length (Bench.latencies r) ≤ n ∧ lines = request c id <$> seqZ i (Z.of_nat (length lines)) ∧
  ((Bench.errors r = 0%Z ∧ length lines = n ∧ length (Bench.latencies r) = n) ∨
   (Bench.errors r = 1%Z ∧ length lines = S (length (Bench.latencies r)) ∧ length lines ≤ n)).
Proof.
  revert i cl r lines. induction n as [|n IH]; intros i cl r lines; cbn [Bench.request_loop].
  - intros [= <- <-]. split_and!; [simpl; lia|done|by left].
  - case_match; [intros [= <- <-]; simpl; split_and!; [lia|done|right; split_and!; [done|done|lia]]|].
    destruct (TcpClient.receiveLine cl) as [[response|] cl'];
      [|intros [= <- <-]; simpl; split_and!; [lia|done|right; split_and!; [done|done|lia]]].
    destruct (request_loop c id l n (i + 1) cl') as [r' lines'] eqn:E. intros [= <- <-].
    apply IH in E as (Hn & Hl & Hc). cbn [Bench.latencies Bench.errors length].
    split_and!; [lia| |destruct Hc as [(?&?&?)|(?&?&?)]; [left|right]; split_and!; (done || lia)].
    rewrite Nat2Z.inj_succ, seqZ_cons by lia. rewrite Z.pred_succ, fmap_cons. f_equal. by rewrite Z.add_1_r in Hl.
Qed.

(** A server that answers line by line: no request fails. *)
Lemma request_loop_answered c id l (replies : list string) rest i cl :
  (∀ j, Bench.goes_out l j = true) → fd_open cl = true → forallb frame_ok replies = true →
  reader_buffer cl +:+ str_concat (incoming cl) = frames replies +:+ rest →
  let r := (request_loop c id l (length replies) i cl).1 in
  Bench.errors r = 0%Z ∧ length (Bench.latencies r) = length replies.
Proof.
  intros Hout. revert i cl. induction replies as [|reply replies IH]; intros i [[fd|] b cs] Hfd Hr E; try done.
  simpl in Hr. destruct_bools. rewrite frames_cons in E. simpl in E.
  destruct (readLine_first reply _ _ _ H E) as (b' & cs' & Er & E').
  cbn [length Bench.request_loop]. unfold TcpClient.sendLine, TcpClient.receiveLine. simpl. rewrite Hout, Er. simpl.
  specialize (IH (i + 1)%Z (mkClient (Some fd) b' cs') eq_refl ltac:(done) E').
  destruct (request_loop _ _ _ _ _ _) as [r lines]. simpl in *. destruct IH as [? ->]. done.
Qed.

Lemma totals_spec rs t e :
  (∀ r, r ∈ rs → (0 ≤ Bench.errors r)%Z) →
  (0 ≤ e)%Z → (e + foldr Z.add 0 (Bench.errors <$> rs) ≤ int32_max)%Z →
  Bench.totals rs t e = Some ((t + Z.of_nat (length (concat (Bench.latencies <$> rs))))%Z,
                              (e + foldr Z.add 0 (Bench.errors <$> rs))%Z).
Proof.
  revert t e. induction rs as [|r rs IH]; intros t e Hr He Hb; [by rewrite !Z.add_0_r|].
  rewrite !fmap_cons in *. cbn [foldr concat Bench.totals] in *.
  assert (0 ≤ foldr Z.add 0 (Bench.errors <$> rs))%Z as Hs.
  { clear -Hr. induction rs as [|r' rs IH]; [done|]. rewrite fmap_cons. cbn [foldr].
    assert (0 ≤ Bench.errors r')%Z by (apply Hr; set_solver).
    enough (0 ≤ foldr Z.add 0 (Bench.errors <$> rs))%Z by lia. apply IH. set_solver. }
  assert (0 ≤ Bench.errors r)%Z by (apply Hr; left).
  assert (chk32 (e + Bench.errors r) = Some (e + Bench.errors r)%Z) as ->.
  { apply chk32_Some. split; [done|]. unfold int32_min, int32_max in *. lia. }
  simpl. rewrite IH; [|set_solver|lia|lia]. rewrite length_app. apply f_equal, pair_equal_spec. split; lia.
Qed.

End lemmas.

(** ** Properties *)

(** What the generator sends are requests the parser accepts, for a value of 1 to
    8000 bytes: SET of a key of the working set, or GET of one. *)
Theorem requests_are_commands {double : Type} (draw : double → Z → Z → bool) (c : Bench.BenchConfig) (id i : Z) :
  in_int32 id = true → in_int32 i = true → (1 ≤ Bench.valueSize c ≤ 8000)%Z →
  let key := Bench.request_key id i in
  let value := Bench.repeat_char (Z.to_nat (Bench.valueSize c)) "x" in
  parse (Bench.request draw c id i) = inr (mkCommand SET "SET" [key; value]) ∨
  parse (Bench.request draw c id i) = inr (mkCommand GET "GET" [key]).
Proof.
  intros Hid Hi Hv key value. pose proof (request_key_length id i Hid Hi) as Hk. unfold Bench.request. cbn zeta. fold key value.
  assert (is_token key = true) as Htk by apply request_key_token.
  assert (is_token value = true) as Htv by (apply repeat_char_token; lia).
  assert (String.length key ≤ 50 ∧ (Z.of_nat (String.length value) ≤ 8000)%Z) as [? ?].
  { split; [done|]. subst value. rewrite repeat_char_length. lia. }
  clearbody key value. case_match; [left|right].
  - apply (parse_print ["SET"; key; value]); [by repeat (apply List.Forall_cons; [done|])|].
    cbn [print_words]. unfold kMaxLineLength. rewrite !str_length_app. simpl. rewrite str_length_app. simpl. lia.
  - apply (parse_print ["GET"; key]); [by repeat (apply List.Forall_cons; [done|])|].
    cbn [print_words]. unfold kMaxLineLength. rewrite !str_length_app. simpl. lia.
Qed.

(** Without a value the SET requests are malformed; the error replies count as
    answers, as the loop does not look at them. *)
Example empty_value_is_malformed :
  parse (Bench.request (λ _ _ _, true) (Bench.mkConfig "h" 1 1 1 tt 0 "") 3 1002) =
  inr (mkCommand SET "SET" ["bench:c3:k2"]).
Proof. vm_compute. reflexivity. Qed.

(** A connected client sends its requests in order up to the first that fails,
    with at most one error; every other request is answered and timed. *)
Theorem client_accounting {double : Type} (draw : double → Z → Z → bool) (c : Bench.BenchConfig) (id : Z)
    (l : Bench.Link) (r : Bench.ClientResult) (lines : list string) :
  Bench.accepted l = true → Bench.runClient draw c id l = Some (r, lines) →
  lines = Bench.request draw c id <$> seqZ 0 (Z.of_nat (length lines)) ∧
  (Z.of_nat (length lines) ≤ Bench.requestsPerClient c)%Z ∧
  Z.of_nat (length lines) = (Z.of_nat (length (Bench.latencies r)) + Bench.errors r)%Z ∧
  (Bench.errors r = 0%Z ∧ Z.of_nat (length lines) = Bench.requestsPerClient c ∨ Bench.errors r = 1%Z).
Proof.
  unfold Bench.runClient. intros ->. simpl. case_match; [done|]. intros [= E].
  match goal with H : (_ || _) = false |- _ => apply orb_false_iff in H as [_ ?%Z.ltb_ge] end.
  apply request_loop_spec in E as (Hn & Hl & [(?&?&?)|(?&?&?)]); split_and!; (done || lia || by left; split; [|lia]).
Qed.

(** If every server accepts and answers line by line, in any chunks, the report
    is the number of clients times the requests of each, without errors. *)
Theorem good_run_is_counted {double : Type} (half : double) (stod : string → exn + double)
    (draw : double → Z → Z → bool) (argv : list string) (c : Bench.BenchConfig) (net : nat → Bench.Link)
    (replies : nat → list string) (rest : nat → string) :
  Bench.parseArgs half stod argv = inr c →
  (0 ≤ Bench.clients c)%Z → (0 ≤ Bench.requestsPerClient c)%Z → (0 ≤ Bench.valueSize c)%Z →
  (∀ i, Bench.accepted (net i) = true ∧ (∀ j, Bench.goes_out (net i) j = true) ∧
        Z.of_nat (length (replies i)) = Bench.requestsPerClient c ∧ forallb frame_ok (replies i) = true ∧
        str_concat (Bench.delivered (net i)) = frames (replies i) +:+ rest i) →
  Bench.main half stod draw argv net = inr (Bench.Counted (Bench.clients c * Bench.requestsPerClient c) 0).
Proof.
  intros Ha Hc Hq Hv Hnet. unfold Bench.main. rewrite Ha. simpl. rewrite (proj2 (Z.ltb_ge _ _)) by done. f_equal.
  set (f := λ i : nat, Bench.runClient draw c (Z.of_nat i) (net i)).
  assert (∀ i, ∃ r lines, f i = Some (r, lines) ∧ Bench.errors r = 0%Z ∧
                Z.of_nat (length (Bench.latencies r)) = Bench.requestsPerClient c) as Hf.
  { intros i. destruct (Hnet i) as (Hacc & Hout & Hlen & Hr & E). unfold f, Bench.runClient. rewrite Hacc. simpl.
    rewrite (proj2 (Z.ltb_ge _ _)), (proj2 (Z.ltb_ge _ _)) by done. simpl.
    pose proof (request_loop_answered draw c (Z.of_nat i) (net i) (replies i) (rest i) 0
      (mkClient (Some (endpoint_of (Bench.host c) (Bench.port c))) EmptyString (Bench.delivered (net i))) Hout eq_refl Hr E) as Hl.
    rewrite <-Hlen, Nat2Z.id. destruct (Bench.request_loop _ _ _ _ _ _ _) as [r lines]. destruct Hl as [? Hl].
    simpl in Hl. exists r, lines. by rewrite Hl. }
  assert (∀ ids, ∃ rs, mapM f ids = Some rs ∧ length rs = length ids ∧ Forall (λ r, Bench.errors r = 0%Z ∧
                Z.of_nat (length (Bench.latencies r)) = Bench.requestsPerClient c) rs.*1) as Hm.
  { induction ids as [|i ids (rs & E & Hl & IH)]; [by exists []|]. destruct (Hf i) as (r & lines & Ei & ? & ?).
    exists ((r, lines) :: rs). simpl. rewrite Ei. simpl. rewrite E. simpl. split_and!; [done|by rewrite Hl|by constructor]. }
  destruct (Hm (seq 0 (Z.to_nat (Bench.clients c)))) as (rs & -> & Hl & Hall). rewrite length_seq in Hl.
  assert (foldr Z.add 0 (Bench.errors <$> rs.*1) = 0)%Z as Hsum.
  { clear -Hall. induction Hall as [|r rs' [Hr _] _ IH]; [done|]. rewrite fmap_cons. cbn [foldr]. by rewrite Hr. }
  rewrite totals_spec; [|intros r Hin; rewrite Forall_forall in Hall; by rewrite (proj1 (Hall r Hin))|done|by rewrite Hsum].
  rewrite Hsum. f_equal. rewrite Z.add_0_l.
  assert (Z.of_nat (length (concat (Bench.latencies <$> rs.*1))) = Z.of_nat (length rs.*1) * Bench.requestsPerClient c)%Z as ->.
  { clear -Hall. induction Hall as [|r rs' [_ Hr] _ IH]; [done|]. rewrite fmap_cons. cbn [concat length].
    rewrite length_app. lia. }
  rewrite length_fmap. lia.
Qed.

(** A connection refused counts as an error for each request, one lost in the
    middle as a single error: of 1000 requests 998 are in neither number. *)
Example broken_connection_undercounts :
  let run accepted chunks := Bench.main tt (λ _, inr tt) (λ _ _ _, false) ["--clients"; "1"]
    (λ _, Bench.mkLink accepted chunks (λ _, true) (λ _, 0%Z) (λ _, 7%Z)) in
  run false [] = inr (Bench.Counted 0 1000) ∧
  run true ["$-1" +:+ String nl EmptyString] = inr (Bench.Counted 1 1).
Proof. split; vm_compute; reflexivity. Qed.

(** The number of errors is an [int]: refused connections of three clients with a
    billion requests each overflow it. *)
Example error_count_overflows :
  Bench.main tt (λ _, inr tt) (λ _ _ _, false) ["--clients"; "3"; "--requests-per-client"; "1000000000"]
    (λ _, Bench.mkLink false [] (λ _, true) (λ _, 0%Z) (λ _, 0%Z)) = inr Bench.Overflowed.
Proof. vm_compute. reflexivity. Qed.

Example good_run :
  Bench.main tt (λ _, inr tt) (λ _ _ i, Z.even i) ["--requests-per-client"; "2"; "--clients"; "2"]
    (λ _, Bench.mkLink true ["+O"; "K" +:+ String nl "$-"; "1" +:+ String nl EmptyString] (λ _, true) (λ _, 0%Z) (λ _, 5%Z)) =
  inr (Bench.Counted 4 0).
Proof. vm_compute. reflexivity. Qed.
