(* ===== verification/Router.v ===== *)
(** * The router

    [src/sharding/router.cpp]: the proxy in front of the shards. Its state is
    the topology, the ring built from the shard ids, and one persistent
    connection per shard. What is behind the sockets is a [Network]: the router
    is written against that interface, and whoever puts something behind it
    ([Cluster]: the nodes) gets what the router writes, at the peer the socket
    it writes to is connected to. *)

From S2P Require Import Prelude CxxStd Protocol Config Ring Topology Net.

(** ** Definitions *)

(** The other side of the router's sockets, with a state of its own: whether a
    peer accepts a connection, and what happens when bytes are written to one:
    whether all could be sent, and what is there to receive when the router
    next looks. *)
Record Network (W : Type) : Type := mkNetwork {
  dial : endpoint → M W bool;
  transmit : endpoint → string → M W (bool * list string)
}.
Arguments mkNetwork {W} _ _.
Arguments dial {W} _ _.
Arguments transmit {W} _ _ _.

(** The peer an address stands for. *)
Definition peer_of (address : string) : option endpoint :=
  '(host, port) ← splitAddress address; Some (endpoint_of host port).

Record BackendConnection : Type := mkBackend { client : TcpClient; backend_address : string }.

(** The members, and the lines written to clients. *)
Record Router : Type := mkRouter {
  topology_ : topology;
  shard_ring : ConsistentHashRing;
  backends_ : gmap string BackendConnection;
  replies : list (Z * string)
}.

Definition set_backends (b : gmap string BackendConnection) (r : Router) : Router :=
  mkRouter (topology_ r) (shard_ring r) b (replies r).

(** The router and the state of the network. *)
Record System (W : Type) : Type := mkSystem { front : Router; world : W }.
Arguments mkSystem {W} _ _.
Arguments front {W} _.
Arguments world {W} _.

Definition set_front {W} (r : Router) (s : System W) : System W := mkSystem r (world s).
Definition set_world {W} (w : W) (s : System W) : System W := mkSystem (front s) w.

Definition on_front {W A} : M Router A → M (System W) A := zoom front set_front.
Definition on_world {W A} : M W A → M (System W) A := zoom world set_world.

Module Router.
Import ShardTopology.

(** The constructor. *)
Definition create (t : topology) : Router :=
  mkRouter t (foldl (λ ring shardId, addNode shardId ring) (create_ring default_virtual_nodes) (shardIds t)) ∅ [].

Definition addressForKey (key : string) (r : Router) : string :=
  activeAddressFor (getNode key (shard_ring r)) (topology_ r).

Definition backendFor (shardId : string) : M Router BackendConnection :=
  r ← get;
  match backends_ r !! shardId with
  | Some b => mret b
  | None =>
      let conn := mkBackend TcpClient.create EmptyString in
      put (set_backends (<[shardId := conn]> (backends_ r)) r);;
      mret conn
  end.

Section network.
Context {W : Type} (net : Network W).

(** [connect] and [sendLine] of the client, on the network. *)
Definition connect (host : string) (port : Z) (c : TcpClient) : M W (bool * TcpClient) :=
  accepted ← dial net (endpoint_of host port);
  mret (TcpClient.connect host port accepted [] c).

Definition sendLine (line : string) (c : TcpClient) : M W (bool * TcpClient) :=
  match fd_ c with
  | None => mret (false, c)
  | Some peer =>
      '(sent, chunks) ← transmit net peer (line +:+ String nl EmptyString);
      mret (TcpClient.sendLine sent c, TcpClient.arrive chunks c)
  end.

(** The part of [forward] under the connection's mutex: the response, and the
    connection left behind. *)
Definition exchange (address line : string) (b : BackendConnection) : M W (option string * BackendConnection) :=
  let b := if bool_decide (backend_address b = address) then b
           else mkBackend (TcpClient.close (client b)) address in
  '(connected, c) ←
    (if TcpClient.isConnected (client b) then mret (true, client b)
     else
       match splitAddress address with
       | None => mret (false, client b)
       | Some (host, port) => connect host port (client b)
       end);
  if negb connected then mret (None, mkBackend c (backend_address b))
  else
    '(sent, c) ← sendLine line c;
    if negb sent then mret (None, mkBackend (TcpClient.close c) (backend_address b))
    else
      match TcpClient.receiveLine c with
      | (Some response, c) => mret (Some response, mkBackend c (backend_address b))
      | (None, c) => mret (None, mkBackend (TcpClient.close c) (backend_address b))
      end.

(** The exchange on the connection of a shard. *)
Definition exchange_on (shardId address line : string) : M (System W) (option string) :=
  b ← on_front (gets (λ r, default (mkBackend TcpClient.create EmptyString) (backends_ r !! shardId)));
  '(response, b') ← on_world (exchange address line b);
  on_front (modify (λ r, set_backends (<[shardId := b']> (backends_ r)) r));;
  mret response.

Definition forward (shardId line : string) : M (System W) (option string) :=
  address ← gets (λ s, activeAddressFor shardId (topology_ (front s)));
  if negb (str_nonempty address) then mret None
  else
    on_front (backendFor shardId);;
    exchange_on shardId address line.

Definition roleName (role : NodeRole) : string :=
  match role with PRIMARY => "PRIMARY" | REPLICA => "REPLICA" end.

Definition healthName (h : NodeHealth) : string :=
  match h with UP => "UP" | DOWN => "DOWN" end.

Definition node_entry (n : NodeSnapshot) : string :=
  snap_shardId n +:+ ":" +:+ roleName (snap_role n) +:+ ":" +:+ snap_address n +:+ ":" +:+
  healthName (snap_health n) +:+ ":" +:+ (if snap_active n then "ACTIVE" else "STANDBY").

Fixpoint join_entries (entries : list string) : string :=
  match entries with
  | [] => EmptyString
  | [e] => e
  | e :: entries' => e +:+ ";" +:+ join_entries entries'
  end.

Definition nodesReply (t : topology) : string := join_entries (node_entry <$> snapshot t).

Definition reply (fd : Z) (line : string) : M (System W) unit :=
  on_front (modify (λ r, mkRouter (topology_ r) (shard_ring r) (backends_ r) (replies r ++ [(fd, line)]))).

(** One turn of the loop of [handleConnection]: whether it reads on. [sent] is
    the result of the turn's [writeLine]. *)
Definition handleLine (fd : Z) (sent : bool) (line : string) : M (System W) bool :=
  if negb (str_nonempty line) then mret true
  else
    match parse line with
    | inl e => reply fd (Reply.error (what e));; mret sent
    | inr cmd =>
        match type cmd, args cmd with
        | ROUTE, [k] =>
            address ← gets (λ s, addressForKey k (front s));
            reply fd (Reply.bulk address);; mret sent
        | ROUTE, _ => reply fd (Reply.error "wrong number of arguments for 'ROUTE'");; mret sent
        | NODES, [] =>
            out ← gets (λ s, nodesReply (topology_ (front s)));
            reply fd (Reply.bulk out);; mret sent
        | NODES, _ => reply fd (Reply.error "wrong number of arguments for 'NODES'");; mret sent
        | PING, [] => reply fd Reply.ok;; mret sent
        | _, [] => reply fd (Reply.error ("'" +:+ name cmd +:+ "' has no key to route on"));; mret sent
        | _, k :: _ =>
            shardId ← gets (λ s, getNode k (shard_ring (front s)));
            response ← forward shardId line;
            match response with
            | None => reply fd (Reply.error ("shard " +:+ shardId +:+ " unavailable"));; mret sent
            | Some response => reply fd response;; mret sent
            end
        end
    end.

(** A line read from a client, and the result of the turn's [writeLine]. *)
Record Request : Type := mkRequest { req_line : string; req_sent : bool }.

(** [handleConnection] with nobody else running. *)
Fixpoint handleConnection (fd : Z) (reqs : list Request) : M (System W) unit :=
  match reqs with
  | [] => mret tt
  | q :: reqs' =>
      go_on ← handleLine fd (req_sent q) (req_line q);
      if go_on : bool then handleConnection fd reqs' else mret tt
  end.

End network.
End Router.

(** Commands the router answers itself. *)
Definition answered_locally (t : CommandType) : bool :=
  match t with
  | ROUTE | NODES => true
  | _ => false
  end.

(** Every connection that is open is one to the address it is kept for. *)
Definition wired (r : Router) : Prop :=
  ∀ j b p, backends_ r !! j = Some b → fd_ (client b) = Some p → peer_of (backend_address b) = Some p.

(** What a turn that answers [o] has done to the network, where [p] is the only
    peer it turned to: connected to it, perhaps, and then written the line to it,
    once and nothing else, or given up. *)
Definition asked {W} (net : Network W) (p : endpoint) (line : string) (o : option string) (w w' : W) : Prop :=
  ∃ w1, (w1 = w ∨ ∃ a, dial net p w = Ok a w1) ∧
    (o = None ∧ w' = w1 ∨ ∃ x, transmit net p (line +:+ String nl EmptyString) w1 = Ok x w').

(** A connection with no bytes of an earlier reply left: none in its reader, and
    none on the way if it is open. *)
Definition clean (b : BackendConnection) : Prop :=
  reader_buffer (client b) = EmptyString ∧ str_concat (incoming (client b)) = EmptyString.


(** *** A network that follows a script *)

(** Whether a connection is accepted, what arrives in return for a request, and
    whether it can be sent; one of them for each line that is forwarded. *)
Record Attempt : Type := mkAttempt { accepted : bool; delivered : list string; request_sent : bool }.

Definition scripted : Network (list Attempt) := mkNetwork
  (λ _, w ← get;
     match w with
     | a :: w' => if accepted a then mret true else put w';; mret false
     | [] => mret false
     end)
  (λ _ _, w ← get;
     match w with
     | a :: w' => put w';; mret (request_sent a, delivered a)
     | [] => mret (false, [])
     end).

(** A router over the sample topology, with few virtual nodes, and what the
    network will do. *)
Definition sample_router (script : list Attempt) : System (list Attempt) :=
  mkSystem (mkRouter (ShardTopology.parseShards sample_config)
      (addNode "shard1" (addNode "shard0" (create_ring 2))) ∅ []) script.

(** After a turn of a client on descriptor 9. *)
Definition sample_served (line : string) (s : System (list Attempt)) : System (list Attempt) :=
  match Router.handleLine scripted 9 true line s with
  | Ok _ s' => s'
  | _ => s
  end.

(** ** Lemmas *)

Lemma foldl_ring_reachable v ids r :
  ring_reachable v r → ring_reachable v (foldl (λ ring shardId, addNode shardId ring) r ids).
Proof. revert r. induction ids as [|x ids IH]; intros r Hr; [done|]. simpl. apply IH. by constructor. Qed.

Lemma foldl_ring_nodes ids r :
  nodes_ (foldl (λ ring shardId, addNode shardId ring) r ids) = nodes_ r ++ ids.
Proof.
  revert r. induction ids as [|x ids IH]; intros r; simpl; [by rewrite app_nil_r|].
  rewrite IH. simpl. by rewrite <-app_assoc.
Qed.

(** Adding a node with at least one virtual node puts it on the ring. *)
Lemma addNode_nonempty v r n : ring_reachable v r → (0 < v)%Z → ring_ (addNode n r) ≠ [].
Proof.
  intros Hr Hv. pose proof (ring_reachable_inv _ _ Hr) as (Hs & _ & Hvr). simpl. rewrite Hvr.
  destruct (set_all_spec 0 n (ring_ r) (positions v n)) as [_ He]; [done|apply positions_bound|].
  assert ((virtual_position n 0, n) ∈ foldl (λ m p, ring_set p n m) (ring_ r) (positions v n)) as Hin.
  { apply He. left. split; [|done]. apply list_elem_of_fmap. exists 0%Z. split; [done|]. apply elem_of_seqZ. lia. }
  intros E. rewrite E in Hin. by apply not_elem_of_nil in Hin.
Qed.

Lemma foldl_ring_nonempty v ids r :
  ring_reachable v r → (0 < v)%Z → ids ≠ [] →
  ring_ (foldl (λ ring shardId, addNode shardId ring) r ids) ≠ [].
Proof.
  intros Hr Hv. destruct ids as [|x ids] using rev_ind; [done|]. intros _.
  rewrite foldl_app. simpl. eapply addNode_nonempty; [|done]. by apply foldl_ring_reachable.
Qed.

Section network.
Context {W : Type} (net : Network W).

(** A command that is forwarded: what the turn does. *)
Lemma handleLine_forwards fd sent line cmd k rest (s : System W) :
  parse line = inr cmd → args cmd = k :: rest → answered_locally (type cmd) = false →
  Router.handleLine net fd sent line s =
  (response ← Router.forward net (getNode k (shard_ring (front s))) line;
   match response with
   | None => Router.reply fd (Reply.error ("shard " +:+ getNode k (shard_ring (front s)) +:+ " unavailable"));; mret sent
   | Some response => Router.reply fd response;; mret sent
   end) s.
Proof.
  intros Hp Ha Hl. unfold Router.handleLine. destruct line as [|c line]; [done|]. simpl. rewrite Hp, Ha.
  by destruct (type cmd).
Qed.

Lemma sendLine_spec line c w sent c' w' p :
  fd_ c = Some p → Router.sendLine net line c w = Ok (sent, c') w' →
  fd_ c' = Some p ∧ ∃ x, transmit net p (line +:+ String nl EmptyString) w = Ok x w'.
Proof.
  unfold Router.sendLine. intros E. rewrite E. unfold_M.
  destruct (transmit net p _ w) as [[b chunks] w1|? ?|]; [|done..]. intros [= <- <- <-]. split; [done|by eexists].
Qed.

Lemma receiveLine_fd c o c' : TcpClient.receiveLine c = (o, c') → fd_ c' = fd_ c.
Proof. unfold TcpClient.receiveLine. destruct (fd_open c); [|by intros [= <- <-]]. case_match. case_match. by intros [= <- <-]. Qed.

Lemma exchange_closed c : fd_open c = false → fd_ c = None.
Proof. unfold fd_open. by destruct (fd_ c). Qed.

(** The line goes to the peer of the address, on a connection to it, or nowhere;
    only such a connection is left behind. *)
Lemma exchange_spec address line b w o b' w' :
  (∀ p, fd_ (client b) = Some p → peer_of (backend_address b) = Some p) →
  Router.exchange net address line b w = Ok (o, b') w' →
  backend_address b' = address ∧ (∀ p, fd_ (client b') = Some p → peer_of address = Some p) ∧
  match peer_of address with Some p => asked net p line o w w' | None => o = None ∧ w' = w end.
Proof.
  intros Hb. unfold Router.exchange.
  set (b1 := if bool_decide _ then b else _).
  assert (backend_address b1 = address) as Ha by (unfold b1; by case_bool_decide).
  assert (∀ p, fd_ (client b1) = Some p → peer_of address = Some p) as Hb1.
  { unfold b1. case_bool_decide as E; [by rewrite <-E|done]. }
  rewrite Ha. clearbody b1. unfold mbind at 1, M_bind at 1.
  match goal with |- context [match ?m w with _ => _ end] => destruct (m w) as [[connected c] w1|? ?|] eqn:Ec end; [|done..].
  assert ((connected = true → is_Some (fd_ c)) ∧ (∀ p, fd_ c = Some p → peer_of address = Some p) ∧
    match peer_of address with Some p => w1 = w ∨ ∃ a, dial net p w = Ok a w1 | None => w1 = w end) as (Hc & Hcp & Hw).
  { revert Ec. unfold TcpClient.isConnected. destruct (fd_open (client b1)) eqn:Ho.
    { intros [= <- <- <-]. unfold fd_open in Ho. destruct (fd_ (client b1)) as [p|] eqn:Hp; [|done].
      split; [done|]. split; [intros ? [= <-]; by apply Hb1|]. rewrite (Hb1 p) by done. by left. }
    apply exchange_closed in Ho. unfold peer_of. destruct (splitAddress address) as [[host port]|].
    - unfold Router.connect. unfold_M. destruct (dial _ _ _) as [[|] w2|? ?|] eqn:Ed; [| |done..]; intros [= <- <- <-]; simpl;
        split_and!; eauto; done.
    - intros [= <- <- <-]. rewrite Ho. by split_and!. }
  destruct connected; cbn [negb]; cycle 1.
  { intros [= <- <- <-]. simpl. split; [done|]. split; [done|]. destruct (peer_of address); [|done]. exists w1. split; [done|by left]. }
  destruct (Hc eq_refl) as [p Hp]. pose proof (Hcp p Hp) as Hpeer. rewrite Hpeer in Hw |- *. unfold mbind at 1, M_bind at 1.
  destruct (Router.sendLine net line c w1) as [[sent c1] w2|? ?|] eqn:Es; [|done..].
  apply (sendLine_spec _ _ _ _ _ _ p Hp) in Es as [Hfd Ht].
  assert (∀ o, asked net p line o w w2) as Hasked by (intros o1; exists w1; split; [done|by right]).
  destruct sent; cbn [negb]; [|by intros [= <- <- <-]].
  destruct (TcpClient.receiveLine c1) as [[response|] c2] eqn:Er; apply receiveLine_fd in Er;
    intros [= <- <- <-]; [|done]. simpl. rewrite Er, Hfd. split; [done|]. split; [|done]. by intros ? [= <-].
Qed.

(** The connection of a shard, new or old. *)
Definition connection_of (shardId : string) (r : Router) : BackendConnection :=
  default (mkBackend TcpClient.create EmptyString) (backends_ r !! shardId).

Lemma backendFor_spec shardId r :
  Router.backendFor shardId r = Ok (connection_of shardId r) (set_backends (<[shardId := connection_of shardId r]> (backends_ r)) r).
Proof.
  unfold Router.backendFor, connection_of. unfold_M. destruct (backends_ r !! shardId) eqn:E; [|done].
  simpl. rewrite insert_id by done. by destruct r.
Qed.

(** [forward] is the exchange on the connection of the shard. *)
Lemma forward_exchange shardId line (s : System W) :
  let a := ShardTopology.activeAddressFor shardId (topology_ (front s)) in
  let r := front s in
  str_nonempty a = true →
  Router.forward net shardId line s =
  match Router.exchange net a line (connection_of shardId r) (world s) with
  | Ok (o, b') w' => Ok o (mkSystem (set_backends (<[shardId := b']> (backends_ r)) r) w')
  | Exn e w' => Exn e (mkSystem (set_backends (<[shardId := connection_of shardId r]> (backends_ r)) r) w')
  | Undef => Undef
  end.
Proof.
  intros a r Hne. unfold Router.forward, Router.exchange_on, on_front, on_world. unfold_M. fold a r. rewrite Hne. cbn [negb].
  rewrite backendFor_spec. cbn [set_front front set_backends backends_ world]. rewrite lookup_insert_eq. cbn [default].
  destruct (Router.exchange net a line _ (world s)) as [[o b'] w'|? ?|]; [|done..].
  cbn. by rewrite insert_insert_eq.
Qed.

Lemma connection_wired shardId r p :
  wired r → fd_ (client (connection_of shardId r)) = Some p → peer_of (backend_address (connection_of shardId r)) = Some p.
Proof. unfold connection_of. intros Hw. destruct (backends_ r !! shardId) eqn:E; [by eapply Hw|done]. Qed.

Lemma forward_spec shardId line (s : System W) o s' :
  wired (front s) → Router.forward net shardId line s = Ok o s' →
  topology_ (front s') = topology_ (front s) ∧ shard_ring (front s') = shard_ring (front s) ∧
  replies (front s') = replies (front s) ∧ wired (front s') ∧
  match peer_of (ShardTopology.activeAddressFor shardId (topology_ (front s))) with
  | Some p => asked net p line o (world s) (world s')
  | None => o = None ∧ world s' = world s
  end.
Proof.
  intros Hw. destruct (str_nonempty (ShardTopology.activeAddressFor shardId (topology_ (front s)))) eqn:Hne; cycle 1.
  { unfold Router.forward. unfold_M. rewrite Hne. intros [= <- <-]. split_and!; try done.
    destruct (peer_of _); [|done]. exists (world s). split; by left. }
  rewrite forward_exchange by done.
  destruct (Router.exchange _ _ _ _ _) as [[o1 b'] w'|? ?|] eqn:E; [|done..]. intros [= <- <-].
  apply exchange_spec in E as (Ha & Hp & Hasked); [|intros p; by apply connection_wired]. simpl. split_and!; try done.
  intros j b0 p. simpl. rewrite lookup_insert. case_decide; [|by apply Hw]. intros [= <-]. rewrite Ha. apply Hp.
Qed.



End network.

(** A router that has no connections yet, as after its construction. *)
Lemma wired_empty r : backends_ r = ∅ → wired r.
Proof. intros E j b p H. by rewrite E, lookup_empty in H. Qed.


(** The ring maps every key to a configured shard. *)
Lemma getNode_shard (t : topology) (key : string) :
  t ≠ [] → getNode key (shard_ring (Router.create t)) ∈ ShardTopology.shardIds t.
Proof.
  intros Ht. assert (ring_reachable default_virtual_nodes (shard_ring (Router.create t))) as Hr.
  { apply foldl_ring_reachable. constructor. }
  pose proof (ring_reachable_inv _ _ Hr) as (Hs & Hin & _).
  destruct (getNode_finds key (shard_ring (Router.create t)) Hs) as [p [Hp _]].
  - apply (foldl_ring_nonempty default_virtual_nodes); [constructor|done|]. unfold ShardTopology.shardIds. by destruct t.
  - apply Hin in Hp as [Hn _]. unfold Router.create in Hn. simpl in Hn. by rewrite foldl_ring_nodes in Hn.
Qed.

(** ** Properties *)

Section properties.
Import ShardTopology.

(** Every key has a shard: in a router with at least one shard, the ring maps
    every key to one of the configured shard ids. *)
Theorem every_key_has_a_shard (t : topology) (key : string) :
  t ≠ [] → getNode key (shard_ring (Router.create t)) ∈ shardIds t.
Proof. apply getNode_shard. Qed.

Theorem every_key_has_a_shard_witness :
  getNode "user:1" (shard_ring (Router.create (parseShards sample_config))) ∈ ["shard0"; "shard1"].
Proof. apply (every_key_has_a_shard (parseShards sample_config) "user:1"). vm_compute. discriminate. Defined.

(** C32: ROUTE and forwarding agree: for any key and any network, ROUTE answers
    with the address that serves the key's shard and touches no node, and a
    command on that key makes the router turn to the peer at exactly that address
    and no other: it connects, if it has no connection, and writes the line to it,
    unchanged, once, or answers that the shard is unavailable; never to a node
    the shard was served by before. That every open connection leads where its
    address says ([wired]) holds of a new router and is kept. *)
Theorem route_agrees_with_forwarding {W} (net : Network W) (fd : Z) (sent go : bool) (line k : string)
    (cmd : Command) (rest : list string) (s s' : System W) :
  wired (front s) → parse line = inr cmd → args cmd = k :: rest → answered_locally (type cmd) = false →
  Router.handleLine net fd sent line s = Ok go s' →
  (∀ line' cmd', parse line' = inr cmd' → type cmd' = ROUTE → args cmd' = [k] →
     ∃ s2, Router.handleLine net fd sent line' s = Ok sent s2 ∧ world s2 = world s ∧
           replies (front s2) = replies (front s) ++ [(fd, Reply.bulk (Router.addressForKey k (front s)))]) ∧
  go = sent ∧ wired (front s') ∧
  ∃ o, replies (front s') = replies (front s) ++
         [(fd, default (Reply.error ("shard " +:+ getNode k (shard_ring (front s)) +:+ " unavailable")) o)] ∧
    match peer_of (Router.addressForKey k (front s)) with
    | Some p => asked net p line o (world s) (world s')
    | None => o = None ∧ world s' = world s
    end.
Proof.
  intros Hw Hp Ha Hl. rewrite (handleLine_forwards net fd sent line cmd k rest s Hp Ha Hl).
  unfold mbind at 1, M_bind at 1. destruct (Router.forward net _ line s) as [o s1|? ?|] eqn:E; [|done..].
  apply forward_spec in E as (Ht & Hring & Hrep & Hw1 & Hasked); [|done]. intros Hrun. split.
  - intros line' cmd' Hp' Hty Hargs. unfold Router.handleLine. destruct line' as [|c line']; [done|]. cbn [str_nonempty negb].
    rewrite Hp', Hty, Hargs. eexists. split; [reflexivity|by split].
  - destruct o; injection Hrun as <- <-; simpl; rewrite Hrep; (split; [done|]); (split; [done|]); (eexists; split; [|exact Hasked]); done.
Qed.

Theorem route_agrees_with_forwarding_witness :
  let w := [mkAttempt true ["+Kushal" +:+ String nl EmptyString] true] in
  let s := sample_router w in
  let s' := sample_served "GET user:1" s in
  replies (front s') = [(9%Z, "+Kushal")] ∧ wired (front s') ∧ world s' = [] ∧
  ∃ o, match peer_of (Router.addressForKey "user:1" (front s)) with
       | Some p => asked scripted p "GET user:1" o w (world s')
       | None => o = None ∧ world s' = w
       end.
Proof.
  intros w s s'. split; [vm_compute; reflexivity|].
  destruct (route_agrees_with_forwarding scripted 9 true true "GET user:1" "user:1" (mkCommand GET "GET" ["user:1"]) [] s s')
    as (_ & _ & Hw & o & _ & H);
    [apply wired_empty; reflexivity|vm_compute; reflexivity|reflexivity|reflexivity|vm_compute; reflexivity|].
  split; [exact Hw|]. split; [vm_compute; reflexivity|]. exists o. exact H.
Defined.

(** Transparency: on a clean connection to the active node, the node gets the
    client's request line and the client the node's reply line, both
    unmodified, and the connection stays clean for the replies that follow. *)
Theorem router_relays_reply {W} (net : Network W) (s : System W) (fd : Z) (sent : bool) (line k : string)
    (cmd : Command) (rest : list string) (b : BackendConnection) (p : endpoint) (chunks : list string)
    (l bytes : string) (w' : W) :
  parse line = inr cmd → args cmd = k :: rest → answered_locally (type cmd) = false →
  backends_ (front s) !! getNode k (shard_ring (front s)) = Some b → backend_address b = Router.addressForKey k (front s) →
  Router.addressForKey k (front s) ≠ EmptyString → fd_ (client b) = Some p → clean b →
  transmit net p (line +:+ String nl EmptyString) (world s) = Ok (true, chunks) w' →
  str_concat chunks = l +:+ String nl bytes → frame_ok l = true → strip_cr l = l →
  ∃ s' b', Router.handleLine net fd sent line s = Ok sent s' ∧ world s' = w' ∧
    replies (front s') = replies (front s) ++ [(fd, l)] ∧
    backends_ (front s') !! getNode k (shard_ring (front s)) = Some b' ∧ fd_ (client b') = Some p ∧
    reader_buffer (client b') +:+ str_concat (incoming (client b')) = bytes.
Proof.
  intros Hp Ha Hl Hb Haddr Hne Hfd [Hbuf Hinc] Htr Hc Hf Hs.
  rewrite (handleLine_forwards net fd sent line cmd k rest s Hp Ha Hl).
  unfold mbind at 1, M_bind at 1. rewrite forward_exchange by (by apply str_nonempty_spec).
  unfold connection_of. rewrite Hb. change (default _ (Some b)) with b. unfold Router.exchange.
  change (ShardTopology.activeAddressFor _ _) with (Router.addressForKey k (front s)).
  cbv zeta. rewrite bool_decide_true by done. cbv iota. unfold TcpClient.isConnected, fd_open. rewrite Hfd. cbn [negb].
  unfold_M. cbn [negb]. unfold Router.sendLine. rewrite Hfd. unfold_M. rewrite Htr. cbn [negb].
  unfold TcpClient.sendLine, TcpClient.receiveLine, TcpClient.arrive, fd_open. cbn [fd_ reader_buffer incoming]. rewrite Hfd. cbn [andb negb].
  destruct (readLine_first l bytes (reader_buffer (client b)) (incoming (client b) ++ chunks)) as (b' & cs' & E & Er);
    [done|by rewrite str_concat_app, Hbuf, Hinc, !str_app_nil_l|].
  rewrite E, Hs. eexists _, _. split; [reflexivity|]. simpl. rewrite lookup_insert_eq. by split_and!.
Qed.

(** Closing a connection does not empty its reader: bytes of a reply that broke
    off are glued to the first reply of the next connection, and the client
    gets a reply nobody sent. *)
Theorem broken_reply_leaks_into_next :
  let eol := String nl EmptyString in
  ∃ s', Router.handleConnection scripted 9 [Router.mkRequest "GET user:1" true; Router.mkRequest "SET user:1 v" true]
          (sample_router [mkAttempt true ["+al"] true; mkAttempt true ["+OK" +:+ eol] true]) = Ok tt s' ∧
    (replies (front s')).*2 = [Reply.error ("shard " +:+ getNode "user:1" (shard_ring (front (sample_router []))) +:+ " unavailable");
                               "+al+OK"].
Proof. intros eol. eexists. split; vm_compute; reflexivity. Qed.

(** NODES marks exactly one node of each shard as ACTIVE, the one that serves
    it, in every topology a router can get to, if the shard's two addresses
    differ. *)
Theorem nodes_marks_serving_node (max : Z) (config : Config.values) (t : topology) (j : string) (s : Shard) :
  (1 ≤ max)%Z → HealthChecker.reachable max (parseShards config) t → findShard j t = Some s →
  address (primary s) ≠ address (replica s) →
  ∃ n, filter (λ n, snap_active n = true) (shard_snapshot s) = [n] ∧ snap_address n = activeAddressFor j t.
Proof.
  intros Hm Hr Hs Hne. pose proof (reachable_evolves max _ _ j Hm Hr) as He. rewrite Hs in He.
  inversion He as [s0 s1 Hev Hf0 Es|]. subst. symmetry in Hf0.
  apply parseShards_fresh in Hf0 as [Ho _]. destruct Hev as (_ & Hok & _). destruct (Hok Ho) as [Ha Hrep].
  unfold shard_snapshot, activeAddressFor. rewrite Hs, Ha. destruct (failedOver s).
  - rewrite Hrep by done. rewrite filter_cons_False, filter_cons_True; simpl.
    + by eexists.
    + by apply bool_decide_true.
    + rewrite bool_decide_false by congruence. done.
  - rewrite filter_cons_True by (simpl; by apply bool_decide_true).
    assert (filter (λ n, snap_active n = true) (if shard_hasReplica s
      then [mkNodeSnapshot (id s) REPLICA (address (replica s)) (health (replica s))
              (bool_decide (address (primary s) = address (replica s)))]
      else []) = []) as ->; [|by eexists].
    case_match; [|done]. rewrite filter_cons_False; [done|]. simpl. by rewrite bool_decide_false.
Qed.

Theorem nodes_marks_serving_node_witness :
  ∃ n, filter (λ n, snap_active n = true) (shard_snapshot (parseShard sample_config "shard0")) = [n] ∧
       snap_address n = "127.0.0.1:6381".
Proof.
  apply (nodes_marks_serving_node 3 sample_config (parseShards sample_config) "shard0"
    (parseShard sample_config "shard0")); [lia|constructor|vm_compute; reflexivity|vm_compute; discriminate].
Defined.



End properties.
