(* ===== verification/Durability.v ===== *)
(** * Crashes, races and undefined behaviour of a server

    Continues [Server]: what a crash without a flush loses, when a command is
    undefined, what the sweeper can do between taking a key out of its table and
    deleting it from the store, and a server that replicates from itself. *)

From S2P Require Import Prelude CxxStd Config Net Protocol Storage Expiry Node Persistence Replication Executor.
From S2P Require Import Recovery Server.

(** ** Definitions *)

(** The append-only file ends at the end of a line: it holds exactly the lines
    [written]. *)
Definition cut_at_line (cfg : PersistenceConfig) (written : list string) (n : Node) : Prop :=
  forallb no_nl written = true ∧ fs_contents (Persistence.aofPath cfg) (fs n) = log_text written.

(** Every prefix of the log stands for what the process held at an earlier moment
    of its life, or holds now. *)
Definition remembers (v : string → bool) (cfg : PersistenceConfig) (n : Node) : Prop :=
  ∃ snap log, snapshot_bytes cfg n = log_text snap ∧ log_bytes cfg n = log_text log ∧
    forallb loggable (snap ++ log) = true ∧
    ∀ l, l `prefix_of` log → ∃ n0 d0 m0, history v cfg n0 ∧ rtc (history_step v cfg) n0 n ∧
      holds KVStore.represents n0 0 d0 ∧ log_run (snap ++ l) ∅ = Some m0 ∧ outside v m0 (Lru.contents (entries d0)).

(** What an event can do to the files: nothing, add a line to the log, or empty
    the log. *)
Definition files_step (cfg : PersistenceConfig) (n n' : Node) : Prop :=
  log_bytes cfg n' = EmptyString ∨
  snapshot_bytes cfg n' = snapshot_bytes cfg n ∧
  (log_bytes cfg n' = log_bytes cfg n ∨
   ∃ line, no_nl line = true ∧ log_bytes cfg n' = log_bytes cfg n +:+ line +:+ String nl EmptyString).

(** The two halves of [sweepTurn]: the sweeper releases its mutex between them.
    The first takes an entry that is due out of the heap, and gives the key if
    its deadline is live. *)
Definition sweep_pop (now : Z) : M Node (option string) :=
  n ← get;
  match ExpiryManager.top (ExpiryManager.heap_ (expiry_ n)) with
  | Some e =>
      if (when e <=? now)%Z then
        let '(live, s) := ExpiryManager.pop_top e (expiry_ n) in
        put (set_expiry s n);;
        mret (if live : bool then Some (key e) else None)
      else mret None
  | None => mret None
  end.

Definition sweep_fire (o : option string) : M Node unit :=
  match o with
  | Some k => onExpire k
  | None => mret tt
  end.

(** The counter a command would take over the edge of its type. *)
Definition overflows (cmd : Command) (d : Data) : Prop :=
  ∃ k z, args cmd = [k] ∧ Lru.counter k (entries d) = Some z ∧
    (type cmd = INCR ∧ z = int64_max ∨ type cmd = DECR ∧ z = int64_min).

(** Deadlines after the epoch of the clock. *)
Definition deadlines_ahead (d : Data) : Prop := ∀ k t, ttl d !! k = Some t → (0 ≤ t ≤ int64_max)%Z.

(** A server that is its own replica on [fd]. *)
Definition echoes (fd : Z) (n : Node) (d : Data) : Prop :=
  holds KVStore.represents n 0 d ∧ is_Some (persistence_ n) ∧
  ∃ r, replication_ n = Some r ∧ replicaFds_ r = [fd].

(** ** Lemmas *)

Lemma sweepTurn_halves now n : sweepTurn now n = (o ← sweep_pop now; sweep_fire o) n.
Proof.
  unfold sweepTurn, sweep_pop. unfold_M. destruct (ExpiryManager.top _) as [e|]; [|done].
  destruct (when e <=? now)%Z; [|done]. by destruct (ExpiryManager.pop_top e (expiry_ n)) as [[|] s].
Qed.

(** A text of lines that begins with complete lines goes on with lines. *)
Lemma log_text_split written log rest :
  forallb no_nl written = true → forallb no_nl log = true → log_text log = log_text written +:+ rest →
  ∃ lost, log = written ++ lost ∧ rest = log_text lost.
Proof.
  revert log. induction written as [|x written IH]; intros log Hw Hl E.
  { exists log. unfold log_text in E at 2. simpl in E. by rewrite str_app_nil_l in E. }
  destruct log as [|y log]; simpl in Hw, Hl; destruct_bools.
  { unfold log_text in E. simpl in E. rewrite str_app_assoc in E. by destruct x. }
  assert (∀ z l t, log_text (z :: l) +:+ t = z +:+ String nl (log_text l +:+ t)) as Hcons.
  { intros z l t. unfold log_text. rewrite fmap_cons. simpl. by rewrite !str_app_assoc, str_app_cons, str_app_nil_l. }
  rewrite Hcons in E. rewrite <-(str_app_nil_r (log_text (y :: log))), Hcons, str_app_nil_r in E.
  apply first_line_unique in E as [-> E]; [|done|done].
  destruct (IH log) as (lost & -> & ->); [done|done|done|]. by exists lost.
Qed.

Lemma log_text_inj l1 l2 :
  forallb no_nl l1 = true → forallb no_nl l2 = true → log_text l1 = log_text l2 → l1 = l2.
Proof.
  intros H1 H2 E. destruct (log_text_split l1 l2 EmptyString H1 H2) as (lost & -> & E'); [by rewrite str_app_nil_r|].
  destruct lost as [|x lost]; [by rewrite app_nil_r|]. unfold log_text in E'. simpl in E'. by destruct x.
Qed.

Lemma loggable_lines l : forallb loggable l = true → forallb no_nl l = true.
Proof. intros H%loggable_no_nl. apply forallb_forall. by rewrite List.Forall_forall in H. Qed.

(** *** The files across an event *)

Lemma files_same cfg n n' : persistence_ n' = persistence_ n → fs n' = fs n → files_step cfg n n'.
Proof. intros Hp Hf. right. unfold snapshot_bytes, log_bytes. rewrite Hp, Hf. split; [done|by left]. Qed.

Section events.
Context (v : string → bool) (cfg : PersistenceConfig).

Lemma files_attached n : durable v cfg n → ∃ w, persistence_ n = Some (mkPersistence cfg w) ∧ file_open w = true.
Proof. intros (d & m & _ & _ & (w & snap & log & Hp & Ho & _) & _). by exists w. Qed.

(** A flush, or part of one, moves bytes from the buffer to the file. *)
Lemma files_moved n p a b w' :
  durable v cfg n → persistence_ n = Some p → buffered (aofWriter_ p) = a +:+ b →
  path_ w' = path_ (aofWriter_ p) → buffered w' = b →
  files_step cfg n (set_fs (fs_write (path_ (aofWriter_ p)) (fs_contents (path_ (aofWriter_ p)) (fs n) +:+ a) (fs n))
    (set_persistence (Some (Persistence.with_aof p w')) n)).
Proof.
  intros (d & m & _ & _ & (w & snap & log & Hp & Ho & Hpa & Hu & _) & _) Hp' Hab Hw' Hb.
  rewrite Hp in Hp'. injection Hp' as <-. simpl in *. pose proof Hu as (_ & Hne & _). right.
  unfold snapshot_bytes, log_bytes. simpl. rewrite !fs_contents_write, Hpa, decide_False, decide_True by done.
  split; [done|left]. by rewrite Hp, Hb, str_app_assoc, <-Hab.
Qed.

Lemma files_save n p n' :
  durable v cfg n → persistence_ n = Some p → Persistence.save p n = Ok tt n' → files_step cfg n n'.
Proof.
  intros (d & m & (Hst & _) & _ & (w & snap & log & Hp & Ho & Hpa & Hu & _) & _) Hp'.
  rewrite Hp in Hp'. injection Hp' as <-. pose proof Hu as (_ & Hne & Hw1 & Hw2).
  unfold Persistence.save, SnapshotManager.saveToFile, on_store, fs_open_trunc. unfold_M. cbn [config_ aofWriter_].
  rewrite bool_decide_false by done. cbn [store_ set_fs fs].
  rewrite (save_spec KVStore.represents _ _ _ Hst). cbn [set_store fs set_fs].
  match goal with |- context [Aof.reset w ?f] => destruct (reset_trunc w f) as (f' & -> & _ & Hc) end.
  { done. } { by rewrite Hpa. }
  intros [= <-]. left. unfold log_bytes. simpl. by rewrite Hc, Hpa, decide_True.
Qed.

(** A command executed and recorded. *)
Lemma files_turn n now line cmd r n1 n2 :
  durable v cfg n → parse line = inr cmd → no_nl line = true → execute now cmd n = Ok r n1 →
  recordAndPropagateIfWrite cmd line r n1 = Ok tt n2 → files_step cfg n n2.
Proof.
  intros Hd Hp Hl E. destruct (data_command (type cmd)) eqn:Hc.
  - pose proof Hd as (d & m & Hh & _). 
    destruct (execute_holds KVStore.represents n 0 d now cmd r n1 Hh E) as (d1 & _ & [(_ & _ & (Hpe & Hre & Hfs & _))|(? & _)]); [|congruence].
    destruct (files_attached n Hd) as (w & Hw & Ho).
    unfold recordAndPropagateIfWrite. destruct (_ && _); [|intros [= <-]; by apply files_same].
    rewrite (the_persistence_bind _ _ _ (eq_trans Hpe Hw)). unfold Persistence.recordWrite, the_replication, ReplicaRegistry.propagate.
    cbn [config_]. destruct (negb (appendOnly cfg)); unfold_M; cbn [replication_ set_persistence].
    all: destruct (replication_ n1); [|done]; rewrite Replication.propagate_to_wire; intros [= <-].
    + by apply files_same.
    + right. unfold snapshot_bytes, log_bytes. simpl. rewrite Hfs, Hw. split; [done|]. right. exists line. split; [done|].
      unfold Aof.append. simpl. rewrite Ho. simpl. by rewrite !str_app_assoc.
  - unfold recordAndPropagateIfWrite.
    assert (isWriteCommand (type cmd) = false) as -> by (by destruct (type cmd)). rewrite andb_false_r. intros [= <-].
    unfold execute in E. destruct (type cmd) eqn:Ht; try discriminate Hc.
    + destruct (args cmd); unfold_M; [|simplify_eq; by apply files_same]. simpl in E.
      destruct (durable_persistence _ _ _ Hd) as [p Hpe]. rewrite Hpe in E.
      set (n0 := set_counters _ _ _ n) in E. assert (durable v cfg n0) as Hd0.
      { pose proof Hd as (_ & _ & _ & _ & _ & _ & _ & Hr). by eapply (durable_same v cfg n). }
      destruct (Persistence.save p n0) as [[] n3|? ?|] eqn:Es; [|done..]. simplify_eq.
      exact (files_save n0 p _ Hd0 Hpe Es).
    + unfold_M. simpl in E. repeat case_match; simplify_eq; by apply files_same.
Qed.

Lemma files_event n ev n' :
  durable v cfg n → safe_event v n ev → run_event ev n = Ok tt n' → files_step cfg n n'.
Proof.
  intros Hd Hsafe. destruct (durable_persistence v cfg n Hd) as [p Hp].
  pose proof Hd as (d & m & Hh & _ & (w & _ & _ & Hp0 & Ho & _) & _ & _ & [rep Hrep]).
  destruct ev as [fd now sent line|fd|now line| |bytes| |now]; cbn [run_event safe_event] in *; rewrite ?(the_persistence_bind _ _ _ Hp).
  - destruct (handleLine fd now sent line n) as [o n1|e n1|] eqn:E; [|by unfold_M; rewrite E..].
    rewrite (bind_Ok _ _ _ _ _ E). intros [= <-]. revert E. unfold handleLine.
    destruct (negb (str_nonempty line)); [intros [= _ <-]; by apply files_same|].
    destruct (parse line) as [e|cmd] eqn:Hl; [intros [= _ <-]; by apply files_same|].
    case_bool_decide.
    { unfold beginSync, on_registry, the_replication, on_store. unfold_M. rewrite Hrep. cbn. intros E.
      repeat case_match; simplify_eq/=; by apply files_same. }
    rewrite (the_replication_bind _ _ _ Hrep).
    destruct (_ && _); [intros [= _ <-]; by apply files_same|].
    destruct (execute now cmd n) as [r n2|e n2|] eqn:E; [|by unfold_M; rewrite E..]. rewrite (bind_Ok _ _ _ _ _ E).
    destruct (recordAndPropagateIfWrite cmd line r n2) as [[] n3|e n3|] eqn:E2; [|by unfold_M; rewrite E2..].
    rewrite (bind_Ok _ _ _ _ _ E2). intros [= _ <-]. destruct Hsafe as [Hsafe _]. unfold safe_line in Hsafe. destruct_bools.
    assert (files_step cfg n n3) as Hstep by (by eapply (files_turn n now line cmd r n2 n3 Hd Hl)). exact Hstep.
  - unfold endSync, on_registry, the_replication. unfold_M. rewrite Hrep. intros [= <-]. by apply files_same.
  - unfold applyReplicatedLine. destruct (parse line) as [e|cmd] eqn:Hl; [intros [= <-]; by apply files_same|].
    destruct (joins_link cmd); [done|].
    destruct (execute now cmd n) as [r n2|e n2|] eqn:E; [|by unfold_M; rewrite E..]. rewrite (bind_Ok _ _ _ _ _ E).
    intros E2. destruct Hsafe as [Hsafe _]. unfold safe_line in Hsafe. destruct_bools.
    by eapply (files_turn n now line cmd r n2 n' Hd Hl).
  - rewrite Hp in Hp0. injection Hp0 as ->. unfold Persistence.flush, Aof.flush. unfold_M. cbn [aofWriter_]. rewrite Ho. intros [= <-].
    apply (files_moved n _ (buffered w) EmptyString (mkAof (path_ w) true EmptyString) Hd Hp); try reflexivity.
    simpl. by rewrite str_app_nil_r.
  - rewrite Hp in Hp0. injection Hp0 as ->. unfold Persistence.spill, Aof.spill. unfold_M. cbn [aofWriter_]. rewrite Ho. intros [= <-].
    apply (files_moved n _ (str_take bytes (buffered w)) (str_drop bytes (buffered w)) (mkAof (path_ w) true (str_drop bytes (buffered w)))
      Hd Hp); try reflexivity. simpl. by rewrite str_take_drop.
  - by apply (files_save n p n' Hd Hp).
  - intros E. destruct (sweepTurn_spec now n 0 d n' Hh E) as ((? & _ & ? & _) & _). by apply files_same.
Qed.

(** *** What the log remembers *)

Lemma remembers_now n l snap :
  history v cfg n → snapshot_bytes cfg n = log_text snap → log_bytes cfg n = log_text l → forallb no_nl (snap ++ l) = true →
  forallb loggable (snap ++ l) = true ∧
  ∃ n0 d0 m0, history v cfg n0 ∧ rtc (history_step v cfg) n0 n ∧ holds KVStore.represents n0 0 d0 ∧
    log_run (snap ++ l) ∅ = Some m0 ∧ outside v m0 (Lru.contents (entries d0)).
Proof.
  intros Hn Hs Hl Hnl. pose proof (history_durable v cfg n Hn) as (d & m & Hh & _ & (w & snap' & log & Hp & _ & _ & _ & Hs' & Hl' & Hf & Hr) & _ & Ho & _).
  unfold snapshot_bytes, log_bytes in *. rewrite Hp in Hl. simpl in Hl. rewrite Hs' in Hs. rewrite Hl' in Hl.
  pose proof (loggable_lines _ Hf) as Hf'. rewrite forallb_app in Hnl, Hf'. destruct_bools.
  apply log_text_inj in Hs as ->; [|done|done]. apply log_text_inj in Hl as ->; [|done|done]. split; [done|].
  by exists n, d, m.
Qed.

(** A step of the log keeps what it remembers. *)
Lemma remembers_step n n' :
  remembers v cfg n → history v cfg n' → history_step v cfg n n' → files_step cfg n n' → remembers v cfg n'.
Proof.
  intros (snap & log & Hs & Hl & Hf & Hpre) Hn' Hst Hfiles.
  pose proof (loggable_lines _ Hf) as Hnl. destruct Hfiles as [E|[Es E]].
  - pose proof (history_durable v cfg n' Hn') as (_ & _ & _ & _ & (w & snap' & log' & _ & _ & _ & _ & Hs' & _ & Hf' & _) & _).
    apply loggable_lines in Hf'. rewrite forallb_app in Hf'. destruct_bools.
    destruct (remembers_now n' [] snap' Hn' Hs' E) as [Hlog Hnow]; [by rewrite app_nil_r|].
    exists snap', []. split; [done|]. split; [done|]. split; [done|]. by intros l ->%prefix_nil_inv.
  - assert (∃ new, log_bytes cfg n' = log_text (log ++ new) ∧ forallb no_nl new = true ∧ length new ≤ 1) as (new & El & Hnew & Hlen).
    { destruct E as [E|(line & Hline & E)]; [exists []; rewrite app_nil_r, E; split; [done|split; [done|simpl; lia]]|].
      exists [line]. rewrite E, Hl, log_text_snoc. split; [done|]. split; [simpl; by rewrite Hline|done]. }
    rewrite Hs in Es. rewrite forallb_app in Hnl. destruct_bools.
    destruct (remembers_now n' (log ++ new) snap Hn' Es El) as [Hlog Hnow].
    { rewrite !forallb_app. repeat (apply andb_true_iff; split); done. }
    exists snap, (log ++ new). split; [done|]. split; [done|]. split; [done|].
    intros l Hl'. destruct (decide (l `prefix_of` log)) as [Hold|Hno].
    + destruct (Hpre l Hold) as (n0 & d0 & m0 & ? & Hr & ?). exists n0, d0, m0. split; [done|]. split; [by eapply rtc_r|done].
    + assert (l = log ++ new) as ->; [|done]. destruct new as [|x [|]]; [rewrite app_nil_r in Hl'; done| |simpl in Hlen; lia].
      destruct Hl' as [rest Hrest]. destruct rest as [|y rest _] using rev_ind; [by rewrite app_nil_r in Hrest|].
      rewrite app_assoc in Hrest. apply app_inj_tail in Hrest as [Hrest _]. exfalso. apply Hno. by exists rest.
Qed.

(** A flush and a restart leave the bytes of the files as the flush left them. *)
Lemma restarted_files n nf clock clock' n' :
  durable v cfg n → run_event Flushed n = Ok tt nf → (∀ i, sane_time (clock i)) → (∀ i, sane_time (clock' i)) →
  start 0 cfg clock clock' (crash nf) = Ok tt n' →
  log_bytes cfg n' = log_bytes cfg nf ∧ snapshot_bytes cfg n' = snapshot_bytes cfg nf.
Proof.
  intros (d & m & _ & _ & Hf & _) E Ht Ht' Hst. pose proof Hf as (w0 & _ & _ & Hp & _). simpl in E. rewrite (the_persistence_bind _ _ _ Hp) in E.
  destruct (durable_files_flush cfg n m _ Hf Hp) as (n1 & E1 & Hf1 & _ & _ & _ & p' & Hp' & Hb). rewrite E in E1. injection E1 as <-.
  destruct Hf1 as (w & snap & log & Hp1 & _ & _ & Hu & Hs & Hl & Hlg & Hrun). rewrite Hp1 in Hp'. injection Hp' as <-.
  simpl in Hb. rewrite Hb, str_app_nil_r in Hl.
  destruct (start_on_files cfg (fs nf) clock clock' snap log m) as (n2 & d2 & E2 & _ & _ & _ & _ & H1 & H2); [done..|].
  unfold crash in Hst. rewrite E2 in Hst. injection Hst as <-. split; [|exact H2].
  rewrite H1. unfold log_bytes. rewrite Hp1. simpl. by rewrite Hb, str_app_nil_r.
Qed.

Lemma history_remembers n : history v cfg n → remembers v cfg n.
Proof.
  induction 1 as [f clock clock' n Hu H1 H2 Ht Ht' Hst|n ev n' Hn IH Hs E|n nf clock clock' n' Hn IH E Ht Ht' Hst].
  - assert (history v cfg n) as Hn by (by apply (hist_boot v cfg f clock clock')). unfold fs_read in *.
    destruct (start_on_files cfg f clock clock' [] [] ∅) as (n0 & d & E & _ & _ & _ & _ & Hl & Hsn);
      [done|done|done|unfold fs_contents; by rewrite H1|unfold fs_contents; by rewrite H2|done|done|].
    rewrite E in Hst. simplify_eq. unfold fs_contents in Hl, Hsn. rewrite H1 in Hsn. rewrite H2 in Hl.
    destruct (remembers_now n [] [] Hn Hsn Hl eq_refl) as [_ Hnow]. exists [], []. split; [done|]. split; [done|]. split; [done|].
    by intros l ->%prefix_nil_inv.
  - pose proof (history_durable v cfg n Hn) as Hd. eapply (remembers_step n n' IH); [by eapply hist_event|by eapply step_event|].
    by eapply files_event.
  - pose proof (history_durable v cfg n Hn) as Hd. eapply (remembers_step n n' IH); [by apply (hist_restart v cfg n nf clock clock')|by apply (step_restart v cfg n nf clock clock')|].
    pose proof (files_event n Flushed nf Hd I E) as Hfe. destruct (restarted_files n nf clock clock' n' Hd E Ht Ht' Hst) as [E1 E2].
    unfold files_step. by rewrite E1, E2.
Qed.
End events.

Lemma counter_range k l z : Lru.counter k l = Some z → (int64_min ≤ z ≤ int64_max)%Z.
Proof.
  unfold Lru.counter. intros H. repeat case_match; simplify_eq; [by eapply stoll_range|].
  unfold int64_min, int64_max. lia.
Qed.

Lemma increment_undefined c k delta d :
  (delta = 1 ∨ delta = -1)%Z →
  spec_increment c k delta d = None ↔
  ∃ z, Lru.counter k (entries d) = Some z ∧ z = (if bool_decide (delta = 1)%Z then int64_max else int64_min).
Proof.
  intros Hd. unfold spec_increment. destruct (Lru.counter k (entries d)) as [z|] eqn:E; [|naive_solver].
  pose proof (counter_range _ _ _ E) as Hz. destruct (chk64 (z + delta)) as [z'|] eqn:Hc.
  - apply chk64_Some in Hc as [-> Hc]. split; [done|]. intros (z' & [= <-] & ->).
    destruct Hd as [-> | ->]; unfold int64_min, int64_max in *; simpl in *; lia.
  - apply chk64_None in Hc. split; [|done]. intros _. exists z. split; [done|].
    destruct Hd as [-> | ->]; unfold int64_min, int64_max in *; simpl in *; lia.
Qed.

Lemma remaining_defined now t : sane_time now → (0 ≤ t ≤ int64_max)%Z → is_Some (remaining_seconds now t).
Proof.
  intros Hn Ht. unfold remaining_seconds, sane_time in *.
  rewrite chk64_in by (unfold int64_min, int64_max in *; lia). by eexists.
Qed.

Lemma spec_undefined c now cmd d :
  deadlines_ahead d → sane_time now → sane_args cmd = true →
  spec_execute c now cmd d = None ↔ overflows cmd d.
Proof.
  intros Hah Hn Ha.
  assert (∀ secs z, sane_ttl secs = true → parsePositiveSeconds secs = Some z → is_Some (deadline now z)) as Hdl
    by (intros; by eapply sane_ttl_deadline).
  pose proof (increment_undefined c) as Hinc. unfold spec_execute, overflows, sane_args in *.
  destruct (type cmd) eqn:Ht.
  all: repeat case_match; simplify_eq; try (split; [done|]; intros (? & ? & ? & ? & [[? _]|[? _]]); congruence).
  - destruct (Hdl _ _ Ha ltac:(eassumption)) as [t ->]. split; [done|]. naive_solver.
  - rewrite Hinc by auto. naive_solver.
  - rewrite Hinc by auto. naive_solver.
  - destruct (remaining_defined now z Hn) as [r ->]; [by eapply Hah|]. split; [done|]. naive_solver.
  - destruct (Hdl _ _ Ha ltac:(eassumption)) as [t ->]. split; [done|]. naive_solver.
Qed.

(** A SET that reaches a server which is its own replica goes out to itself
    again. *)
Lemma echo_round fd now line nm k v n d :
  echoes fd n d → parse line = inr (mkCommand SET nm [k; v]) →
  ∃ n' d', applyReplicatedLine now line n = Ok tt n' ∧ echoes fd n' d' ∧
    wire n' = wire n ++ [(fd, line +:+ String nl EmptyString)].
Proof.
  intros (Hh & [p Hp] & r & Hr & Hfd) Hparse. unfold applyReplicatedLine. rewrite Hparse. cbn [joins_link type args]. cbv iota.
  pose proof (execute_data KVStore.represents n 0 d now (mkCommand SET nm [k; v]) Hh eq_refl) as H1.
  simpl in H1. destruct H1 as (n1 & E1 & Hh1 & (Hp1 & Hr1 & _ & Hw1 & _)). rewrite (bind_Ok _ _ _ _ _ E1).
  unfold recordAndPropagateIfWrite.
  assert (succeeded Reply.ok && isWriteCommand (type (mkCommand SET nm [k; v])) = true) as -> by reflexivity.
  rewrite (the_persistence_bind _ p) by (by rewrite Hp1). unfold Persistence.recordWrite. simpl.
  destruct (negb (appendOnly (config_ p))); unfold_M; unfold the_replication; unfold_M; simpl; rewrite Hr1, Hr.
  all: unfold ReplicaRegistry.propagate; rewrite Replication.propagate_to_wire, Hfd; simpl.
  all: eexists _, (mkData _ _); split; [reflexivity|]; simpl; split; [|by rewrite Hw1].
  all: split; [exact Hh1|]; split; [simpl; rewrite ?Hp1; eauto|]; exists r; simpl; by rewrite Hr1.
Qed.

(** ** Properties *)

Section properties.
Import KVStore (represents).

(** C24: What a crash without a flush loses, on an unbounded server with the
    append-only file on and through a history of safe events: if the part of the
    log that reached the file ends at the end of a line, a restart gives the keys
    and values the server held at an earlier moment [n0] of that history, and
    what is lost is a run of the latest writes: executing the lines that were
    still in the buffer gives the contents of before the crash; both but for the
    keys [v] that may have expired. *)
Theorem crash_loses_only_latest_writes (v : string → bool) (cfg : PersistenceConfig) (n : Node) (written : list string)
    (clock clock' : nat → Z) :
  history v cfg n → cut_at_line cfg written n →
  (∀ i, sane_time (clock i)) → (∀ i, sane_time (clock' i)) →
  ∃ n' d d' n0 d0 m lost, start 0 cfg clock clock' (crash n) = Ok tt n' ∧
    holds represents n 0 d ∧ holds represents n' 0 d' ∧
    (history v cfg n0 ∧ rtc (history_step v cfg) n0 n ∧ holds represents n0 0 d0 ∧
       outside v (Lru.contents (entries d')) (Lru.contents (entries d0))) ∧
    log_run lost (Lru.contents (entries d')) = Some m ∧ outside v m (Lru.contents (entries d)) ∧
    ∃ p, persistence_ n = Some p ∧ buffered (aofWriter_ p) = log_text lost.
Proof.
  intros Hist [Hw Hfs] Ht Ht'. destruct (history_remembers v cfg n Hist) as (snap0 & log0 & Es0 & El0 & Hf0 & Hpre).
  pose proof (history_durable v cfg n Hist) as (d & m & Hh & Hsv & (w & snap & log & Hp & Ho & Hpa & Hu & Hs & Hl & Hf & Hr) & _ & Hout & _).
  assert (snap = snap0 ∧ log = log0) as [<- <-].
  { apply loggable_lines in Hf0 as Hn0. apply loggable_lines in Hf as Hn. rewrite forallb_app in Hn0, Hn. destruct_bools.
    unfold snapshot_bytes, log_bytes in *. rewrite Hp in El0. simpl in El0. split; apply log_text_inj; congruence. }
  rewrite Hfs in Hl. pose proof (loggable_lines _ Hf) as Hf'. rewrite forallb_app in Hf'. destruct_bools.
  destruct (log_text_split written log (buffered w)) as (lost & -> & Hb); [done..|].
  destruct (Hpre written) as (n0 & d0 & m0 & Hn0 & Hr0 & Hh0 & Em & Ho0); [by exists lost|].
  rewrite app_assoc, log_run_app, Em in Hr. simpl in Hr.
  destruct (start_spec cfg (fs n) clock clock' snap written m0) as (n' & d' & E & Hh' & Hc & _ & _); [done..| |done|].
  { rewrite app_assoc, forallb_app in Hf. by destruct_bools. }
  exists n', d, d', n0, d0, m, lost. rewrite Hc. split_and!; try done. by eexists.
Qed.

Theorem crash_loses_only_latest_writes_witness :
  ∃ n' d d' n0 d0 m lost, start 0 defaultPersistenceConfig (λ _, 0%Z) (λ _, 0%Z) (crash session_node) = Ok tt n' ∧
    holds represents session_node 0 d ∧ holds represents n' 0 d' ∧
    (history is_session defaultPersistenceConfig n0 ∧ outside is_session (Lru.contents (entries d')) (Lru.contents (entries d0))) ∧
    log_run lost (Lru.contents (entries d')) = Some m ∧ outside is_session m (Lru.contents (entries d)).
Proof.
  destruct (crash_loses_only_latest_writes is_session defaultPersistenceConfig session_node [] (λ _, 0%Z) (λ _, 0%Z) session_history)
    as (n' & d & d' & n0 & d0 & m & lost & H1 & H2 & H3 & (H4 & _ & _ & H5) & H6 & H7 & _); [split; vm_compute; reflexivity|done|done|].
  exists n', d, d', n0, d0, m, lost. split; [exact H1|]. split; [exact H2|]. split; [exact H3|]. split; [split; [exact H4|exact H5]|].
  split; [exact H6|exact H7].
Defined.

(** C35: The only undefined commands are the overflows of a counter: with a sane
    clock, sane TTL arguments and no deadline before the epoch, executing a
    command is undefined exactly when it increments a counter at the largest or
    decrements one at the smallest 64-bit value. *)
Theorem undefined_iff_counter_overflow (n : Node) (c : nat) (d : Data) (now : Z) (cmd : Command) :
  holds represents n c d → deadlines_ahead d → sane_time now → sane_args cmd = true →
  execute now cmd n = Undef ↔ overflows cmd d.
Proof.
  intros Hh Hah Hn Ha. rewrite <-(spec_undefined c now cmd d Hah Hn Ha).
  destruct (data_command (type cmd)) eqn:Hd.
  - pose proof (execute_data represents n c d now cmd Hh Hd) as H.
    destruct (spec_execute c now cmd d) as [[r d']|]; [|done]. destruct H as (n' & -> & _). done.
  - destruct (execute_admin now cmd n Hd) as (r & n' & -> & _). split; [done|]. intros H.
    unfold spec_execute in H. by destruct (type cmd).
Qed.

Theorem undefined_iff_counter_overflow_witness :
  ∃ n, execute 0 (mkCommand SET "SET" ["k"; "9223372036854775807"]) (bare_node (KVStore.create 0) (mkFS ∅ ∅)) = Ok "+OK" n ∧
       execute 0 (mkCommand INCR "INCR" ["k"]) n = Undef.
Proof.
  destruct (execute_data represents (bare_node (KVStore.create 0) (mkFS ∅ ∅)) 0 (mkData [] ∅) 0
    (mkCommand SET "SET" ["k"; "9223372036854775807"]) (bare_holds _ _) eq_refl) as (n & E & Hh & _).
  exists n. split; [exact E|].
  apply (undefined_iff_counter_overflow n 0 _ 0 (mkCommand INCR "INCR" ["k"]) Hh).
  - intros k t. simpl. rewrite lookup_delete. case_decide; [discriminate|]. rewrite lookup_empty. discriminate.
  - split; [discriminate|discriminate].
  - reflexivity.
  - exists "k", 9223372036854775807%Z. split; [reflexivity|]. split; [vm_compute; reflexivity|]. left. split; reflexivity.
Defined.

(** The sweeper can delete a value written after the deadline it acts on: it
    takes the key out of its table, releases its mutex and then deletes the key
    from the store; a SET without EX that falls between the two is answered
    with +OK and lost, although it was recorded. *)
Theorem sweeper_can_delete_new_value :
  ∃ n, (run_event (Requested 4 0 true "SET a old EX 1");;
        o ← sweep_pop 1000000000;
        run_event (Requested 4 1000000000 true "SET a new");;
        sweep_fire o;; run_event Flushed) (state_of sample_start) = Ok tt n ∧
       value_of "a" n = None ∧ value_after_restart "a" n = Some "new".
Proof. eexists. split; [vm_compute; reflexivity|]. split; vm_compute; reflexivity. Qed.

(** A server that is told to replicate from itself never comes to rest: for
    every SET line it applies from its own stream it sends the same line on that
    stream again, so after [count] applied lines as many new ones are waiting. *)
Theorem self_replica_never_rests (fd : Z) (n : Node) (d : Data) (line nm k v : string) (clock : nat → Z) (i count : nat) :
  echoes fd n d → parse line = inr (mkCommand SET nm [k; v]) →
  ∃ n' d', apply_stream clock i (replicate count line) n = Ok tt n' ∧ echoes fd n' d' ∧
    sent_to fd n' = sent_to fd n +:+ log_text (replicate count line).
Proof.
  intros Hn Hp. revert i n d Hn. induction count as [|count IH]; intros i n d Hn; simpl.
  { exists n, d. rewrite str_app_nil_r. done. }
  destruct (echo_round fd (clock i) line nm k v n d Hn Hp) as (n1 & d1 & E1 & Hn1 & Hw1).
  rewrite (bind_Ok _ _ _ _ _ E1). destruct (IH (S i) n1 d1 Hn1) as (n2 & d2 & E2 & Hn2 & Hs2).
  exists n2, d2. split; [done|]. split; [done|]. rewrite Hs2. unfold sent_to in *. rewrite Hw1, filter_app, fmap_app, str_concat_app.
  rewrite filter_cons_True by done. simpl. rewrite str_app_nil_r. unfold log_text. simpl. by rewrite !str_app_assoc.
Qed.

(** How it comes about: REPLICAOF with the server's own address starts a link
    whose SYNC is served by a connection of the same process; the dump is
    already such a line. *)
Example self_replica_starts :
  ∃ n n', (run_event (Requested 4 0 true "SET a 1");; run_event (Requested 4 0 true "REPLICAOF 127.0.0.1 6380");;
           beginSync 7 true) (state_of sample_start) = Ok true n ∧
    apply_stream (λ _, 0%Z) 0 (lines_of nl (sent_to 7 n)) n = Ok tt n' ∧
    sent_to 7 n = log_text ["SET a 1"] ∧ sent_to 7 n' = log_text ["SET a 1"; "SET a 1"].
Proof.
  eexists _, _. split; [vm_compute; reflexivity|]. split; [vm_compute; reflexivity|].
  split; vm_compute; reflexivity.
Qed.

End properties.
