(* ===== verification/Linearize.v ===== *)
(** * Threads and the order of their requests

    What [Interleaving] and [Routing] share: programs cut into the steps between
    which other threads can run, machines that run such programs in any order,
    and the argument that clients served by one thread each cannot tell the
    result from requests handled one after the other. A [Service] says what the
    shared state stands for, what a request does to that, and what its clients
    hear; a thread that [conforms] to it handles each request in one of its
    steps and writes the reply in a later one. *)

From S2P Require Import Prelude.

(** ** Definitions *)

(** What a thread still has to do: nothing, or a step on the shared state and then
    whatever its result asks for. *)
Inductive prog (St A : Type) : Type :=
| Done (a : A)
| Step {X : Type} (m : M St X) (k : X → prog St A).
Arguments Done {St A} a.
Arguments Step {St A X} m k.

#[export] Instance prog_ret {St} : MRet (prog St) := λ A a, Done a.

#[export] Instance prog_bind {St} : MBind (prog St) := λ A B f,
  fix go (p : prog St A) : prog St B :=
    match p with
    | Done a => f a
    | Step m k => Step m (λ x, go (k x))
    end.

Definition step {St X} (m : M St X) : prog St X := Step m Done.

(** The steps of a program with nobody else running. *)
Fixpoint run_alone {St A} (p : prog St A) : M St A :=
  match p with
  | Done a => mret a
  | Step m k => x ← m; run_alone (k x)
  end.

(** *** Threads in any order *)

Record machine (St : Type) : Type := mkMachine { threads : list (prog St unit); process : St }.
Arguments mkMachine {St} threads process.
Arguments threads {St} s : rename.
Arguments process {St} s : rename.

Inductive machine_step {St : Type} : machine St → machine St → Prop :=
| machine_turn i s X (m : M St X) k x n' :
    threads s !! i = Some (Step m k) → m (process s) = Ok x n' →
    machine_step s (mkMachine (<[i := k x]> (threads s)) n').

(** The steps of one thread, while the others stand still. *)
Inductive thread_step {St : Type} (i : nat) : machine St → machine St → Prop :=
| thread_turn s X (m : M St X) k x n' :
    threads s !! i = Some (Step m k) → m (process s) = Ok x n' →
    thread_step i s (mkMachine (<[i := k x]> (threads s)) n').

(** A schedule: the threads that take a turn, one after the other. A thread that
    cannot go on is passed over. *)
Definition turn {St} (s : machine St) (i : nat) : machine St :=
  match threads s !! i with
  | Some (Step m k) =>
      match m (process s) with
      | Ok x n' => mkMachine (<[i := k x]> (threads s)) n'
      | _ => s
      end
  | _ => s
  end.

Definition run_schedule {St} (sch : list nat) (s : machine St) : machine St := foldl turn s sch.

(** *** Services *)

(** The data [d] a state holds, what a request does to it (the reply and the new
    data, or undefined behaviour), the requests that get a reply at all, and what
    the client on a connection has heard so far: [told o rs] is [o] followed by
    the replies [rs]. *)
Record Service (St D Q R O : Type) : Type := mkService {
  holding : D → St → Prop;
  handle : Q → D → option (R * D);
  answered : Q → bool;
  heard : Z → St → O;
  told : O → list R → O;
  told_nil o : told o [] = o;
  told_app o rs rs' : told (told o rs) rs' = told o (rs ++ rs')
}.
Arguments mkService {St D Q R O} holding handle answered heard told told_nil told_app.
Arguments holding {St D Q R O} s d n : rename.
Arguments handle {St D Q R O} s q d : rename.
Arguments answered {St D Q R O} s q : rename.
Arguments heard {St D Q R O} s fd n : rename.
Arguments told {St D Q R O} s o rs : rename.
Arguments told_nil {St D Q R O} s o : rename.
Arguments told_app {St D Q R O} s o rs rs' : rename.

(** A request of a client, by its place in the list of clients, and the reply to
    it. *)
Record op (Q R : Type) : Type := mkOp { op_client : nat; op_request : Q; op_reply : R }.
Arguments mkOp {Q R} op_client op_request op_reply.
Arguments op_client {Q R} o : rename.
Arguments op_request {Q R} o : rename.
Arguments op_reply {Q R} o : rename.

(** A client: its connection and the requests it sends. *)
Record Peer (Q : Type) : Type := mkPeer { peer_fd : Z; peer_requests : list Q }.
Arguments mkPeer {Q} peer_fd peer_requests.
Arguments peer_fd {Q} p : rename.
Arguments peer_requests {Q} p : rename.

Definition ops_of {Q R} (i : nat) (ops : list (op Q R)) : list (op Q R) := filter (λ o, op_client o = i) ops.

Section services.
Context {St D Q R O : Type} `{EqDecision R} (sv : Service St D Q R O).

(** Requests handled one after the other, each with the reply it was given. *)
Fixpoint atomic_run (ops : list (op Q R)) (d : D) : option D :=
  match ops with
  | [] => Some d
  | o :: ops' =>
      '(r, d') ← handle sv (op_request o) d;
      if bool_decide (r = op_reply o) then atomic_run ops' d' else None
  end.

(** The requests that get a reply. *)
Definition asked (cl : Peer Q) : list Q := filter (λ q, answered sv q = true) (peer_requests cl).

(** The state [s], reached from the shared state [n0] with the data [d0], is
    explained by handling [ops] one after the other: the data are theirs, the
    requests of a client are handled in the order it sent them, and it was sent
    their replies, except for the last one if that is still to be written. *)
Definition explained (cls : list (Peer Q)) (d0 : D) (n0 : St) (ops : list (op Q R)) (s : machine St) : Prop :=
  ∃ d, atomic_run ops d0 = Some d ∧ holding sv d (process s) ∧
    ∀ i cl, cls !! i = Some cl →
      (op_request <$> ops_of i ops) `prefix_of` asked cl ∧
      (∃ owed, told sv (heard sv (peer_fd cl) (process s)) (option_list owed) =
                 told sv (heard sv (peer_fd cl) n0) (op_reply <$> ops_of i ops)) ∧
      (threads s !! i = Some (Done tt) →
         op_request <$> ops_of i ops = asked cl ∧
         heard sv (peer_fd cl) (process s) = told sv (heard sv (peer_fd cl) n0) (op_reply <$> ops_of i ops)).

(** The thread [i] of the client [cl] is at a step that is undefined behaviour,
    and it is so because the request it is about to handle is, on the data there
    are now. *)
Definition at_undefined (cls : list (Peer Q)) (d0 : D) (n0 : St) (i : nat) (cl : Peer Q) (s : machine St) : Prop :=
  ∃ ops d q X (m : M St X) k, explained cls d0 n0 ops s ∧ atomic_run ops d0 = Some d ∧ holding sv d (process s) ∧
    asked cl !! length (ops_of i ops) = Some q ∧ handle sv q d = None ∧
    threads s !! i = Some (Step m k) ∧ m (process s) = Undef.

(** Nothing for any of [fds]. *)
Definition unheard (fds : list Z) (n n' : St) : Prop := ∀ fd, fd ∈ fds → heard sv fd n' = heard sv fd n.

(** A step that takes the data from [d] to [d'], with a result that satisfies
    [P], unheard by the clients. *)
Definition effects (fds : list Z) {X} (m : M St X) (d d' : D) (P : X → Prop) : Prop :=
  ∀ n, holding sv d n → ∃ x n', m n = Ok x n' ∧ holding sv d' n' ∧ unheard fds n n' ∧ P x.

(** The thread of the connection [fd] will handle exactly the requests [todo],
    each in one of its steps, and write each reply after that, the reply [owed]
    first. *)
Fixpoint conforms (fds : list Z) (fd : Z) (todo : list Q) (owed : option R) (p : prog St unit) : Prop :=
  match p with
  | Done _ => todo = [] ∧ owed = None
  | Step m k => ∀ n d, holding sv d n →
      (∃ x n', m n = Ok x n' ∧ holding sv d n' ∧ unheard fds n n' ∧ conforms fds fd todo owed (k x)) ∨
      (owed = None ∧ ∃ q todo', todo = q :: todo' ∧
         match handle sv q d with
         | Some (r, d') => ∃ x n', m n = Ok x n' ∧ holding sv d' n' ∧ unheard fds n n' ∧
                                   conforms fds fd todo' (Some r) (k x)
         | None => m n = Undef
         end) ∨
      (∃ r todo', ((owed = Some r ∧ todo' = todo) ∨
                   (owed = None ∧ ∃ q, todo = q :: todo' ∧ handle sv q d = Some (r, d))) ∧
         ∃ x n', m n = Ok x n' ∧ holding sv d n' ∧ unheard (filter (.≠ fd) fds) n n' ∧
                 heard sv fd n' = told sv (heard sv fd n) [r] ∧ conforms fds fd todo' None (k x))
  end.

(** A thread that serves none of the clients [fds]: its steps leave the data alone
    and tell the clients nothing. *)
Fixpoint background (fds : list Z) (p : prog St unit) : Prop :=
  match p with
  | Done _ => True
  | Step m k => ∀ n d x n', holding sv d n → m n = Ok x n' →
      holding sv d n' ∧ unheard fds n n' ∧ background fds (k x)
  end.
End services.

(** ** Lemmas *)

(** *** Programs *)

Lemma bind_ext {St A B} (m : M St A) (f g : A → M St B) s :
  (∀ a s', f a s' = g a s') → (m ≫= f) s = (m ≫= g) s.
Proof. intros H. unfold mbind, M_bind. by destruct (m s). Qed.

Lemma bind_cong {St A B} (m m' : M St A) (f g : A → M St B) s :
  m s = m' s → (∀ a s', f a s' = g a s') → (m ≫= f) s = (m' ≫= g) s.
Proof. intros Hm H. unfold mbind, M_bind. rewrite Hm. by destruct (m' s). Qed.

Lemma bind_assoc {St A B C} (m : M St A) (f : A → M St B) (g : B → M St C) s :
  ((m ≫= f) ≫= g) s = (m ≫= λ a, f a ≫= g) s.
Proof. unfold mbind, M_bind. by destruct (m s). Qed.

Lemma gets_bind {St A B} (f : St → A) (k : A → M St B) s : (gets f ≫= k) s = k (f s) s.
Proof. done. Qed.

Lemma run_alone_bind {St A B} (p : prog St A) (f : A → prog St B) n :
  run_alone (p ≫= f) n = (a ← run_alone p; run_alone (f a)) n.
Proof.
  revert n. induction p as [a|X m k IH]; intros n; [done|].
  change (run_alone (Step m k)) with (x ← m; run_alone (k x)). rewrite bind_assoc.
  change (run_alone (Step m k ≫= f)) with (x ← m; run_alone (k x ≫= f)). by apply bind_ext.
Qed.

Lemma run_alone_step {St X B} (m : M St X) (f : X → prog St B) n :
  run_alone (step m ≫= f) n = (x ← m; run_alone (f x)) n.
Proof. done. Qed.

Lemma run_alone_single {St X} (m : M St X) n : run_alone (step m) n = m n.
Proof. cbn [run_alone step]. unfold mbind, M_bind. by destruct (m n). Qed.

Lemma turn_rtc {St} (s : machine St) i : rtc machine_step s (turn s i).
Proof.
  unfold turn. destruct (threads s !! i) as [[?|X m k]|] eqn:Hi; [done| |done].
  destruct (m (process s)) as [x n'|? ?|] eqn:Hm; [|done..]. apply rtc_once. by eapply machine_turn.
Qed.

Lemma run_schedule_rtc {St} sch (s : machine St) : rtc machine_step s (run_schedule sch s).
Proof.
  revert s. induction sch as [|i sch IH]; intros s; [done|]. etransitivity; [apply turn_rtc|apply IH].
Qed.

(** *** Conforming threads *)

Section conforming.
Context {St D Q R O : Type} (sv : Service St D Q R O) (fds : list Z).

Lemma effects_same {X} (m : M St X) d (P : X → Prop) :
  (∀ n, holding sv d n → ∃ x, m n = Ok x n ∧ P x) → effects sv fds m d d P.
Proof. intros Hm n Hq. destruct (Hm n Hq) as (x & E & HP). exists x, n. by split_and!. Qed.

Lemma conforms_silent {X} (m : M St X) k fd todo owed :
  (∀ d, effects sv fds m d d (λ x, conforms sv fds fd todo owed (k x))) → conforms sv fds fd todo owed (Step m k).
Proof. intros H n d Hq. left. by apply H. Qed.

(** Where the brackets of a program are does not matter. *)
Lemma conforms_assoc {A B} (p : prog St A) (f : A → prog St B) (K : B → prog St unit) fd todo owed :
  conforms sv fds fd todo owed (p ≫= λ x, f x ≫= K) → conforms sv fds fd todo owed ((p ≫= f) ≫= K).
Proof.
  revert todo owed. induction p as [a|X m k IH]; intros todo owed H; [done|]. intros n d Hq.
  destruct (H n d Hq) as [(x & n' & ? & ? & ? & Hk)|[(? & q & todo' & ? & Hk)|(r & todo' & ? & x & n' & ? & ? & ? & ? & Hk)]].
  - left. exists x, n'. split_and!; try done. by apply IH.
  - right. left. split; [done|]. exists q, todo'. split; [done|].
    destruct (handle sv q d) as [[r d']|]; [|done]. destruct Hk as (x & n' & ? & ? & ? & Hk).
    exists x, n'. split_and!; try done. by apply IH.
  - right. right. exists r, todo'. split; [done|]. exists x, n'. split_and!; try done. by apply IH.
Qed.

Lemma background_assoc {A B} (p : prog St A) (f : A → prog St B) (K : B → prog St unit) :
  background sv fds (p ≫= λ x, f x ≫= K) → background sv fds ((p ≫= f) ≫= K).
Proof.
  induction p as [a|X m k IH]; [done|]. intros H n d x n' Hh E. destruct (H n d x n' Hh E) as (? & ? & Hk).
  split; [done|]. split; [done|]. by apply IH.
Qed.
End conforming.

Lemma ops_of_snoc {Q R} i (ops : list (op Q R)) j q r :
  ops_of i (ops ++ [mkOp j q r]) = ops_of i ops ++ (if decide (j = i) then [mkOp j q r] else []).
Proof. unfold ops_of. rewrite filter_app, filter_cons. simpl. by case_decide. Qed.

(** *** Machines of conforming threads *)

Section linearization.
Context {St D Q R O : Type} `{EqDecision R} (sv : Service St D Q R O).
Context (cls : list (Peer Q)) (d0 : D) (n0 : St).
Hypothesis Hnodup : NoDup (peer_fd <$> cls).

Lemma atomic_run_snoc ops o d d1 r d2 :
  atomic_run sv ops d = Some d1 → handle sv (op_request o) d1 = Some (r, d2) → r = op_reply o →
  atomic_run sv (ops ++ [o]) d = Some d2.
Proof.
  revert d. induction ops as [|o' ops IH]; intros d; simpl.
  - intros [= ->] -> ->. simpl. by rewrite bool_decide_true.
  - destruct (handle sv (op_request o') d) as [[r' d']|]; simpl; [|done]. case_bool_decide; [|done]. apply IH.
Qed.

(** What holds of a machine that has handled [ops]. *)
Record linearized (ops : list (op Q R)) (s : machine St) (d : D) : Prop := {
  lin_run : atomic_run sv ops d0 = Some d;
  lin_holding : holding sv d (process s);
  lin_threads : ∀ i cl p, cls !! i = Some cl → threads s !! i = Some p → ∃ todo owed,
    asked sv cl = (op_request <$> ops_of i ops) ++ todo ∧
    conforms sv (peer_fd <$> cls) (peer_fd cl) todo owed p ∧
    told sv (heard sv (peer_fd cl) (process s)) (option_list owed) =
      told sv (heard sv (peer_fd cl) n0) (op_reply <$> ops_of i ops);
  lin_background : ∀ i p, cls !! i = None → threads s !! i = Some p → background sv (peer_fd <$> cls) p;
  lin_length : length cls ≤ length (threads s)
}.

Lemma fds_inj i j cl cl' : cls !! i = Some cl → cls !! j = Some cl' → peer_fd cl = peer_fd cl' → i = j.
Proof.
  intros Hi Hj E. eapply (NoDup_lookup _ _ _ _ Hnodup); rewrite list_lookup_fmap; [by rewrite Hi|].
  by rewrite Hj, E.
Qed.

Lemma client_thread i cl s ops d : linearized ops s d → cls !! i = Some cl → is_Some (threads s !! i).
Proof.
  intros [_ _ _ _ Hlen] Hcl%lookup_lt_Some. apply lookup_lt_is_Some_2. lia.
Qed.

Lemma fd_in i cl : cls !! i = Some cl → peer_fd cl ∈ peer_fd <$> cls.
Proof. intros H. apply list_elem_of_fmap. eexists. split; [done|]. by eapply list_elem_of_lookup_2. Qed.

(** A step of thread [i] that handles [new] requests leaves the other threads
    where they were. *)
Lemma linearized_turn ops d s i cl p' n' d' new todo' owed' :
  linearized ops s d → cls !! i = Some cl →
  atomic_run sv (ops ++ new) d0 = Some d' → holding sv d' n' →
  Forall (λ o, op_client o = i) new →
  unheard sv (filter (.≠ peer_fd cl) (peer_fd <$> cls)) (process s) n' →
  asked sv cl = (op_request <$> ops_of i (ops ++ new)) ++ todo' →
  conforms sv (peer_fd <$> cls) (peer_fd cl) todo' owed' p' →
  told sv (heard sv (peer_fd cl) n') (option_list owed') =
    told sv (heard sv (peer_fd cl) n0) (op_reply <$> ops_of i (ops ++ new)) →
  linearized (ops ++ new) (mkMachine (<[i := p']> (threads s)) n') d'.
Proof.
  intros Hl Hcl Hrun' Hq' Hnew Hu Hask Hc Hsent. pose proof (client_thread _ _ _ _ _ Hl Hcl) as Hi.
  destruct Hl as [Hrun Hq Hth Hbg Hlen].
  split; [done|done| | |simpl; by rewrite length_insert]; cycle 1.
  { intros j p Hj. simpl. rewrite list_lookup_insert_ne; [by apply Hbg|congruence]. }
  intros j cl' p Hj Hp. simpl in *. destruct (decide (i = j)) as [<-|Hne].
  - apply lookup_lt_is_Some in Hi. rewrite list_lookup_insert in Hp. rewrite decide_True in Hp by done. simplify_eq. by exists todo', owed'.
  - rewrite list_lookup_insert_ne in Hp by done. destruct (Hth j cl' p Hj Hp) as (todo & owed & H1 & H2 & H3).
    assert (ops_of j (ops ++ new) = ops_of j ops) as E.
    { unfold ops_of. rewrite filter_app. assert (filter (λ o, op_client o = j) new = []) as ->; [|apply app_nil_r].
      clear -Hnew Hne. induction Hnew; [done|]. rewrite filter_cons_False; [done|congruence]. }
    exists todo, owed. rewrite E, Hu; [done|]. apply list_elem_of_filter. split; [|by eapply fd_in].
    intros Efd. by apply Hne, (fds_inj i j cl cl').
Qed.

(** A step of a thread in the background. *)
Lemma linearized_background ops s d i X (m : M St X) k x n' :
  linearized ops s d → cls !! i = None → threads s !! i = Some (Step m k) → m (process s) = Ok x n' →
  ∃ new d', Forall (λ o, op_client o = i) new ∧
    linearized (ops ++ new) (mkMachine (<[i := k x]> (threads s)) n') d'.
Proof.
  intros [Hrun Hq Hth Hbg Hlen] Hcl Hi Hm. destruct (Hbg i _ Hcl Hi _ _ _ _ Hq Hm) as (Hq' & Hu & Hk).
  exists [], d. rewrite app_nil_r. split; [done|]. split; [done|done| | |simpl; by rewrite length_insert]; simpl.
  - intros j cl p Hj. rewrite list_lookup_insert_ne by congruence. intros Hp.
    destruct (Hth j cl p Hj Hp) as (todo & owed & H1 & H2 & H3). exists todo, owed. rewrite Hu; [done|by eapply fd_in].
  - intros j p Hj. destruct (decide (i = j)) as [<-|Hne]; [|rewrite list_lookup_insert_ne by done; by apply Hbg].
    rewrite list_lookup_insert_eq; [by intros [= <-]|by eapply lookup_lt_Some].
Qed.

Lemma linearized_thread ops s d i X (m : M St X) k x n' :
  linearized ops s d → threads s !! i = Some (Step m k) → m (process s) = Ok x n' →
  ∃ new d', Forall (λ o, op_client o = i) new ∧
    linearized (ops ++ new) (mkMachine (<[i := k x]> (threads s)) n') d'.
Proof.
  intros Hl Hi Hm. pose proof Hl as [Hrun Hq Hth Hbg Hlen].
  destruct (cls !! i) as [cl|] eqn:Hcl; [|exact (linearized_background _ _ _ _ _ _ _ _ _ Hl Hcl Hi Hm)].
  destruct (Hth i cl _ Hcl Hi) as (todo & owed & Hask & Hc & Hsent).
  assert (∀ n n', unheard sv (peer_fd <$> cls) n n' → unheard sv (filter (.≠ peer_fd cl) (peer_fd <$> cls)) n n') as Hweak.
  { intros ? ? Hu fd [_ Hin]%list_elem_of_filter. by apply Hu. }
  destruct (Hc (process s) d Hq)
    as [(x1 & n1 & E & Hq1 & Hu & Hk)|[(-> & q & todo' & -> & Hk)|(r & todo' & Hcase & x1 & n1 & E & Hq1 & Hu & Hw & Hk)]].
  - rewrite Hm in E. simplify_eq. exists [], d. split; [done|].
    apply (linearized_turn ops d s i cl (k x1) n1 d [] todo owed); rewrite ?app_nil_r; auto.
    rewrite Hu; [done|by eapply fd_in].
  - destruct (handle sv q d) as [[r d']|] eqn:Es; [|congruence].
    destruct Hk as (x1 & n1 & E & Hq1 & Hu & Hk). rewrite Hm in E. simplify_eq.
    exists [mkOp i q r], d'. split; [by constructor|].
    apply (linearized_turn ops d s i cl (k x1) n1 d' _ todo' (Some r)); auto.
    + by eapply atomic_run_snoc.
    + rewrite ops_of_snoc, decide_True, fmap_app, <-app_assoc by done. done.
    + rewrite ops_of_snoc, decide_True, fmap_app, <-told_app, <-Hsent by done.
      simpl. rewrite told_nil, Hu; [done|by eapply fd_in].
  - rewrite Hm in E. simplify_eq. destruct Hcase as [[-> ->]|(-> & q & -> & Es)].
    + exists [], d. split; [done|].
      apply (linearized_turn ops d s i cl (k x1) n1 d [] todo None); rewrite ?app_nil_r; auto.
      rewrite <-Hsent, Hw. apply told_nil.
    + exists [mkOp i q r], d. split; [by constructor|].
      apply (linearized_turn ops d s i cl (k x1) n1 d _ todo' None); auto.
      * by eapply atomic_run_snoc.
      * rewrite ops_of_snoc, decide_True, fmap_app, <-app_assoc by done. done.
      * rewrite ops_of_snoc, decide_True, fmap_app, <-told_app, <-Hsent, Hw by done.
        simpl. by rewrite !told_nil.
Qed.

Lemma linearized_rtc ops s s' d :
  rtc machine_step s s' → linearized ops s d → ∃ new d', linearized (ops ++ new) s' d'.
Proof.
  intros H. revert ops d. induction H as [s|s s1 s2 Hst _ IH]; intros ops d Hl.
  - exists [], d. by rewrite app_nil_r.
  - destruct Hst as [i s X m k x n' Hi Hm].
    destruct (linearized_thread _ _ _ _ _ _ _ _ _ Hl Hi Hm) as (new & d1 & _ & H1).
    destruct (IH _ _ H1) as (new' & d2 & H2). exists (new ++ new'), d2. by rewrite app_assoc.
Qed.

Lemma linearized_explained ops s d : linearized ops s d → explained sv cls d0 n0 ops s.
Proof.
  intros Hl. pose proof Hl as [Hrun Hh Hth _ _]. exists d. split; [done|]. split; [done|]. intros i cl Hcl.
  destruct (client_thread _ _ _ _ _ Hl Hcl) as [p Hp].
  destruct (Hth i cl p Hcl Hp) as (todo & owed & Hask & Hc & Hsent).
  split; [rewrite Hask; by eexists|]. split; [by exists owed|].
  rewrite Hp. intros [= ->]. destruct Hc as [-> ->]. rewrite app_nil_r in Hask. simpl in Hsent.
  by rewrite told_nil in Hsent.
Qed.

(** Threads that conform to the requests of their clients, before their first
    step. *)
Lemma linearized_start (serve : Peer Q → prog St unit) (helpers : list (prog St unit)) :
  holding sv d0 n0 → Forall (background sv (peer_fd <$> cls)) helpers →
  (∀ cl, cl ∈ cls → conforms sv (peer_fd <$> cls) (peer_fd cl) (asked sv cl) None (serve cl)) →
  linearized [] (mkMachine ((serve <$> cls) ++ helpers) n0) d0.
Proof.
  intros Hh Hbg Hc. split; [done|done| | |simpl; rewrite length_app, length_fmap; lia]; simpl; cycle 1.
  { intros i p Hcl. rewrite lookup_app_r; [|rewrite length_fmap; by apply lookup_ge_None].
    rewrite Forall_forall in Hbg. intros Hp. apply Hbg. by eapply list_elem_of_lookup_2. }
  intros i cl p Hcl Hp. rewrite lookup_app_l in Hp; [|rewrite length_fmap; by eapply lookup_lt_Some].
  rewrite list_lookup_fmap, Hcl in Hp. simplify_eq/=. exists (asked sv cl), None. split; [done|].
  split; [|done]. apply Hc. by eapply list_elem_of_lookup_2.
Qed.

(** The thread [i] alone runs to its end, or to a request of its client that is
    undefined. *)
Lemma runs_to_end i cl p ops s d :
  linearized ops s d → cls !! i = Some cl → threads s !! i = Some p →
  ∃ s', rtc (thread_step i) s s' ∧ (threads s' !! i = Some (Done tt) ∨ at_undefined sv cls d0 n0 i cl s').
Proof.
  intros Hl Hcl. revert ops s d Hl. induction p as [[]|X m k IH]; intros ops s d Hl Hp.
  { exists s. split; [done|by left]. }
  pose proof Hl as [Hrun Hq Hth _ _]. destruct (Hth i cl _ Hcl Hp) as (todo & owed & Hask & Hc & _).
  destruct (m (process s)) as [x n'|e n'|] eqn:Hm.
  - destruct (linearized_thread _ _ _ _ _ _ _ _ _ Hl Hp Hm) as (new & d' & Hnew & Hl').
    assert (i < length (threads s)) as Hlt by (by eapply lookup_lt_Some).
    destruct (IH x _ _ _ Hl') as (s' & Hr & Hd).
    { simpl. by apply list_lookup_insert_eq. }
    exists s'. split; [|done]. eapply rtc_l; [|done]. by eapply thread_turn.
  - exfalso. destruct (Hc (process s) d Hq)
      as [(? & ? & E & _)|[(-> & q & todo' & -> & Hk)|(r & todo' & _ & ? & ? & E & _)]]; [congruence| |congruence].
    destruct (handle sv q d) as [[r d']|]; [destruct Hk as (? & ? & E & _)|]; congruence.
  - exists s. split; [done|]. right. destruct (Hc (process s) d Hq)
      as [(? & ? & E & _)|[(-> & q & todo' & -> & Hk)|(r & todo' & _ & ? & ? & E & _)]]; [congruence| |congruence].
    exists ops, d, q, X, m, k. split; [by eapply linearized_explained|]. split; [done|]. split; [done|]. split.
    + rewrite Hask, lookup_app_r; rewrite length_fmap; [by rewrite Nat.sub_diag|done].
    + destruct (handle sv q d) as [[r d']|]; [destruct Hk as (? & ? & E & _); congruence|done].
Qed.

(** Both conclusions for machines that start with conforming threads. *)
Lemma service_linearizes serve helpers s s' :
  holding sv d0 n0 → Forall (background sv (peer_fd <$> cls)) helpers →
  (∀ cl, cl ∈ cls → conforms sv (peer_fd <$> cls) (peer_fd cl) (asked sv cl) None (serve cl)) →
  rtc machine_step (mkMachine ((serve <$> cls) ++ helpers) n0) s → rtc machine_step s s' →
  ∃ ops later, explained sv cls d0 n0 ops s ∧ explained sv cls d0 n0 (ops ++ later) s'.
Proof.
  intros Hh Hbg Hc Hr Hr'.
  destruct (linearized_rtc _ _ _ _ Hr (linearized_start serve helpers Hh Hbg Hc)) as (ops & d & Hl).
  destruct (linearized_rtc _ _ _ _ Hr' Hl) as (later & d' & Hl').
  exists ops, later. split; by eapply linearized_explained.
Qed.

Lemma service_does_not_block serve helpers s i cl :
  holding sv d0 n0 → Forall (background sv (peer_fd <$> cls)) helpers →
  (∀ cl, cl ∈ cls → conforms sv (peer_fd <$> cls) (peer_fd cl) (asked sv cl) None (serve cl)) →
  rtc machine_step (mkMachine ((serve <$> cls) ++ helpers) n0) s → cls !! i = Some cl →
  ∃ s', rtc (thread_step i) s s' ∧ (threads s' !! i = Some (Done tt) ∨ at_undefined sv cls d0 n0 i cl s').
Proof.
  intros Hh Hbg Hc Hr Hcl.
  destruct (linearized_rtc _ _ _ _ Hr (linearized_start serve helpers Hh Hbg Hc)) as (ops & d & Hl).
  destruct (client_thread _ _ _ _ _ Hl Hcl) as [p Hp]. by eapply runs_to_end.
Qed.
End linearization.
