(* ===== verification/Interleaving.v ===== *)
(** * Connections that run at the same time

    The handlers of [src/server_main.cpp] and [CommandExecutor::execute] once
    more, cut where other threads can come in between: every connection has a
    thread of its own, and a call that holds one mutex (of the store, the expiry
    manager, the append-only file, the registry) or changes one atomic counter
    is one step. [run_alone] puts the steps together again and gives the
    handlers of [Executor] and [Server]; the machines of [Linearize] run any
    number of threads in any order. *)

From S2P Require Import Prelude CxxStd Protocol Storage Expiry Node Persistence Replication Executor.
From S2P Require Import Recovery Server Linearize.

(** ** Definitions *)

(** *** The executor *)

Definition count_command : M Node unit :=
  modify (λ n, set_counters (wrap64 (totalCommands_ n + 1)) (totalHits_ n) (totalMisses_ n) n).

Definition count_hit : M Node unit :=
  modify (λ n, set_counters (totalCommands_ n) (wrap64 (totalHits_ n + 1)) (totalMisses_ n) n).

Definition count_miss : M Node unit :=
  modify (λ n, set_counters (totalCommands_ n) (totalHits_ n) (wrap64 (totalMisses_ n + 1)) n).

(** [persistence_->save()]: the snapshot and the reset of the log lock different
    mutexes; the writer reset is the one of that moment. [saveMutex_], which only
    keeps saves apart from each other, is left out: with several saves there are
    more interleavings here than in the program. *)
Definition save_steps (p : PersistenceManager) : prog Node unit :=
  _ ← step (SnapshotManager.saveToFile (Persistence.snapshotPath (config_ p)));
  step (p ← the_persistence;
        modify (λ n, let '(w, f) := Aof.reset (aofWriter_ p) (fs n) in
                     set_fs f (set_persistence (Some (Persistence.with_aof p w)) n))).

Definition execute_steps (now : Z) (cmd : Command) : prog Node string :=
  step count_command;;
  match type cmd with
  | SET =>
      match args cmd with
      | [k; v] =>
          step (on_store (KVStore.set k v));;
          step (on_expiry (ExpiryManager.cancel k));;
          mret Reply.ok
      | [k; v; ex; secs] =>
          if equalsIgnoreCase ex "EX" then
            match parsePositiveSeconds secs with
            | None => mret (Reply.error "invalid expire time in 'SET' command")
            | Some seconds =>
                step (on_store (KVStore.set k v));;
                step (schedule now k seconds);;
                mret Reply.ok
            end
          else mret (arityError cmd)
      | _ => mret (arityError cmd)
      end
  | GET =>
      match args cmd with
      | [k] =>
          v ← step (on_store (KVStore.get k));
          match v with
          | Some value => step count_hit;; mret (Reply.bulk value)
          | None => step count_miss;; mret Reply.nil
          end
      | _ => mret (arityError cmd)
      end
  | DEL =>
      match args cmd with
      | [k] =>
          existed ← step (on_store (KVStore.del k));
          step (on_expiry (ExpiryManager.cancel k));;
          mret (Reply.integer (if existed : bool then 1 else 0))
      | _ => mret (arityError cmd)
      end
  | PING =>
      match args cmd with
      | [] => mret Reply.ok
      | _ => mret (arityError cmd)
      end
  | INCR =>
      match args cmd with
      | [k] => step (incrementReply k 1)
      | _ => mret (arityError cmd)
      end
  | DECR =>
      match args cmd with
      | [k] => step (incrementReply k (-1))
      | _ => mret (arityError cmd)
      end
  | TTL =>
      match args cmd with
      | [k] =>
          there ← step (on_store (KVStore.exists_ k));
          if negb there then mret (Reply.integer (-2))
          else
            e ← step (gets (λ n, ExpiryManager.expiryOf k (expiry_ n)));
            match e with
            | None => mret (Reply.integer (-1))
            | Some expiresAt =>
                remaining ← step (defined (remaining_seconds now expiresAt));
                mret (Reply.integer (if (0 <? remaining)%Z then remaining else 0))
            end
      | _ => mret (arityError cmd)
      end
  | EXPIRE =>
      match args cmd with
      | [k; secs] =>
          there ← step (on_store (KVStore.exists_ k));
          if negb there then mret (Reply.integer 0)
          else
            match parsePositiveSeconds secs with
            | None => mret (Reply.error "value is not an integer or out of range")
            | Some seconds => step (schedule now k seconds);; mret (Reply.integer 1)
            end
      | _ => mret (arityError cmd)
      end
  | PERSIST =>
      match args cmd with
      | [k] =>
          there ← step (on_store (KVStore.exists_ k));
          if negb there then mret (Reply.integer 0)
          else
            e ← step (gets (λ n, ExpiryManager.expiryOf k (expiry_ n)));
            step (on_expiry (ExpiryManager.cancel k));;
            mret (Reply.integer (if bool_decide (is_Some e) then 1 else 0))
      | _ => mret (arityError cmd)
      end
  | SAVE =>
      match args cmd with
      | [] =>
          p ← step (gets persistence_);
          match p with
          | None => mret (Reply.error "persistence is not enabled")
          | Some p => save_steps p;; mret Reply.ok
          end
      | _ => mret (arityError cmd)
      end
  | REPLICAOF =>
      match args cmd with
      | [a0; a1] =>
          r ← step (gets replication_);
          match r with
          | None => mret (Reply.error "replication is not enabled")
          | Some _ =>
              if equalsIgnoreCase a0 "NO" && equalsIgnoreCase a1 "ONE" then
                step (on_registry Replication.replicaOfNoOne);;
                mret Reply.ok
              else
                match stoi a1 with
                | inl _ => mret (Reply.error "invalid port in 'REPLICAOF' command")
                | inr port =>
                    step (on_registry (Replication.replicaOf a0 port));;
                    mret Reply.ok
                end
          end
      | _ => mret (arityError cmd)
      end
  | SYNC => mret (Reply.error "SYNC is only valid as the first line of a fresh connection")
  | ROUTE => mret (Reply.error "ROUTE is only valid against tinykv-router, not tinykv-server")
  | NODES => mret (Reply.error "NODES is only valid against tinykv-router, not tinykv-server")
  | UNKNOWN => mret (Reply.error ("unknown command '" +:+ name cmd +:+ "'"))
  end.

(** *** The connection handlers *)

Definition recording (line : string) : M Node unit := p ← the_persistence; Persistence.recordWrite line p.

Definition propagating (line : string) : M Node unit := r ← the_replication; ReplicaRegistry.propagate line r.

Definition record_steps (cmd : Command) (line response : string) : prog Node unit :=
  if succeeded response && isWriteCommand (type cmd) then
    step (recording line);; step (propagating line)
  else mret tt.

(** [writeRaw] with the bytes each [send] takes: other threads can write to the
    same socket between two of them. *)
Fixpoint send_steps (fd : Z) (parts : list string) : prog Node unit :=
  match parts with
  | [] => mret tt
  | part :: parts' => step (writeRaw fd part);; send_steps fd parts'
  end.

Section handlers.
(** How the socket takes the dump of a new replica. *)
Context (cut : string → list string).

Definition sync_steps (fd : Z) (sent : bool) : prog Node bool :=
  step (on_registry (ReplicaRegistry.add fd));;
  snapshot ← step (on_store SnapshotManager.save);
  send_steps fd (cut snapshot);;
  if sent then mret true
  else step (on_registry (ReplicaRegistry.remove fd));; mret false.

Definition line_steps (fd now : Z) (sent : bool) (line : string) : prog Node next :=
  if negb (str_nonempty line) then mret Continue
  else
    match parse line with
    | inl e =>
        step (writeLine fd (Reply.error (what e)));;
        mret (if sent then Continue else Break)
    | inr cmd =>
        if bool_decide (type cmd = SYNC) then
          streaming ← sync_steps fd sent;
          mret (if streaming : bool then Stream else Break)
        else
          r ← step the_replication;
          if isWriteCommand (type cmd) && bool_decide (role_ r = REPLICA) then
            step (writeLine fd Reply.readOnlyError);;
            mret (if sent then Continue else Break)
          else
            response ← execute_steps now cmd;
            record_steps cmd line response;;
            step (writeLine fd response);;
            mret (if sent then Continue else Break)
    end.

(** The thread of a connection. *)
Fixpoint connection_steps (fd : Z) (reqs : list Request) : prog Node unit :=
  match reqs with
  | [] => mret tt
  | q :: reqs' =>
      o ← line_steps fd (req_now q) (req_sent q) (req_line q);
      match o with
      | Continue => connection_steps fd reqs'
      | Break => mret tt
      | Stream => step (endSync fd)
      end
  end.
End handlers.

(** *** The server as its clients see it *)

(** Requests that neither set a deadline nor concern the server itself. *)
Definition plain (line : string) : bool :=
  match parse line with
  | inl _ => true
  | inr cmd =>
      match type cmd with
      | SYNC | SAVE | REPLICAOF | EXPIRE => false
      | SET => negb (bool_decide (length (args cmd) = 4))
      | _ => true
      end
  end.

(** A request handled in one step: the reply and the new data. *)
Definition spec_request (c : nat) (q : Z * string) (d : Data) : option (string * Data) :=
  match parse q.2 with
  | inl e => Some (Reply.error (what e), d)
  | inr cmd => spec_execute c q.1 cmd d
  end.

Definition serve (cut : string → list string) (cl : Peer (Z * string)) : prog Node unit :=
  connection_steps cut (peer_fd cl) ((λ q, mkRequest q.2 q.1 true) <$> peer_requests cl).

(** A primary with its managers attached, no deadline, and the connections of
    the clients not among the replicas. *)
Definition quiet (c : nat) (fds : list Z) (d : Data) (n : Node) : Prop :=
  holds KVStore.represents n c d ∧ ttl d = ∅ ∧ is_Some (persistence_ n) ∧
  ∃ r, replication_ n = Some r ∧ role_ r = PRIMARY ∧ Forall (λ fd, fd ∉ replicaFds_ r) fds.

(** What a primary does for its clients: empty lines get no reply. *)
Definition primary_service (c : nat) (fds : list Z) : Service Node Data (Z * string) string string :=
  mkService (quiet c fds) (spec_request c) (λ q, str_nonempty q.2) sent_to (λ out rs, out +:+ log_text rs)
    str_app_nil_r log_text_after.

(** A step on the data of a process that touches nothing else the process is
    attached to: from [d] to [d'], with a result that satisfies [P]. *)
Definition data_step (c : nat) (fds : list Z) {X} (m : M Node X) (d d' : Data) (P : X → Prop) : Prop :=
  ∀ n, quiet c fds d n → ∃ x n', m n = Ok x n' ∧ quiet c fds d' n' ∧
    (persistence_ n' = persistence_ n ∧ replication_ n' = replication_ n ∧ fs n' = fs n ∧ wire n' = wire n) ∧ P x.

(** *** The threads that serve no client *)

(** The timer's flush, a snapshot (of the timer), a turn of the sweeper, and the
    connection of a replica from SYNC to its end. *)
Inductive chore : Type :=
| Flushing
| Saving
| Sweeping (now : Z)
| Streaming (fd : Z) (sent : bool).

(** The connection of a replica, from SYNC until it disconnects. *)
Definition stream_steps (cut : string → list string) (fd : Z) (sent : bool) : prog Node unit :=
  streaming ← sync_steps cut fd sent;
  if streaming : bool then step (endSync fd) else mret tt.

Definition chore_steps (cut : string → list string) (h : chore) : prog Node unit :=
  match h with
  | Flushing => step (p ← the_persistence; Persistence.flush p)
  | Saving => p ← step the_persistence; save_steps p
  | Sweeping now => step (sweepTurn now)
  | Streaming fd sent => stream_steps cut fd sent
  end.

Fixpoint chores_steps (cut : string → list string) (hs : list chore) : prog Node unit :=
  match hs with
  | [] => mret tt
  | h :: hs' => chore_steps cut h;; chores_steps cut hs'
  end.

(** The replicas are not among the clients. *)
Definition apart (fds : list Z) (h : chore) : Prop :=
  match h with
  | Streaming fd _ => fd ∉ fds
  | _ => True
  end.

(** A primary that has just stored [k = v], for the examples. *)
Definition sample_primary (k v : string) : Node :=
  state_of (run_event (Requested 3 0 true (print_words ["SET"; k; v])) (state_of sample_start)).

(** What a new replica holds for [k] after the lines sent to [fd]. *)
Definition replica_value (k : string) (fd : Z) (n : Node) : option string :=
  value_of k (state_of (apply_stream (λ _, 0%Z) 0 (lines_of nl (sent_to fd n)) (state_of sample_start))).

Definition sample_clients : list (Peer (Z * string)) :=
  [mkPeer 4 [(0%Z, "INCR hits"); (0%Z, "GET hits")]; mkPeer 5 [(0%Z, ""); (0%Z, "incr hits"); (0%Z, "bad")]].

(** ** Lemmas *)

Lemma run_alone_save p n : persistence_ n = Some p → run_alone (save_steps p) n = Persistence.save p n.
Proof.
  intros Hp. unfold Persistence.save. change (run_alone (save_steps p) n) with
    ((SnapshotManager.saveToFile (Persistence.snapshotPath (config_ p)) ≫= λ _, x ← (p ← the_persistence;
        modify (λ n, let '(w, f) := Aof.reset (aofWriter_ p) (fs n) in
                     set_fs f (set_persistence (Some (Persistence.with_aof p w)) n))); mret x) n).
  unfold SnapshotManager.saveToFile, the_persistence, on_store. unfold_M. simpl.
  destruct (fs_open_trunc _ _) as [f|]; simpl; [|by rewrite Hp].
  destruct (SnapshotManager.save (store_ n)) as [out t|e t|]; simpl; by rewrite ?Hp.
Qed.

Lemma on_registry_alone {A} f r (k : M Node A) n :
  replication_ n = Some r → (on_registry f;; k) n = (modify (set_replication (Some (f r)));; k) n.
Proof. intros Hr. unfold on_registry, the_replication. unfold_M. cbn. by rewrite Hr. Qed.

Lemma execute_steps_alone now cmd n : run_alone (execute_steps now cmd) n = execute now cmd n.
Proof.
  unfold execute_steps, execute. rewrite run_alone_step. apply bind_ext. intros [] n1.
  destruct (type cmd); try done; repeat case_match; try done; try apply run_alone_single.
  all: try solve [repeat (rewrite run_alone_step; apply bind_ext; intros; repeat case_match; try done)].
  { rewrite run_alone_step, !gets_bind.
    destruct (persistence_ n1) as [p|] eqn:Hp; [|done]. rewrite run_alone_bind.
    by apply bind_cong; [apply run_alone_save|]. }
  all: rewrite run_alone_step, !gets_bind; destruct (replication_ n1) as [r|] eqn:Hr; [|done].
  all: repeat case_match; try done; rewrite run_alone_step; by apply on_registry_alone.
Qed.

Lemma record_steps_alone cmd line response n :
  run_alone (record_steps cmd line response) n = recordAndPropagateIfWrite cmd line response n.
Proof.
  unfold record_steps, recordAndPropagateIfWrite, recording, propagating. case_match; [|done].
  rewrite run_alone_step, bind_assoc. apply bind_ext. intros p n1. apply bind_ext. intros [] n2.
  apply run_alone_single.
Qed.

Lemma sync_steps_alone fd sent n : run_alone (sync_steps (λ s, [s]) fd sent) n = beginSync fd sent n.
Proof.
  unfold sync_steps, beginSync. rewrite run_alone_step. apply bind_ext. intros [] n1.
  rewrite run_alone_step. apply bind_ext. intros out n2. rewrite run_alone_bind.
  cbn [send_steps]. by destruct sent.
Qed.

Lemma line_steps_alone fd now sent line n :
  run_alone (line_steps (λ s, [s]) fd now sent line) n = Server.handleLine fd now sent line n.
Proof.
  unfold line_steps, Server.handleLine. case_match; [done|]. destruct (parse line) as [e|cmd]; [done|].
  case_match.
  { rewrite run_alone_bind. by apply bind_cong; [apply sync_steps_alone|]. }
  rewrite run_alone_step. apply bind_ext. intros r n1. case_match; [done|].
  rewrite run_alone_bind. apply bind_cong; [apply execute_steps_alone|]. intros response n2.
  rewrite run_alone_bind. apply bind_cong; [apply record_steps_alone|]. done.
Qed.

Section shape.
Context (c : nat) (fds : list Z).

Lemma quiet_environment d d' n n' :
  quiet c fds d n → holds KVStore.represents n' c d' → ttl d' = ∅ →
  persistence_ n' = persistence_ n → replication_ n' = replication_ n → quiet c fds d' n'.
Proof. intros (_ & _ & Hp & Hr) Hh Ht E1 E2. split; [done|]. split; [done|]. by rewrite E1, E2. Qed.

Lemma counters_step d f (P : unit → Prop) :
  (∀ n, ∃ x y z, f n = set_counters x y z n) → P tt → data_step c fds (modify f) d d P.
Proof.
  intros Hf HP n Hq. destruct (Hf n) as (x & y & z & E). exists tt, (f n). split; [done|]. rewrite E.
  split; [|by split]. eapply quiet_environment; [exact Hq| |apply Hq|done..]. by apply holds_counters, Hq.
Qed.

Lemma store_step {X} (m : M KVStore.state X) d l (a : X) (P : X → Prop) :
  (∀ s, KVStore.represents s c (entries d) → ∃ s', m s = Ok a s' ∧ KVStore.represents s' c l) → P a →
  data_step c fds (on_store m) d (mkData l (ttl d)) P.
Proof.
  intros Hm HP n Hq. destruct (Hm (store_ n)) as (s & E & Hs); [apply Hq|].
  exists a, (set_store s n). split; [by apply on_store_Ok|]. split; [|by split].
  eapply quiet_environment; [exact Hq| |apply Hq|done..]. apply holds_store; [apply Hq|done].
Qed.

Lemma cancel_step d k (P : unit → Prop) : P tt → data_step c fds (on_expiry (ExpiryManager.cancel k)) d d P.
Proof.
  intros HP n Hq. eexists tt, _. split; [reflexivity|]. split; [|by split].
  pose proof Hq as (Hh & Ht & _). eapply quiet_environment; [exact Hq| |done..].
  destruct d as [l t]. simpl in Ht. subst t. pose proof (holds_cancel KVStore.represents n c _ k Hh) as H.
  simpl in H. by rewrite delete_empty in H.
Qed.

Lemma same_step {X} (m : M Node X) d (P : X → Prop) :
  (∀ n, quiet c fds d n → ∃ x, m n = Ok x n ∧ P x) → data_step c fds m d d P.
Proof. intros Hm n Hq. destruct (Hm n Hq) as (x & E & HP). exists x, n. by split_and!. Qed.

Lemma exists_step k d (P : bool → Prop) :
  P (has k d) → data_step c fds (on_store (KVStore.exists_ k)) d d P.
Proof. intros. apply same_step. intros n Hq. exists (has k d). split; [|done]. apply (exists_holds KVStore.represents n c d k), Hq. Qed.

Lemma no_deadline_step k d (P : option Z → Prop) :
  P None → data_step c fds (gets (λ n, ExpiryManager.expiryOf k (expiry_ n))) d d P.
Proof.
  intros. apply same_step. intros n ((_ & Ht & _) & Hd & _). exists None. split; [|done].
  unfold gets. do 2 f_equal. unfold ExpiryManager.expiryOf. by rewrite Ht, Hd.
Qed.

(** The two halves of recording a write. *)
Lemma recording_quiet d line n :
  quiet c fds d n → ∃ n', recording line n = Ok tt n' ∧ quiet c fds d n' ∧ wire n' = wire n ∧
    replication_ n' = replication_ n ∧ ∃ p, persistence_ n = Some p ∧ Persistence.recordWrite line p n = Ok tt n'.
Proof.
  intros Hq. pose proof Hq as (Hh & Ht & [p Hp] & Hr). unfold recording. rewrite (the_persistence_bind _ _ _ Hp).
  assert (∃ n', Persistence.recordWrite line p n = Ok tt n' ∧ quiet c fds d n' ∧ wire n' = wire n ∧
    replication_ n' = replication_ n) as (n' & E & Hq' & Hw & Hr'); [|by eauto 10].
  unfold Persistence.recordWrite. case_match; (eexists; split; [reflexivity|]); [done|].
  split; [|done]. split; [done|]. split; [done|]. split; [by eexists|done].
Qed.

Lemma propagating_quiet d line n :
  quiet c fds d n → ∃ n', propagating line n = Ok tt n' ∧ quiet c fds d n' ∧
    (∀ fd, fd ∈ fds → sent_to fd n' = sent_to fd n) ∧
    ∃ r, replication_ n = Some r ∧ ReplicaRegistry.propagate line r n = Ok tt n'.
Proof.
  intros Hq. pose proof Hq as (Hh & Ht & Hp & r & Hr & _ & Hfd). unfold propagating. rewrite (the_replication_bind _ _ _ Hr).
  unfold ReplicaRegistry.propagate. rewrite Replication.propagate_to_wire. eexists. split; [reflexivity|].
  split; [eapply quiet_environment; [exact Hq|exact Hh|exact Ht|done..]|]. split; [|exists r; split; [done|apply Replication.propagate_to_wire]].
  intros fd Hin. rewrite sent_to_app, filter_sent. rewrite Forall_forall in Hfd.
  rewrite (filter_notin fd) by (by apply Hfd). simpl. by rewrite str_app_nil_r.
Qed.

(** What the executor's steps look like, for any property of programs: the data
    change in one of them, as the command table says, and the reply is decided
    there. [Before] holds of programs that have still to handle the request,
    [After r] of those that know the reply. *)
Section rules.
Context (q : Z * string) (Before : prog Node unit → Prop) (After : string → prog Node unit → Prop).
Hypothesis before_silent : ∀ X (m : M Node X) k,
  (∀ d, data_step c fds m d d (λ x, Before (k x))) → Before (Step m k).
Hypothesis after_silent : ∀ r X (m : M Node X) k,
  (∀ d, data_step c fds m d d (λ x, After r (k x))) → After r (Step m k).
Hypothesis point : ∀ X (m : M Node X) k,
  (∀ d, ttl d = ∅ → match spec_request c q d with
                    | Some (r, d') => data_step c fds m d d' (λ x, After r (k x))
                    | None => ∀ n, quiet c fds d n → m n = Undef
                    end) → Before (Step m k).

Lemma increment_shape k delta (K : string → prog Node unit) :
  (∀ d, spec_request c q d = spec_increment c k delta d) →
  (∀ r, After r (K r)) → Before (Step count_command (λ _, Step (incrementReply k delta) K)).
Proof.
  intros Hq HK. apply before_silent. intros d. apply counters_step; [by eauto|]. apply point. intros d' Hd. rewrite Hq.
  destruct (spec_increment c k delta d') as [[r d'']|] eqn:Es; intros n Hn;
    pose proof (increment_holds KVStore.represents n c d' k delta ltac:(apply Hn)) as Hi; rewrite Es in Hi; [|done].
  destruct Hi as (s & E & Hh). exists r, (set_store s n). split; [done|].
  split; [|split; [done|apply HK]]. eapply quiet_environment; [exact Hn|done| |done..].
  unfold spec_increment in Es. by repeat (case_match || simplify_option_eq || simplify_eq).
Qed.

Lemma execute_shape cmd (K : string → prog Node unit) :
  parse q.2 = inr cmd → plain q.2 = true →
  (∀ r, After r (K r)) → Before (execute_steps q.1 cmd ≫= K).
Proof.
  intros Hp Hpl HK. unfold plain in Hpl. rewrite Hp in Hpl.
  assert (∀ d, spec_request c q d = spec_execute c q.1 cmd d) as Hreq by (intros d; unfold spec_request; by rewrite Hp).
  assert (∀ r, (∀ d, ttl d = ∅ → spec_execute c q.1 cmd d = Some (r, d)) →
    Before (Step count_command (λ _, K r))) as Hpure.
  { intros r Hr. apply point. intros d Hd. rewrite Hreq, Hr by done. apply counters_step; [by eauto|done]. }
  assert (∀ X (m : M Node X) (k : X → prog Node unit),
    (∀ d, ttl d = ∅ → ∃ r d', spec_execute c q.1 cmd d = Some (r, d') ∧
       data_step c fds m d d' (λ x, After r (k x))) →
    Before (Step count_command (λ _, Step m k))) as Hone.
  { intros X m k Hm. apply before_silent. intros d. apply counters_step; [by eauto|].
    apply point. intros d' Hd. rewrite Hreq. by destruct (Hm d' Hd) as (r & d'' & -> & H). }
  unfold execute_steps, spec_execute in *.
  destruct (type cmd) eqn:Et; try discriminate Hpl; destruct (args cmd) as [|a0 [|a1 [|a2 [|a3 [|]]]]] eqn:Ea.
  all: try discriminate Hpl; clear Hpl.
  all: try (apply Hpure; intros; reflexivity); clear Hpure.
  - apply Hone. intros d Hd. eexists _, _. split; [reflexivity|]. rewrite Hd, delete_empty, <-Hd.
    eapply store_step; [intros s Hs; by apply store_set|]. apply after_silent. intros. apply cancel_step, HK.
  - apply Hone. intros d Hd. eexists _, _. split; [reflexivity|].
    eapply store_step; [intros s Hs; by apply store_get|].
    destruct (Lru.lookup a0 (entries d)); apply after_silent; intros; (apply counters_step; [by eauto|apply HK]).
  - apply Hone. intros d Hd. eexists _, _. split; [reflexivity|]. rewrite Hd, delete_empty, <-Hd.
    eapply store_step; [intros s Hs; by apply store_del|]. apply after_silent. intros. apply cancel_step, HK.
  - by apply increment_shape.
  - by apply increment_shape.
  - apply Hone. intros d Hd. rewrite Hd, lookup_empty. exists (Reply.integer (if has a0 d then -1 else -2)), d.
    split; [by destruct (has a0 d)|].
    apply exists_step. destruct (has a0 d); [|apply HK].
    apply after_silent. intros d'. apply no_deadline_step, HK.
  - apply Hone. intros d Hd. rewrite Hd, lookup_empty, delete_empty, <-Hd.
    exists (Reply.integer 0), d. split; [by destruct (has a0 d), d|].
    apply exists_step. destruct (has a0 d); [|apply HK].
    apply after_silent. intros d'. apply no_deadline_step. apply after_silent. intros. apply cancel_step, HK.
Qed.
End rules.
End shape.

Section conforming.
Context (c : nat) (fds : list Z).

Local Abbreviation sv := (primary_service c fds).

Lemma unheard_wire n n' : wire n' = wire n → unheard sv fds n n'.
Proof. intros E fd _. simpl. unfold sent_to. by rewrite E. Qed.

Lemma data_step_effects {X} (m : M Node X) d d' P : data_step c fds m d d' P → effects sv fds m d d' P.
Proof.
  intros Hm n Hq. destruct (Hm n Hq) as (x & n' & E & Hq' & (_ & _ & _ & Hw) & HP). exists x, n'.
  split; [done|]. split; [done|]. split; [by apply unheard_wire|done].
Qed.

Lemma reply_heard fd r n d :
  quiet c fds d n → ∃ n', writeLine fd r n = Ok tt n' ∧ quiet c fds d n' ∧
    unheard sv (filter (.≠ fd) fds) n n' ∧ sent_to fd n' = sent_to fd n +:+ log_text [r].
Proof.
  intros Hq. eexists. split; [reflexivity|].
  split; [eapply quiet_environment; [exact Hq|apply Hq|apply Hq|done..]|]. split.
  - intros fd' [Hne _]%list_elem_of_filter. simpl. rewrite sent_to_app, filter_cons_False by (simpl; congruence).
    simpl. by rewrite str_app_nil_r.
  - rewrite sent_to_app, filter_cons_True by done. done.
Qed.

Lemma conforms_reply k fd r todo :
  conforms sv fds fd todo None (k tt) → conforms sv fds fd todo (Some r) (Step (writeLine fd r) k).
Proof.
  intros Hk n d Hq. right. right. exists r, todo. split; [by left|].
  destruct (reply_heard fd r n d Hq) as (n' & E & ? & ? & ?). by exists tt, n'.
Qed.

Lemma execute_conforms fd now line cmd todo (K : string → prog Node unit) :
  parse line = inr cmd → plain line = true →
  (∀ r, conforms sv fds fd todo (Some r) (K r)) →
  conforms sv fds fd ((now, line) :: todo) None (execute_steps now cmd ≫= K).
Proof.
  intros Hp Hpl HK. apply (execute_shape c fds (now, line) (conforms sv fds fd ((now, line) :: todo) None)
    (λ r, conforms sv fds fd todo (Some r))); [| | |done..].
  - intros X m k Hm. apply conforms_silent. intros d. by apply data_step_effects.
  - intros r X m k Hm. apply conforms_silent. intros d. by apply data_step_effects.
  - intros X m k Hm n d Hq. right. left. split; [done|]. eexists _, todo. split; [reflexivity|].
    specialize (Hm d (proj1 (proj2 Hq))). simpl.
    destruct (spec_request c (now, line) d) as [[r d']|]; [exact (data_step_effects _ _ _ _ Hm n Hq)|by apply Hm].
Qed.

Lemma record_conforms fd cmd line response todo owed (K : unit → prog Node unit) :
  conforms sv fds fd todo owed (K tt) →
  conforms sv fds fd todo owed (record_steps cmd line response ≫= K).
Proof.
  intros HK. unfold record_steps. case_match; [|done].
  apply conforms_silent. intros d n Hq. destruct (recording_quiet c fds d line n Hq) as (n1 & E & Hq1 & Hw & _).
  exists tt, n1. split; [done|]. split; [done|]. split; [by apply unheard_wire|].
  apply conforms_silent. intros d2 n2 Hq2. destruct (propagating_quiet c fds d2 line n2 Hq2) as (n3 & E3 & Hq3 & Hu & _).
  by exists tt, n3.
Qed.

Lemma line_conforms cut fd now line todo (K : next → prog Node unit) :
  plain line = true → str_nonempty line = true →
  conforms sv fds fd todo None (K Continue) →
  conforms sv fds fd ((now, line) :: todo) None (line_steps cut fd now true line ≫= K).
Proof.
  intros Hpl Hne HK. unfold line_steps. rewrite Hne. simpl negb. cbv iota.
  destruct (parse line) as [e|cmd] eqn:Ep.
  { intros n d Hq. right. right. exists (Reply.error (what e)), todo. split.
    { right. split; [done|]. eexists. split; [done|]. simpl. unfold spec_request. simpl. by rewrite Ep. }
    destruct (reply_heard fd (Reply.error (what e)) n d Hq) as (n' & E & ? & ? & ?). by exists tt, n'. }
  rewrite bool_decide_false by (intros Ht; unfold plain in Hpl; by rewrite Ep, Ht in Hpl).
  apply conforms_silent. intros d. apply effects_same. intros n (_ & _ & _ & r & Hr & Hro & _). exists r.
  split; [unfold the_replication; unfold_M; by rewrite Hr|]. rewrite Hro, andb_false_r.
  apply (conforms_assoc _ _ (execute_steps now cmd)). apply execute_conforms; [done..|]. intros response.
  apply (conforms_assoc _ _ (record_steps cmd line response)). apply record_conforms. by apply conforms_reply.
Qed.

Lemma connection_conforms cut fd reqs :
  Forall (λ q : Z * string, plain q.2 = true) reqs →
  conforms sv fds fd (filter (λ q, str_nonempty q.2 = true) reqs) None
    (connection_steps cut fd ((λ q, mkRequest q.2 q.1 true) <$> reqs)).
Proof.
  induction 1 as [|[now line] reqs Hpl _ IH]; [done|]. rewrite filter_cons. simpl in Hpl.
  cbn [fmap list_fmap connection_steps req_now req_sent req_line fst snd]. case_decide as Hne.
  - by apply line_conforms.
  - unfold line_steps. apply not_true_is_false in Hne. by rewrite Hne.
Qed.

(** *** The chores do not disturb *)

Lemma background_frame {X} (m : M Node X) (k : X → prog Node unit) :
  (∀ n d x n', quiet c fds d n → m n = Ok x n' →
     (store_ n' = store_ n ∧ expiry_ n' = expiry_ n ∧ replication_ n' = replication_ n ∧ wire n' = wire n ∧
      is_Some (persistence_ n')) ∧ background sv fds (k x)) →
  background sv fds (Step m k).
Proof.
  intros Hm n d x n' Hq E. destruct (Hm n d x n' Hq E) as ((Hs & He & Hr & Hw & Hp) & Hk).
  split; [|split; [by apply unheard_wire|done]]. destruct Hq as (Hh & Ht & _ & Hrep).
  unfold holds in *. split; [unfold holds; by rewrite Hs, He|]. by rewrite Hr.
Qed.

Lemma save_background p (K : unit → prog Node unit) :
  background sv fds (K tt) → background sv fds (save_steps p ≫= K).
Proof.
  intros HK. apply background_frame. intros n d b n' Hq E. split.
  - pose proof Hq as ((Hs & _) & _ & Hp & _). revert E. unfold SnapshotManager.saveToFile, on_store. unfold_M.
    destruct (fs_open_trunc _ _); [|by intros [= <- <-]].
    cbn [store_ set_fs]. rewrite (save_spec KVStore.represents _ _ _ Hs). by intros [= <- <-].
  - apply background_frame. intros n1 d1 [] n2 (_ & _ & [p1 Hp1] & _). unfold the_persistence. unfold_M. rewrite Hp1.
    destruct (Aof.reset _ _). intros [= <-]. split; [|exact HK]. by split_and!.
Qed.

Lemma sweep_background now (K : unit → prog Node unit) :
  background sv fds (K tt) → background sv fds (Step (sweepTurn now) K).
Proof.
  intros HK n d [] n' Hq E. pose proof Hq as (Hh & Ht & _).
  destruct (sweepTurn_spec now n c d n' Hh E) as ((Hp & Hr & _ & Hw) & d' & Hh' & [->|(k & t & Hk & _)]).
  - split; [by eapply quiet_environment; [exact Hq|exact Hh'|..]|]. split; [by apply unheard_wire|done].
  - by rewrite Ht, lookup_empty in Hk.
Qed.

Lemma registry_background f (K : unit → prog Node unit) :
  (∀ r, role_ (f r) = role_ r ∧ ∀ fd, fd ∈ fds → fd ∈ replicaFds_ (f r) → fd ∈ replicaFds_ r) →
  background sv fds (K tt) → background sv fds (Step (on_registry f) K).
Proof.
  intros Hf HK n d [] n' Hq. pose proof Hq as (Hh & Ht & Hp & r & Hr & Hro & Hfd).
  unfold on_registry. rewrite (the_replication_bind _ _ _ Hr). intros [= <-].
  split; [|split; [by apply unheard_wire|done]]. split; [done|]. split; [done|]. split; [done|]. exists (f r).
  destruct (Hf r) as [Hro' Hin]. split; [done|]. split; [congruence|]. rewrite Forall_forall in *.
  intros fd Hfds Hfd'. by apply (Hfd fd), Hin.
Qed.

Lemma send_background fd parts (K : unit → prog Node unit) :
  fd ∉ fds → background sv fds (K tt) → background sv fds (send_steps fd parts ≫= K).
Proof.
  intros Hfd HK. induction parts as [|part parts IH]; [done|]. intros n d [] n' Hq [= <-].
  split; [eapply quiet_environment; [exact Hq|apply Hq|apply Hq|done..]|]. split; [|exact IH].
  intros fd' Hin. simpl. rewrite sent_to_app, filter_cons_False by (simpl; intros ->; done). simpl. by rewrite str_app_nil_r.
Qed.

(** Where the brackets are does not matter, as for [conforms]. *)
Lemma chore_background cut h (K : unit → prog Node unit) :
  apart fds h → background sv fds (K tt) → background sv fds (chore_steps cut h ≫= K).
Proof.
  intros Ha HK. destruct h as [| |now|fd sent]; cbn [chore_steps]; unfold stream_steps.
  - apply background_frame. intros n d [] n' (_ & _ & [p Hp] & _). rewrite (the_persistence_bind _ _ _ Hp).
    intros E. split; [|exact HK]. eapply flush_frame. by left.
  - apply background_frame. intros n d p n' (_ & _ & [p1 Hp] & _). unfold the_persistence. unfold_M. rewrite Hp.
    intros [= <- <-]. split; [by rewrite Hp|]. by apply save_background.
  - by apply sweep_background.
  - unfold sync_steps. apply registry_background.
    { intros r. split; [done|]. intros fd' Hin [?| ->%list_elem_of_singleton]%elem_of_app; [done|]. by destruct Ha. }
    apply background_frame. intros n d out n' ((Hs & _) & _ & Hp & _). unfold on_store. unfold_M.
    rewrite (save_spec KVStore.represents _ _ _ Hs). intros [= <- <-]. split; [done|].
    apply background_assoc, background_assoc, send_background; [done|].
    assert (∀ K', background sv fds (K' tt) → background sv fds (Step (on_registry (ReplicaRegistry.remove fd)) K')) as Hrm.
    { intros K' HK'. apply registry_background; [|done]. intros r. split; [done|]. intros fd' _ Hin.
      by apply list_elem_of_filter in Hin as [_ ?]. }
    destruct sent; by apply Hrm.
Qed.

Lemma chores_background cut hs : Forall (apart fds) hs → background sv fds (chores_steps cut hs).
Proof. induction 1 as [|h hs Ha _ IH]; [done|]. by apply chore_background. Qed.
End conforming.

Lemma fresh_quiet c cfg f fds : quiet c fds (mkData [] ∅) (construct c cfg f).
Proof.
  unfold construct. destruct (Persistence.create cfg f) as [p f'] eqn:E.
  split; [split; [apply store_create|by split]|]. split; [done|]. split; [by eexists|].
  eexists. split; [reflexivity|]. split; [done|]. apply Forall_forall. set_solver.
Qed.

(** The steps of a connection put together: run with nobody in between, the steps of a
    connection do exactly what [handleConnection] does on the same requests,
    whatever they are and whichever replies cannot be written. *)
Lemma connection_steps_alone (fd : Z) (reqs : list Request) (n : Node) :
  run_alone (connection_steps (λ s, [s]) fd reqs) n = Server.handleConnection fd reqs n.
Proof.
  revert n. induction reqs as [|q reqs IH]; intros n; [done|]. cbn [connection_steps Server.handleConnection].
  rewrite run_alone_bind. apply bind_cong; [apply line_steps_alone|]. intros o n1.
  destruct o; [apply IH|done|apply run_alone_single].
Qed.

(** ** Properties *)

(** C6: Connections that run at the same time look as if their requests were
    handled one after the other: for any number of clients of a primary without
    deadlines, any requests that set none, any interleaving of their threads,
    and whatever flushes, snapshots, turns of the sweeper and new replicas come
    in between on threads of their own, there is at every moment an order of the
    requests handled so far that explains the data and every reply, keeps the
    order of each client and only grows, so that a request answered before
    another was sent comes before it; a client whose thread is done got the
    replies to all its requests. *)
Theorem concurrent_clients_linearize (c : nat) (cls : list (Peer (Z * string))) (chores : list (list chore))
    (cut : string → list string) (d0 : Data) (n0 : Node) (s s' : machine Node) :
  let sv := primary_service c (peer_fd <$> cls) in
  holding sv d0 n0 → NoDup (peer_fd <$> cls) →
  Forall (λ cl, Forall (λ q, plain q.2 = true) (peer_requests cl)) cls →
  Forall (Forall (apart (peer_fd <$> cls))) chores →
  rtc machine_step (mkMachine ((serve cut <$> cls) ++ (chores_steps cut <$> chores)) n0) s → rtc machine_step s s' →
  ∃ ops later, explained sv cls d0 n0 ops s ∧ explained sv cls d0 n0 (ops ++ later) s'.
Proof.
  intros sv Hq Hnd Hpl Hch. apply service_linearizes; [done|done| |].
  - apply Forall_fmap. eapply Forall_impl; [exact Hch|]. intros hs Hhs. by apply chores_background.
  - rewrite Forall_forall in Hpl.
    intros cl Hcl. exact (connection_conforms c (peer_fd <$> cls) cut (peer_fd cl) (peer_requests cl) (Hpl cl Hcl)).
Qed.

Theorem concurrent_clients_linearize_witness :
  let sv := primary_service 0 (peer_fd <$> sample_clients) in
  let n0 := construct 0 defaultPersistenceConfig (mkFS ∅ ∅) in
  let s := run_schedule [0; 1; 2; 0; 3; 1; 1; 0; 3; 0; 1] (mkMachine ((serve (λ s, [s]) <$> sample_clients) ++
             (chores_steps (λ s, [s]) <$> [[Flushing; Saving]; [Streaming 7 true]])) n0) in
  ∃ ops later, explained sv sample_clients (mkData [] ∅) n0 ops s ∧
    explained sv sample_clients (mkData [] ∅) n0 (ops ++ later) (run_schedule (replicate 20 0 ++ replicate 20 1 ++ replicate 20 2) s).
Proof.
  apply (concurrent_clients_linearize 0 sample_clients [[Flushing; Saving]; [Streaming 7 true]] (λ s, [s]) (mkData [] ∅)).
  - apply fresh_quiet.
  - apply (bool_decide_eq_true_1 _). reflexivity.
  - apply (bool_decide_eq_true_1 _). vm_compute. reflexivity.
  - repeat constructor. apply (bool_decide_eq_false_1 _). reflexivity.
  - apply run_schedule_rtc.
  - apply run_schedule_rtc.
Defined.



(** SET .. EX and a plain SET of the same key do not exclude each other: the
    store takes [b] last, the expiry manager the deadline of [a] last, and the
    value written without a deadline is deleted when that of the other one
    comes. Handled one after the other, in either order, the two leave [b]
    without a deadline or [a] with one. *)
Theorem set_can_inherit_deadline :
  let s0 := mkMachine (serve (λ s, [s]) <$> [mkPeer 4 [(0%Z, "SET k a EX 10")]; mkPeer 5 [(0%Z, "SET k b")]])
              (state_of sample_start) in
  let s := run_schedule [0; 0; 0; 1; 1; 1; 1; 0; 0; 0; 0; 1; 1; 1] s0 in
  let left_by n := (value_of "k" n, ExpiryManager.expiryOf "k" (expiry_ n)) in
  left_by (process (run_schedule (replicate 7 0 ++ replicate 7 1) s0)) = (Some "b", None) ∧
  left_by (process (run_schedule (replicate 7 1 ++ replicate 7 0) s0)) = (Some "a", Some 10000000000%Z) ∧
  rtc machine_step s0 s ∧ sent_to 4 (process s) = log_text [Reply.ok] ∧ sent_to 5 (process s) = log_text [Reply.ok] ∧
  left_by (process s) = (Some "b", Some 10000000000%Z) ∧
  value_of "k" (state_of (sweepTurn 10000000000 (process s))) = None.
Proof.
  split; [vm_compute; reflexivity|]. split; [vm_compute; reflexivity|].
  split; [apply run_schedule_rtc|]. vm_compute. done.
Qed.

(** A write between the dump of a new replica and its sending: the propagated
    line overtakes the dump, which then puts the old value back. The primary has
    [new], the replica [old], and nothing will ever correct it. *)
Theorem sync_can_restore_old_value :
  let s0 := mkMachine (serve (λ s, [s]) <$> [mkPeer 4 [(0%Z, "SET k new")]; mkPeer 7 [(0%Z, "SYNC")]])
              (sample_primary "k" "old") in
  let s := run_schedule [1; 1; 0; 0; 0; 0; 0; 0; 0; 1] s0 in
  rtc machine_step s0 s ∧ sent_to 7 (process s) = log_text ["SET k new"; "SET k old"] ∧
  value_of "k" (process s) = Some "new" ∧ replica_value "k" 7 (process s) = Some "old".
Proof. split; [apply run_schedule_rtc|]. vm_compute. done. Qed.

(** If the socket takes the dump in two pieces, a propagated line can even fall
    inside a line of the dump, and the replica gets neither. *)
Theorem sync_can_tear_lines :
  let s0 := mkMachine (serve (λ s, [str_take 8 s; str_drop 8 s]) <$>
              [mkPeer 4 [(0%Z, "SET j 1")]; mkPeer 7 [(0%Z, "SYNC")]]) (sample_primary "k" "old") in
  let s := run_schedule [1; 1; 1; 0; 0; 0; 0; 0; 0; 0; 1] s0 in
  rtc machine_step s0 s ∧ sent_to 7 (process s) = log_text ["SET k olSET j 1"; "d"] ∧
  replica_value "k" 7 (process s) = None ∧ replica_value "j" 7 (process s) = None.
Proof. split; [apply run_schedule_rtc|]. vm_compute. done. Qed.

(** A write between the snapshot of a SAVE and its reset of the log is in
    neither: both clients are answered [+OK], and after a flush and a restart the
    key is gone. *)
Theorem save_can_lose_write :
  let s0 := mkMachine (serve (λ s, [s]) <$> [mkPeer 4 [(0%Z, "SAVE")]; mkPeer 5 [(0%Z, "SET k v")]])
              (state_of sample_start) in
  let s := run_schedule (replicate 4 0 ++ replicate 7 1 ++ replicate 2 0) s0 in
  let n := state_of (run_event Flushed (process s)) in
  rtc machine_step s0 s ∧ threads s = [Done tt; Done tt] ∧
  sent_to 4 n = log_text [Reply.ok] ∧ sent_to 5 n = log_text [Reply.ok] ∧
  value_of "k" n = Some "v" ∧ value_after_restart "k" n = None.
Proof. split; [apply run_schedule_rtc|]. vm_compute. done. Qed.
