(* ===== verification/Journal.v ===== *)
(** * What concurrent writers leave in the log

    A connection executes a command, records its line and sends the line to the
    replicas in three critical sections ([src/server_main.cpp],
    [recordAndPropagateIfWrite]), so that two writers of one key can leave the
    log, and each replica, with the other order ([Server.log_order_can_differ]).
    This file shows that this is all that can go wrong: as long as every key has
    one writer, the log and the stream of every replica stand for the value of
    each key whose writer has been answered, in every interleaving of the steps
    of [Interleaving]. *)

From S2P Require Import Prelude CxxStd Protocol Storage Expiry Node Persistence Replication Executor.
From S2P Require Import Recovery Server Linearize Interleaving.

(** ** Definitions *)

(** Something the writes of a process are handed to, line by line: what was handed
    over so far stands for some contents. Lines come from [recordWrite] if
    [at_log], else from [propagate]; [spares fd] if writing to [fd] is no
    business of it. *)
Record Journal : Type := mkJournal {
  stands : gmap string string → Node → Prop;
  at_log : bool;
  spares : Z → Prop;
  stands_same m n n' :
    persistence_ n' = persistence_ n → replication_ n' = replication_ n → fs n' = fs n → wire n' = wire n →
    stands m n → stands m n';
  stands_written m n fd data : spares fd → stands m n → stands m (set_wire (wire n ++ [(fd, data)]) n);
  stands_recorded m n p line n' :
    persistence_ n = Some p → loggable line = true → Persistence.recordWrite line p n = Ok tt n' → stands m n →
    if at_log then ∀ m', line_step line m = Some m' → stands m' n' else stands m n';
  stands_propagated m n r line n' :
    replication_ n = Some r → loggable line = true → ReplicaRegistry.propagate line r n = Ok tt n' → stands m n →
    if at_log then stands m n' else ∀ m', line_step line m = Some m' → stands m' n';
  stands_flushed m n p n' : persistence_ n = Some p → Persistence.flush p n = Ok tt n' → stands m n → stands m n';
  stands_registry m n r fd :
    replication_ n = Some r → spares fd → stands m n →
    stands m (set_replication (Some (ReplicaRegistry.add fd r)) n) ∧
    stands m (set_replication (Some (ReplicaRegistry.remove fd r)) n)
}.

(** A connection may write the keys [own] and no others. *)
Definition writes_own (own : string → bool) (line : string) : bool :=
  match parse line with
  | inl _ => true
  | inr cmd => negb (isWriteCommand (type cmd)) || (match args cmd with k :: _ => own k | [] => true end)
  end.

(** The same values of the keys [own], and of all other keys. *)
Definition within (own : string → bool) : relation (gmap string string) := outside (λ k, negb (own k)).
Definition beyond (own : string → bool) : relation (gmap string string) := outside own.

Section journal.
Context (j : Journal) (fds : list Z).

(** The process holds [d], and its journal stands for [m]. *)
Definition journaled (d : Data) (m : gmap string string) (n : Node) : Prop :=
  quiet 0 fds d n ∧ Forall (λ e, savable e = true) (entries d) ∧ stands j m n.

(** The journal is up to date with the keys [own], or will be with the line
    [gap]. *)
Definition up_to (own : string → bool) (gap : option string) (d : Data) (m : gmap string string) : Prop :=
  match gap with
  | None => within own m (Lru.contents (entries d))
  | Some line => loggable line = true ∧ writes_own own line = true ∧
      ∃ m', line_step line m = Some m' ∧ within own m' (Lru.contents (entries d))
  end.

(** The writer of [own] keeps the journal up to date with its keys, [gap] being
    the line it has executed and still to hand over, and leaves the other keys
    alone. *)
Fixpoint keeps_up (own : string → bool) (gap : option string) (p : prog Node unit) : Prop :=
  match p with
  | Done _ => gap = None
  | Step mm k => ∀ n d m x n', journaled d m n → up_to own gap d m → mm n = Ok x n' →
      ∃ d' m' gap', journaled d' m' n' ∧ beyond own (Lru.contents (entries d)) (Lru.contents (entries d')) ∧
        beyond own m m' ∧ up_to own gap' d' m' ∧ keeps_up own gap' (k x)
  end.

(** A thread that touches neither data nor journal. *)
Fixpoint bystander (p : prog Node unit) : Prop :=
  match p with
  | Done _ => True
  | Step mm k => ∀ n d m x n', journaled d m n → mm n = Ok x n' → journaled d m n' ∧ bystander (k x)
  end.

(** The chores that may go on meanwhile: all but snapshots, which a write can fall
    through ([save_can_lose_write]), and SYNC on connections that matter. *)
Definition harmless (h : chore) : Prop :=
  match h with
  | Saving => False
  | Streaming fd _ => (fd ∉ fds) ∧ spares j fd
  | _ => True
  end.

(** Requests of the writer of [own]. *)
Definition requests_of (own : string → bool) (cl : Peer (Z * string)) : Prop :=
  spares j (peer_fd cl) ∧
  Forall (λ q, plain q.2 = true ∧ safe_line q.2 = true ∧ writes_own own q.2 = true) (peer_requests cl).

End journal.

(** Everybody with a right to [k] is done. *)
Definition settled (owns : nat → string → bool) (clients : nat) (s : machine Node) (k : string) : Prop :=
  ∀ i, i < clients → owns i k = true → threads s !! i = Some (Done tt).

(** At most one client writes a key. *)
Definition one_writer (owns : nat → string → bool) : Prop :=
  ∀ i j k, owns i k = true → owns j k = true → i = j.

(** ** Lemmas *)

(** *** The keys a line can change *)

Lemma line_step_beyond own line m m' :
  loggable line = true → writes_own own line = true → line_step line m = Some m' → beyond own m m'.
Proof.
  unfold loggable, writes_own, line_step, beyond, cmd_step, add_to. intros Hl Hw H k Hk.
  destruct (parse line) as [e|cmd]; [by rewrite andb_false_r in Hl|]. destruct_bools.
  match goal with H : isWriteCommand _ = true |- _ => rewrite H in Hw end. simpl in Hw.
  destruct (args cmd) as [|a0 rest]; [repeat case_match; by simplify_eq|].
  assert (a0 ≠ k) as Hne by congruence.
  repeat (case_match || simplify_option_eq); try done; by rewrite ?lookup_insert_ne, ?lookup_delete_ne.
Qed.

(** A line works the same on every map that agrees on the keys of its writer. *)
Lemma line_step_within own line m1 m2 m1' :
  loggable line = true → writes_own own line = true → within own m1 m2 → line_step line m1 = Some m1' →
  ∃ m2', line_step line m2 = Some m2' ∧ within own m1' m2'.
Proof.
  intros Hl Hw Ho Hs. destruct (line_step_outside (λ k, negb (own k)) line m1 m2 m1') as (m2' & ? & ? & _); [|done|done|by exists m2'].
  unfold respects, writes_own, loggable in *. destruct (parse line) as [e|cmd]; [done|]. destruct_bools.
  destruct (type cmd); try done; destruct (args cmd) as [|? []]; try done; simpl in *; by rewrite negb_involutive.
Qed.

#[export] Instance within_equivalence own : Equivalence (within own).
Proof. apply outside_equivalence. Qed.

#[export] Instance beyond_equivalence own : Equivalence (beyond own).
Proof. apply outside_equivalence. Qed.

(** *** A writer keeps up *)

Section writer.
Context (j : Journal) (fds : list Z) (own : string → bool).

Lemma journaled_data_step {X} d d' m (mm : M Node X) (P : X → Prop) n x n' :
  data_step 0 fds mm d d' P → Forall (λ e, savable e = true) (entries d') →
  journaled j fds d m n → mm n = Ok x n' → journaled j fds d' m n' ∧ P x.
Proof.
  intros Hm Hsv' (Hq & Hsv & Hst) E. destruct (Hm n Hq) as (x1 & n1 & E1 & Hq1 & (? & ? & ? & ?) & HP).
  rewrite E in E1. simplify_eq. split; [|done]. split; [done|]. split; [done|]. by eapply stands_same.
Qed.

Lemma keeps_up_silent {X} gap (mm : M Node X) k :
  (∀ d, data_step 0 fds mm d d (λ x, keeps_up j fds own gap (k x))) → keeps_up j fds own gap (Step mm k).
Proof.
  intros Hm n d m x n' Hj Hu E.
  destruct (journaled_data_step d d m mm _ n x n' (Hm d) (proj1 (proj2 Hj)) Hj E) as [Hj' Hk]. by exists d, m, gap.
Qed.

(** The line a command leaves to be handed over. *)
Definition owed_line (cmd : Command) (line response : string) : option string :=
  if succeeded response && isWriteCommand (type cmd) then Some line else None.

(** The step in which the data change. *)
Lemma command_opens now line cmd d m r d' :
  parse line = inr cmd → safe_line line = true → writes_own own line = true →
  spec_execute 0 now cmd d = Some (r, d') → up_to own None d m →
  beyond own (Lru.contents (entries d)) (Lru.contents (entries d')) ∧ up_to own (owed_line cmd line r) d' m.
Proof.
  intros Hp Hs Hw Hx Hu. unfold owed_line. destruct (succeeded r && isWriteCommand (type cmd)) eqn:E.
  - destruct_bools. assert (loggable line = true) as Hl.
    { unfold loggable, safe_line in *. rewrite Hp in *. destruct_bools. by repeat (apply andb_true_iff; split). }
    assert (line_step line (Lru.contents (entries d)) = Some (Lru.contents (entries d'))) as Hstep.
    { unfold line_step. rewrite Hp. destruct line; [done|]. simpl. by eapply spec_contents. }
    split; [by eapply line_step_beyond|]. split; [done|]. split; [done|].
    destruct (line_step_within own line _ m _ Hl Hw (symmetry Hu) Hstep) as (m' & ? & ?). by exists m'.
  - destruct (spec_unrecorded _ _ _ _ _ _ Hx) as [Hc _]; [by rewrite andb_comm|]. simpl in *. by rewrite Hc.
Qed.

Lemma execute_keeps_up now line cmd (K : string → prog Node unit) :
  parse line = inr cmd → plain line = true → safe_line line = true → writes_own own line = true →
  (∀ r, keeps_up j fds own (owed_line cmd line r) (K r)) →
  keeps_up j fds own None (execute_steps now cmd ≫= K).
Proof.
  intros Hp Hpl Hs Hw HK. apply (execute_shape 0 fds (now, line) (keeps_up j fds own None)
    (λ r, keeps_up j fds own (owed_line cmd line r))); [| | |done..].
  - intros X mm k Hm. by apply keeps_up_silent.
  - intros r X mm k Hm. by apply keeps_up_silent.
  - intros X mm k Hm n d m x n' Hj Hu E. pose proof Hj as ((_ & Ht & _) & Hsv & _). specialize (Hm d Ht).
    unfold spec_request in Hm. simpl in Hm. rewrite Hp in Hm.
    destruct (spec_execute 0 now cmd d) as [[r d']|] eqn:Hx; [|by rewrite Hm in E by apply Hj].
    assert (Forall (λ e, savable e = true) (entries d')) as Hsv'.
    { eapply spec_savable; [exact Hp| |exact Hx|done]. unfold safe_line in Hs. destruct_bools. by apply Z.leb_le. }
    destruct (journaled_data_step _ _ _ _ _ _ _ _ Hm Hsv' Hj E) as [Hj' Hk].
    destruct (command_opens now line cmd d m r d' Hp Hs Hw Hx Hu) as [Hb Hu']. by exists d', m, (owed_line cmd line r).
Qed.

Lemma record_keeps_up cmd line response (K : unit → prog Node unit) :
  keeps_up j fds own None (K tt) →
  keeps_up j fds own (owed_line cmd line response) (record_steps cmd line response ≫= K).
Proof.
  intros HK. unfold owed_line, record_steps. case_match; [|done].
  intros n d m [] n1 (Hq & Hsv & Hst) (Hl & Hw & m' & Hstep & Hin) E.
  destruct (recording_quiet 0 fds d line n Hq) as (n1' & E' & Hq1 & _ & _ & p & Hp & Er). rewrite E in E'. simplify_eq.
  pose proof (stands_recorded j m n p line n1' Hp Hl Er Hst) as Hst1.
  exists d, (if at_log j then m' else m), (if at_log j then None else Some line).
  split; [split; [done|]; split; [done|]; destruct (at_log j); by auto|]. split; [done|].
  split; [destruct (at_log j); [by eapply line_step_beyond|done]|].
  split; [destruct (at_log j); [done|split; [done|]; split; [done|]; by exists m']|].
  clear dependent n. intros n2 d2 m2 [] n3 (Hq2 & Hsv2 & Hst2) Hu E.
  destruct (propagating_quiet 0 fds d2 line n2 Hq2) as (n3' & E' & Hq3 & _ & r & Hr & Er2). rewrite E in E'. simplify_eq.
  pose proof (stands_propagated j m2 n2 r line n3' Hr Hl Er2 Hst2) as Hst3. destruct (at_log j).
  - by exists d2, m2, None.
  - destruct Hu as (_ & _ & m2' & Hstep2 & Hin2). exists d2, m2', None. split; [split; [done|]; by auto|].
    split; [done|]. split; [by eapply line_step_beyond|]. by split.
Qed.

Lemma reply_keeps_up fd r (K : unit → prog Node unit) :
  spares j fd → keeps_up j fds own None (K tt) → keeps_up j fds own None (Step (writeLine fd r) K).
Proof.
  intros Hfd HK n d m [] n' (Hq & Hsv & Hst) Hu E. destruct (reply_heard 0 fds fd r n d Hq) as (n1 & E1 & Hq1 & _).
  rewrite E in E1. simplify_eq. exists d, m, None. split; [|by split; [|split; [|split]]].
  split; [done|]. split; [done|]. injection E as <-. by apply stands_written.
Qed.

Lemma keeps_up_assoc {A B} gap (p : prog Node A) (f : A → prog Node B) (K : B → prog Node unit) :
  keeps_up j fds own gap (p ≫= λ x, f x ≫= K) → keeps_up j fds own gap ((p ≫= f) ≫= K).
Proof.
  revert gap. induction p as [a|X mm k IH]; intros gap H; [done|]. intros n d m x n' Hj Hu E.
  destruct (H n d m x n' Hj Hu E) as (d' & m' & gap' & ? & ? & ? & ? & Hk). exists d', m', gap'.
  split_and!; try done. by apply IH.
Qed.

Lemma line_keeps_up cut fd now line (K : next → prog Node unit) :
  spares j fd → plain line = true → safe_line line = true → writes_own own line = true →
  keeps_up j fds own None (K Continue) → keeps_up j fds own None (line_steps cut fd now true line ≫= K).
Proof.
  intros Hfd Hpl Hs Hw HK. unfold line_steps. destruct (negb (str_nonempty line)); [done|].
  destruct (parse line) as [e|cmd] eqn:Ep; [by apply reply_keeps_up|].
  rewrite bool_decide_false by (intros Ht; unfold plain in Hpl; by rewrite Ep, Ht in Hpl).
  apply keeps_up_silent. intros d. apply same_step. intros n (_ & _ & _ & r & Hr & Hro & _). exists r.
  split; [unfold the_replication; unfold_M; by rewrite Hr|]. rewrite Hro, andb_false_r.
  apply (keeps_up_assoc _ (execute_steps now cmd)). apply (execute_keeps_up now line cmd); [done..|]. intros response.
  apply (keeps_up_assoc _ (record_steps cmd line response)). apply record_keeps_up. by apply reply_keeps_up.
Qed.

Lemma client_keeps_up cut cl : requests_of j own cl → keeps_up j fds own None (serve cut cl).
Proof.
  intros [Hfd Hqs]. unfold serve. induction Hqs as [|[now line] reqs (Hpl & Hs & Hw) _ IH]; [done|].
  cbn [fmap list_fmap connection_steps req_now req_sent req_line fst snd]. by apply line_keeps_up.
Qed.
End writer.

(** *** Chores stand by *)

Section chores.
Context (j : Journal) (fds : list Z).

Lemma bystander_assoc {A B} (p : prog Node A) (f : A → prog Node B) (K : B → prog Node unit) :
  bystander j fds (p ≫= λ x, f x ≫= K) → bystander j fds ((p ≫= f) ≫= K).
Proof.
  induction p as [|X mm k IH]; [done|]. intros H n d m x n' Hj E. destruct (H n d m x n' Hj E) as [? Hk].
  split; [done|]. by apply IH.
Qed.

(** A step in the background of the clients that the journal does not notice. *)
Lemma bystander_step {X} (mm : M Node X) k :
  background (primary_service 0 fds) fds (Step mm k) →
  (∀ n d m x n', journaled j fds d m n → mm n = Ok x n' → stands j m n' ∧ bystander j fds (k x)) →
  bystander j fds (Step mm k).
Proof.
  intros Hb Hm n d m x n' Hj E. destruct (Hm n d m x n' Hj E) as [Hst Hk]. split; [|done].
  destruct Hj as (Hq & Hsv & _). by destruct (Hb n d x n' Hq E).
Qed.

Lemma send_stands_by fd parts (K : unit → prog Node unit) :
  fd ∉ fds → spares j fd → bystander j fds (K tt) → bystander j fds (send_steps fd parts ≫= K).
Proof.
  intros Hfd Hsp HK. induction parts as [|part parts IH]; [done|]. intros n d m [] n' (Hq & Hsv & Hst) [= <-].
  split; [|exact IH]. split; [|split; [done|by apply stands_written]].
  eapply quiet_environment; [exact Hq|apply Hq|apply Hq|done..].
Qed.

Lemma registry_stands_by fd f (K : unit → prog Node unit) :
  f = ReplicaRegistry.add fd ∨ f = ReplicaRegistry.remove fd → fd ∉ fds → spares j fd →
  bystander j fds (K tt) → bystander j fds (Step (on_registry f) K).
Proof.
  intros Hf Hfd Hsp HK n d m [] n' (Hq & Hsv & Hst). pose proof Hq as (Hh & Ht & Hp & r & Hr & Hro & Hfds).
  unfold on_registry. rewrite (the_replication_bind _ _ _ Hr). intros [= <-]. split; [|done].
  destruct (stands_registry j m n r fd Hr Hsp Hst) as [Hadd Hrm].
  split; [|split; [done|by destruct Hf as [->| ->]]]. split; [done|]. split; [done|]. split; [done|].
  exists (f r). split; [done|]. split; [by destruct Hf as [->| ->]|]. rewrite Forall_forall in *. intros fd' Hin Hin'.
  apply (Hfds fd' Hin). destruct Hf as [->| ->]; simpl in Hin'.
  - apply elem_of_app in Hin' as [?| ->%list_elem_of_singleton]; done.
  - by apply list_elem_of_filter in Hin' as [_ ?].
Qed.

Lemma chore_stands_by cut h (K : unit → prog Node unit) :
  harmless j fds h → bystander j fds (K tt) → bystander j fds (chore_steps cut h ≫= K).
Proof.
  intros Hh HK. destruct h as [| |now|fd sent]; cbn [chore_steps harmless] in *; unfold stream_steps; [|done| |].
  - intros n d m [] n' (Hq & Hsv & Hst). pose proof Hq as (Hd & Ht & [p Hp] & Hr).
    rewrite (the_persistence_bind _ _ _ Hp). intros E. split; [|done].
    pose proof (flush_frame p n n' ltac:(by left)) as (Hs & He & Hr' & _ & Hp').
    split; [|split; [done|by eapply stands_flushed]]. unfold quiet, holds in *. by rewrite Hs, He, Hr'.
  - intros n d m [] n' (Hq & Hsv & Hst) E. pose proof Hq as (Hd & Ht & _). split; [|done].
    destruct (sweepTurn_spec now n 0 d n' Hd E) as ((? & ? & ? & ?) & d' & Hd' & [->|(k & t & Hk & _)]).
    + split; [by eapply quiet_environment; [exact Hq|exact Hd'|..]|]. split; [done|by eapply stands_same].
    + by rewrite Ht, lookup_empty in Hk.
  - destruct Hh as [Hfd Hsp]. unfold sync_steps. apply (registry_stands_by fd); [by left|done|done|].
    intros n d m out n' (Hq & Hsv & Hst). pose proof Hq as ((Hs & _) & _). unfold on_store. unfold_M.
    rewrite (save_spec KVStore.represents _ _ _ Hs). intros [= <- <-].
    split; [split; [done|]; split; [done|by apply (stands_same j m n)]|].
    apply bystander_assoc, bystander_assoc, send_stands_by; [done|done|].
    destruct sent; by (apply (registry_stands_by fd); [by right|..]).
Qed.

Lemma chores_stand_by cut hs : Forall (harmless j fds) hs → bystander j fds (chores_steps cut hs).
Proof. induction 1 as [|h hs Hh _ IH]; [done|]. by apply chore_stands_by. Qed.
End chores.

(** *** The machine *)

Section machine.
Context (j : Journal) (fds : list Z) (owns : nat → string → bool) (clients : nat).
Hypothesis Hone : one_writer owns.

(** What holds at every moment. *)
Definition kept (s : machine Node) : Prop :=
  ∃ d m, journaled j fds d m (process s) ∧
    (∀ k, (∀ i, i < clients → owns i k = false) → m !! k = Lru.contents (entries d) !! k) ∧
    (∀ i p, threads s !! i = Some p →
       if decide (i < clients) then ∃ gap, up_to (owns i) gap d m ∧ keeps_up j fds (owns i) gap p
       else bystander j fds p).

(** The keys of another writer are none of [i]'s. *)
Lemma up_to_stable i i' gap d d' m m' :
  i ≠ i' → up_to (owns i') gap d m → beyond (owns i) (Lru.contents (entries d)) (Lru.contents (entries d')) →
  beyond (owns i) m m' → up_to (owns i') gap d' m'.
Proof.
  intros Hne Hu Hd Hm.
  assert (∀ a b, beyond (owns i) a b → within (owns i') a b) as Hw.
  { intros a b Hab k Hk%negb_false_iff. apply Hab. apply not_true_iff_false. intros Hk'. by apply Hne, (Hone i i' k). }
  destruct gap as [line|]; simpl in *.
  - destruct Hu as (Hl & Ho & m1 & Hs & Hin). split; [done|]. split; [done|].
    destruct (line_step_within (owns i') line m m' m1 Hl Ho (Hw _ _ Hm) Hs) as (m1' & ? & Hm1'). exists m1'.
    split; [done|]. etransitivity; [symmetry; exact Hm1'|]. etransitivity; [exact Hin|by apply Hw].
  - etransitivity; [symmetry; by apply Hw|]. etransitivity; [exact Hu|by apply Hw].
Qed.

Lemma kept_step s s' : machine_step s s' → kept s → kept s'.
Proof.
  intros [i s0 X mm k x n' Hi Hm] (d & m & Hj & Hfree & Hth). pose proof (Hth i _ Hi) as Hti.
  assert (i < length (threads s0)) as Hlt by (by eapply lookup_lt_Some). destruct (decide (i < clients)).
  - destruct Hti as (gap & Hu & Hk).
    destruct (Hk (process s0) d m x n' Hj Hu Hm) as (d' & m' & gap' & Hj' & Hbd & Hbm & Hu' & Hk').
    exists d', m'. split; [done|]. split.
    { intros k' Hk''. rewrite <-Hbm, <-Hbd by by apply Hk''. by apply Hfree. }
    intros i' p Hp. simpl in Hp. destruct (decide (i = i')) as [<-|Hne].
    + rewrite list_lookup_insert_eq in Hp by done. simplify_eq. rewrite decide_True by done. by exists gap'.
    + rewrite list_lookup_insert_ne in Hp by done. specialize (Hth i' p Hp). destruct (decide (i' < clients)); [|done].
      destruct Hth as (g & Hg & Hkg). exists g. split; [by eapply up_to_stable|done].
  - destruct (Hti (process s0) d m x n' Hj Hm) as [Hj' Hk]. exists d, m. split; [done|]. split; [done|].
    intros i' p Hp. simpl in Hp. destruct (decide (i = i')) as [<-|Hne].
    + rewrite list_lookup_insert_eq in Hp by done. simplify_eq. by rewrite decide_False.
    + rewrite list_lookup_insert_ne in Hp by done. by apply Hth.
Qed.

Lemma kept_rtc s s' : rtc machine_step s s' → kept s → kept s'.
Proof. induction 1; eauto using kept_step. Qed.

(** So the journal is right about every key whose writer is done. *)
Lemma kept_settled s :
  kept s → ∃ d m, journaled j fds d m (process s) ∧
    ∀ k, settled owns clients s k → m !! k = Lru.contents (entries d) !! k.
Proof.
  intros (d & m & Hj & Hfree & Hth). exists d, m. split; [done|]. intros k Hk.
  destruct (decide (Exists (λ i, owns i k = true) (seq 0 clients))) as [(i & Hi & Ho)%Exists_exists|Hno].
  - apply elem_of_seq in Hi. specialize (Hth i _ (Hk i ltac:(lia) Ho)). rewrite decide_True in Hth by lia.
    destruct Hth as (gap & Hu & Hg). simpl in Hg. subst gap. apply Hu. simpl. by rewrite Ho.
  - apply Hfree. intros i Hi. apply not_true_iff_false. intros Ho. apply Hno. apply Exists_exists. exists i.
    split; [apply elem_of_seq; lia|done].
Qed.
End machine.

Lemma kept_start j owns cls chores cut d0 n0 :
  let fds := peer_fd <$> cls in
  journaled j fds d0 (Lru.contents (entries d0)) n0 →
  (∀ i cl, cls !! i = Some cl → requests_of j (owns i) cl) → Forall (Forall (harmless j fds)) chores →
  kept j fds owns (length cls) (mkMachine ((serve cut <$> cls) ++ (chores_steps cut <$> chores)) n0).
Proof.
  intros fds Hj Hreq Hch. exists d0, (Lru.contents (entries d0)). split; [done|]. split; [done|].
  intros i p Hp. simpl in Hp. case_decide as Hi.
  - rewrite lookup_app_l in Hp by (by rewrite length_fmap). rewrite list_lookup_fmap in Hp.
    destruct (cls !! i) as [cl|] eqn:Hcl; [|done]. simplify_eq/=. exists None. split; [done|].
    apply client_keeps_up. by apply Hreq.
  - rewrite lookup_app_r in Hp by (rewrite length_fmap; lia). rewrite list_lookup_fmap in Hp.
    destruct (chores !! _) as [hs|] eqn:Hhs; [|done]. simplify_eq/=. apply chores_stand_by.
    rewrite Forall_forall in Hch. apply Hch. by eapply list_elem_of_lookup_2.
Qed.

(** *** The log and the streams are journals *)

Section log.
Context (cfg : PersistenceConfig).






End log.

Section stream.
Context (fd : Z) (base : string).

(** What the replica on [fd] was sent since [base] stands for [m]. *)
Definition streamed (m : gmap string string) (n : Node) : Prop :=
  registered fd n ∧ ∃ lines, sent_to fd n = base +:+ log_text lines ∧ forallb loggable lines = true ∧
    log_run lines ∅ = Some m.

Lemma streamed_same m n n' :
  replication_ n' = replication_ n → wire n' = wire n → streamed m n → streamed m n'.
Proof. unfold streamed, registered, sent_to. by intros -> ->. Qed.

Lemma streamed_written m n fd' data : fd' ≠ fd → streamed m n → streamed m (set_wire (wire n ++ [(fd', data)]) n).
Proof.
  intros Hne [Hr (lines & Hs & ?)]. split; [done|]. exists lines. split; [|done]. rewrite <-Hs, sent_to_app.
  rewrite filter_cons_False by (simpl; congruence). simpl. apply str_app_nil_r.
Qed.

Lemma streamed_recorded m n p line n' :
  persistence_ n = Some p → loggable line = true → Persistence.recordWrite line p n = Ok tt n' → streamed m n → streamed m n'.
Proof. unfold Persistence.recordWrite. case_match; intros _ _ [= <-]; [done|]. by apply streamed_same. Qed.

Lemma streamed_propagated m n r line n' :
  replication_ n = Some r → loggable line = true → ReplicaRegistry.propagate line r n = Ok tt n' → streamed m n →
  ∀ m', line_step line m = Some m' → streamed m' n'.
Proof.
  unfold ReplicaRegistry.propagate. rewrite Replication.propagate_to_wire. intros Hr Hl [= <-] [Hreg (lines & Hs & Hlog & Hm)] m' Hm'.
  split; [exact Hreg|]. destruct Hreg as (r' & Hr' & Hf). rewrite Hr in Hr'. simplify_eq. exists (lines ++ [line]).
  rewrite sent_to_app, sent_to_propagate, Hs, log_text_after by done. split; [done|].
  rewrite forallb_app, Hlog, log_run_app, Hm. simpl. by rewrite Hl, Hm'.
Qed.

Lemma streamed_flushed m n p n' : persistence_ n = Some p → Persistence.flush p n = Ok tt n' → streamed m n → streamed m n'.
Proof. intros _ E. destruct (flush_frame p n n') as (_ & _ & ? & ? & _); [by left|]. by apply streamed_same. Qed.

Lemma streamed_registry m n r fd' :
  replication_ n = Some r → fd' ≠ fd → streamed m n →
  streamed m (set_replication (Some (ReplicaRegistry.add fd' r)) n) ∧
  streamed m (set_replication (Some (ReplicaRegistry.remove fd' r)) n).
Proof.
  intros Hr Hne [(r' & Hr' & Hf) Hl]. rewrite Hr in Hr'. simplify_eq.
  split; (split; [|exact Hl]); eexists; (split; [reflexivity|]).
  - by rewrite registry_add_other.
  - by rewrite registry_remove_other.
Qed.

Definition stream_journal : Journal :=
  mkJournal streamed false (.≠ fd) (λ m n n' _ Hr _ Hw, streamed_same m n n' Hr Hw)
    streamed_written streamed_recorded streamed_propagated streamed_flushed streamed_registry.
End stream.


Lemma streaming_starts cfg n r fd b n' fds :
  history never cfg n → ExpiryManager.currentExpiry_ (expiry_ n) = ∅ →
  replication_ n = Some r → role_ r = PRIMARY → fd ∉ replicaFds_ r → Forall (λ fd', fd' ≠ fd ∧ fd' ∉ replicaFds_ r) fds →
  beginSync fd true n = Ok b n' →
  ∃ d, journaled (stream_journal fd (sent_to fd n)) fds d (Lru.contents (entries d)) n'.
Proof.
  intros Hd%history_durable He Hr Hro Hfd Hfds Hb.
  destruct (streams_begin never cfg fd n r b n' Hd Hr Hfd Hb)
    as (d & m & lines & Hh & Hsv & Hp & Hreg & Hsent & Hl & Hrun & ->%outside_never).
  exists d. split; [|split; [done|]; split; [done|]; by exists lines].
  assert (expiry_ n' = expiry_ n ∧ replication_ n' = Some (ReplicaRegistry.add fd r)) as [He' Hr'].
  { pose proof Hd as (d0 & m0 & (Hst & _) & _). revert Hb. unfold beginSync, on_registry, on_store, writeRaw, the_replication.
    unfold_M. rewrite Hr. cbn [store_ set_replication]. rewrite (save_spec KVStore.represents _ _ _ Hst). by intros [= _ <-]. }
  split; [done|]. split; [destruct Hh as (_ & <- & _); by rewrite He', He|]. split; [done|]. eexists. split; [exact Hr'|].
  split; [done|]. eapply Forall_impl; [exact Hfds|]. intros fd' [Hne Hin]. simpl. intros [?| ->%list_elem_of_singleton]%elem_of_app; done.
Qed.

(** ** Properties *)


(** The owner of a key in the examples: the first client writes what starts with
    ["a"], the second the rest. *)
Definition sample_owns (i : nat) (k : string) : bool :=
  match i, k with
  | 0, String "a" _ => true
  | 1, String "a" _ => false
  | 1, _ => true
  | _, _ => false
  end.

Definition sample_writers : list (Peer (Z * string)) :=
  [mkPeer 4 [(0%Z, "SET a 2"); (0%Z, "INCR a"); (0%Z, "GET hits")]; mkPeer 5 [(0%Z, "INCR hits"); (0%Z, ""); (0%Z, "GET a")]].

Lemma sample_one_writer : one_writer sample_owns.
Proof. intros [|[|i]] [|[|j]] k; simpl; try done; repeat case_match; done. Qed.

Lemma sample_requests j : spares j 4 → spares j 5 →
  ∀ i cl, sample_writers !! i = Some cl → requests_of j (sample_owns i) cl.
Proof.
  intros H4 H5 [|[|i]] cl; [intros [= <-]..|done]; (split; [done|]);
    apply (bool_decide_eq_true_1 _); vm_compute; reflexivity.
Qed.



(** C9: Writes of concurrent connections reach the replicas that were there before
    them: take an unbounded primary as for durability, with the append-only file
    on, no deadlines, and each key with one writer at most, and a fresh replica
    whose SYNC has been answered, dump and all, before the clients start. At
    every moment of every interleaving of the clients' threads, what the replica
    was sent since SYNC gives it the primary's value of every key whose writer
    has had all its replies. (For a SYNC that overlaps with writes this is
    false: [Interleaving.sync_can_restore_old_value].) *)
Theorem concurrent_writes_reach_replicas (cfg cfg' : PersistenceConfig) (cls : list (Peer (Z * string)))
    (owns : nat → string → bool) (chores : list (list chore)) (cut : string → list string) (n0 n1 : Node)
    (r : ReplicationManager) (fd : Z) (b : bool) (s : machine Node) (f : FS) (clock : nat → Z) :
  let fds := peer_fd <$> cls in
  let j := stream_journal fd (sent_to fd n0) in
  history never cfg n0 → ExpiryManager.currentExpiry_ (expiry_ n0) = ∅ →
  replication_ n0 = Some r → role_ r = PRIMARY → fd ∉ replicaFds_ r →
  Forall (λ fd', fd' ≠ fd ∧ fd' ∉ replicaFds_ r) fds → beginSync fd true n0 = Ok b n1 →
  one_writer owns → (∀ i cl, cls !! i = Some cl → requests_of j (owns i) cl) → Forall (Forall (harmless j fds)) chores →
  rtc machine_step (mkMachine ((serve cut <$> cls) ++ (chores_steps cut <$> chores)) n1) s →
  (∀ i, sane_time (clock i)) →
  ∃ bytes nr dp dr, sent_to fd (process s) = sent_to fd n0 +:+ bytes ∧
    runLoop [mkLinkAttempt true true (lines_of nl bytes) clock] (construct 0 cfg' f) = Ok tt nr ∧
    holds KVStore.represents (process s) 0 dp ∧ holds KVStore.represents nr 0 dr ∧
    ∀ k, settled owns (length cls) s k → Lru.contents (entries dr) !! k = Lru.contents (entries dp) !! k.
Proof.
  intros fds j Hh He Hr Hro Hfd Hfds Hb Hone Hreq Hch Hrun Ht.
  destruct (streaming_starts cfg n0 r fd b n1 fds Hh He Hr Hro Hfd Hfds Hb) as (d0 & Hj).
  destruct (kept_settled _ _ _ _ _ (kept_rtc _ _ _ _ Hone _ _ Hrun (kept_start _ owns cls chores cut d0 n1 Hj Hreq Hch)))
    as (dp & m & ((Hd & _) & _ & (_ & lines & Hsent & Hlog & Hlr)) & Hk).
  destruct (construct_empty cfg' f) as (Hh0 & Hp0 & Hr0).
  destruct (apply_stream_spec clock 0 lines (construct 0 cfg' f) (mkData [] ∅) m) as (nr & dr & E & Hhr & <- & _); [done..|].
  exists (log_text lines), nr, dp, dr. rewrite lines_of_log by (by apply loggable_no_nl). simpl. unfold link_turn. simpl.
  by rewrite (bind_Ok _ _ _ _ _ E).
Qed.

Theorem concurrent_writes_reach_replicas_witness :
  let s := run_schedule (concat (replicate 8 [0; 1; 2; 1]) ++ replicate 12 1)
    (mkMachine ((serve (λ s, [s]) <$> sample_writers) ++ (chores_steps (λ s, [s]) <$> [[Flushing]]))
       (state_of (beginSync 7 true sample_node))) in
  ∃ bytes nr dp dr, sent_to 7 (process s) = sent_to 7 sample_node +:+ bytes ∧
    runLoop [mkLinkAttempt true true (lines_of nl bytes) (λ _, 0%Z)] (construct 0 defaultPersistenceConfig (mkFS ∅ ∅)) = Ok tt nr ∧
    holds KVStore.represents (process s) 0 dp ∧ holds KVStore.represents nr 0 dr ∧
    ∀ k, settled sample_owns 2 s k → Lru.contents (entries dr) !! k = Lru.contents (entries dp) !! k.
Proof.
  intros s. eapply (concurrent_writes_reach_replicas defaultPersistenceConfig defaultPersistenceConfig sample_writers sample_owns
    [[Flushing]] (λ s, [s]) sample_node (state_of (beginSync 7 true sample_node)) Replication.create 7 true s (mkFS ∅ ∅) (λ _, 0%Z)).
  - exact (sample_history never eq_refl).
  - vm_compute. reflexivity.
  - vm_compute. reflexivity.
  - reflexivity.
  - apply not_elem_of_nil.
  - repeat constructor; (discriminate || apply not_elem_of_nil).
  - vm_compute. reflexivity.
  - exact sample_one_writer.
  - by apply sample_requests.
  - repeat constructor.
  - apply run_schedule_rtc.
  - done.
Defined.
