(* ===== verification/ThreadPool.v ===== *)
(** * The background thread pool

    [src/concurrency/thread_pool.cpp]. The queue and the stop flag are guarded
    by one mutex; a step of the relation is a critical section of a worker, the
    end of a task, a call of [submit], or the destructor's first statement.
    Tasks are named by numbers in the order of [submit]. *)

From S2P Require Import Prelude.

(** ** Definitions *)

(** Where a worker is in [workerLoop]. *)
Inductive worker : Type :=
| Waiting                 (* before or in [cv_.wait] *)
| Running (task : nat)    (* in [task()] *)
| Returned.               (* after [return] *)

Record ThreadPool : Type := mkPool {
  tasks_ : list nat;
  stop_ : bool;
  workers_ : list worker;
  (* histories: the tasks submitted, taken from the queue, and finished *)
  submitted : list nat;
  taken : list nat;
  finished : list nat
}.

Definition create_pool (numThreads : nat) : ThreadPool := mkPool [] false (replicate numThreads Waiting) [] [] [].

(** [submit]: the next task goes to the back of the queue. *)
Definition submit (p : ThreadPool) : ThreadPool :=
  mkPool (tasks_ p ++ [length (submitted p)]) (stop_ p) (workers_ p)
    (submitted p ++ [length (submitted p)]) (taken p) (finished p).

(** The destructor up to [join]. *)
Definition begin_destroy (p : ThreadPool) : ThreadPool :=
  mkPool (tasks_ p) true (workers_ p) (submitted p) (taken p) (finished p).

(** What worker [i] can do next: nothing while the predicate of its wait is
    false. *)
Definition worker_turn (i : nat) (p : ThreadPool) : option ThreadPool :=
  match workers_ p !! i with
  | Some Waiting =>
      match tasks_ p with
      | t :: ts =>
          Some (mkPool ts (stop_ p) (<[i := Running t]> (workers_ p)) (submitted p) (taken p ++ [t]) (finished p))
      | [] =>
          if stop_ p
          then Some (mkPool [] true (<[i := Returned]> (workers_ p)) (submitted p) (taken p) (finished p))
          else None
      end
  | Some (Running t) =>
      Some (mkPool (tasks_ p) (stop_ p) (<[i := Waiting]> (workers_ p)) (submitted p) (taken p) (finished p ++ [t]))
  | _ => None
  end.

(** [submit] is not called on a pool that is being destroyed. *)
Inductive pool_step : ThreadPool → ThreadPool → Prop :=
| step_submit p : stop_ p = false → pool_step p (submit p)
| step_destroy p : pool_step p (begin_destroy p)
| step_worker p i p' : worker_turn i p = Some p' → pool_step p p'.

(** The tasks in the hands of workers. *)
Definition running (ws : list worker) : list nat :=
  ws ≫= λ w, match w with Running t => [t] | _ => [] end.

Definition all_returned (p : ThreadPool) : Prop := Forall (λ w, w = Returned) (workers_ p).

Record pool_inv (p : ThreadPool) : Prop := {
  inv_order : submitted p = taken p ++ tasks_ p;
  inv_taken : taken p ≡ₚ running (workers_ p) ++ finished p;
  inv_names : submitted p = seq 0 (length (submitted p));
  inv_returned : Returned ∈ workers_ p → stop_ p = true ∧ tasks_ p = []
}.

(** What is left to do before the destructor's joins return. *)
Definition work_left (p : ThreadPool) : nat :=
  3 * length (tasks_ p) +
  sum_list_with (λ w, match w with Waiting => 1 | Running _ => 2 | Returned => 0 end) (workers_ p).

(** ** Lemmas *)

Lemma running_insert ws i w w' :
  ws !! i = Some w → running [w'] ++ running ws ≡ₚ running [w] ++ running (<[i := w']> ws).
Proof.
  intros Hi. unfold running. revert i Hi. induction ws as [|x ws IH]; intros [|i] Hi; simplify_eq/=.
  - rewrite !app_nil_r. apply Permutation_app_swap_app.
  - specialize (IH i Hi). simpl in IH. rewrite !app_nil_r in *.
    rewrite (Permutation_app_swap_app (match w' with Running t => [t] | _ => [] end)), IH.
    by rewrite (Permutation_app_swap_app (match w with Running t => [t] | _ => [] end)).
Qed.

Lemma elem_of_insert (ws : list worker) i w x : x ∈ <[i := w]> ws → x = w ∨ x ∈ ws.
Proof.
  intros [j Hj]%list_elem_of_lookup. apply list_lookup_insert_Some in Hj as [(_ & -> & _)|[_ Hj]]; [by left|].
  right. by eapply list_elem_of_lookup_2.
Qed.

Lemma pool_inv_create n : pool_inv (create_pool n).
Proof.
  split; simpl; try done.
  - induction n as [|n IH]; simpl; [done|]. exact IH.
  - intros H. apply elem_of_replicate in H as [? _]. done.
Qed.

Lemma pool_inv_turn p i p' : pool_inv p → worker_turn i p = Some p' → pool_inv p'.
Proof.
  intros [Ho Ht Hn Hr]. unfold worker_turn. destruct (workers_ p !! i) as [[|t|]|] eqn:Hi; [| |done|done].
  - destruct (tasks_ p) as [|t ts] eqn:Hq.
    + destruct (stop_ p); [|done]. intros [= <-]. split; simpl; [done| |done|done].
      rewrite Ht. pose proof (running_insert _ _ _ Returned Hi) as Hp. simpl in Hp. by rewrite Hp.
    + intros [= <-]. split; simpl; [by rewrite <-app_assoc| |done|].
      * pose proof (running_insert _ _ _ (Running t) Hi) as Hp. simpl in Hp.
        rewrite Ht, <-Hp. symmetry. apply (Permutation_cons_append (running (workers_ p) ++ finished p)).
      * intros [?|[_ ?]%Hr]%elem_of_insert; done.
  - intros [= <-]. split; simpl; [done| |done|].
    + rewrite Ht. pose proof (running_insert _ _ _ Waiting Hi) as Hp. simpl in Hp.
      rewrite Hp. simpl. by rewrite Permutation_middle, (Permutation_cons_append (finished p)).
    + intros [?|?]%elem_of_insert; [done|auto].
Qed.

Lemma pool_inv_step p p' : pool_inv p → pool_step p p' → pool_inv p'.
Proof.
  intros Hinv Hs. destruct Hs as [p Hstop|p|p i p' Hw]; [| |by eapply pool_inv_turn].
  - destruct Hinv as [Ho Ht Hn Hr]. split; simpl.
    + by rewrite Ho, app_assoc.
    + done.
    + rewrite length_app. simpl. rewrite seq_app. simpl. by rewrite <-Hn.
    + intros [? _]%Hr. congruence.
  - destruct Hinv as [Ho Ht Hn Hr]. split; simpl; try done. intros [_ ?]%Hr. done.
Qed.

Lemma pool_inv_rtc n p : rtc pool_step (create_pool n) p → pool_inv p.
Proof.
  generalize (pool_inv_create n). generalize (create_pool n). intros q Hq.
  induction 1 as [|q q1 q2 Hs _ IH]; [done|]. apply IH. by eapply pool_inv_step.
Qed.

(** A worker's turn after the destructor has begun brings the end nearer. *)
Lemma sum_insert (f : worker → nat) ws i w w' :
  ws !! i = Some w → sum_list_with f (<[i := w']> ws) + f w = sum_list_with f ws + f w'.
Proof.
  revert i. induction ws as [|x ws IH]; intros [|i] Hi; simplify_eq/=; [lia|]. specialize (IH i Hi). lia.
Qed.

Lemma worker_turn_decreases p i p' : worker_turn i p = Some p' → work_left p' < work_left p.
Proof.
  unfold worker_turn, work_left. destruct (workers_ p !! i) as [[|t|]|] eqn:Hi; [| |done|done].
  - destruct (tasks_ p) as [|t ts]; [destruct (stop_ p); [|done]|]; intros [= <-]; simpl.
    + pose proof (sum_insert (λ w, match w with Waiting => 1 | Running _ => 2 | Returned => 0 end) _ _ _ Returned Hi).
      simpl in *. lia.
    + pose proof (sum_insert (λ w, match w with Waiting => 1 | Running _ => 2 | Returned => 0 end) _ _ _ (Running t) Hi).
      simpl in *. lia.
  - intros [= <-]. simpl.
    pose proof (sum_insert (λ w, match w with Waiting => 1 | Running _ => 2 | Returned => 0 end) _ _ _ Waiting Hi).
    simpl in *. lia.
Qed.

Lemma running_returned ws : Forall (λ w, w = Returned) ws → running ws = [].
Proof. unfold running. induction 1 as [|w ws -> _ IH]; simpl; [done|exact IH]. Qed.

(** While a worker has not returned from a pool that is being destroyed, it can
    go on. *)
Lemma worker_can_go_on p :
  stop_ p = true → ¬ all_returned p → ∃ i p', worker_turn i p = Some p'.
Proof.
  intros Hs Hn. unfold all_returned in Hn. apply not_Forall_Exists in Hn; [|by intros [| |]; (by left) || by right].
  apply Exists_exists in Hn as (w & [i Hi]%list_elem_of_lookup & Hw). exists i. unfold worker_turn. rewrite Hi, Hs.
  destruct w; [|by eexists|by destruct Hw]. destruct (tasks_ p); by eexists.
Qed.

(** ** Properties *)

(** C27: No task is lost or run twice, and tasks are taken in the order they were
    submitted: in every state of a pool, the tasks taken so far followed by the
    queue are the tasks submitted, and the tasks taken are the ones running and
    the ones finished, each once. *)
Theorem pool_runs_each_task_once (numThreads : nat) (p : ThreadPool) :
  rtc pool_step (create_pool numThreads) p →
  submitted p = taken p ++ tasks_ p ∧ taken p ≡ₚ running (workers_ p) ++ finished p ∧
  NoDup (running (workers_ p) ++ finished p ++ tasks_ p).
Proof.
  intros [Ho Ht Hn _]%pool_inv_rtc. split; [done|]. split; [done|].
  rewrite app_assoc, <-Ht, <-Ho, Hn. apply NoDup_seq.
Qed.

Theorem pool_runs_each_task_once_witness :
  let p := mkPool [1] false [Running 0; Waiting] [0; 1] [0] [] in
  rtc pool_step (create_pool 2) p ∧ NoDup (running (workers_ p) ++ finished p ++ tasks_ p).
Proof.
  intros p. assert (rtc pool_step (create_pool 2) p) as H.
  { eapply rtc_l; [by apply step_submit|]. eapply rtc_l; [by apply step_submit|].
    eapply rtc_l; [by eapply (step_worker _ 0)|]. apply rtc_refl. }
  split; [exact H|]. apply (pool_runs_each_task_once 2 p H).
Defined.

(** C28: Destruction waits for every task: once the destructor has set the stop
    flag, as long as a worker has not returned some worker can go on and each
    turn brings the end nearer; when all have returned and the joins succeed,
    every submitted task has run to its end. *)
Theorem pool_drains_on_destruction (numThreads : nat) (p : ThreadPool) :
  rtc pool_step (create_pool numThreads) p → stop_ p = true → 0 < numThreads →
  (¬ all_returned p → ∃ i p', worker_turn i p = Some p') ∧
  (∀ i p', worker_turn i p = Some p' → work_left p' < work_left p) ∧
  (all_returned p → tasks_ p = [] ∧ finished p ≡ₚ submitted p).
Proof.
  intros Hr Hs Hn. split; [by apply worker_can_go_on|]. split; [apply worker_turn_decreases|].
  intros Ha. pose proof (pool_inv_rtc _ _ Hr) as [Ho Ht _ Hret].
  assert (length (workers_ p) = numThreads) as Hlen.
  { clear -Hr. remember (create_pool numThreads) as q eqn:Hq.
    assert (length (workers_ q) = numThreads) as Hl by (subst q; simpl; apply length_replicate). clear Hq.
    induction Hr as [|q q1 q2 Hq _ IH]; [done|]. apply IH. destruct Hq as [| |q i q1 Hw]; [done|done|].
    unfold worker_turn in Hw. repeat case_match; simplify_eq/=; by rewrite length_insert. }
  destruct (workers_ p) as [|w ws] eqn:Hw; [simpl in Hlen; lia|].
  unfold all_returned in Ha. rewrite Hw in Ha.
  destruct Hret as [_ Hq]; [apply Forall_cons in Ha as [-> _]; by left|].
  split; [done|]. rewrite Ho, Ht, Hq, app_nil_r, running_returned by done. done.
Qed.

Theorem pool_drains_on_destruction_witness :
  let p := mkPool [] true [Returned] [0] [0] [0] in
  rtc pool_step (create_pool 1) p ∧ finished p ≡ₚ submitted p.
Proof.
  intros p. assert (rtc pool_step (create_pool 1) p) as H.
  { eapply rtc_l; [by apply step_submit|]. eapply rtc_l; [by eapply (step_worker _ 0)|].
    eapply rtc_l; [by apply step_destroy|]. eapply rtc_l; [by eapply (step_worker _ 0)|].
    eapply rtc_l; [by eapply (step_worker _ 0)|]. apply rtc_refl. }
  split; [exact H|]. destruct (pool_drains_on_destruction 1 p H eq_refl ltac:(lia)) as (_ & _ & Hd).
  apply Hd. repeat constructor.
Defined.
