(* ===== verification/Cluster.v ===== *)
(** * The cluster: a router in front of its shards

    Puts the processes of [Server] behind the [Network] of [Router]: a
    connection is accepted where a process listens, the bytes the router writes
    to a socket are cut into chunks, read and handled by the process that socket
    is connected to, and what the process writes back is what the connection
    delivers. The theorems compare the whole with one server: the abstract
    state is one register (a value and a deadline) per key, and every keyed
    command reads and writes the register of its key only. *)

From S2P Require Import Prelude CxxStd Protocol Storage Expiry Node Persistence Replication Executor.
From S2P Require Import Recovery Server Ring Config Topology Net Router.

(** ** Definitions *)

(** What the node at the other end does with the router's connection: it reads
    requests, or, after SYNC, reads and discards. *)
Inductive session : Type := Answering | Discarding.

#[export] Instance session_eq_dec : EqDecision session.
Proof. solve_decision. Defined.

(** The processes, by the endpoint they listen on, and the router's connections
    as the processes see them. *)
Record World : Type := mkWorld {
  nodes : gmap endpoint Node;
  sessions : gmap endpoint session
}.

Definition Cluster : Type := System World.

Definition set_session (p : endpoint) (x : session) (w : World) : World :=
  mkWorld (nodes w) (<[p := x]> (sessions w)).

Definition end_session (p : endpoint) (w : World) : World := mkWorld (nodes w) (delete p (sessions w)).

(** What a process wrote to [fd] between two of its states. *)
Definition written (fd : Z) (n n' : Node) : string :=
  str_concat (filter (λ x, x.1 = fd) (drop (length (wire n)) (wire n'))).*2.

(** The register of a key. *)
Abbreviation register := (option string * option Z)%type.

Definition view (k : string) (d : Data) : register := (Lru.lookup k (entries d), ttl d !! k).

(** What a keyed command does to the register of its key. *)
Definition key_execute (now : Z) (cmd : Command) (x : register) : option (string * register) :=
  let '(v, t) := x in
  let add delta :=
    match (match v with Some s => stoll s | None => inr 0%Z end) with
    | inl _ => Some (Reply.error "value is not an integer or out of range", x)
    | inr n => z ← chk64 (n + delta); Some (Reply.integer z, (Some (to_string z), t))
    end in
  match type cmd, args cmd with
  | SET, [_; w] => Some (Reply.ok, (Some w, None))
  | SET, [_; w; ex; secs] =>
      if equalsIgnoreCase ex "EX" then
        match parsePositiveSeconds secs with
        | None => Some (Reply.error "invalid expire time in 'SET' command", x)
        | Some s => e ← deadline now s; Some (Reply.ok, (Some w, Some e))
        end
      else Some (arityError cmd, x)
  | GET, [_] => Some (match v with Some w => Reply.bulk w | None => Reply.nil end, x)
  | DEL, [_] => Some (Reply.integer (if v is Some _ then 1 else 0), (None, None))
  | INCR, [_] => add 1%Z
  | DECR, [_] => add (-1)%Z
  | TTL, [_] =>
      match v, t with
      | None, _ => Some (Reply.integer (-2), x)
      | Some _, None => Some (Reply.integer (-1), x)
      | Some _, Some e => r ← remaining_seconds now e; Some (Reply.integer (Z.max 0 r), x)
      end
  | EXPIRE, [_; secs] =>
      match v, parsePositiveSeconds secs with
      | None, _ => Some (Reply.integer 0, x)
      | Some _, None => Some (Reply.error "value is not an integer or out of range", x)
      | Some _, Some s => e ← deadline now s; Some (Reply.integer 1, (v, Some e))
      end
  | PERSIST, [_] =>
      match v with
      | None => Some (Reply.integer 0, x)
      | Some _ => Some (Reply.integer (if t is Some _ then 1 else 0), (v, None))
      end
  | UNKNOWN, _ => Some (Reply.error ("unknown command '" +:+ name cmd +:+ "'"), x)
  | _, _ => Some (arityError cmd, x)
  end.

(** Commands that concern the register of their first argument only. *)
Definition keyed (t : CommandType) : bool :=
  match t with
  | SAVE | REPLICAOF | SYNC | ROUTE | NODES => false
  | _ => true
  end.

(** Requests of at most this many bytes get a reply that fits a frame: the name
    of a command comes back with up to 37 bytes around it. *)
Definition routable_length : Z := 8150.

(** Lines for which a client cannot tell the router from a server. *)
Definition transparent (line : string) : bool :=
  frame_ok line && bool_decide (strip_cr line = line) &&
  (Z.of_nat (String.length line) <=? routable_length)%Z &&
  match parse line with
  | inl _ => true
  | inr cmd =>
      keyed (type cmd) &&
      (bool_decide (args cmd ≠ []) || bool_decide (type cmd = PING))
  end.

(** The turns of a connection on the lines it reads, until one ends it. *)
Fixpoint serve_lines (fd now : Z) (lines : list string) : M Node next :=
  match lines with
  | [] => mret Continue
  | line :: lines' =>
      o ← Server.handleLine fd now true line;
      match o with
      | Continue => serve_lines fd now lines'
      | _ => mret o
      end
  end.

(** The sweeper of a process, at time [now]: one turn after the other until
    nothing is due. *)
Fixpoint sweep_turns (count : nat) (now : Z) : M Node unit :=
  match count with
  | O => mret tt
  | S count' => sweepTurn now;; sweep_turns count' now
  end.

Definition sweep_all (now : Z) : M Node unit :=
  n ← get; sweep_turns (length (ExpiryManager.heap_ (expiry_ n))) now.

(** The data after all deadlines up to [now] have been acted on. *)
Definition due (now : Z) (d : Data) (k : string) : bool :=
  match ttl d !! k with Some t => (t <=? now)%Z | None => false end.

Definition expire_data (now : Z) (d : Data) : Data :=
  mkData (filter (λ e, due now d e.1 = false) (entries d)) (filter (λ x, (now < x.2)%Z) (ttl d)).

(** The register of a key after that. *)
Definition expire_register (now : Z) (x : register) : register :=
  match x.2 with Some t => if (t <=? now)%Z then (None, None) else x | None => x end.

(** What happens in front of a server or a router: a client sends a line, or the
    sweepers run. *)
Inductive traffic : Type :=
| Asked (now : Z) (line : string)
| Expired (now : Z).

(** One server with one client. *)
Fixpoint server_run (fd : Z) (evs : list traffic) : M Node unit :=
  match evs with
  | [] => mret tt
  | Asked now line :: evs' =>
      o ← Server.handleLine fd now true line;
      match o with
      | Continue => server_run fd evs'
      | Break => mret tt
      | Stream => endSync fd
      end
  | Expired now :: evs' => sweep_all now;; server_run fd evs'
  end.

(** Traffic of which every line is transparent. *)
Definition transparent_traffic (ev : traffic) : bool :=
  match ev with Asked _ line => transparent line | Expired _ => true end.

Section cluster.
(** How the network cuts what is written into chunks, and the descriptor of the
    router's connection at each node. *)
Variables (cut : string → list string) (fd_at : endpoint → Z).

(** Runs the process at [p]. *)
Definition at_node {A} (p : endpoint) (m : M Node A) : M World A :=
  w ← get;
  n ← defined (nodes w !! p);
  match m n with
  | Ok a n' => put (mkWorld (<[p := n']> (nodes w)) (sessions w));; mret a
  | Exn e _ => throw e
  | Undef => undef
  end.

(** A new connection; a replica stream the router had left at this node ends. *)
Definition accept (p : endpoint) : M World bool :=
  w ← get;
  match nodes w !! p with
  | None => mret false
  | Some _ =>
      (if bool_decide (sessions w !! p = Some Discarding) then at_node p (endSync (fd_at p)) else mret tt : M World unit);;
      modify (set_session p Answering);;
      mret true
  end.

(** The process at [p] reads what was written to it and answers; where no
    process is at the other end any more nothing comes back. *)
Definition receive (now : Z) (p : endpoint) (data : string) : M World (bool * list string) :=
  w ← get;
  match nodes w !! p, sessions w !! p with
  | Some n, Some Answering =>
      let chunks := cut data in
      o ← at_node p (serve_lines (fd_at p) now (read_lines (S (String.length data)) EmptyString chunks).1);
      modify (match o with
              | Continue => set_session p Answering
              | Break => end_session p
              | Stream => set_session p Discarding
              end);;
      w' ← get;
      n' ← defined (nodes w' !! p);
      mret (true, cut (written (fd_at p) n n'))
  | _, _ => mret (true, [])
  end.

Definition cluster_network (now : Z) : Network World := mkNetwork accept (receive now).

(** A turn of the router: [Router.handleLine], with the nodes behind it. *)
Definition cluster_turn (cfd now : Z) (line : string) : M Cluster unit :=
  _ ← Router.handleLine (cluster_network now) cfd true line; mret tt.

(** All the sweepers of the cluster. *)
Definition swept (now : Z) (n : Node) : Node :=
  match sweep_all now n with
  | Ok _ n' => n'
  | _ => n
  end.

Definition sweep_nodes (now : Z) (w : World) : World := mkWorld (swept now <$> nodes w) (sessions w).

Fixpoint cluster_run (cfd : Z) (evs : list traffic) : M Cluster unit :=
  match evs with
  | [] => mret tt
  | Asked now line :: evs' => cluster_turn cfd now line;; cluster_run cfd evs'
  | Expired now :: evs' => on_world (modify (sweep_nodes now));; cluster_run cfd evs'
  end.

(** A connection to [a] as a complete exchange leaves it: nothing in its reader
    and, if it is open, a process at the other end that reads requests, and
    nothing on the way. *)
Definition quiet (w : World) (a : string) (b : BackendConnection) : Prop :=
  reader_buffer (client b) = EmptyString ∧
  (backend_address b = a → ∀ p, fd_ (client b) = Some p →
     peer_of a = Some p ∧ sessions w !! p = Some Answering ∧ str_concat (incoming (client b)) = EmptyString).

(** A process that serves a client on [fd]: durable objects attached, a primary,
    and the client is not a replica. *)
Definition serving (fd : Z) (n : Node) : Prop :=
  is_Some (persistence_ n) ∧ ∃ r, replication_ n = Some r ∧ role_ r = Node.PRIMARY ∧ fd ∉ replicaFds_ r.

(** A process that serves [fd] and holds [d], nothing evicted. *)
Definition server_holds (fd : Z) (n : Node) (d : Data) : Prop :=
  holds KVStore.represents n 0 d ∧ Forall (λ e, savable e = true) (entries d) ∧ serving fd n.

(** The shard of every key can be reached, and the register of the key there is
    [x k]; [data] is what the nodes hold. *)
Definition cluster_data (c : Cluster) (x : string → register) (data : endpoint → Data) : Prop :=
  ∀ k, let a := Router.addressForKey k (front c) in
    ∃ p, peer_of a = Some p ∧ sessions (world c) !! p ≠ Some Discarding ∧
    (∀ b, backends_ (front c) !! getNode k (shard_ring (front c)) = Some b → quiet (world c) a b) ∧
    (∃ n, nodes (world c) !! p = Some n ∧ server_holds (fd_at p) n (data p)) ∧ view k (data p) = x k.

Definition cluster_holds (c : Cluster) (x : string → register) : Prop := ∃ data, cluster_data c x data.

(** The cluster holds, spread over its shards, what the process [n] holds. *)
Definition agree (c : Cluster) (fd : Z) (n : Node) : Prop :=
  ∃ d, server_holds fd n d ∧ cluster_holds c (λ k, view k d).

(** After a turn on each side, they agree again and gave the replies [rs]. *)
Definition in_step (cfd fd : Z) (c c' : Cluster) (n n' : Node) (rs : list string) : Prop :=
  agree c' fd n' ∧ replies (front c') = replies (front c) ++ ((λ r, (cfd, r)) <$> rs) ∧
  sent_to fd n' = sent_to fd n +:+ frames rs.

End cluster.

(** The register of the key after a command, and those of the other keys. *)
Definition local_to (k : string) (x : register) (d d' : Data) : Prop :=
  view k d' = x ∧ ∀ k', k' ≠ k → view k' d' = view k' d.

Definition no_cr (s : string) : bool := str_all (λ c, negb (bool_decide (c = cr))) s.

(** A reply that reaches the other side as it was sent. *)
Definition deliverable (r : string) : Prop := frame_ok r = true ∧ strip_cr r = r.

(** One turn of a server for a client on [fd]: the reply [r], the data after. *)
Definition serves (fd now : Z) (line : string) (n n' : Node) (r : string) (d' : Data) : Prop :=
  Server.handleLine fd now true line n = Ok Continue n' ∧ server_holds fd n' d' ∧
  written fd n n' = r +:+ String nl EmptyString ∧
  sent_to fd n' = sent_to fd n +:+ r +:+ String nl EmptyString.

(** A cluster whose nodes have all just been started on empty files. *)
Definition fresh_nodes (cfg : PersistenceConfig) (t : topology) : gmap endpoint Node :=
  list_to_map (omap (λ j, p ← peer_of (ShardTopology.activeAddressFor j t); Some (p, construct 0 cfg (mkFS ∅ ∅)))
                 (ShardTopology.shardIds t)).

Definition fresh_cluster (cfg : PersistenceConfig) (t : topology) : Cluster :=
  mkSystem (Router.create t) (mkWorld (fresh_nodes cfg t) ∅).

(** The shards of the sample configuration on a small ring. *)
Definition sample_cluster : Cluster :=
  mkSystem (mkRouter (ShardTopology.parseShards sample_config)
      (addNode "shard1" (addNode "shard0" (create_ring 2))) ∅ [])
    (mkWorld (fresh_nodes defaultPersistenceConfig (ShardTopology.parseShards sample_config)) ∅).

(** ** Lemmas *)

Lemma lookup_set k k' v l :
  Lru.lookup k' (Lru.set 0 k v l) = if decide (k' = k) then Some v else Lru.lookup k' l.
Proof.
  unfold Lru.lookup. rewrite contents_set_unbounded. case_decide; subst.
  - by rewrite lookup_insert_eq.
  - by rewrite lookup_insert_ne.
Qed.

Lemma lookup_touch k k' l : Lru.lookup k' (Lru.touch k l) = Lru.lookup k' l.
Proof. unfold Lru.lookup. by rewrite contents_touch. Qed.

Lemma lookup_remove k k' l :
  Lru.lookup k' (Lru.remove k l) = if decide (k' = k) then None else Lru.lookup k' l.
Proof.
  unfold Lru.lookup. rewrite contents_remove. case_decide; subst.
  - by rewrite lookup_delete_eq.
  - by rewrite lookup_delete_ne.
Qed.

(** Compares registers before and after an update of one key. *)
Ltac solve_local :=
  unfold local_to, view; cbn [entries ttl]; split; [|intros ? ?];
  rewrite ?lookup_set, ?lookup_remove, ?lookup_touch, ?decide_True, ?decide_False by done;
  rewrite ?lookup_insert_eq, ?lookup_delete_eq, ?lookup_insert_ne, ?lookup_delete_ne by done; try done; congruence.

Lemma key_increment_spec k delta d :
  match (match Lru.lookup k (entries d) with Some s => stoll s | None => inr 0%Z end) with
  | inl _ => spec_increment 0 k delta d = Some (Reply.error "value is not an integer or out of range", d)
  | inr n =>
      match chk64 (n + delta) with
      | Some z => ∃ d', spec_increment 0 k delta d = Some (Reply.integer z, d') ∧
                        local_to k (Some (to_string z), ttl d !! k) d d'
      | None => spec_increment 0 k delta d = None
      end
  end.
Proof.
  unfold spec_increment, Lru.counter. destruct (Lru.lookup k (entries d)) as [v|] eqn:Hv.
  - destruct (stoll v) as [e|n]; [done|]. destruct (chk64 (n + delta)) as [z|]; simpl; [|done].
    eexists. split; [reflexivity|]. solve_local.
  - destruct (chk64 (0 + delta)) as [z|]; simpl; [|done].
    eexists. split; [reflexivity|]. solve_local.
Qed.

(** A keyed command only reads and writes the register of its key. *)
Lemma key_execute_spec now cmd k rest d :
  keyed (type cmd) = true → args cmd = k :: rest →
  match key_execute now cmd (view k d) with
  | Some (r, x) => ∃ d', spec_execute 0 now cmd d = Some (r, d') ∧ local_to k x d d'
  | None => spec_execute 0 now cmd d = None
  end.
Proof.
  intros Hk Ha. unfold key_execute, spec_execute, view, has. rewrite Ha.
  pose proof (key_increment_spec k 1 d) as Hup. pose proof (key_increment_spec k (-1) d) as Hdown.
  destruct (type cmd); try discriminate Hk; clear Hk.
  all: repeat case_match; simplify_option_eq.
  all: repeat case_bool_decide; try done; try (destruct_and?; done).
  all: eexists; split; [reflexivity || eassumption|solve_local].
Qed.

(** ** Replies fit a frame *)

Lemma strip_cr_id s : no_cr s = true → strip_cr s = s.
Proof.
  induction s as [|c s IH]; [done|]. unfold no_cr. cbn [str_all]. intros H. destruct_bools.
  destruct s as [|c' s]; simpl.
  - by rewrite bool_decide_false.
  - f_equal. by apply IH.
Qed.

Lemma token_no_cr t : is_token t = true → no_cr t = true.
Proof.
  unfold is_token, no_cr. intros H. destruct_bools. eapply str_all_impl; [|done].
  intros c Hc. apply negb_true_iff, bool_decide_eq_false. by intros ->.
Qed.

Lemma deliverable_around a t b :
  no_nl a && no_cr a && no_nl b && no_cr b = true → is_token t = true →
  (Z.of_nat (String.length a + String.length t + String.length b) ≤ kMaxBuffered)%Z →
  deliverable (a +:+ t +:+ b).
Proof.
  intros Hab Ht Hl. destruct_bools. pose proof (token_no_nl t Ht). pose proof (token_no_cr t Ht).
  unfold deliverable, frame_ok. split.
  - rewrite !str_all_app. unfold no_nl in *. apply andb_true_iff. split; [by repeat (apply andb_true_iff; split)|].
    apply Z.leb_le. rewrite !str_length_app. lia.
  - apply strip_cr_id. unfold no_cr in *. rewrite !str_all_app. by repeat (apply andb_true_iff; split).
Qed.

Lemma deliverable_integer z : in_int64 z = true → deliverable (Reply.integer z).
Proof.
  intros Hz. unfold Reply.integer. rewrite <-(str_app_nil_r (to_string z)).
  apply deliverable_around; [done|apply to_string_token|]. pose proof (to_string_length z Hz).
  unfold kMaxBuffered. simpl. lia.
Qed.

Lemma deliverable_bulk k v : savable (k, v) = true → deliverable (Reply.bulk v).
Proof.
  unfold savable, fits, snapshot_line, kMaxLineLength. intros H. destruct_bools. unfold Reply.bulk.
  rewrite <-(str_app_nil_r v). apply deliverable_around; [done|done|].
  apply Z.leb_le in H0. unfold kMaxBuffered. cbn [print_words fst snd] in H0. rewrite !str_length_app in H0. simpl in *.
  rewrite str_length_app in H0. simpl in H0. lia.
Qed.

Lemma remaining_range now t r : remaining_seconds now t = Some r → in_int64 (Z.max 0 r) = true.
Proof.
  unfold remaining_seconds. intros H. simplify_option_eq.
  match goal with H : chk64 _ = Some _ |- _ => apply chk64_Some in H as [-> ?] end.
  apply in_int64_spec. unfold ns_per_second, int64_min, int64_max in *. Z.to_euclidean_division_equations. lia.
Qed.

Lemma deliverable_name a t b :
  no_nl a && no_cr a && no_nl b && no_cr b = true → is_token t = true →
  String.length a + String.length b ≤ 32 → (Z.of_nat (String.length t) ≤ routable_length)%Z →
  deliverable (Reply.error (a +:+ t +:+ b)).
Proof.
  intros Hab Ht Hl Hlt. unfold Reply.error. destruct_bools.
  replace ("-ERR " +:+ a +:+ t +:+ b) with (("-ERR " +:+ a) +:+ t +:+ b) by (by rewrite !str_app_assoc).
  apply deliverable_around; [|done|].
  - unfold no_nl, no_cr in *. rewrite !str_all_app. by repeat (apply andb_true_iff; split).
  - rewrite str_length_app. unfold kMaxBuffered, routable_length in *. simpl. lia.
Qed.

Lemma spec_deliverable now cmd line d r d' :
  spec_execute 0 now cmd d = Some (r, d') → keyed (type cmd) = true → parse line = inr cmd →
  (Z.of_nat (String.length line) ≤ routable_length)%Z → Forall (λ e, savable e = true) (entries d) → deliverable r.
Proof.
  intros Hx Hk Hp Hl Hsv. apply parse_words in Hp as ([Hn _]%Forall_cons & Hlen & _ & _).
  assert (Z.of_nat (String.length (name cmd)) ≤ routable_length)%Z as Hlen'.
  { unfold words_length in Hlen. simpl in Hlen. lia. }
  unfold spec_execute, spec_increment, arityError in Hx.
  destruct (type cmd); try discriminate Hk; repeat case_match; simplify_option_eq.
  all: try (by split).
  all: try (apply deliverable_name; [done|done|simpl; lia|done]).
  all: try (apply deliverable_integer; try done; try by eapply remaining_range).
  - match goal with H : Lru.lookup _ _ = Some _ |- _ => apply lookup_elem in H end.
    eapply deliverable_bulk. rewrite Forall_forall in Hsv. by eapply Hsv.
  - match goal with H : chk64 _ = Some _ |- _ => apply chk64_Some in H as [-> ?%in_int64_spec] end. done.
  - match goal with H : chk64 _ = Some _ |- _ => apply chk64_Some in H as [-> ?%in_int64_spec] end. done.
Qed.

(** ** A turn of a server *)

(** Recording and propagating leave the data alone and write to replicas only. *)
Lemma propagate_frame cmd line r n rep :
  is_Some (persistence_ n) → replication_ n = Some rep →
  ∃ n' w, recordAndPropagateIfWrite cmd line r n = Ok tt n' ∧ store_ n' = store_ n ∧ expiry_ n' = expiry_ n ∧
    is_Some (persistence_ n') ∧ replication_ n' = Some rep ∧ wire n' = wire n ++ w ∧
    Forall (λ x, x.1 ∈ replicaFds_ rep) w.
Proof.
  intros [p Hp] Hr. unfold recordAndPropagateIfWrite. destruct (succeeded r && isWriteCommand (type cmd)).
  2: { exists n, []. rewrite app_nil_r. by eauto 10. }
  rewrite (the_persistence_bind _ p) by done. unfold Persistence.recordWrite.
  set (w := (λ fd, (fd, line +:+ String nl EmptyString)) <$> replicaFds_ rep).
  assert (Forall (λ x, x.1 ∈ replicaFds_ rep) w) as Hw.
  { apply Forall_forall. intros x (fd & -> & ?)%list_elem_of_fmap. done. }
  destruct (negb _); unfold_M; unfold the_replication; unfold_M; simpl; rewrite Hr;
    unfold ReplicaRegistry.propagate; rewrite Replication.propagate_to_wire.
  all: eexists _, w; split; [reflexivity|]; simpl; by eauto 10.
Qed.

Lemma filter_to_others (fd : Z) (fds : list Z) (w : list (Z * string)) :
  fd ∉ fds → Forall (λ x, x.1 ∈ fds) w → filter (λ x, x.1 = fd) w = [].
Proof.
  intros Hfd. induction 1 as [|x w Hx Hw IH]; [done|]. rewrite filter_cons_False; [done|]. by intros <-.
Qed.

Lemma written_app fd n n' w :
  wire n' = wire n ++ w → written fd n n' = str_concat (filter (λ x, x.1 = fd) w).*2.
Proof. intros H. unfold written. by rewrite H, drop_app_length. Qed.

Lemma sent_to_written fd n n' w :
  wire n' = wire n ++ w → sent_to fd n' = sent_to fd n +:+ written fd n n'.
Proof.
  intros H. rewrite (written_app _ _ _ _ H). unfold sent_to.
  by rewrite H, filter_app, fmap_app, str_concat_app.
Qed.

Lemma writes_reply fd n n' w r :
  wire n' = (wire n ++ w) ++ [(fd, r +:+ String nl EmptyString)] → filter (λ x, x.1 = fd) w = [] →
  written fd n n' = r +:+ String nl EmptyString ∧
  sent_to fd n' = sent_to fd n +:+ r +:+ String nl EmptyString.
Proof.
  intros Hw Hf. rewrite <-app_assoc in Hw. pose proof (written_app fd _ _ _ Hw) as E.
  rewrite filter_app, Hf, filter_cons_True in E by done. simpl in E. rewrite str_app_nil_r in E.
  split; [done|]. rewrite (sent_to_written _ _ _ _ Hw). by rewrite E.
Qed.

Lemma serves_keyed fd now line cmd n d r d' :
  server_holds fd n d → parse line = inr cmd → keyed (type cmd) = true →
  (Z.of_nat (String.length line) ≤ routable_length)%Z → spec_execute 0 now cmd d = Some (r, d') →
  ∃ n', serves fd now line n n' r d'.
Proof.
  intros (Hh & Hsv & [p Hp] & rep & Hr & Hrole & Hfd) Hparse Hk Hl Hx.
  assert (data_command (type cmd) = true) as Hdc by (by destruct (type cmd)).
  pose proof (execute_data KVStore.represents n 0 d now cmd Hh Hdc) as He. rewrite Hx in He.
  destruct He as (n1 & E1 & Hh1 & (Hp1 & Hr1 & _ & Hw1 & _)).
  pose proof (spec_savable _ _ _ _ _ _ _ Hparse ltac:(unfold routable_length, safe_length in *; lia) Hx Hsv) as Hsv1.
  destruct (propagate_frame cmd line r n1 rep) as (n2 & w & E2 & Hs2 & He2 & Hp2 & Hr2 & Hw2 & Hto);
    [by rewrite Hp1, Hp|by rewrite Hr1|].
  unfold serves, Server.handleLine. destruct line as [|c line]; [done|]. cbn [str_nonempty negb]. rewrite Hparse.
  rewrite bool_decide_false by (by intros E; rewrite E in Hk).
  rewrite (the_replication_bind _ rep) by done. rewrite Hrole, bool_decide_false, andb_false_r by done.
  rewrite (bind_Ok _ _ _ _ _ E1), (bind_Ok _ _ _ _ _ E2).
  eexists. split; [reflexivity|]. split.
  - unfold server_holds, serving, holds in *. simpl. rewrite Hs2, He2. eauto 10.
  - apply (writes_reply _ _ _ w); [simpl; by rewrite Hw2, Hw1|by eapply filter_to_others].
Qed.

(** A line that does not parse. *)
Lemma serves_malformed fd now line e n d :
  server_holds fd n d → line ≠ EmptyString → parse line = inl e →
  ∃ n', serves fd now line n n' (Reply.error (what e)) d.
Proof.
  intros Hn Hl Hp. unfold serves, Server.handleLine. rewrite (proj2 (str_nonempty_spec _) Hl). cbn [negb].
  rewrite Hp. eexists. split; [reflexivity|]. split; [exact Hn|].
  apply (writes_reply _ _ _ []); [simpl; by rewrite app_nil_r|done].
Qed.

Lemma serves_undefined fd now line cmd n d :
  server_holds fd n d → parse line = inr cmd → keyed (type cmd) = true →
  spec_execute 0 now cmd d = None → Server.handleLine fd now true line n = Undef.
Proof.
  intros (Hh & _ & _ & rep & Hr & Hrole & _) Hparse Hk Hx.
  assert (data_command (type cmd) = true) as Hdc by (by destruct (type cmd)).
  pose proof (execute_data KVStore.represents n 0 d now cmd Hh Hdc) as He. rewrite Hx in He.
  unfold Server.handleLine. destruct line as [|c line]; [done|]. cbn [str_nonempty negb]. rewrite Hparse.
  rewrite bool_decide_false by (by intros E; rewrite E in Hk).
  rewrite (the_replication_bind _ rep) by done. rewrite Hrole, bool_decide_false, andb_false_r by done.
  unfold mbind at 1, M_bind at 1. by rewrite He.
Qed.

(** ** The sweeper to its end *)

Lemma due_remove now d k k' t :
  ttl d !! k = Some t → (t ≤ now)%Z →
  due now (mkData (Lru.remove k (entries d)) (delete k (ttl d))) k' = (if decide (k' = k) then false else due now d k').
Proof.
  intros Hk Ht. unfold due. simpl. case_decide as E; [subst; by rewrite lookup_delete_eq|by rewrite lookup_delete_ne].
Qed.

Lemma expire_remove now d k t :
  ttl d !! k = Some t → (t ≤ now)%Z →
  expire_data now (mkData (Lru.remove k (entries d)) (delete k (ttl d))) = expire_data now d.
Proof.
  intros Hk Ht. unfold expire_data. f_equal.
  - simpl. unfold Lru.remove. rewrite list_filter_filter. apply list_filter_iff. intros [k' v]. simpl.
    pose proof (due_remove now d k k' t Hk Ht) as Hd. simpl in Hd. unfold Lru.remove in Hd. rewrite Hd.
    destruct (decide (k' = k)) as [->|]; [|tauto]. unfold due. rewrite Hk, (proj2 (Z.leb_le _ _)) by done. split; [tauto|done].
  - simpl. apply map_eq. intros k'. apply option_eq. intros t'. rewrite !map_lookup_filter_Some, lookup_delete_Some. simpl.
    split; [tauto|]. intros [? ?]. split; [|done]. split; [|done]. intros <-. simplify_eq. lia.
Qed.

Lemma expire_nothing now d : (∀ k t, ttl d !! k = Some t → (now < t)%Z) → expire_data now d = d.
Proof.
  intros Hd. destruct d as [l m]. unfold expire_data, due. simpl in *. f_equal.
  - induction l as [|[k v] l IH]; [done|]. rewrite filter_cons_True; [by rewrite IH|]. simpl.
    destruct (m !! k) as [t|] eqn:E; [|done]. apply Z.leb_gt. by eapply Hd.
  - apply map_filter_id. intros k t. apply Hd.
Qed.

(** What is left of a list from which keys were removed. *)
Lemma lookup_filter (P : string → bool) k (l : list (string * string)) :
  Lru.lookup k (filter (λ e, P e.1 = false) l) = if P k then None else Lru.lookup k l.
Proof.
  unfold Lru.lookup, Lru.contents. induction l as [|[k' v] l IH]; [by case_match|]. rewrite filter_cons. simpl.
  destruct (decide (k' = k)) as [->|Hne]; case_decide as Hd; simpl.
  - rewrite !lookup_insert_eq. by rewrite Hd.
  - rewrite IH, lookup_insert_eq. by destruct (P k).
  - by rewrite !lookup_insert_ne, IH by done.
  - by rewrite lookup_insert_ne, IH by done.
Qed.

Lemma expire_view now d k : view k (expire_data now d) = expire_register now (view k d).
Proof.
  unfold view, expire_register, expire_data. simpl.
  rewrite (lookup_filter (due now d)).
  unfold due. destruct (ttl d !! k) as [t|] eqn:E.
  - destruct (Z.leb_spec t now).
    + f_equal. apply map_lookup_filter_None. right. intros t'. rewrite E. simpl. intros [= <-]. lia.
    + f_equal. apply map_lookup_filter_Some. by split.
  - f_equal. apply map_lookup_filter_None. by left.
Qed.

Lemma sweep_turn_progress now n c d :
  holds KVStore.represents n c d →
  ∃ n', sweepTurn now n = Ok tt n' ∧
    (length (ExpiryManager.heap_ (expiry_ n)) = S (length (ExpiryManager.heap_ (expiry_ n'))) ∨
     n' = n ∧ ∀ k t, ttl d !! k = Some t → (now < t)%Z).
Proof.
  intros (Hs & Ht & Hc). unfold sweepTurn. unfold_M. destruct (ExpiryManager.top _) as [e|] eqn:Htop; cycle 1.
  { exists n. split; [done|right]. split; [done|]. apply ExpiryManager.top_None in Htop. intros k t Hk. rewrite <-Ht in Hk.
    apply Hc in Hk. rewrite Htop in Hk. by apply not_elem_of_nil in Hk. }
  destruct (ExpiryManager.top_is_top _ _ Htop) as [Hin Hmin]. destruct (Z.leb_spec (when e) now) as [Hle|Hlt]; cycle 1.
  { exists n. split; [done|right]. split; [done|]. intros k t Hk. rewrite <-Ht in Hk. apply Hc, Hmin in Hk. simpl in Hk. lia. }
  destruct (ExpiryManager.pop_top e (expiry_ n)) as [live s] eqn:Ep. pose proof Ep as (Hh & _)%ExpiryManager.pop_top_cases.
  destruct live.
  - unfold onExpire, on_store. unfold_M. cbn [store_ set_expiry]. destruct (store_del _ _ _ (key e) Hs) as (s' & -> & _).
    eexists. split; [reflexivity|]. left. simpl. rewrite Hh. by apply ExpiryManager.pop_length.
  - eexists. split; [reflexivity|]. left. simpl. rewrite Hh. by apply ExpiryManager.pop_length.
Qed.

Lemma sweep_turns_spec count now n c d :
  holds KVStore.represents n c d → length (ExpiryManager.heap_ (expiry_ n)) ≤ count →
  ∃ n', sweep_turns count now n = Ok tt n' ∧ holds KVStore.represents n' c (expire_data now d) ∧
    persistence_ n' = persistence_ n ∧ replication_ n' = replication_ n ∧ wire n' = wire n.
Proof.
  revert n d. induction count as [|count IH]; intros n d Hh Hlen.
  - exists n. split; [done|]. rewrite expire_nothing; [done|]. intros k t Hk. destruct Hh as (_ & Ht & Hc).
    rewrite <-Ht in Hk. apply Hc in Hk. apply Nat.le_0_r, nil_length_inv in Hlen. rewrite Hlen in Hk. by apply not_elem_of_nil in Hk.
  - cbn [sweep_turns]. destruct (sweep_turn_progress now n c d Hh) as (n1 & E & Hp). rewrite (bind_Ok _ _ _ _ _ E).
    destruct (sweepTurn_spec now n c d n1 Hh E) as ((Hpe & Hre & _ & Hw) & d1 & Hh1 & Hd1).
    assert (expire_data now d1 = expire_data now d) as Hex.
    { destruct Hd1 as [->|(k & t & Hk & Ht & ->)]; [done|by eapply expire_remove]. }
    destruct Hp as [Hheap|[-> Hlate]].
    + destruct (IH n1 d1 Hh1 ltac:(lia)) as (n' & E' & Hh' & Hpe' & Hre' & Hw'). exists n'. rewrite Hex in Hh'.
      split_and!; [done|done|congruence..].
    + clear IH Hd1 Hh1 Hex d1. exists n. rewrite (expire_nothing now d) by done. split; [|done].
      clear Hlen Hpe Hre Hw. induction count as [|count IH]; [done|]. cbn [sweep_turns]. by rewrite (bind_Ok _ _ _ _ _ E).
Qed.

Lemma sweep_server fd now n d :
  server_holds fd n d →
  ∃ n', sweep_all now n = Ok tt n' ∧ sent_to fd n' = sent_to fd n ∧ server_holds fd n' (expire_data now d).
Proof.
  intros (Hh & Hsv & Hp & Hr). destruct (sweep_turns_spec _ now n 0 d Hh (Nat.le_refl _)) as (n' & E & Hh' & Hpe & Hre & Hw).
  exists n'. split; [exact E|]. split; [unfold sent_to; by rewrite Hw|]. split; [done|]. split.
  - apply Forall_forall. intros e He. simpl in He. apply list_elem_of_filter in He as [_ He]. rewrite Forall_forall in Hsv. auto.
  - unfold serving. by rewrite Hpe, Hre.
Qed.

Lemma str_app_nil_inv a b : a +:+ b = EmptyString → a = EmptyString ∧ b = EmptyString.
Proof. by destruct a. Qed.

(** ** The cluster and one server, in step *)

Section simulation.
Variables (cut : string → list string) (fd_at : endpoint → Z).
Hypothesis cut_concat : ∀ s, str_concat (cut s) = s.

Lemma frames_one r : frames [r] = r +:+ String nl EmptyString.
Proof. unfold frames. simpl. by rewrite str_app_nil_r. Qed.

(** A reply the router gives without asking a node. *)
Lemma in_step_local cfd fd c n n' d r :
  server_holds fd n' d → sent_to fd n' = sent_to fd n +:+ r +:+ String nl EmptyString →
  cluster_holds fd_at c (λ k, view k d) →
  in_step fd_at cfd fd c (set_front (mkRouter (topology_ (front c)) (shard_ring (front c)) (backends_ (front c))
         (replies (front c) ++ [(cfd, r)])) c) n n' [r].
Proof.
  intros Hn' Hsent Hc. split; [|split; [done|by rewrite frames_one]]. exists d. split; [done|]. exact Hc.
Qed.

(** *** An exchange *)

Lemma read_one_line l chunks :
  deliverable l → str_concat chunks = l +:+ String nl EmptyString →
  ∀ fuel, 0 < fuel → (read_lines (S fuel) EmptyString chunks).1 = [l].
Proof.
  intros [Hf Hs] E [|fuel] Hfuel; [lia|]. destruct (readLine_first l EmptyString EmptyString chunks Hf E) as (b & cs & Er & Hrest).
  remember (S fuel) as fuel'. cbn [read_lines]. rewrite Er, Hs. subst fuel'. cbn [read_lines].
  by rewrite (readLine_end EmptyString b cs).
Qed.

Lemma serve_one fd now line n : serve_lines fd now [line] n = Server.handleLine fd now true line n.
Proof. cbn [serve_lines]. unfold_M. by destruct (Server.handleLine fd now true line n) as [[| |] ?|? ?|]. Qed.

(** The node's half of a forwarded turn. *)
Lemma receive_serves now p line w n n' r d' :
  nodes w !! p = Some n → sessions w !! p = Some Answering → deliverable line → serves (fd_at p) now line n n' r d' →
  receive cut fd_at now p (line +:+ String nl EmptyString) w =
  Ok (true, cut (r +:+ String nl EmptyString)) (mkWorld (<[p := n']> (nodes w)) (<[p := Answering]> (sessions w))).
Proof.
  intros Hn Hs Hl (E & _ & Hw & _). unfold receive, at_node. unfold_M. rewrite Hn, Hs.
  rewrite (read_one_line line) by (try done; try apply cut_concat; rewrite str_length_app; simpl; lia).
  rewrite Hn, serve_one, E. simpl. by rewrite lookup_insert_eq, Hw.
Qed.

Lemma receive_undefined now p line w n :
  nodes w !! p = Some n → sessions w !! p = Some Answering → deliverable line →
  Server.handleLine (fd_at p) now true line n = Undef →
  receive cut fd_at now p (line +:+ String nl EmptyString) w = Undef.
Proof.
  intros Hn Hs Hl E. unfold receive, at_node. unfold_M. rewrite Hn, Hs.
  rewrite (read_one_line line) by (try done; try apply cut_concat; rewrite str_length_app; simpl; lia).
  by rewrite Hn, serve_one, E.
Qed.

(** The router finds, or makes, a connection to the node at [p]. *)
Lemma exchange_connects now a p line b w n :
  peer_of a = Some p → quiet w a b → nodes w !! p = Some n → sessions w !! p ≠ Some Discarding →
  ∃ w1 c, nodes w1 = nodes w ∧ sessions w1 !! p = Some Answering ∧
    <[p := Answering]> (sessions w1) = <[p := Answering]> (sessions w) ∧
    fd_ c = Some p ∧ reader_buffer c = EmptyString ∧ str_concat (incoming c) = EmptyString ∧
    Router.exchange (cluster_network cut fd_at now) a line b w =
    ('(sent, c) ← Router.sendLine (cluster_network cut fd_at now) line c;
     if negb sent then mret (None, mkBackend (TcpClient.close c) a)
     else
       match TcpClient.receiveLine c with
       | (Some response, c) => mret (Some response, mkBackend c a)
       | (None, c) => mret (None, mkBackend (TcpClient.close c) a)
       end) w1.
Proof.
  intros Hp [Hbuf Hq] Hn Hs. unfold Router.exchange. cbv zeta.
  set (b1 := if bool_decide (backend_address b = a) then b else mkBackend (TcpClient.close (client b)) a).
  assert (backend_address b1 = a) as -> by (unfold b1; by case_bool_decide).
  assert (reader_buffer (client b1) = EmptyString) as Hbuf1 by (unfold b1; by case_bool_decide).
  destruct (fd_ (client b1)) as [p'|] eqn:Hfd.
  - assert (bool_decide (backend_address b = a) = true) as Ha by (unfold b1 in Hfd; by case_bool_decide).
    unfold b1 in *. rewrite Ha in *. apply bool_decide_eq_true in Ha. destruct (Hq Ha p' Hfd) as (Hp' & Hs' & Hinc).
    rewrite Hp in Hp'. injection Hp' as <-. exists w, (client b). split_and!; try done.
    unfold TcpClient.isConnected, fd_open. by rewrite Hfd.
  - unfold TcpClient.isConnected, fd_open. rewrite Hfd.
    unfold peer_of in Hp. destruct (splitAddress a) as [[host port]|]; [|done]. injection Hp as <-. set (p := endpoint_of host port) in *.
    exists (set_session p Answering w), (mkClient (Some p) EmptyString []). split; [done|]. split; [simpl; by rewrite lookup_insert_eq|].
    split; [simpl; by rewrite insert_insert_eq|]. split; [done|]. split; [done|]. split; [done|].
    unfold Router.connect. simpl dial. unfold accept. unfold_M. fold p. rewrite Hn, bool_decide_false by done.
    simpl. by rewrite Hbuf1.
Qed.

(** An exchange on a quiet connection, while the node serves the line. *)
Lemma exchange_relays now a p line b w n n' r d' :
  peer_of a = Some p → quiet w a b → nodes w !! p = Some n → sessions w !! p ≠ Some Discarding →
  deliverable line → serves (fd_at p) now line n n' r d' → deliverable r →
  let w' := mkWorld (<[p := n']> (nodes w)) (<[p := Answering]> (sessions w)) in
  ∃ b', Router.exchange (cluster_network cut fd_at now) a line b w = Ok (Some r, b') w' ∧ quiet w' a b'.
Proof.
  intros Hp Hq Hn Hs Hl Hserves [Hf Hr] w'.
  destruct (exchange_connects now a p line b w n Hp Hq Hn Hs) as (w1 & c & Hn1 & Hs1 & Hins & Hfd & Hbuf & Hinc & ->).
  unfold Router.sendLine. rewrite Hfd. unfold_M. simpl transmit.
  rewrite (receive_serves now p line w1 n n' r d') by (rewrite ?Hn1; done).
  unfold TcpClient.sendLine, TcpClient.receiveLine, TcpClient.arrive, fd_open. cbn [fd_ reader_buffer incoming]. rewrite Hfd.
  cbn [andb negb].
  destruct (readLine_first r EmptyString (reader_buffer c) (incoming c ++ cut (r +:+ String nl EmptyString))) as (b' & cs & E & Hrest);
    [done|by rewrite str_concat_app, Hbuf, Hinc, cut_concat, !str_app_nil_l|].
  rewrite E, Hr. eexists. split; [unfold w'; rewrite Hn1, Hins; reflexivity|].
  apply str_app_nil_inv in Hrest as [-> Hcs]. split; [done|]. simpl. intros _ p' [= <-].
  split; [done|]. by rewrite lookup_insert_eq.
Qed.

Lemma exchange_undefined now a p line b w n :
  peer_of a = Some p → quiet w a b → nodes w !! p = Some n → sessions w !! p ≠ Some Discarding →
  deliverable line → Server.handleLine (fd_at p) now true line n = Undef →
  Router.exchange (cluster_network cut fd_at now) a line b w = Undef.
Proof.
  intros Hp Hq Hn Hs Hl Hu.
  destruct (exchange_connects now a p line b w n Hp Hq Hn Hs) as (w1 & c & Hn1 & Hs1 & _ & Hfd & _ & _ & ->).
  unfold Router.sendLine. rewrite Hfd. unfold_M. simpl transmit.
  by rewrite (receive_undefined now p line w1 n) by (rewrite ?Hn1; done).
Qed.

Lemma quiet_create w a : quiet w a (mkBackend TcpClient.create EmptyString).
Proof. by split. Qed.

Lemma connection_quiet w a j rt :
  (∀ b, backends_ rt !! j = Some b → quiet w a b) → quiet w a (connection_of j rt).
Proof. unfold connection_of. destruct (backends_ rt !! j); [auto|]. intros _. apply quiet_create. Qed.

(** What a node that has answered leaves quiet. *)
Lemma quiet_answered w a b p ns : quiet w a b → quiet (mkWorld ns (<[p := Answering]> (sessions w))) a b.
Proof.
  intros [Hb Hq]. split; [done|]. intros Ha p' Hfd. destruct (Hq Ha p' Hfd) as (? & Hs & ?). split; [done|]. split; [|done].
  simpl. rewrite lookup_insert. by case_decide.
Qed.

(** After a forwarded turn on the key [k], every shard still holds its keys. *)
Lemma cluster_data_step c c' (x x' : string → register) data k p n' d' :
  cluster_data fd_at c x data → peer_of (Router.addressForKey k (front c)) = Some p →
  topology_ (front c') = topology_ (front c) → shard_ring (front c') = shard_ring (front c) →
  world c' = mkWorld (<[p := n']> (nodes (world c))) (<[p := Answering]> (sessions (world c))) →
  (∀ j b, backends_ (front c') !! j = Some b →
     j = getNode k (shard_ring (front c)) ∧ quiet (world c') (Router.addressForKey k (front c)) b ∨
     backends_ (front c) !! j = Some b) →
  server_holds (fd_at p) n' d' →
  local_to k (x' k) (data p) d' → (∀ k', k' ≠ k → x' k' = x k') →
  cluster_holds fd_at c' x'.
Proof.
  intros Hc Hp Ht Hring Hw Hb Hn' [Hk Hother] Hx.
  exists (λ p', if decide (p' = p) then d' else data p'). intros k'. cbv zeta.
  assert (∀ k, Router.addressForKey k (front c') = Router.addressForKey k (front c)) as ->.
  { intros k0. unfold Router.addressForKey. by rewrite Ht, Hring. }
  rewrite Hring. destruct (Hc k') as (p' & Hp' & Hs & Hq & (n & Hn & Hd) & Hv). cbv zeta in Hp', Hq.
  exists p'. split; [done|]. split; [rewrite Hw; simpl; rewrite lookup_insert; by case_decide|]. split.
  { intros b Hb'. destruct (Hb _ _ Hb') as [[Hj Hquiet]|Hold].
    - unfold Router.addressForKey in *. by rewrite Hj.
    - rewrite Hw. by apply quiet_answered, Hq. }
  rewrite Hw. cbn [nodes]. destruct (decide (p' = p)) as [->|Hne].
  - rewrite lookup_insert_eq. split; [by eauto|]. destruct (decide (k' = k)) as [->|Hk']; [done|].
    by rewrite Hother, Hx by done.
  - rewrite lookup_insert_ne by done. split; [by eauto|].
    destruct (decide (k' = k)) as [->|Hk']; [by simplify_eq|]. by rewrite Hx.
Qed.

(** The shard of a key, and what one server and the node of the shard do with a
    command on it. *)
Lemma shard_serves c x data now line cmd k rest d :
  cluster_data fd_at c x data → x = (λ k, view k d) → Forall (λ e, savable e = true) (entries d) →
  parse line = inr cmd → keyed (type cmd) = true → args cmd = k :: rest →
  (Z.of_nat (String.length line) ≤ routable_length)%Z →
  let a := Router.addressForKey k (front c) in
  ∃ p na, peer_of a = Some p ∧ sessions (world c) !! p ≠ Some Discarding ∧
    (∀ b, backends_ (front c) !! getNode k (shard_ring (front c)) = Some b → quiet (world c) a b) ∧
    nodes (world c) !! p = Some na ∧
    match spec_execute 0 now cmd d with
    | None => Server.handleLine (fd_at p) now true line na = Undef
    | Some (r, d1) => ∃ n2 d2, serves (fd_at p) now line na n2 r d2 ∧ deliverable r ∧
        server_holds (fd_at p) n2 d2 ∧ local_to k (view k d1) (data p) d2 ∧ (∀ k', k' ≠ k → view k' d1 = view k' d)
    end.
Proof.
  intros Hc -> Hn Hp Hk Ha Hl a. destruct (Hc k) as (p & Hpeer & Hs & Hq & (na & Hna & Hholds) & Hview).
  exists p, na. split_and!; [done..|].
  pose proof (key_execute_spec now cmd k rest d Hk Ha) as Hx.
  pose proof (key_execute_spec now cmd k rest (data p) Hk Ha) as Hx'. rewrite Hview in Hx'.
  destruct (key_execute now cmd (view k d)) as [[r x]|]; cycle 1.
  { rewrite Hx. by apply (serves_undefined _ _ _ _ _ _ Hholds Hp Hk). }
  destruct Hx as (d1 & Hx1 & Hloc1), Hx' as (d2 & Hx2 & Hloc2). rewrite Hx1.
  destruct (serves_keyed _ _ _ _ _ _ _ _ Hholds Hp Hk Hl Hx2) as (n2 & Hserves). exists n2, d2. split; [done|].
  split; [by eapply spec_deliverable; [exact Hx1|..]; done|]. split; [apply Hserves|].
  destruct Hloc1 as [-> Hother]. done.
Qed.

Lemma turn_forwarded cfd fd now line cmd k rest c n n' d o :
  server_holds fd n d → cluster_holds fd_at c (λ k, view k d) →
  parse line = inr cmd → keyed (type cmd) = true → args cmd = k :: rest → deliverable line →
  (Z.of_nat (String.length line) ≤ routable_length)%Z →
  Server.handleLine fd now true line n = Ok o n' →
  o = Continue ∧ ∃ c' r, cluster_turn cut fd_at cfd now line c = Ok tt c' ∧ in_step fd_at cfd fd c c' n n' [r].
Proof.
  intros Hn [data Hc] Hp Hk Ha Hline Hl Hrun.
  destruct (shard_serves c _ data now line cmd k rest d Hc eq_refl ltac:(apply Hn) Hp Hk Ha Hl)
    as (p & na & Hpeer & Hs & Hq & Hna & Hx).
  destruct (spec_execute 0 now cmd d) as [[r d1]|] eqn:Hx1; cycle 1.
  { by rewrite (serves_undefined _ _ _ _ _ _ Hn Hp Hk Hx1) in Hrun. }
  destruct Hx as (n2 & d2 & Hserves & Hr & Hn2 & Hloc & Hother).
  destruct (serves_keyed _ _ _ _ _ _ _ _ Hn Hp Hk Hl Hx1) as (n1 & E1 & Hn1 & _ & Hsent1).
  rewrite E1 in Hrun. simplify_eq. split; [done|].
  assert (answered_locally (type cmd) = false) as Hloc' by (by destruct (type cmd)).
  destruct (exchange_relays now (Router.addressForKey k (front c)) p line (connection_of (getNode k (shard_ring (front c))) (front c))
    (world c) na n2 r d2 Hpeer (connection_quiet _ _ _ _ Hq) Hna Hs Hline Hserves Hr) as (b' & Ex & Hq').
  assert (str_nonempty (Router.addressForKey k (front c)) = true) as Hne.
  { apply str_nonempty_spec. intros E. by rewrite E in Hpeer. }
  eexists _, r. split.
  - unfold cluster_turn. unfold mbind at 1, M_bind at 1. rewrite (handleLine_forwards _ cfd true line cmd k rest c Hp Ha Hloc').
    unfold mbind at 1, M_bind at 1. rewrite forward_exchange by exact Hne.
    change (ShardTopology.activeAddressFor _ _) with (Router.addressForKey k (front c)). rewrite Ex. reflexivity.
  - split; [|split; [done|by rewrite frames_one]]. exists d1. split; [done|].
    eapply (cluster_data_step c _ _ _ data k p n2 d2 Hc Hpeer); cbn [front set_front topology_ shard_ring world backends_];
      [done|done|done| |done|done|done].
    intros j b. cbn. rewrite lookup_insert. case_decide; [intros [= <-]; left; by subst|by right].
Qed.

Lemma turn_in_step cfd fd now line c n n' o :
  agree fd_at c fd n → transparent line = true → Server.handleLine fd now true line n = Ok o n' →
  o = Continue ∧ ∃ c' rs, cluster_turn cut fd_at cfd now line c = Ok tt c' ∧ in_step fd_at cfd fd c c' n n' rs.
Proof.
  intros (d & Hn & Hc) Ht Hrun. unfold transparent in Ht. destruct_bools.
  match goal with H : (_ <=? _)%Z = true |- _ => apply Z.leb_le in H as Hl end.
  destruct (decide (line = EmptyString)) as [->|Hne].
  { unfold Server.handleLine in Hrun. simpl in Hrun. unfold_M. simplify_eq. split; [done|].
    exists c, []. split; [done|]. split; [by exists d|]. split; [by rewrite app_nil_r|].
    by rewrite str_app_nil_r. }
  destruct (parse line) as [e|cmd] eqn:Hp.
  - destruct (serves_malformed fd now line e n d Hn Hne Hp) as (n1 & E1 & Hn1 & _ & Hsent).
    rewrite E1 in Hrun. simplify_eq. split; [done|]. eexists _, [_]. split; [|by eapply in_step_local].
    unfold cluster_turn, Router.handleLine. rewrite Hp, (proj2 (str_nonempty_spec _) Hne). reflexivity.
  - destruct_bools. destruct (args cmd) as [|k rest] eqn:Ha.
    + assert (type cmd = PING) as Hping.
      { match goal with H : _ || _ = true |- _ => apply orb_true_iff in H as [H|H]; by apply bool_decide_eq_true in H end. }
      assert (spec_execute 0 now cmd d = Some (Reply.ok, d)) as Hx by (unfold spec_execute; by rewrite Hping, Ha).
      destruct (serves_keyed fd now line cmd n d _ _ Hn Hp ltac:(by rewrite Hping) Hl Hx) as (n1 & E1 & Hn1 & _ & Hsent).
      rewrite E1 in Hrun. simplify_eq. split; [done|]. eexists _, [_]. split; [|by eapply in_step_local].
      unfold cluster_turn, Router.handleLine. rewrite Hp, Hping, Ha, (proj2 (str_nonempty_spec _) Hne).
      reflexivity.
    + destruct (turn_forwarded cfd fd now line cmd k rest c n n' d o) as (-> & c' & r & ? & ?); try done.
      split; [done|]. by exists c', [r].
Qed.

Lemma frames_app l1 l2 : frames (l1 ++ l2) = frames l1 +:+ frames l2.
Proof. unfold frames. by rewrite fmap_app, str_concat_app. Qed.

(** The sweepers of both sides leave them in agreement. *)
Lemma agree_expired fd now c n :
  agree fd_at c fd n →
  ∃ n', sweep_all now n = Ok tt n' ∧ sent_to fd n' = sent_to fd n ∧
    agree fd_at (set_world (sweep_nodes now (world c)) c) fd n'.
Proof.
  intros (d & Hn & data & Hc). destruct (sweep_server fd now n d Hn) as (n' & E & Hs & Hn').
  exists n'. split; [done|]. split; [done|]. exists (expire_data now d). split; [done|].
  exists (λ p, expire_data now (data p)). intros k. destruct (Hc k) as (p & Hp & Hst & Hq & (na & Hna & Hda) & Hv).
  cbv zeta in *. exists p. split; [done|]. split; [done|]. split; [done|].
  rewrite !expire_view, Hv. split; [|done]. destruct (sweep_server (fd_at p) now na (data p) Hda) as (na' & Ea & _ & Hda').
  exists na'. split; [|done]. simpl. rewrite lookup_fmap, Hna. simpl. unfold swept. by rewrite Ea.
Qed.

Lemma run_in_step cfd fd evs c n n' :
  agree fd_at c fd n → forallb transparent_traffic evs = true →
  server_run fd evs n = Ok tt n' →
  ∃ c' rs, cluster_run cut fd_at cfd evs c = Ok tt c' ∧ in_step fd_at cfd fd c c' n n' rs.
Proof.
  revert c n. induction evs as [|[now line|now] evs IH]; intros c n Hag Ht Hrun.
  { simpl in Hrun. injection Hrun as <-. exists c, []. split; [done|]. split; [done|].
    by rewrite app_nil_r, str_app_nil_r. }
  - cbn [forallb transparent_traffic] in Ht. destruct_bools. cbn [server_run cluster_run] in *.
    unfold mbind at 1, M_bind at 1 in Hrun. destruct (Server.handleLine fd now true line n) as [o n1|?|] eqn:E1; [|done|done].
    destruct (turn_in_step cfd _ _ _ _ _ _ _ Hag ltac:(done) E1) as (-> & c1 & r1 & Ec1 & Hag1 & Hrep1 & Hs1).
    destruct (IH c1 n1 Hag1 ltac:(done) Hrun) as (c2 & r2 & Ec2 & Hag2 & Hrep2 & Hs2).
    exists c2, (r1 ++ r2). split; [by rewrite (bind_Ok _ _ _ _ _ Ec1)|].
    split; [done|]. split.
    + by rewrite Hrep2, Hrep1, fmap_app, app_assoc.
    + by rewrite Hs2, Hs1, frames_app, str_app_assoc.
  - cbn [server_run cluster_run] in *. destruct (agree_expired fd now c n Hag) as (n1 & E & Hs & Hag1).
    rewrite (bind_Ok _ _ _ _ _ E) in Hrun. destruct (IH _ n1 Hag1 Ht Hrun) as (c2 & rs & Ec2 & Hag2 & Hrep2 & Hs2).
    exists c2, rs. split; [exact Ec2|]. split; [done|]. split; [exact Hrep2|by rewrite Hs2, Hs].
Qed.
End simulation.

Lemma construct_serves fd cfg f : server_holds fd (construct 0 cfg f) (mkData [] ∅).
Proof.
  destruct (construct_empty cfg f) as (Hh & Hp & Hr). split; [done|]. split; [by apply Forall_nil|].
  split; [done|]. unfold construct, Persistence.create. destruct (Aof.create _ _). simpl.
  eexists. split; [reflexivity|]. split; [done|]. simpl. apply not_elem_of_nil.
Qed.

Lemma fresh_nodes_lookup cfg t j p :
  j ∈ ShardTopology.shardIds t → peer_of (ShardTopology.activeAddressFor j t) = Some p →
  fresh_nodes cfg t !! p = Some (construct 0 cfg (mkFS ∅ ∅)).
Proof.
  unfold fresh_nodes. intros Hj Hp. set (n0 := construct 0 cfg (mkFS ∅ ∅)).
  induction (ShardTopology.shardIds t) as [|i ids IH]; [by apply not_elem_of_nil in Hj|]. simpl.
  destruct (peer_of (ShardTopology.activeAddressFor i t)) as [q|] eqn:Eq; simpl.
  - destruct (decide (q = p)) as [->|Hne]; [by rewrite lookup_insert_eq|]. rewrite lookup_insert_ne by done.
    apply IH. apply elem_of_cons in Hj as [->|?]; [congruence|done].
  - apply IH. apply elem_of_cons in Hj as [->|?]; [congruence|done].
Qed.

Lemma fresh_agrees fd_at cfg t fd :
  t ≠ [] → Forall (λ j, is_Some (peer_of (ShardTopology.activeAddressFor j t))) (ShardTopology.shardIds t) →
  agree fd_at (fresh_cluster cfg t) fd (construct 0 cfg (mkFS ∅ ∅)).
Proof.
  intros Ht Hs. exists (mkData [] ∅). split; [apply construct_serves|]. exists (λ _, mkData [] ∅). intros k.
  pose proof (getNode_shard t k Ht) as Hin. rewrite Forall_forall in Hs. destruct (Hs _ Hin) as [p Hp].
  unfold Router.addressForKey. simpl. exists p. split; [done|]. split; [done|].
  split; [by intros b|]. split; [|done]. eexists. split; [by eapply fresh_nodes_lookup|]. apply construct_serves.
Qed.

(** ** Properties *)

(** C4: Sharding is transparent: a router in front of any number of unbounded
    servers gives a client the same replies, line by line, as one unbounded
    server that is sent the same requests at the same times and whose sweeper
    runs at the times at which the sweepers of the nodes run, whichever way the
    network cuts the bytes between router and nodes; what a node handles is what
    the router writes to its connection to that node. The requests are commands
    on a key, PING and malformed lines of at most 8150 bytes without carriage
    return, and the two sides start in agreement, as a new cluster and a new
    server do. *)
Theorem sharding_is_transparent (cut : string → list string) (fd_at : endpoint → Z) (c : Cluster) (cfd fd : Z)
    (n n' : Node) (evs : list traffic) :
  (∀ s, str_concat (cut s) = s) → agree fd_at c fd n → forallb transparent_traffic evs = true →
  server_run fd evs n = Ok tt n' →
  ∃ c' rs, cluster_run cut fd_at cfd evs c = Ok tt c' ∧ agree fd_at c' fd n' ∧
    replies (front c') = replies (front c) ++ ((λ r, (cfd, r)) <$> rs) ∧
    sent_to fd n' = sent_to fd n +:+ frames rs.
Proof. intros Hcut. by apply run_in_step. Qed.

Theorem sharding_is_transparent_witness :
  let evs := [Asked 0 "SET user:1 Kushal"; Asked 1 "INCR hits"; Asked 2 "EXPIRE hits 5"; Asked 2 "GET user:1"; Asked 3 "PING";
              Expired 6000000002; Asked 6000000003 "INCR hits"; Asked 4 "  "] in
  let n := construct 0 defaultPersistenceConfig (mkFS ∅ ∅) in
  ∃ c' rs, cluster_run (λ s, [s]) (λ _, 7%Z) 9 evs
             (fresh_cluster defaultPersistenceConfig (ShardTopology.parseShards sample_config)) = Ok tt c' ∧
    replies (front c') = ((λ r, (9%Z, r)) <$> rs) ∧
    frames rs = frames ["+OK"; ":1"; ":1"; "+Kushal"; "+OK"; ":1"; "-ERR empty command"].
Proof.
  intros evs n.
  destruct (server_run 4 evs n) as [[] n'|?|] eqn:E; [|vm_compute in E; discriminate..].
  edestruct (sharding_is_transparent (λ s, [s]) (λ _, 7%Z)
    (fresh_cluster defaultPersistenceConfig (ShardTopology.parseShards sample_config)) 9 4 n n' evs)
    as (c' & rs & H1 & _ & H2 & H3).
  - intros s. apply str_app_nil_r.
  - apply fresh_agrees; [vm_compute; discriminate|].
    apply (bool_decide_eq_true_1 _). vm_compute. reflexivity.
  - vm_compute. reflexivity.
  - exact E.
  - exists c', rs. split; [exact H1|]. split; [exact H2|].
    assert (sent_to 4 n' = frames ["+OK"; ":1"; ":1"; "+Kushal"; "+OK"; ":1"; "-ERR empty command"]) as <-.
    { vm_compute in E. injection E as <-. vm_compute. reflexivity. }
    rewrite H3. reflexivity.
Defined.

(** SYNC with an argument is forwarded like any keyed command and turns the
    router's connection to the shard into a replica stream: its reply is the
    first line of the dump, and the next request on that shard is answered with
    the next line of the dump. *)
Theorem sync_through_router_desynchronizes :
  ∃ c', cluster_run (λ s, [s]) (λ _, 7%Z) 9
          [Asked 0 "SET user:1 a"; Asked 0 "SET user:2 b"; Asked 0 "SYNC user:1"; Asked 0 "GET user:1"] sample_cluster = Ok tt c' ∧
        (replies (front c')).*2 = ["+OK"; "+OK"; "SET user:2 b"; "SET user:1 a"].
Proof. eexists. split; [vm_compute; reflexivity|vm_compute; reflexivity]. Qed.
