(* ===== verification/Failover.v ===== *)
(** * Failover, end to end

    The health checker of [src/sharding/health_checker.cpp] against running
    processes: a check connects to the nodes of a shard, each request is a turn
    of the node's own handler, and the answers are what comes back. With the
    router and the nodes of [Cluster] this gives what a failover means for a
    client: after it, the cluster still holds the data it held before. *)

From S2P Require Import Prelude CxxStd Protocol Storage Expiry Node Persistence Replication Executor.
From S2P Require Import Recovery Server Ring Config Topology Net Router Cluster.

(** ** Definitions *)

Section checks.
(** The descriptor of the checker's connections at a node, and the clock. *)
Variables (probe now : Z).

(** A request of the checker on a connection of its own: the turn of the node,
    and the line that comes back. *)
Definition request_turn (line : string) (n : Node) : option (option string * Node) :=
  match Server.handleLine probe now true line n with
  | Ok _ n' => Some ((readLine EmptyString [written probe n n']).1, n')
  | _ => None
  end.

Definition answer (line : string) (n : Node) : option string := request_turn line n ≫= fst.

(** The process an address leads to. *)
Definition node_at (addr : string) (w : gmap endpoint Node) : option Node := p ← peer_of addr; w !! p.

(** The processes after the request; nobody may be there to get it. *)
Definition visit (addr line : string) (w : gmap endpoint Node) : gmap endpoint Node :=
  match peer_of addr, node_at addr w ≫= request_turn line with
  | Some p, Some (_, n') => <[p := n']> w
  | _, _ => w
  end.

Definition with_topology (t : topology) (r : Router) : Router :=
  mkRouter t (shard_ring r) (backends_ r) (replies r).

(** [checkShard(shardId)] on the cluster: the answers of its first connection,
    to the primary, its second, to the replica, and its third, the promotion of
    the replica, are those of the processes at that time. *)
Definition check_turn (maxMissedPings : Z) (shardId : string) (c : Cluster) : option Cluster :=
  let t := topology_ (front c) in
  let p := ShardTopology.primaryAddress shardId t in
  let r := ShardTopology.replicaAddress shardId t in
  let w0 := nodes (world c) in
  let w1 := visit p "PING" w0 in
  let w2 := if ShardTopology.hasReplica shardId t then visit r "PING" w1 else w1 in
  let net i (_ : string) (_ : Z) line :=
    match i with
    | 0 => node_at p w0 ≫= answer line
    | 1 => node_at r w1 ≫= answer line
    | _ => node_at r w2 ≫= answer line
    end in
  '(sent, t') ← HealthChecker.checkShard net maxMissedPings shardId t;
  Some (mkSystem (with_topology t' (front c))
          (mkWorld (foldr (λ a, visit a "REPLICAOF NO ONE") w2 sent) (sessions (world c)))).

End checks.

Fixpoint check_turns (probe : Z) (clock : nat → Z) (maxMissedPings : Z) (shardId : string) (count : nat) (c : Cluster)
    : option Cluster :=
  match count with
  | O => Some c
  | S count' =>
      c' ← check_turn probe (clock 0) maxMissedPings shardId c;
      check_turns probe (λ i, clock (S i)) maxMissedPings shardId count' c'
  end.

(** The process at [p] is gone, and with it its connections. *)
Definition crashed (p : endpoint) (c : Cluster) : Cluster :=
  mkSystem (front c) (mkWorld (delete p (nodes (world c))) (delete p (sessions (world c)))).

(** Another process at [p]. *)
Definition set_node (p : endpoint) (n : Node) (c : Cluster) : Cluster :=
  mkSystem (front c) (mkWorld (<[p := n]> (nodes (world c))) (sessions (world c))).

(** A process that could serve [fd] if it were a primary, and holds [d]. *)
Definition standby (fd : Z) (n : Node) (d : Data) : Prop :=
  holds KVStore.represents n 0 d ∧ Forall (λ e, savable e = true) (entries d) ∧
  is_Some (persistence_ n) ∧ ∃ r, replication_ n = Some r ∧ fd ∉ replicaFds_ r.

(** The replica holds what the primary holds. *)
Definition up_to_date (n nr : Node) : Prop := ∀ k,
  value_of k nr = value_of k n ∧
  ExpiryManager.expiryOf k (expiry_ nr) = ExpiryManager.expiryOf k (expiry_ n).

(** A shard before any trouble: served by its primary, at [p], which answers, and
    with a replica somewhere else, at [q]. *)
Definition healthy (s : Shard) (p q : endpoint) : Prop :=
  activeAddress s = address (primary s) ∧ failedOver s = false ∧ shard_hasReplica s = true ∧
  peer_of (address (primary s)) = Some p ∧ peer_of (address (replica s)) = Some q ∧ q ≠ p ∧
  health (primary s) = UP ∧ consecutiveMisses (primary s) = 0%Z.

(** A story for the example below: the first shard of the sample configuration,
    whose replica has synced when the writes begin. *)
Definition story_start : Cluster :=
  let np := default (state_of sample_start) (nodes (world sample_cluster) !! ("127.0.0.1", 6381%Z)) in
  set_node ("127.0.0.1", 6381%Z) (state_of (beginSync 9 true np)) sample_cluster.

(** The replica, told to follow the primary, has applied the stream. *)
Definition replica_joins (c : Cluster) : Cluster :=
  let bytes := match nodes (world c) !! ("127.0.0.1", 6381%Z) with Some np => sent_to 9 np | None => EmptyString end in
  let nr := state_of (Server.handleLine 5 0 true "REPLICAOF 127.0.0.1 6381" (state_of sample_start)) in
  let nr' := state_of (runLoop [mkLinkAttempt true true (lines_of nl bytes) (λ _, 0%Z)] nr) in
  set_node ("127.0.0.1", 6391%Z) nr' c.

(** ** Lemmas *)

Section lemmas.
Variables (probe now : Z).

Lemma written_snoc fd n n' data :
  wire n' = wire n ++ [(fd, data)] → written fd n n' = data.
Proof. intros E. unfold written. rewrite E, drop_app_length. simpl. rewrite filter_cons_True by done. simpl. apply str_app_nil_r. Qed.

(** Both requests of the checker are answered with [+OK], whatever the role. *)
Lemma ping_turn n d fd :
  standby fd n d → ∃ n', request_turn probe now "PING" n = Some (Some "+OK", n') ∧ standby fd n' d.
Proof.
  intros (Hh & Hsv & Hp & r & Hr & Hfd). unfold request_turn, Server.handleLine.
  change (parse "PING") with (inr (A := exn) (mkCommand PING "PING" [])). cbn [str_nonempty negb type].
  rewrite bool_decide_false by done. rewrite (the_replication_bind _ _ _ Hr). simpl andb. cbv iota.
  unfold execute. unfold_M. cbn [type args]. unfold recordAndPropagateIfWrite.
  rewrite andb_false_r. unfold writeLine, writeRaw. unfold_M.
  eexists. split.
  { f_equal. f_equal. erewrite written_snoc by (simpl; reflexivity). vm_compute. reflexivity. }
  split; [exact Hh|]. split; [done|]. split; [done|]. by exists r.
Qed.

Lemma promote_turn n d fd :
  standby fd n d → ∃ n', request_turn probe now "REPLICAOF NO ONE" n = Some (Some "+OK", n') ∧ server_holds fd n' d.
Proof.
  intros (Hh & Hsv & Hp & r & Hr & Hfd). unfold request_turn, Server.handleLine.
  change (parse "REPLICAOF NO ONE") with (inr (A := exn) (mkCommand REPLICAOF "REPLICAOF" ["NO"; "ONE"])).
  cbn [str_nonempty negb type].
  rewrite bool_decide_false by done. rewrite (the_replication_bind _ _ _ Hr). cbn [isWriteCommand andb].
  unfold execute. unfold_M. cbn [type args isWriteCommand andb replication_ set_counters]. rewrite Hr.
  change (equalsIgnoreCase "NO" "NO" && equalsIgnoreCase "ONE" "ONE") with true. cbv iota.
  unfold recordAndPropagateIfWrite. rewrite andb_false_r. unfold writeLine, writeRaw. unfold_M.
  eexists. split.
  { f_equal. f_equal. erewrite written_snoc by (simpl; reflexivity). vm_compute. reflexivity. }
  split; [exact Hh|]. split; [done|]. split; [done|]. eexists. split; [reflexivity|]. split; [done|].
  unfold Replication.replicaOfNoOne, Replication.stop_link. by destruct (replicaLink_ r).
Qed.

Lemma node_at_peer a p w : peer_of a = Some p → node_at a w = w !! p.
Proof. intros Hp. unfold node_at. by rewrite Hp. Qed.

Lemma visit_at w a p line n ans n' :
  peer_of a = Some p → w !! p = Some n → request_turn probe now line n = Some (ans, n') →
  visit probe now a line w = <[p := n']> w.
Proof. intros Hp Hw Hq. unfold visit. rewrite (node_at_peer a p) by done. rewrite Hp, Hw. simpl. by rewrite Hq. Qed.

Lemma visit_nobody w a p line : peer_of a = Some p → w !! p = None → visit probe now a line w = w.
Proof. intros Hp Hw. unfold visit. rewrite (node_at_peer a p) by done. by rewrite Hp, Hw. Qed.

(** A check of a shard whose primary is gone and whose replica stands by. *)
Lemma check_turn_silent max j c s p q nr d fd :
  ShardTopology.findShard j (topology_ (front c)) = Some s → shard_hasReplica s = true → failedOver s = false →
  health (primary s) = UP → (0 ≤ consecutiveMisses (primary s) < max)%Z → (max ≤ int32_max)%Z →
  peer_of (address (primary s)) = Some p → peer_of (address (replica s)) = Some q → nodes (world c) !! p = None →
  nodes (world c) !! q = Some nr → standby fd nr d →
  let last := (max <=? consecutiveMisses (primary s) + 1)%Z in
  ∃ t' s' nr', check_turn probe now max j c =
      Some (mkSystem (with_topology t' (front c)) (mkWorld (<[q := nr']> (nodes (world c))) (sessions (world c)))) ∧
    ShardTopology.findShard j t' = Some s' ∧ layout s' = layout s ∧
    (∀ j', j' ≠ j → ShardTopology.activeAddressFor j' t' = ShardTopology.activeAddressFor j' (topology_ (front c))) ∧
    if last then ShardTopology.activeAddressFor j t' = address (replica s) ∧ server_holds fd nr' d
    else failedOver s' = false ∧ health (primary s') = UP ∧
         consecutiveMisses (primary s') = (consecutiveMisses (primary s) + 1)%Z ∧ standby fd nr' d.
Proof.
  intros Hf Hr Hfo Hu Hm Hmax Hpp Hpq Hp Hnr Hst last.
  assert (is_Some (splitAddress (address (replica s)))) as [hp Hsplit].
  { unfold peer_of in Hpq. destruct (splitAddress (address (replica s))); [by eexists|done]. }
  destruct (ping_turn nr d fd Hst) as (n1 & E1 & Hst1).
  destruct (promote_turn n1 d fd Hst1) as (n2 & E2 & Hs2).
  unfold check_turn. unfold ShardTopology.primaryAddress, ShardTopology.replicaAddress, ShardTopology.hasReplica. rewrite Hf, Hr.
  rewrite (visit_nobody _ _ _ _ Hpp Hp), (visit_at _ _ _ _ _ _ _ Hpq Hnr E1).
  rewrite !(node_at_peer _ _ _ Hpp), !(node_at_peer _ _ _ Hpq), Hp, Hnr, lookup_insert_eq.
  match goal with |- context [HealthChecker.checkShard ?net _ _ _] =>
    destruct (check_silent net max j (topology_ (front c)) s) as (t' & s' & -> & Hf' & Hl & Hother & Hend) end;
    [done|done|done|done|done|done| | | |].
  { unfold HealthChecker.pingNode, HealthChecker.ask. destruct (splitAddress (address (primary s))) as [[]|]; [|done]. by apply bool_decide_false. }
  { unfold HealthChecker.pingNode, HealthChecker.ask, answer. rewrite Hsplit. destruct hp. simpl. rewrite E1. by apply bool_decide_true. }
  { unfold HealthChecker.ask, answer. rewrite Hsplit. destruct hp. simpl. rewrite E2. by apply bool_decide_true. }
  fold last in Hend |- *. destruct last; simpl.
  - eexists t', s', n2. split.
    { rewrite (visit_at _ _ _ _ _ _ _ Hpq (lookup_insert_eq _ _ _) E2), insert_insert_eq. reflexivity. }
    destruct Hend. done.
  - destruct Hend as (_ & ? & ? & ?). exists t', s', n1. done.
Qed.
End lemmas.

(** Enough checks promote the replica and change nothing else. *)
Lemma checks_fail_over probe clock max j count c s p q nr d fd :
  ShardTopology.findShard j (topology_ (front c)) = Some s → shard_hasReplica s = true → failedOver s = false →
  health (primary s) = UP → (0 ≤ consecutiveMisses (primary s) < max)%Z → (max ≤ int32_max)%Z →
  Z.of_nat count = (max - consecutiveMisses (primary s))%Z →
  peer_of (address (primary s)) = Some p → peer_of (address (replica s)) = Some q → q ≠ p →
  nodes (world c) !! p = None → nodes (world c) !! q = Some nr → standby fd nr d →
  ∃ t' nr', check_turns probe clock max j count c =
      Some (mkSystem (with_topology t' (front c)) (mkWorld (<[q := nr']> (nodes (world c))) (sessions (world c)))) ∧
    (∀ j', j' ≠ j → ShardTopology.activeAddressFor j' t' = ShardTopology.activeAddressFor j' (topology_ (front c))) ∧
    ShardTopology.activeAddressFor j t' = address (replica s) ∧ server_holds fd nr' d.
Proof.
  revert clock c s nr. induction count as [|count IH]; intros clock c s nr Hf Hr Hfo Hu Hm Hmax Hcnt Hpp Hpq Hne Hp Hnr Hst; [lia|].
  destruct (check_turn_silent probe (clock 0) max j c s p q nr d fd) as (t1 & s1 & n1 & E & Hf1 & Hl & Hother & Hend); [done..|].
  simpl. rewrite E. simpl. destruct (Z.leb_spec max (consecutiveMisses (primary s) + 1)) as [Hle|Hlt].
  { destruct Hend as [Ha Hs]. assert (count = 0) as -> by lia. exists t1, n1. done. }
  destruct Hend as (Hfo1 & Hu1 & Hc1 & Hst1). unfold layout in Hl. injection Hl as _ Hpa Hr1 Hra.
  destruct (IH (λ i, clock (S i))
    (mkSystem (with_topology t1 (front c)) (mkWorld (<[q := n1]> (nodes (world c))) (sessions (world c)))) s1 n1)
    as (t2 & n2 & E2 & Hother2 & Ha2 & Hs2); simpl; [done|congruence|done|done|lia|lia|lia|congruence|congruence|done| | |done|].
  - by rewrite lookup_insert_ne.
  - by rewrite lookup_insert_eq.
  - exists t2, n2. rewrite Hra in *. split; [rewrite E2; simpl; by rewrite insert_insert_eq|].
    split; [|done]. intros j' Hj. rewrite Hother2 by done. by apply Hother.
Qed.

Lemma holds_value n d k : holds KVStore.represents n 0 d → value_of k n = Lru.lookup k (entries d).
Proof. intros (Hs & _ & _). destruct (store_get _ _ _ k Hs) as (s' & E & _). unfold value_of. by rewrite E. Qed.

(** Up to date: the registers are the same. *)
Lemma up_to_date_view n nr d dr k :
  up_to_date n nr → holds KVStore.represents n 0 d → holds KVStore.represents nr 0 dr → view k dr = view k d.
Proof.
  intros Hup Hn Hnr. destruct (Hup k) as [Hv Ht]. unfold view.
  rewrite <-(holds_value n d k Hn), <-(holds_value nr dr k Hnr), Hv. f_equal.
  destruct Hn as (_ & <- & _), Hnr as (_ & <- & _). exact Ht.
Qed.

(** ** Properties *)

(** C10: Failover is transparent: let a cluster hold the data of one big server, and
    the replica of a healthy shard be up to date. If the primary of the shard
    dies, then after as many checks as pings may be missed the router sends the
    keys of the shard to the promoted replica, and the cluster holds the data of
    the big server as before: as [Cluster] shows for clusters that do, clients
    get its replies from then on, to writes as well as to reads. *)
Theorem failover_is_transparent (fd_at : endpoint → Z) (probe fd max : Z) (clock : nat → Z) (c : Cluster) (n np nr : Node)
    (j : string) (s : Shard) (p q : endpoint) (dr : Data) :
  agree fd_at c fd n → ShardTopology.findShard j (topology_ (front c)) = Some s → healthy s p q →
  nodes (world c) !! p = Some np → nodes (world c) !! q = Some nr →
  standby (fd_at q) nr dr → up_to_date np nr → sessions (world c) !! q ≠ Some Discarding →
  (∀ b, backends_ (front c) !! j = Some b → backend_address b ≠ address (replica s)) →
  (∀ k, getNode k (shard_ring (front c)) ≠ j → ∀ p', peer_of (Router.addressForKey k (front c)) = Some p' → p' ∉ [p; q]) →
  (1 ≤ max ≤ int32_max)%Z →
  ∃ c', check_turns probe clock max j (Z.to_nat max) (crashed p c) = Some c' ∧
    agree fd_at c' fd n ∧ ShardTopology.activeAddressFor j (topology_ (front c')) = address (replica s).
Proof.
  intros (d & Hn & data & Hc) Hf (Hact & Hfo & Hr & Hpp & Hpq & Hne & Hu & Hms) Hnp Hnr Hst Hup Hstr Hbe Hoth Hmax.
  destruct (checks_fail_over probe clock max j (Z.to_nat max) (crashed p c) s p q nr dr (fd_at q))
    as (t' & nr' & E & Hother & Ha & Hs'); simpl; [done|done|done|done|lia|lia|lia|done|done|done|apply lookup_delete_eq| |done|].
  { by rewrite lookup_delete_ne by done. }
  eexists. split; [exact E|]. split; [|exact Ha]. exists d. split; [done|].
  exists (λ p', if decide (p' = q) then dr else data p'). intros k. simpl.
  destruct (Hc k) as (pk & Hk1 & Hk2 & Hk3 & (na & Hna & Hda) & Hk5). cbv zeta in *. unfold Router.addressForKey in *. simpl in *.
  destruct (decide (getNode k (shard_ring (front c)) = j)) as [Hj|Hj].
  - rewrite Hj in *. rewrite Ha. exists q. split; [done|]. split; [by rewrite lookup_delete_ne|]. split.
    { intros b Hb. destruct (Hk3 b Hb) as [Hbuf _]. split; [done|]. intros Haddr. by destruct (Hbe b Hb). }
    rewrite decide_True by done. split; [rewrite lookup_insert_eq; by eauto|].
    rewrite <-Hk5. unfold ShardTopology.activeAddressFor in *. rewrite Hf, Hact in *. simplify_eq.
    eapply up_to_date_view; [done|apply Hda|apply Hst].
  - rewrite Hother by done. pose proof (Hoth k Hj pk Hk1) as Hnin. rewrite not_elem_of_cons, list_elem_of_singleton in Hnin.
    destruct Hnin as [Hn1 Hn2]. exists pk. split; [done|]. split; [by rewrite lookup_delete_ne by done|]. split.
    { intros b Hb. destruct (Hk3 b Hb) as [Hbuf Hq]. split; [done|]. intros Haddr p' Hfd.
      destruct (Hq Haddr p' Hfd) as (Hp' & ? & ?). split; [done|]. split; [|done]. simpl.
      rewrite lookup_delete_ne; [done|]. congruence. }
    rewrite decide_False by done. rewrite lookup_insert_ne, lookup_delete_ne by done. by eauto.
Qed.

(** A process more, at an endpoint no key is routed to. *)
Lemma agree_insert fd_at c fd n p na :
  agree fd_at c fd n → (∀ k, peer_of (Router.addressForKey k (front c)) ≠ Some p) →
  agree fd_at (set_node p na c) fd n.
Proof.
  intros (d & Hn & data & Hc) Ha. exists d. split; [done|]. exists data. intros k.
  destruct (Hc k) as (pk & H1 & H2 & H3 & (n' & H4 & H5) & H6). exists pk. simpl. split; [done|]. split; [done|]. split; [done|].
  split; [|done]. exists n'. split; [|done]. rewrite lookup_insert_ne; [done|]. intros ->. by apply (Ha k).
Qed.

Lemma sample_address k :
  let t := ShardTopology.parseShards sample_config in
  getNode k (shard_ring (Router.create t)) = "shard0" ∨
  Router.addressForKey k (Router.create t) = "127.0.0.1:6382".
Proof.
  intros t. pose proof (getNode_shard t k ltac:(vm_compute; discriminate)) as Hin.
  unfold Router.addressForKey. change (topology_ (Router.create t)) with t.
  change (ShardTopology.shardIds t) with ["shard0"; "shard1"] in Hin.
  apply elem_of_cons in Hin as [->|Hin]; [by left|]. apply list_elem_of_singleton in Hin as ->. by right.
Qed.

Lemma construct_standby fd cfg f : standby fd (construct 0 cfg f) (mkData [] ∅).
Proof.
  destruct (construct_serves fd cfg f) as (? & ? & ? & r & ? & _ & ?). split; [done|]. split; [done|]. split; [done|]. by exists r.
Qed.

Theorem failover_is_transparent_witness :
  let c := fresh_cluster defaultPersistenceConfig (ShardTopology.parseShards sample_config) in
  let n := construct 0 defaultPersistenceConfig (mkFS ∅ ∅) in
  ∃ c', check_turns 20 (λ _, 0%Z) 3 "shard0" 3
          (crashed ("127.0.0.1", 6381%Z) (set_node ("127.0.0.1", 6391%Z) n c)) = Some c' ∧
        agree (λ _, 7%Z) c' 4 n ∧
        ShardTopology.activeAddressFor "shard0" (topology_ (front c')) = "127.0.0.1:6391".
Proof.
  intros c n.
  apply (failover_is_transparent (λ _, 7%Z) 20 4 3 (λ _, 0%Z) (set_node ("127.0.0.1", 6391%Z) n c) n n n "shard0"
    (ShardTopology.parseShard sample_config "shard0") ("127.0.0.1", 6381%Z) ("127.0.0.1", 6391%Z) (mkData [] ∅)).
  - apply agree_insert.
    + apply fresh_agrees; [vm_compute; discriminate|]. apply (bool_decide_eq_true_1 _). vm_compute. reflexivity.
    + intros k. destruct (sample_address k) as [E|E].
      * unfold Router.addressForKey. change (shard_ring (front c)) with (shard_ring (Router.create (ShardTopology.parseShards sample_config))).
        rewrite E. vm_compute. discriminate.
      * change (front c) with (Router.create (ShardTopology.parseShards sample_config)). rewrite E. vm_compute. discriminate.
  - vm_compute. reflexivity.
  - split_and!; vm_compute; (reflexivity || discriminate).
  - vm_compute. reflexivity.
  - reflexivity.
  - apply construct_standby.
  - intros k. split; reflexivity.
  - discriminate.
  - intros b. discriminate.
  - intros k Hk. destruct (sample_address k) as [E|E]; [destruct Hk; exact E|].
    change (front _) with (Router.create (ShardTopology.parseShards sample_config)). rewrite E.
    assert (peer_of "127.0.0.1:6382" = Some ("127.0.0.1", 6382%Z)) as -> by (vm_compute; reflexivity).
    intros p' [= <-]. apply (bool_decide_eq_true_1 _). vm_compute. reflexivity.
  - vm_compute. split; discriminate.
Defined.



(** A failover as a client of the router sees it: it sets and increments [c], the
    primary of its shard dies, three checks later it reads what it wrote and goes
    on counting, on the replica. *)
Example failover_story :
  ∃ c2 c4 c5,
    cluster_run (λ s, [s]) (λ _, 7%Z) 4 [Asked 0 "SET c 1"; Asked 0 "INCR c"; Asked 0 "INCR hits"] story_start = Ok tt c2 ∧
    check_turns 20 (λ _, 0%Z) 3 "shard0" 3 (crashed ("127.0.0.1", 6381%Z) (replica_joins c2)) = Some c4 ∧
    cluster_run (λ s, [s]) (λ _, 7%Z) 4 [Asked 0 "GET c"; Asked 0 "INCR c"; Asked 0 "GET hits"] c4 = Ok tt c5 ∧
    (replies (front c5)).*2 = ["+OK"; ":2"; ":1"; "+2"; ":3"; "+1"].
Proof.
  eexists _, _, _. split; [vm_compute; reflexivity|]. split; [vm_compute; reflexivity|].
  split; vm_compute; reflexivity.
Qed.
