(* ===== verification/Routing.v ===== *)
(** * Clients of the router that run at the same time

    The handler of [src/sharding/router.cpp] once more, cut where other threads
    can come in between: reading the topology, finding the connection of a shard
    in the map, and the exchange on it, which holds the mutex of the connection
    from the first byte of the request to the last of the reply, are one step
    each. What the process at the other end does with the bytes of the request
    is part of the exchange ([Interleaving] is about what processes do with
    several connections); the sweepers of the processes run in between. *)

From S2P Require Import Prelude CxxStd Protocol Storage Expiry Node Persistence Replication Executor.
From S2P Require Import Recovery Server Linearize Interleaving Ring Config Topology Net Router Cluster Failover.

(** ** Definitions *)

(** What a thread is asked to do: answer a line, at time [now], or, the sweeper
    of the process at [p], remove what is due there at time [now]. *)
Inductive errand : Type :=
| Request (now : Z) (line : string)
| Sweep (now : Z) (p : endpoint).

Definition sweep_at (now : Z) (p : endpoint) : M Cluster unit :=
  on_world (modify (λ w, mkWorld (alter (swept now) p (nodes w)) (sessions w))).

Section routing.
(** How the network cuts what is written, and the router's descriptors at the
    nodes, as in [Cluster]. *)
Variables (cut : string → list string) (fd_at : endpoint → Z).

(** [forward] under the mutex of the connection, with what the processes do in
    the meantime. *)
Definition exchange_turn (now : Z) (shardId address line : string) : M Cluster (option string) :=
  Router.exchange_on (cluster_network cut fd_at now) shardId address line.

Definition forward_steps (now : Z) (shardId line : string) : prog Cluster (option string) :=
  address ← step (gets (λ c, ShardTopology.activeAddressFor shardId (topology_ (front c))));
  if negb (str_nonempty address) then mret None
  else
    step (on_front (Router.backendFor shardId));;
    step (exchange_turn now shardId address line).

Definition answer_steps (fd : Z) (sent : bool) (r : string) : prog Cluster bool :=
  step (Router.reply fd r);; mret sent.

Definition route_steps (fd now : Z) (sent : bool) (line : string) : prog Cluster bool :=
  if negb (str_nonempty line) then mret true
  else
    match parse line with
    | inl e => answer_steps fd sent (Reply.error (what e))
    | inr cmd =>
        match type cmd, args cmd with
        | ROUTE, [k] =>
            address ← step (gets (λ c, Router.addressForKey k (front c)));
            answer_steps fd sent (Reply.bulk address)
        | ROUTE, _ => answer_steps fd sent (Reply.error "wrong number of arguments for 'ROUTE'")
        | NODES, [] =>
            out ← step (gets (λ c, Router.nodesReply (topology_ (front c))));
            answer_steps fd sent (Reply.bulk out)
        | NODES, _ => answer_steps fd sent (Reply.error "wrong number of arguments for 'NODES'")
        | PING, [] => answer_steps fd sent Reply.ok
        | _, [] => answer_steps fd sent (Reply.error ("'" +:+ name cmd +:+ "' has no key to route on"))
        | _, k :: _ =>
            shardId ← step (gets (λ c, getNode k (shard_ring (front c))));
            response ← forward_steps now shardId line;
            match response with
            | None => answer_steps fd sent (Reply.error ("shard " +:+ shardId +:+ " unavailable"))
            | Some response => answer_steps fd sent response
            end
        end
    end.

(** A thread: of a connection of the router, or of a sweeper, which goes back to
    waiting when nothing is due. *)
Fixpoint attend_steps (fd : Z) (todo : list errand) : prog Cluster unit :=
  match todo with
  | [] => mret tt
  | Request now line :: todo' =>
      go_on ← route_steps fd now true line;
      if go_on : bool then attend_steps fd todo' else mret tt
  | Sweep now p :: todo' => step (sweep_at now p);; step (mret tt);; attend_steps fd todo'
  end.

Definition attend (cl : Peer errand) : prog Cluster unit := attend_steps (peer_fd cl) (peer_requests cl).

(** The replies written to a connection of the router. *)
Definition answers_to (fd : Z) (c : Cluster) : list string := (filter (λ x, x.1 = fd) (replies (front c))).*2.

(** Whether the process at [p] is responsible for [k]. *)
Definition kept_at (t : topology) (ring : ConsistentHashRing) (p : endpoint) (k : string) : bool :=
  bool_decide (peer_of (ShardTopology.activeAddressFor (getNode k ring) t) = Some p).

(** The data after the deadlines up to [now] of the keys in [keys] have been
    acted on. *)
Definition expire_keys (keys : string → bool) (now : Z) (d : Data) : Data :=
  mkData (filter (λ e, keys e.1 && due now d e.1 = false) (entries d))
    (filter (λ x, keys x.1 && (x.2 <=? now)%Z = false) (ttl d)).

(** What one unbounded server does: a request gets a reply, and a sweeper gets
    none. *)
Definition errand_execute (t : topology) (ring : ConsistentHashRing) (q : errand) (d : Data) : option (option string * Data) :=
  match q with
  | Request now line => '(r, d') ← spec_request 0 (now, line) d; Some (Some r, d')
  | Sweep now p => Some (None, expire_keys (kept_at t ring p) now d)
  end.

Definition to_answer (q : errand) : bool := match q with Request _ line => str_nonempty line | Sweep _ _ => true end.

Definition transparent_errand (q : errand) : bool := match q with Request _ line => transparent line | Sweep _ _ => true end.

Definition and_then (o : list string) (rs : list (option string)) : list string := o ++ omap (λ r, r) rs.

(** A cluster that holds [d], spread over its shards. *)
Definition spread (t : topology) (ring : ConsistentHashRing) (d : Data) (c : Cluster) : Prop :=
  topology_ (front c) = t ∧ shard_ring (front c) = ring ∧ Forall (λ e, savable e = true) (entries d) ∧
  cluster_holds fd_at c (λ k, view k d).

(** What a cluster does for its clients is what one unbounded server does. *)
Definition cluster_service (t : topology) (ring : ConsistentHashRing)
    : Service Cluster Data errand (option string) (list string) :=
  mkService (spread t ring) (errand_execute t ring) to_answer answers_to and_then (app_nil_r (A := string))
    (λ o rs rs', eq_trans (eq_sym (app_assoc _ _ _)) (f_equal (app o) (eq_sym (omap_app (λ r, r) rs rs')))).

End routing.

(** *** Examples *)

Definition sample_peers : list (Peer errand) :=
  [mkPeer 4 [Request 0 "SET user:1 a EX 3"; Request 0 "INCR hits"];
   mkPeer 5 [Request 0 "INCR hits"; Request 0 ""; Request 4000000000 "GET user:1"];
   mkPeer (-1) [Sweep 4000000000 ("127.0.0.1", 6381%Z); Sweep 4000000000 ("127.0.0.1", 6382%Z)]].

(** The rest of the world while a client waits: the primary of the first shard
    goes away, three checks promote its replica, and the primary is restarted. *)
Definition checking : M Cluster unit := λ c,
  match check_turn 20 0 3 "shard0" c with
  | Some c' => Ok tt c'
  | None => Undef
  end.

Definition old_primary_returns : prog Cluster unit :=
  step (modify (crashed ("127.0.0.1", 6381%Z)));;
  step checking;; step checking;; step checking;;
  step (modify (set_node ("127.0.0.1", 6381%Z) (state_of sample_start))).

(** ** Lemmas *)

Section lemmas.
Variables (cut : string → list string) (fd_at : endpoint → Z).
Hypothesis cut_concat : ∀ s, str_concat (cut s) = s.

(** An exchange does to the data what one server does. *)
Lemma exchange_turn_serves t ring now line cmd k rest c d :
  spread fd_at t ring d c → parse line = inr cmd → keyed (type cmd) = true → args cmd = k :: rest → deliverable line →
  (Z.of_nat (String.length line) ≤ routable_length)%Z →
  let x := exchange_turn cut fd_at now (getNode k ring) (ShardTopology.activeAddressFor (getNode k ring) t) line c in
  match spec_execute 0 now cmd d with
  | Some (r, d') => ∃ c', x = Ok (Some r) c' ∧ spread fd_at t ring d' c' ∧ replies (front c') = replies (front c)
  | None => x = Undef
  end.
Proof.
  intros (Ht & Hring & Hsv & data & Hc) Hp Hk Ha Hline Hl x. subst t ring.
  destruct (shard_serves fd_at c _ data now line cmd k rest d Hc eq_refl Hsv Hp Hk Ha Hl) as (p & na & Hpeer & Hs & Hq & Hna & Hx).
  change (ShardTopology.activeAddressFor _ _) with (Router.addressForKey k (front c)) in x.
  unfold x, exchange_turn, Router.exchange_on, on_front, on_world. clear x. unfold_M. cbn [set_front front world].
  set (j := getNode k (shard_ring (front c))) in *. change (default _ _) with (connection_of j (front c)).
  destruct (spec_execute 0 now cmd d) as [[r d1]|] eqn:Hx1; cycle 1.
  { by rewrite (exchange_undefined cut fd_at cut_concat now (Router.addressForKey k (front c)) p line (connection_of j (front c))
      (world c) na Hpeer (connection_quiet _ _ _ _ Hq) Hna Hs Hline Hx). }
  destruct Hx as (n2 & d2 & Hserves & Hr & Hn2 & Hloc & Hother).
  destruct (exchange_relays cut fd_at cut_concat now (Router.addressForKey k (front c)) p line (connection_of j (front c))
    (world c) na n2 r d2 Hpeer (connection_quiet _ _ _ _ Hq) Hna Hs Hline Hserves Hr) as (b' & -> & Hq').
  eexists. split; [reflexivity|]. split; [|done]. split; [done|]. split; [done|]. split.
  { eapply spec_savable; [exact Hp| |exact Hx1|done]. unfold routable_length, safe_length in *. lia. }
  eapply (cluster_data_step fd_at c _ _ _ data k p n2 d2 Hc Hpeer); cbn [front set_front topology_ shard_ring world backends_];
    [done|done|done| |done|done|done].
  intros i b. cbn. rewrite lookup_insert. case_decide; [intros [= <-]; left; by subst|by right].
Qed.

(** *** Threads of the router conform *)

Context (t : topology) (ring : ConsistentHashRing) (fds : list Z).

Local Abbreviation sv := (cluster_service fd_at t ring).

Lemma reply_told fd r c d :
  spread fd_at t ring d c → ∃ c', Router.reply fd r c = Ok tt c' ∧ spread fd_at t ring d c' ∧
    unheard sv (filter (.≠ fd) fds) c c' ∧ answers_to fd c' = answers_to fd c ++ [r].
Proof.
  intros Hs. eexists. split; [reflexivity|]. split; [exact Hs|]. unfold unheard, answers_to. simpl. split.
  - intros fd' [Hne _]%list_elem_of_filter. unfold answers_to. simpl.
    by rewrite filter_app, filter_cons_False, app_nil_r by (simpl; congruence).
  - by rewrite filter_app, filter_cons_True, fmap_app.
Qed.

Lemma conforms_answer fd r todo (K : bool → prog Cluster unit) :
  conforms sv fds fd todo None (K true) → conforms sv fds fd todo (Some (Some r)) (answer_steps fd true r ≫= K).
Proof.
  intros HK c d Hs. right. right. exists (Some r), todo. split; [by left|].
  destruct (reply_told fd r c d Hs) as (c' & ? & ? & ? & ?). by exists tt, c'.
Qed.

(** A request the router answers itself. *)
Lemma conforms_local fd q r todo (K : bool → prog Cluster unit) :
  (∀ d, errand_execute t ring q d = Some (Some r, d)) → conforms sv fds fd todo None (K true) →
  conforms sv fds fd (q :: todo) None (answer_steps fd true r ≫= K).
Proof.
  intros Hq HK c d Hs. right. right. exists (Some r), todo. split; [right; split; [done|]; exists q; by split; [|apply Hq]|].
  destruct (reply_told fd r c d Hs) as (c' & ? & ? & ? & ?). by exists tt, c'.
Qed.

Lemma effects_backendFor j d (P : BackendConnection → Prop) :
  (∀ b, P b) → effects sv fds (on_front (Router.backendFor j)) d d P.
Proof.
  intros HP c Hs. unfold on_front. unfold_M. rewrite backendFor_spec. eexists _, _. split; [reflexivity|].
  split; [|by split]. destruct Hs as (Ht & Hr & Hsv & data & Hc). split; [done|]. split; [done|]. split; [done|].
  exists data. intros k. destruct (Hc k) as (p & H1 & H2 & H3 & H4). exists p. split; [done|]. split; [done|]. split; [|done].
  intros b. simpl. rewrite lookup_insert. case_decide as Hj; [intros [= <-]|apply H3]. apply connection_quiet. by rewrite Hj.
Qed.

Lemma forward_conforms fd now line cmd k rest todo (K : option string → prog Cluster unit) :
  parse line = inr cmd → keyed (type cmd) = true → args cmd = k :: rest → deliverable line →
  (Z.of_nat (String.length line) ≤ routable_length)%Z →
  (∀ r, conforms sv fds fd todo (Some (Some r)) (K (Some r))) →
  conforms sv fds fd (Request now line :: todo) None (forward_steps cut fd_at now (getNode k ring) line ≫= K).
Proof.
  intros Hp Hk Ha Hline Hl HK. apply conforms_silent. intros d. apply effects_same. intros c (Ht & Hr & _ & data & Hc).
  eexists. split; [reflexivity|]. rewrite Ht. destruct (Hc k) as (p & Hpeer & _). unfold Router.addressForKey in Hpeer.
  rewrite Ht, Hr in Hpeer. destruct (str_nonempty _) eqn:Hne; cycle 1.
  { apply not_true_iff_false in Hne. destruct Hne. apply str_nonempty_spec. intros E. by rewrite E in Hpeer. }
  apply conforms_silent. intros d1. apply effects_backendFor. intros _.
  intros c1 d2 Hs. right. left. split; [done|]. exists (Request now line), todo. split; [done|]. simpl. unfold spec_request. simpl.
  rewrite Hp. pose proof (exchange_turn_serves t ring now line cmd k rest c1 d2 Hs Hp Hk Ha Hline Hl) as Hx.
  destruct (spec_execute 0 now cmd d2) as [[r d']|]; [|exact Hx]. destruct Hx as (c' & E & Hs' & Hrep).
  exists (Some r), c'. split; [exact E|]. split; [done|]. split; [|apply HK].
  intros fd' _. simpl. unfold answers_to. by rewrite Hrep.
Qed.

Lemma route_conforms fd now line todo (K : bool → prog Cluster unit) :
  transparent line = true → str_nonempty line = true → conforms sv fds fd todo None (K true) →
  conforms sv fds fd (Request now line :: todo) None (route_steps cut fd_at fd now true line ≫= K).
Proof.
  intros Htr Hne HK. unfold transparent in Htr. destruct_bools.
  match goal with H : (_ <=? _)%Z = true |- _ => apply Z.leb_le in H as Hl end.
  unfold route_steps. rewrite Hne. simpl negb. cbv iota. destruct (parse line) as [e|cmd] eqn:Hp.
  { apply conforms_local; [|done]. intros d. simpl. unfold spec_request. simpl. by rewrite Hp. }
  destruct_bools. destruct (args cmd) as [|k rest] eqn:Ha.
  - assert (type cmd = PING) as Hping.
    { match goal with H : _ || _ = true |- _ => apply orb_true_iff in H as [H|H]; by apply bool_decide_eq_true in H end. }
    rewrite Hping. apply conforms_local; [|done]. intros d. simpl. unfold spec_request, spec_execute. simpl. by rewrite Hp, Hping, Ha.
  - assert (conforms sv fds fd (Request now line :: todo) None
      ((shardId ← step (gets (λ c, getNode k (shard_ring (front c))));
        response ← forward_steps cut fd_at now shardId line;
        match response with
        | None => answer_steps fd true (Reply.error ("shard " +:+ shardId +:+ " unavailable"))
        | Some response => answer_steps fd true response
        end) ≫= K)) as Hf.
    { apply conforms_silent. intros d. apply effects_same. intros c (_ & Hr & _). eexists. split; [reflexivity|]. rewrite Hr.
      apply (conforms_assoc _ _ (forward_steps cut fd_at now (getNode k ring) line)).
      eapply forward_conforms; [done|done|done| |done|].
      { by split. }
      intros r. by apply conforms_answer. }
    destruct (type cmd); try done; exact Hf.
Qed.

Lemma expire_keys_view keys now d k :
  view k (expire_keys keys now d) = if keys k then expire_register now (view k d) else view k d.
Proof.
  unfold view, expire_keys, expire_register. simpl. rewrite (lookup_filter (λ k, keys k && due now d k)). unfold due.
  destruct (ttl d !! k) as [t0|] eqn:E; cbn [snd].
  - destruct (keys k) eqn:Hk, (Z.leb_spec t0 now) as [Hle|Hlt]; simpl; f_equal;
      try (apply map_lookup_filter_Some; split; [done|]; simpl; rewrite Hk; try done; by apply Z.leb_gt).
    apply map_lookup_filter_None. right. intros t' Ht'. rewrite E in Ht'. injection Ht' as <-. simpl.
    rewrite Hk, (proj2 (Z.leb_le _ _) Hle). done.
  - rewrite andb_false_r. destruct (keys k); f_equal; apply map_lookup_filter_None; by left.
Qed.

Lemma sweep_conforms fd now p todo rest :
  conforms sv fds fd todo None rest →
  conforms sv fds fd (Sweep now p :: todo) None (step (sweep_at now p);; step (mret tt);; rest).
Proof.
  intros HK c d (Ht & Hr & Hsv & data & Hc). right. left. split; [done|]. exists (Sweep now p), todo. split; [done|].
  simpl. eexists _, _. split; [reflexivity|]. split; [|split; [done|]]; cycle 1.
  { intros c1 d1 Hs. right. right. exists None, todo. split; [by left|]. exists tt, c1. split_and!; try done.
    symmetry. apply app_nil_r. }
  split; [done|]. split; [done|]. split.
  { apply Forall_forall. intros e He. simpl in He. apply list_elem_of_filter in He as [_ He]. rewrite Forall_forall in Hsv. auto. }
  exists (λ q, if decide (q = p) then expire_data now (data q) else data q). intros k.
  destruct (Hc k) as (q & Hq & Hst & Hb & (n & Hn & Hd) & Hv). cbv zeta in *. exists q. split; [done|]. split; [done|]. split; [done|].
  rewrite expire_keys_view. unfold kept_at. unfold Router.addressForKey in Hq. rewrite Ht, Hr in Hq. rewrite Hq. simpl.
  destruct (decide (q = p)) as [->|Hne].
  - rewrite lookup_alter_eq, Hn, bool_decide_true, expire_view, Hv by done. split; [|done].
    destruct (sweep_server (fd_at p) now n (data p) Hd) as (n' & E & _ & Hd'). exists n'. split; [|done]. simpl. unfold swept. by rewrite E.
  - rewrite lookup_alter_ne, bool_decide_false by congruence. split; [|done]. by exists n.
Qed.

Lemma client_conforms fd (todo : list errand) :
  Forall (λ q, transparent_errand q = true) todo →
  conforms sv fds fd (filter (λ q, to_answer q = true) todo) None (attend_steps cut fd_at fd todo).
Proof.
  induction 1 as [|[now line|now p] todo Htr _ IH]; [done| |]; rewrite filter_cons; cbn [attend_steps to_answer].
  - case_decide as Hne; [by apply route_conforms|]. unfold route_steps. apply not_true_is_false in Hne. by rewrite Hne.
  - rewrite decide_True by done. by apply sweep_conforms.
Qed.

End lemmas.

Lemma fresh_spread fd_at cfg t :
  t ≠ [] → Forall (λ j, is_Some (peer_of (ShardTopology.activeAddressFor j t))) (ShardTopology.shardIds t) →
  spread fd_at t (shard_ring (Router.create t)) (mkData [] ∅) (fresh_cluster cfg t).
Proof.
  intros Ht Hs. split; [done|]. split; [done|]. split; [by apply Forall_nil|]. exists (λ _, mkData [] ∅). intros k.
  pose proof (getNode_shard t k Ht) as Hin. rewrite Forall_forall in Hs. destruct (Hs _ Hin) as [p Hp].
  unfold Router.addressForKey. simpl. exists p. split; [done|]. split; [done|].
  split; [by intros b|]. split; [|done]. eexists. split; [by eapply fresh_nodes_lookup|]. apply construct_serves.
Qed.

(** ** Properties *)

(** C7: Clients of the router that run at the same time cannot tell the cluster from
    one server that handles their requests one after the other: as long as no
    shard fails over, for any number of clients and of sweepers at the nodes and
    any interleaving of the router's threads with the sweeps, there is at every
    moment an order of the requests forwarded or answered and of the sweeps done
    so far that explains the data of all the nodes together, deadlines included,
    and every reply, keeps the order of each client and only grows; a client
    whose thread is done got all its replies. A sweep removes from the one
    server what is due there of the keys of one node. The requests are those of
    [transparent], and a node's part of an exchange and a sweep are not
    interrupted by others at that node. *)
Theorem concurrent_routing_is_transparent (cut : string → list string) (fd_at : endpoint → Z) (t : topology)
    (ring : ConsistentHashRing) (cls : list (Peer errand)) (d0 : Data) (c0 : Cluster) (s s' : machine Cluster) :
  let sv := cluster_service fd_at t ring in
  (∀ s, str_concat (cut s) = s) → holding sv d0 c0 → NoDup (peer_fd <$> cls) →
  Forall (λ cl, Forall (λ q, transparent_errand q = true) (peer_requests cl)) cls →
  rtc machine_step (mkMachine (attend cut fd_at <$> cls) c0) s → rtc machine_step s s' →
  ∃ ops later, explained sv cls d0 c0 ops s ∧ explained sv cls d0 c0 (ops ++ later) s'.
Proof.
  intros sv Hcut Hh Hnd Htr. rewrite <-(app_nil_r (attend cut fd_at <$> cls)). apply service_linearizes; [done|done|done|]. rewrite Forall_forall in Htr. intros cl Hcl.
  exact (client_conforms cut fd_at Hcut t ring (peer_fd <$> cls) (peer_fd cl) (peer_requests cl) (Htr cl Hcl)).
Qed.

Theorem concurrent_routing_is_transparent_witness :
  let t := ShardTopology.parseShards sample_config in
  let sv := cluster_service (λ _, 7%Z) t (shard_ring (Router.create t)) in
  let c0 := fresh_cluster defaultPersistenceConfig t in
  let s := run_schedule [0; 1; 0; 1; 1; 0; 0; 1; 2; 0; 2] (mkMachine (attend (λ s, [s]) (λ _, 7%Z) <$> sample_peers) c0) in
  ∃ ops later, explained sv sample_peers (mkData [] ∅) c0 ops s ∧
    explained sv sample_peers (mkData [] ∅) c0 (ops ++ later) (run_schedule (replicate 20 0 ++ replicate 20 2 ++ replicate 20 1) s).
Proof.
  intros t sv c0 s.
  apply (concurrent_routing_is_transparent (λ s, [s]) (λ _, 7%Z) t (shard_ring (Router.create t)) sample_peers (mkData [] ∅) c0).
  - intros x. apply str_app_nil_r.
  - apply fresh_spread; [vm_compute; discriminate|]. apply (bool_decide_eq_true_1 _). vm_compute. reflexivity.
  - apply (bool_decide_eq_true_1 _). reflexivity.
  - apply (bool_decide_eq_true_1 _). vm_compute. reflexivity.
  - apply run_schedule_rtc.
  - apply run_schedule_rtc.
Defined.

(** And no client of the router waits for another one for ever. *)
Theorem routed_clients_do_not_block (cut : string → list string) (fd_at : endpoint → Z) (t : topology)
    (ring : ConsistentHashRing) (cls : list (Peer errand)) (d0 : Data) (c0 : Cluster) (s : machine Cluster)
    (i : nat) (cl : Peer errand) :
  let sv := cluster_service fd_at t ring in
  (∀ s, str_concat (cut s) = s) → holding sv d0 c0 → NoDup (peer_fd <$> cls) →
  Forall (λ cl, Forall (λ q, transparent_errand q = true) (peer_requests cl)) cls →
  rtc machine_step (mkMachine (attend cut fd_at <$> cls) c0) s → cls !! i = Some cl →
  ∃ s', rtc (thread_step i) s s' ∧ (threads s' !! i = Some (Done tt) ∨ at_undefined sv cls d0 c0 i cl s').
Proof.
  intros sv Hcut Hh Hnd Htr. rewrite <-(app_nil_r (attend cut fd_at <$> cls)). apply (service_does_not_block sv); [done|done|done|]. rewrite Forall_forall in Htr. intros cl' Hcl.
  exact (client_conforms cut fd_at Hcut t ring (peer_fd <$> cls) (peer_fd cl') (peer_requests cl') (Htr cl' Hcl)).
Qed.

(** [forward] asks for the address of the shard before it waits for the mutex of
    the connection. A failover in between, and the request goes to the old
    primary if that is back: the write is answered [+OK], and the next request
    of the same client, sent to the new primary, does not see it. *)
Theorem stale_address_loses_write :
  let s0 := mkMachine [attend (λ s, [s]) (λ _, 7%Z) (mkPeer 4 [Request 0 "SET c 1"; Request 0 "GET c"]); old_primary_returns]
              (replica_joins story_start) in
  let s := run_schedule ([0; 0] ++ replicate 5 1 ++ replicate 8 0) s0 in
  rtc machine_step s0 s ∧ threads s = [Done tt; Done tt] ∧
  answers_to 4 (process s) = [Reply.ok; Reply.nil] ∧
  let value_at p := nodes (world (process s)) !! p ≫= value_of "c" in
  value_at ("127.0.0.1", 6381%Z) = Some "1" ∧ value_at ("127.0.0.1", 6391%Z) = None.
Proof. split; [apply run_schedule_rtc|]. vm_compute. done. Qed.
