(* ===== verification/Session.v ===== *)
(** * Sessions: the connection handlers on a stream of bytes

    [handleConnection] of [src/server_main.cpp] and [Router::handleConnection]
    are loops [while (reader.readLine(fd, line)) ...] around a turn. [read_loop]
    is that loop on the chunks a connection delivers; the theorems show that a
    session depends on the bytes only, not on how TCP cuts them, and reduce it
    to the turns on its lines. *)

From S2P Require Import Prelude CxxStd Protocol Storage Expiry Node Persistence Replication Executor.
From S2P Require Import Recovery Server Ring Config Topology Net Router.

(** ** Definitions *)

Section loops.
Context {St : Type}.
(** The body of the loop for the [i]-th line: whether the loop goes on. *)
Variable body : nat → string → M St bool.

(** [while (reader.readLine(fd, line)) body], with the reader's buffer and what
    the connection will deliver before it ends. *)
Fixpoint read_loop (fuel i : nat) (buffer_ : string) (chunks : list string) : M St unit :=
  match fuel with
  | O => undef
  | S fuel' =>
      match readLine buffer_ chunks with
      | (None, _) => mret tt
      | (Some line, (buffer', chunks')) =>
          go_on ← body i line;
          if go_on : bool then read_loop fuel' (S i) buffer' chunks' else mret tt
      end
  end.

(** Every line takes at least its line feed out of the stream, so one more turn
    than there are bytes is never reached. *)
Definition connection_loop (chunks : list string) : M St unit :=
  read_loop (S (String.length (str_concat chunks))) 0 EmptyString chunks.

(** The same turns on a list of lines. *)
Fixpoint line_loop (i : nat) (lines : list string) : M St unit :=
  match lines with
  | [] => mret tt
  | line :: lines' =>
      go_on ← body i line;
      if go_on : bool then line_loop (S i) lines' else mret tt
  end.
End loops.

(** What the outside contributes to the [i]-th turn of a server connection: the
    clock, and the result of the turn's write. *)
Record TurnEnv : Type := mkTurnEnv { turn_now : Z; turn_sent : bool }.

(** One turn; a connection that sent SYNC reads and discards what follows until
    the replica hangs up. *)
Definition server_turn (fd : Z) (env : nat → TurnEnv) (i : nat) (line : string) : M Node bool :=
  o ← Server.handleLine fd (turn_now (env i)) (turn_sent (env i)) line;
  match o with
  | Continue => mret true
  | Break => mret false
  | Stream => endSync fd;; mret false
  end.

(** [handleConnection] of the server. *)
Definition serve_connection (fd : Z) (env : nat → TurnEnv) (chunks : list string) : M Node unit :=
  connection_loop (server_turn fd env) chunks.

Definition router_turn {W} (net : Network W) (fd : Z) (sent : nat → bool) (i : nat) (line : string) : M (System W) bool :=
  Router.handleLine net fd (sent i) line.

(** [Router::handleConnection]. *)
Definition route_connection {W} (net : Network W) (fd : Z) (sent : nat → bool) (chunks : list string) : M (System W) unit :=
  connection_loop (router_turn net fd sent) chunks.

(** The requests of a session whose lines are known. *)
Fixpoint requests_of (env : nat → TurnEnv) (i : nat) (lines : list string) : list Server.Request :=
  match lines with
  | [] => []
  | line :: lines' =>
      Server.mkRequest line (turn_now (env i)) (turn_sent (env i)) :: requests_of env (S i) lines'
  end.

(** ** Lemmas *)

Lemma split_at_Some c s l rest : split_at c s = Some (l, rest) → s = l +:+ String c rest.
Proof. destruct (split_at_cases c s) as [[_ ->]|(l' & r' & -> & _ & ->)]; [done|by intros [= <- <-]]. Qed.

(** A line that is read takes at least one byte out of the stream. *)
Lemma readLine_consumes buffer_ chunks line b cs :
  readLine buffer_ chunks = (Some line, (b, cs)) →
  String.length b + String.length (str_concat cs) < String.length buffer_ + String.length (str_concat chunks).
Proof.
  revert buffer_. induction chunks as [|chunk chunks IH]; intros buffer_ H; cbn [readLine] in H.
  all: destruct (split_at nl buffer_) as [[l rest]|] eqn:E;
    [apply split_at_Some in E as ->; simplify_eq; rewrite str_length_app; simpl; lia|].
  - by case_match.
  - case_match; [done|]. apply IH in H. rewrite str_length_app in H. simpl. rewrite str_length_app. lia.
Qed.

Lemma frames_length ls : length ls ≤ String.length (frames ls).
Proof.
  induction ls as [|l ls IH]; [done|]. rewrite <-(str_app_nil_r (frames (l :: ls))), frames_cons, str_app_nil_r.
  rewrite str_length_app. simpl. lia.
Qed.

Section loop_lemmas.
Context {St : Type} (body : nat → string → M St bool).

(** More fuel than bytes makes no difference. *)
Lemma read_loop_fuel f f' i b cs s :
  String.length b + String.length (str_concat cs) < f → String.length b + String.length (str_concat cs) < f' →
  read_loop body f i b cs s = read_loop body f' i b cs s.
Proof.
  revert f' i b cs s. induction f as [|f IH]; intros [|f'] i b cs s Hf Hf'; [lia..|]. simpl.
  destruct (readLine b cs) as [[line|] [b' cs']] eqn:E; [|done]. apply readLine_consumes in E.
  unfold mbind, M_bind. destruct (body i line s) as [[|] s'|? ?|]; [|done..]. apply IH; lia.
Qed.

(** The loop takes the turns of the lines the bytes stand for. *)
Lemma read_loop_frames ls tail f i b cs s :
  forallb frame_ok ls = true → frame_ok tail = true → b +:+ str_concat cs = frames ls +:+ tail →
  length ls < f → read_loop body f i b cs s = line_loop body i (strip_cr <$> ls) s.
Proof.
  intros Hls Ht. revert f i b cs s. induction ls as [|l ls IH]; intros [|f] i b cs s E Hf; [simpl in Hf; lia| |simpl in Hf; lia|].
  - simpl. by rewrite (readLine_end tail).
  - simpl in Hls. destruct_bools. rewrite frames_cons in E.
    destruct (readLine_first l _ _ _ H E) as (b' & cs' & Hr & E'). cbn [read_loop]. rewrite Hr, fmap_cons. cbn [line_loop].
    unfold mbind, M_bind. destruct (body i (strip_cr l) s) as [[|] s'|? ?|]; [|done..]. apply IH; simpl in *; [done..|lia].
Qed.

Lemma connection_loop_frames ls tail chunks s :
  forallb frame_ok ls = true → frame_ok tail = true → str_concat chunks = frames ls +:+ tail →
  connection_loop body chunks s = line_loop body 0 (strip_cr <$> ls) s.
Proof.
  intros Hls Ht E. apply (read_loop_frames _ tail); [done..|]. pose proof (frames_length ls).
  rewrite E, str_length_app. lia.
Qed.
End loop_lemmas.

Lemma server_line_loop fd env i ls n :
  line_loop (server_turn fd env) i ls n = Server.handleConnection fd (requests_of env i ls) n.
Proof.
  revert i n. induction ls as [|l ls IH]; intros i n; [done|]. simpl. unfold mbind, M_bind.
  assert (server_turn fd env i l n = match Server.handleLine fd (turn_now (env i)) (turn_sent (env i)) l n with
    | Ok Continue n1 => Ok true n1 | Ok Break n1 => Ok false n1
    | Ok Stream n1 => (endSync fd;; mret false) n1 | Exn e n1 => Exn e n1 | Undef => Undef end) as ->.
  { unfold server_turn. unfold_M. by destruct (Server.handleLine _ _ _ l n) as [[| |] n1|? ?|]. }
  destruct (Server.handleLine fd (turn_now (env i)) (turn_sent (env i)) l n) as [[| |] n1|? ?|]; [|done| |done..].
  - apply IH.
  - unfold_M. by destruct (endSync fd n1) as [[] ?|? ?|].
Qed.

(** ** Properties *)

(** C16: A server session depends on the bytes the client sends, not on how they
    arrive: for any chunks that add up to the same framed lines and the same
    unfinished tail, the final state of the process and every byte it wrote are
    those of the turns on the lines, one by one; the loop ends, and turns
    beyond the number of bytes are never taken. *)
Theorem session_ignores_chunks (fd : Z) (env : nat → TurnEnv) (ls : list string) (tail : string)
    (chunks : list string) (n : Node) :
  forallb frame_ok ls = true → frame_ok tail = true → str_concat chunks = frames ls +:+ tail →
  serve_connection fd env chunks n = Server.handleConnection fd (requests_of env 0 (strip_cr <$> ls)) n ∧
  ∀ fuel, String.length (str_concat chunks) < fuel →
    read_loop (server_turn fd env) fuel 0 EmptyString chunks n = serve_connection fd env chunks n.
Proof.
  intros Hls Ht E. split.
  - unfold serve_connection. rewrite (connection_loop_frames _ ls tail) by done. apply server_line_loop.
  - intros fuel Hf. apply read_loop_fuel; simpl; lia.
Qed.

Theorem session_ignores_chunks_witness :
  let env := λ _, mkTurnEnv 0 true in
  let n := construct 0 defaultPersistenceConfig (mkFS ∅ ∅) in
  serve_connection 4 env ["SE"; "T a 1" +:+ String nl "GET"; " a" +:+ String nl "PI"] n =
    Server.handleConnection 4 [Server.mkRequest "SET a 1" 0 true; Server.mkRequest "GET a" 0 true] n.
Proof.
  intros env n. destruct (session_ignores_chunks 4 env ["SET a 1"; "GET a"] "PI"
    ["SE"; "T a 1" +:+ String nl "GET"; " a" +:+ String nl "PI"] n) as [H _]; [reflexivity..|]. exact H.
Defined.

(** The same holds for the router: the replies of a session are those of the
    turns on its lines. *)
Theorem routed_session_ignores_chunks {W} (net : Network W) (fd : Z) (sent : nat → bool) (ls : list string) (tail : string)
    (chunks chunks' : list string) (s : System W) :
  forallb frame_ok ls = true → frame_ok tail = true →
  str_concat chunks = frames ls +:+ tail → str_concat chunks' = frames ls +:+ tail →
  route_connection net fd sent chunks s = route_connection net fd sent chunks' s.
Proof. intros Hls Ht E E'. unfold route_connection. by rewrite !(connection_loop_frames _ ls tail). Qed.
