(* ===== verification/Background.v ===== *)
(** * The persistence manager's background work and its shutdown

    The threads of [src/persistence/persistence_manager.cpp]: the timer thread
    runs [timerLoop] and submits tasks to the pool, a pool worker runs a task
    and counts it down, and the owner calls [start] and [stop] and then destroys
    the object. A step is what one thread does between two points where another
    can get in: [cvMutex_] is held by the timer thread except in its wait, and
    [inFlightTasks_] is atomic. *)

From S2P Require Import Prelude Node Persistence.

(** ** Definitions *)

(** Where a background task is: in the pool's queue, in [task()], past the
    decrement that reached zero and before [notify_all], or returned. *)
Inductive task_pc : Type := Queued | Executing | Notifying | Ended.

(** Where the timer thread is: not started, in [wait_for], between the two
    submissions of a tick, or returned. *)
Inductive timer_pc : Type := NotStarted | InWait | MidTick | Exited.

(** Where the thread that calls [stop] is: not in it, joining the timer, about
    to test the predicate of the last wait, asleep in that wait, or out of it. *)
Inductive stop_pc : Type := NotCalled | Joining | Testing | Asleep | Stopped.

Record Manager : Type := mkManager {
  running_ : bool;
  inFlightTasks_ : Z;
  secondsSinceSnapshot : Z;
  timer : timer_pc;
  stopper : stop_pc;
  tasks : list (Persistence.task * task_pc);
  executed : list Persistence.task;  (* the tasks whose body has returned *)
  destroyed : bool                   (* the members are gone *)
}.

(** The object as constructed. *)
Definition create_manager : Manager := mkManager false 0 0 NotStarted NotCalled [] [] false.

Definition set_timer (t : timer_pc) (m : Manager) : Manager :=
  mkManager (running_ m) (inFlightTasks_ m) (secondsSinceSnapshot m) t (stopper m) (tasks m) (executed m) (destroyed m).

Definition set_seconds (s : Z) (m : Manager) : Manager :=
  mkManager (running_ m) (inFlightTasks_ m) s (timer m) (stopper m) (tasks m) (executed m) (destroyed m).

Definition set_stopper (p : stop_pc) (m : Manager) : Manager :=
  mkManager (running_ m) (inFlightTasks_ m) (secondsSinceSnapshot m) (timer m) p (tasks m) (executed m) (destroyed m).

Definition set_running (b : bool) (m : Manager) : Manager :=
  mkManager b (inFlightTasks_ m) (secondsSinceSnapshot m) (timer m) (stopper m) (tasks m) (executed m) (destroyed m).

(** [submitBackgroundTask(task)]: counted, then queued. *)
Definition submitBackgroundTask (t : Persistence.task) (m : Manager) : Manager :=
  mkManager (running_ m) (inFlightTasks_ m + 1) (secondsSinceSnapshot m) (timer m) (stopper m)
    (tasks m ++ [(t, Queued)]) (executed m) (destroyed m).

(** [start()]. *)
Definition start (m : Manager) : Manager := set_timer InWait (set_running true m).

(** The critical section of [stop()]: it returns at once when nothing runs. *)
Definition stop (m : Manager) : Manager :=
  if running_ m then set_stopper Joining (set_running false m) else set_stopper Stopped m.

(** The timer thread: the wait ends with the predicate when [running_] has been
    cleared, otherwise after a second; then the flush is submitted, and the
    snapshot when it is due. *)
Definition timer_turn (c : PersistenceConfig) (m : Manager) : option Manager :=
  match timer m with
  | InWait =>
      if running_ m
      then Some (set_timer MidTick (submitBackgroundTask Persistence.FlushTask m))
      else Some (set_timer Exited m)
  | MidTick =>
      '(ts, n) ← Persistence.timer_tick c (secondsSinceSnapshot m);
      let m' := set_timer InWait (set_seconds n m) in
      Some (match ts with [_; _] => submitBackgroundTask Persistence.SaveTask m' | _ => m' end)
  | _ => None
  end.

Definition set_task (i : nat) (t : Persistence.task) (p : task_pc) (m : Manager) : Manager :=
  mkManager (running_ m) (inFlightTasks_ m) (secondsSinceSnapshot m) (timer m) (stopper m)
    (<[i := (t, p)]> (tasks m)) (executed m) (destroyed m).

(** A pool worker with task [i]: takes it, runs it and decrements, notifies. *)
Definition worker_turn (i : nat) (m : Manager) : option Manager :=
  '(t, p) ← tasks m !! i;
  match p with
  | Queued => Some (set_task i t Executing m)
  | Executing =>
      let n := (inFlightTasks_ m - 1)%Z in
      Some (mkManager (running_ m) n (secondsSinceSnapshot m) (timer m) (stopper m)
        (<[i := (t, if bool_decide (n = 0%Z) then Notifying else Ended)]> (tasks m))
        (executed m ++ [t]) (destroyed m))
  | Notifying =>
      let m' := set_task i t Ended m in
      Some (match stopper m with Asleep => set_stopper Testing m' | _ => m' end)
  | Ended => None
  end.

(** The thread in [stop()], and then in the destructor. [cvMutex_] keeps it out
    while the timer thread is in a tick; asleep, it waits for the notification
    that [worker_turn] delivers, or for nothing in particular
    ([spurious_turn]). *)
Definition stopper_turn (m : Manager) : option Manager :=
  match stopper m with
  | NotCalled => match timer m with MidTick => None | _ => Some (stop m) end
  | Joining => match timer m with Exited => Some (set_stopper Testing m) | _ => None end
  | Testing => Some (set_stopper (if bool_decide (inFlightTasks_ m = 0%Z) then Stopped else Asleep) m)
  | Asleep => None
  | Stopped =>
      if destroyed m then None
      else Some (mkManager (running_ m) (inFlightTasks_ m) (secondsSinceSnapshot m) (timer m) Stopped
             (tasks m) (executed m) true)
  end.

(** The wait of [stop()] may end for no reason; the predicate is tested again.
    (After a wake-up of the timer's [wait_for] with [running_] set and the
    second not over, it waits on.) *)
Definition spurious_turn (m : Manager) : option Manager :=
  match stopper m with
  | Asleep => Some (set_stopper Testing m)
  | _ => None
  end.

(** The owner calls [start] once, and [stop] not before it. *)
Inductive manager_step (c : PersistenceConfig) : Manager → Manager → Prop :=
| mstep_start m : timer m = NotStarted → stopper m = NotCalled → manager_step c m (start m)
| mstep_timer m m' : timer_turn c m = Some m' → manager_step c m m'
| mstep_worker i m m' : worker_turn i m = Some m' → manager_step c m m'
| mstep_stop m m' : stopper_turn m = Some m' → manager_step c m m'
| mstep_spurious m m' : spurious_turn m = Some m' → manager_step c m m'.

(** The steps that some thread is due to take. *)
Definition due_step (c : PersistenceConfig) (m m' : Manager) : Prop :=
  timer_turn c m = Some m' ∨ (∃ i, worker_turn i m = Some m') ∨ stopper_turn m = Some m'.

(** A task still to be counted down. *)
Definition pending (x : Persistence.task * task_pc) : bool :=
  match x.2 with Queued | Executing => true | _ => false end.

Definition notifying (x : Persistence.task * task_pc) : bool :=
  match x.2 with Notifying => true | _ => false end.

Definition count {A} (p : A → bool) (l : list A) : nat := length (List.filter p l).

(** The phases of the object's life: which thread can be where. *)
Definition phase_ok (r : bool) (t : timer_pc) (s : stop_pc) : bool :=
  match s, r, t with
  | NotCalled, false, NotStarted | NotCalled, true, InWait | NotCalled, true, MidTick => true
  | Joining, false, InWait | Joining, false, Exited => true
  | Testing, false, Exited | Asleep, false, Exited => true
  | Stopped, false, Exited | Stopped, false, NotStarted => true
  | _, _, _ => false
  end.

Record manager_inv (m : Manager) : Prop := {
  mi_count : inFlightTasks_ m = Z.of_nat (count pending (tasks m));
  mi_phase : phase_ok (running_ m) (timer m) (stopper m) = true;
  mi_notstarted : timer m = NotStarted → tasks m = [];
  mi_asleep : stopper m = Asleep → 0 < count pending (tasks m) + count notifying (tasks m);
  mi_stopped : stopper m = Stopped → count pending (tasks m) = 0;
  mi_alive : destroyed m = true → stopper m = Stopped;
  mi_executed : executed m ++ (List.filter pending (tasks m)).*1 ≡ₚ (tasks m).*1
}.

(** What is left to do once [stop] has begun. *)
Definition task_work (x : Persistence.task * task_pc) : nat :=
  match x.2 with Queued => 6 | Executing => 5 | Notifying => 3 | Ended => 0 end.

Definition shutdown_work (m : Manager) : nat :=
  sum_list_with task_work (tasks m) +
  match timer m with InWait => 1 | _ => 0 end +
  match stopper m with NotCalled => 9 | Joining => 3 | Testing => 2 | Asleep => 1 | Stopped => 0 end.

(** ** Lemmas *)

Lemma count_app {A} (p : A → bool) l1 l2 : count p (l1 ++ l2) = count p l1 + count p l2.
Proof. unfold count. by rewrite List.filter_app, length_app. Qed.

Lemma count_insert {A} (p : A → bool) l i x y :
  l !! i = Some x → count p (<[i := y]> l) + Nat.b2n (p x) = count p l + Nat.b2n (p y).
Proof.
  unfold count. revert i. induction l as [|z l IH]; intros [|i] H; simplify_eq/=.
  - destruct (p x), (p y); simpl; lia.
  - specialize (IH i H). destruct (p z); simpl; lia.
Qed.

Lemma work_insert l i x y :
  l !! i = Some x →
  sum_list_with task_work (<[i := y]> l) + task_work x = sum_list_with task_work l + task_work y.
Proof. revert i. induction l as [|z l IH]; intros [|i] H; simplify_eq/=; [lia|]. specialize (IH i H). lia. Qed.

Lemma fst_insert {A B} (l : list (A * B)) i (a : A) (b b' : B) :
  l !! i = Some (a, b) → (<[i := (a, b')]> l).*1 = l.*1.
Proof.
  intros H. rewrite list_fmap_insert. apply list_insert_id. by rewrite list_lookup_fmap, H.
Qed.

(** Changing the state of a pending task to another pending one, or taking it
    out of the pending ones. *)
Lemma pending_insert l i t p p' :
  l !! i = Some (t, p) → pending (t, p) = true → pending (t, p') = true →
  (List.filter pending (<[i := (t, p')]> l)).*1 = (List.filter pending l).*1.
Proof.
  intros H Hp Hp'. revert i H. induction l as [|z l IH]; intros [|i] H; simplify_eq/=.
  - by rewrite Hp, Hp'.
  - destruct (pending z); simpl; [f_equal|]; by apply IH.
Qed.

Lemma pending_done l i t p p' :
  l !! i = Some (t, p) → pending (t, p) = true → pending (t, p') = false →
  t :: (List.filter pending (<[i := (t, p')]> l)).*1 ≡ₚ (List.filter pending l).*1.
Proof.
  intros H Hp Hp'. revert i H. induction l as [|z l IH]; intros [|i] H; simplify_eq/=.
  - by rewrite Hp, Hp'.
  - destruct (pending z); simpl; [|by apply IH]. rewrite <-(IH i H). apply Permutation_swap.
Qed.

Lemma pending_notified l i t p p' :
  l !! i = Some (t, p) → pending (t, p) = false → pending (t, p') = false →
  (List.filter pending (<[i := (t, p')]> l)).*1 = (List.filter pending l).*1.
Proof.
  intros H Hp Hp'. revert i H. induction l as [|z l IH]; intros [|i] H; simplify_eq/=.
  - by rewrite Hp, Hp'.
  - destruct (pending z); simpl; [f_equal|]; by apply IH.
Qed.

(** The components of the state that decide the phase, by cases. *)
Ltac phases m :=
  destruct (running_ m) eqn:?, (timer m) eqn:?, (stopper m) eqn:?; simpl in *; try discriminate.

Lemma inv_create : manager_inv create_manager.
Proof. by split. Qed.

Lemma inv_start m : manager_inv m → timer m = NotStarted → stopper m = NotCalled → manager_inv (start m).
Proof. intros [Hc Hp Hn Ha Hs Hal He] Ht Hst. split; simpl; rewrite ?Hst; try done. intros H. apply Hal in H. congruence. Qed.

(** Submitting, by the timer thread while [running_]. *)
Lemma inv_submit t m :
  manager_inv m → running_ m = true → manager_inv (submitBackgroundTask t m).
Proof.
  intros [Hc Hp Hn Ha Hs Hal He] Hrun. phases m; (split; simpl; try done; try congruence).
  all: try (rewrite count_app; unfold count at 2; simpl; lia).
  all: try (by rewrite List.filter_app, !fmap_app, app_assoc, He).
  all: repeat match goal with E : ?x = _ |- context [?x] => rewrite E end; done.
Qed.

Lemma inv_timer c m m' : manager_inv m → timer_turn c m = Some m' → manager_inv m'.
Proof.
  intros Hinv. unfold timer_turn. destruct (timer m) eqn:Ht; try done.
  - destruct (running_ m) eqn:Hr; intros [= <-].
    + apply (inv_submit Persistence.FlushTask) in Hinv as [Hc Hp Hn Ha Hs Hal He]; [|done].
      simpl in *. rewrite Hr, Ht in Hp. split; simpl; try done. rewrite Hr. by destruct (stopper m).
    + destruct Hinv as [Hc Hp Hn Ha Hs Hal He]. rewrite Hr, Ht in Hp.
      split; simpl; try done. rewrite Hr. by destruct (stopper m).
  - intros ([ts n] & _ & [= <-])%bind_Some.
    assert (running_ m = true ∧ stopper m = NotCalled) as [Hr Hst].
    { pose proof (mi_phase _ Hinv) as Hp. rewrite Ht in Hp. by destruct (running_ m), (stopper m). }
    assert (manager_inv (set_timer InWait (set_seconds n m))) as H1.
    { destruct Hinv as [Hc Hp Hn Ha Hs Hal He]. split; simpl; try done. by rewrite Hr, Hst. }
    destruct ts as [|? [|? [|? ?]]]; [done|done| |done]. by apply inv_submit.
Qed.

Lemma inv_worker i m m' : manager_inv m → worker_turn i m = Some m' → manager_inv m'.
Proof.
  intros [Hc Hp Hn Ha Hs Hal He] ([t p] & Hi & H)%bind_Some.
  assert (timer m ≠ NotStarted) as Ht. { intros E. by rewrite (Hn E) in Hi. }
  pose proof (λ q, count_insert pending _ _ _ (t, q) Hi) as Hcp.
  pose proof (λ q, count_insert notifying _ _ _ (t, q) Hi) as Hcn.
  destruct p; simplify_eq/=.
  - specialize (Hcp Executing). specialize (Hcn Executing). simpl in *.
    split; simpl; try done; try lia.
    + intros H. specialize (Ha H). lia.
    + intros H. specialize (Hs H). lia.
    + rewrite (pending_insert _ _ _ _ _ Hi), (fst_insert _ _ _ _ _ Hi) by done. done.
  - set (q := if bool_decide _ then Notifying else Ended).
    assert (pending (t, q) = false) as Hq by (subst q; by case_bool_decide).
    specialize (Hcp q). specialize (Hcn q). rewrite Hq in Hcp. simpl in Hcp.
    split; simpl; try done; try lia.
    + intros _. subst q. case_bool_decide; simpl in *; lia.
    + intros H. specialize (Hs H). lia.
    + rewrite (fst_insert _ _ _ _ _ Hi), <-He, <-(pending_done _ _ _ _ _ Hi eq_refl Hq). by rewrite <-app_assoc.
  - specialize (Hcp Ended). simpl in Hcp.
    assert (executed m ++ (List.filter pending (<[i := (t, Ended)]> (tasks m))).*1 ≡ₚ (<[i := (t, Ended)]> (tasks m)).*1) as He'.
    { rewrite (pending_notified _ _ _ _ _ Hi), (fst_insert _ _ _ _ _ Hi) by done. done. }
    destruct (stopper m) eqn:Hst; (split; simpl; rewrite ?Hst; try done; try lia; try (intros; specialize (Hs ltac:(done)); lia)).
    all: try (intros H; specialize (Hal H); congruence).
Qed.

Lemma inv_stopper m m' : manager_inv m → stopper_turn m = Some m' → manager_inv m'.
Proof.
  intros [Hc Hp Hn Ha Hs Hal He]. unfold stopper_turn, stop. destruct (stopper m) eqn:Hst; try done.
  - destruct (timer m) eqn:Ht, (running_ m) eqn:Hr; try done; intros [= <-];
      (split; simpl; rewrite ?Ht, ?Hr; try done; try (by rewrite Hn); intros H; apply Hal in H; congruence).
  - destruct (timer m) eqn:Ht; try done. intros [= <-].
    split; simpl; rewrite ?Ht; try done; try (by destruct (running_ m)). intros H; apply Hal in H; congruence.
  - intros [= <-]. case_bool_decide as Hz; (split; simpl; try done; try lia).
    all: try (by destruct (running_ m), (timer m)).
    all: intros H; apply Hal in H; congruence.
  - destruct (destroyed m) eqn:Hd; [done|]. intros [= <-]. by split.
Qed.

Lemma inv_spurious m m' : manager_inv m → spurious_turn m = Some m' → manager_inv m'.
Proof.
  intros [Hc Hp Hn Ha Hs Hal He]. unfold spurious_turn. destruct (stopper m) eqn:Hst; try done. intros [= <-].
  split; simpl; try done; try (by destruct (running_ m), (timer m)). intros H; apply Hal in H; congruence.
Qed.

Lemma inv_rtc c m : rtc (manager_step c) create_manager m → manager_inv m.
Proof.
  generalize inv_create. generalize create_manager. intros q Hq.
  induction 1 as [|q q1 q2 Hstep _ IH]; [done|]. apply IH.
  destruct Hstep; [by apply inv_start|by eapply inv_timer|by eapply inv_worker|by eapply inv_stopper|by eapply inv_spurious].
Qed.

(** Every turn taken after [stop] has begun brings its return nearer. *)
Lemma worker_work i m m' : worker_turn i m = Some m' → shutdown_work m' < shutdown_work m.
Proof.
  intros ([t p] & Hi & H)%bind_Some. unfold shutdown_work.
  pose proof (λ q, work_insert _ _ _ (t, q) Hi) as Hw.
  destruct p; simplify_eq/=.
  - specialize (Hw Executing). cbn [task_work snd] in Hw. lia.
  - case_bool_decide; [specialize (Hw Notifying)|specialize (Hw Ended)]; cbn [task_work snd] in Hw; lia.
  - specialize (Hw Ended). cbn [task_work snd] in Hw. destruct (stopper m) eqn:E; simpl; rewrite ?E; lia.
Qed.

Lemma timer_work c m m' : running_ m = false → timer m ≠ MidTick → timer_turn c m = Some m' → shutdown_work m' < shutdown_work m.
Proof.
  intros Hr Hm. unfold timer_turn, shutdown_work. rewrite Hr. destruct (timer m) eqn:Ht; try done.
  intros [= <-]. simpl. lia.
Qed.

Lemma stopper_work m m' : stopper m ≠ Stopped → stopper_turn m = Some m' → shutdown_work m' < shutdown_work m.
Proof.
  intros Hs. unfold stopper_turn, stop, shutdown_work. destruct (stopper m) eqn:Hst; try done.
  - destruct (timer m) eqn:Ht, (running_ m); try done; intros [= <-]; simpl; rewrite ?Ht; lia.
  - destruct (timer m) eqn:Ht; try done. intros [= <-]. simpl. rewrite Ht. lia.
  - intros [= <-]. simpl. case_bool_decide; lia.
Qed.

Lemma count_pos {A} (p : A → bool) l : 0 < count p l → ∃ i x, l !! i = Some x ∧ p x = true.
Proof.
  unfold count. induction l as [|y l IH]; simpl; [lia|]. destruct (p y) eqn:Hy.
  - intros _. by exists 0, y.
  - intros (i & x & ? & ?)%IH. by exists (S i), x.
Qed.

(** A thread other than the one in [stop] that is awaited can go on. *)
Lemma stop_can_go_on c m :
  manager_inv m → stopper m ≠ Stopped → timer m ≠ MidTick →
  (∃ m', timer_turn c m = Some m') ∨ (∃ i m', worker_turn i m = Some m') ∨ (∃ m', stopper_turn m = Some m').
Proof.
  intros [Hc Hp Hn Ha Hs Hal He] Hst Hm. unfold stopper_turn. destruct (stopper m) eqn:E; try done.
  - right; right. destruct (timer m); try done; by eexists.
  - destruct (timer m) eqn:Ht; try (by destruct (running_ m)).
    + left. unfold timer_turn. rewrite Ht. destruct (running_ m); by eexists.
    + right; right. by eexists.
  - right; right. by eexists.
  - right; left. specialize (Ha eq_refl).
    assert (∃ i x, tasks m !! i = Some x ∧ (pending x = true ∨ notifying x = true)) as (i & [t p] & Hi & Hx).
    { destruct (decide (0 < count pending (tasks m))) as [H|H].
      - apply count_pos in H as (i & x & ? & ?). eauto.
      - destruct (count_pos notifying (tasks m)) as (i & x & ? & ?); [lia|]. eauto. }
    exists i. unfold worker_turn. rewrite Hi. simpl. destruct p; try (by eexists). by destruct Hx.
Qed.

(** Once [stop] has returned, all that is left of the tasks is a notification. *)
Lemma stopped_done m : manager_inv m → stopper m = Stopped → inFlightTasks_ m = 0%Z ∧ executed m ≡ₚ (tasks m).*1.
Proof.
  intros [Hc _ _ _ Hs _ He] Hst. specialize (Hs Hst). split; [lia|].
  unfold count in Hs. apply length_zero_iff_nil in Hs. by rewrite Hs, app_nil_r in He.
Qed.

Lemma stopped_step c m m' :
  manager_inv m → stopper m = Stopped → manager_step c m m' →
  stopper m' = Stopped ∧ executed m' = executed m ∧ (tasks m').*1 = (tasks m).*1.
Proof.
  intros [Hc Hp _ _ Hs _ _] Hst H. specialize (Hs Hst). rewrite Hst in Hp. destruct H as [m Ht ?|m m' H|i m m' H|m m' H|m m' H].
  - congruence.
  - unfold timer_turn in H. destruct (timer m); try done; by destruct (running_ m).
  - apply bind_Some in H as ([t p] & Hi & H). destruct p; simplify_eq/=.
    + pose proof (count_insert pending _ _ _ (t, Ended) Hi). simpl in *. lia.
    + pose proof (count_insert pending _ _ _ (t, Ended) Hi). simpl in *. lia.
    + rewrite Hst. simpl. by rewrite (fst_insert _ _ _ _ _ Hi).
  - unfold stopper_turn in H. rewrite Hst in H. destruct (destroyed m); [done|]. by injection H as <-.
  - unfold spurious_turn in H. by rewrite Hst in H.
Qed.

(** ** Properties *)

(** C25: [stop] returns only when the background work is over: the timer thread has
    returned or was never started, every task ever submitted has run to the end
    of its body, once, and none is submitted or run any more. *)
Theorem stop_waits_for_tasks (c : PersistenceConfig) (m m' : Manager) :
  rtc (manager_step c) create_manager m → stopper m = Stopped → rtc (manager_step c) m m' →
  (timer m = Exited ∨ timer m = NotStarted) ∧ inFlightTasks_ m = 0%Z ∧
  executed m ≡ₚ (tasks m).*1 ∧ executed m' = executed m ∧ (tasks m').*1 = (tasks m).*1.
Proof.
  intros Hr Hst Hr'. pose proof (inv_rtc _ _ Hr) as Hinv. destruct (stopped_done _ Hinv Hst) as [Hz He].
  split. { pose proof (mi_phase _ Hinv) as Hp. rewrite Hst in Hp. destruct (running_ m), (timer m); try discriminate Hp; auto. }
  split; [done|]. split; [done|]. clear Hz He.
  assert (stopper m' = Stopped ∧ executed m' = executed m ∧ (tasks m').*1 = (tasks m).*1) as (_ & ? & ?); [|done].
  clear Hinv. induction Hr' as [m|m m1 m2 Hstep _ IH]; [done|].
  destruct (stopped_step c m m1 (inv_rtc _ _ Hr) Hst Hstep) as (Hst1 & He1 & Ht1).
  destruct IH as (? & -> & ->); [by eapply rtc_r|done|]. done.
Qed.

(** Takes a step of a concrete state and evaluates the state after it. *)
Ltac take constr := eapply rtc_l; [eapply constr; vm_compute; reflexivity|].

(** A run of the object to its end, with one flush on the way. *)
Lemma sample_shutdown :
  rtc (manager_step defaultPersistenceConfig) create_manager
    (mkManager false 0 1 Exited Stopped [(Persistence.FlushTask, Notifying)] [Persistence.FlushTask] true).
Proof.
  eapply rtc_l; [by apply mstep_start|]. take mstep_timer. take mstep_timer. take mstep_stop. take mstep_timer.
  take (mstep_worker defaultPersistenceConfig 0). take mstep_stop. take (mstep_worker defaultPersistenceConfig 0).
  take mstep_stop. take mstep_stop. apply rtc_refl.
Qed.

Theorem stop_waits_for_tasks_witness :
  let m := mkManager false 0 1 Exited Stopped [(Persistence.FlushTask, Notifying)] [Persistence.FlushTask] true in
  rtc (manager_step defaultPersistenceConfig) create_manager m ∧ executed m ≡ₚ (tasks m).*1.
Proof.
  intros m. pose proof sample_shutdown as H. split; [exact H|].
  apply (stop_waits_for_tasks defaultPersistenceConfig m m H eq_refl (rtc_refl _ _)).
Defined.

(** C26: [stop] returns: once it has cleared [running_], some thread is due to take
    a step until it has returned, and every such step of any thread lowers a
    bound, so that no wake-up is lost between the last decrement and the wait.
    The other steps there can be are spurious wake-ups of that wait, and if the
    predicate does not hold yet the next step goes back to sleep. *)
Theorem stop_returns (c : PersistenceConfig) (m : Manager) :
  rtc (manager_step c) create_manager m → stopper m ≠ NotCalled → stopper m ≠ Stopped →
  (∃ m', due_step c m m') ∧
  (∀ m', due_step c m m' → shutdown_work m' < shutdown_work m) ∧
  (∀ m', manager_step c m m' → due_step c m m' ∨
     spurious_turn m = Some m' ∧
     ∀ m2, inFlightTasks_ m' ≠ 0%Z → stopper_turn m' = Some m2 → shutdown_work m2 = shutdown_work m).
Proof.
  intros Hr Hn Hs. pose proof (inv_rtc _ _ Hr) as Hinv. pose proof (mi_phase _ Hinv) as Hp.
  assert (running_ m = false ∧ timer m ≠ MidTick ∧ timer m ≠ NotStarted) as (Hrun & Hm & Hns).
  { by destruct (stopper m), (running_ m), (timer m). }
  unfold due_step. split; [|split].
  - destruct (stop_can_go_on c m Hinv Hs Hm) as [[m' H]|[(i & m' & H)|[m' H]]]; exists m'; eauto.
  - intros m' [H|[[i H]|H]]; [by eapply timer_work|by eapply worker_work|by eapply stopper_work].
  - intros m' H. inversion H; subst; [done|eauto..|]. right. split; [done|]. intros m2 Hz Ht.
    match goal with E : spurious_turn m = _ |- _ => unfold spurious_turn in E; destruct (stopper m) eqn:E1; simplify_eq end.
    unfold stopper_turn in Ht. simpl in *. rewrite bool_decide_false in Ht by done. injection Ht as <-.
    unfold shutdown_work. simpl. by rewrite E1.
Qed.

Theorem stop_returns_witness :
  let m := mkManager false 0 0 InWait Joining [] [] false in
  rtc (manager_step defaultPersistenceConfig) create_manager m ∧
  ∃ m', due_step defaultPersistenceConfig m m'.
Proof.
  intros m. assert (rtc (manager_step defaultPersistenceConfig) create_manager m) as H.
  { eapply rtc_l; [by apply mstep_start|]. eapply rtc_l; [by apply mstep_stop|]. apply rtc_refl. }
  split; [exact H|]. apply (stop_returns defaultPersistenceConfig m H); discriminate.
Defined.

(** The shutdown has a race: the worker whose decrement reaches zero still has
    to lock [tasksDoneMutex_] and notify, but [stop] may have seen the zero and
    returned, and the object may already be destroyed. *)
Theorem notify_after_destruction :
  ∃ m, rtc (manager_step defaultPersistenceConfig) create_manager m ∧ destroyed m = true ∧
       ∃ i m', tasks m !! i = Some (Persistence.FlushTask, Notifying) ∧ worker_turn i m = Some m'.
Proof.
  eexists. split; [exact sample_shutdown|]. split; [done|]. exists 0. eexists. done.
Qed.
