(* ===== verification/Listener.v ===== *)
(** * The TCP server: listening, accepting, shutting down

    [src/net/tcp_server.cpp]. The operating system decides what [socket],
    [setsockopt], [bind], [listen] and [accept] return; descriptors the server
    has open are tracked, so that a leak or a double close would show. A step is
    what one thread does between two points where another can get in: the thread
    in [run], the detached thread of a connection, a signal handler in [stop],
    and the clock. Times are in nanoseconds. *)

From S2P Require Import Prelude.

(** ** Definitions *)

(** Where the thread of a connection is: in [connectionHandler], past it, past
    [close], or past the decrement. *)
Inductive conn_pc : Type := Handling | Handled | Closed | Gone.

#[export] Instance conn_pc_eq_dec : EqDecision conn_pc.
Proof. solve_decision. Defined.

(** Where [run] is: testing [running_], in [accept], in the bounded wait with
    its deadline and the end of the current sleep, or returned. *)
Inductive run_pc : Type :=
| LoopTest
| InAccept
| Draining (deadline wake : Z)
| Returned.

Module TcpServer.

Record state : Type := mkServer {
  port_ : Z;
  listenFd_ : Z;
  running_ : bool;
  activeConnections_ : Z;
  open_fds : list Z;                (* the descriptors this object has open *)
  connections : list (Z * conn_pc); (* the connection threads, oldest first *)
  main : run_pc;
  now : Z
}.

(** The constructor. *)
Definition create (port : Z) : state := mkServer port (-1) false 0 [] [] LoopTest 0.

Definition set_listen (fd : Z) (fds : list Z) (s : state) : state :=
  mkServer (port_ s) fd (running_ s) (activeConnections_ s) fds (connections s) (main s) (now s).

Definition set_running (b : bool) (s : state) : state :=
  mkServer (port_ s) (listenFd_ s) b (activeConnections_ s) (open_fds s) (connections s) (main s) (now s).

Definition set_main (p : run_pc) (s : state) : state :=
  mkServer (port_ s) (listenFd_ s) (running_ s) (activeConnections_ s) (open_fds s) (connections s) p (now s).

Definition set_now (t : Z) (s : state) : state :=
  mkServer (port_ s) (listenFd_ s) (running_ s) (activeConnections_ s) (open_fds s) (connections s) (main s) t.

(** [::close(fd)]. *)
Definition close_fd (fd : Z) (fds : list Z) : list Z := filter (.≠ fd) fds.

(** [::close(listenFd_); listenFd_ = -1; return false], of the error branches of
    [start]. *)
Definition abandon (s : state) : bool * state :=
  (false, set_listen (-1) (close_fd (listenFd_ s) (open_fds s)) s).

(** [start()]: the descriptor [socket] returns, and whether the other three
    calls succeed. *)
Definition start (socketFd : Z) (setsockoptOk bindOk listenOk : bool) (s : state) : bool * state :=
  if (socketFd <? 0)%Z then (false, set_listen socketFd (open_fds s) s)
  else
    let s := set_listen socketFd (socketFd :: open_fds s) s in
    if negb setsockoptOk then abandon s
    else if negb bindOk then abandon s
    else if negb listenOk then abandon s
    else (true, set_running true s).

(** [stop()]. *)
Definition stop (s : state) : state :=
  let s := set_running false s in
  if (0 <=? listenFd_ s)%Z then set_listen (-1) (close_fd (listenFd_ s) (open_fds s)) s else s.

(** [accept] succeeded: the connection is counted and gets its thread. *)
Definition accepted (clientFd : Z) (s : state) : state :=
  mkServer (port_ s) (listenFd_ s) (running_ s) (activeConnections_ s + 1) (clientFd :: open_fds s)
    (connections s ++ [(clientFd, Handling)]) LoopTest (now s).

(** [std::chrono::seconds(2)] and [std::chrono::milliseconds(20)]. *)
Definition drain_time : Z := 2000000000.
Definition poll_time : Z := 20000000.

(** The thread in [run], where it does not depend on [accept]. *)
Definition run_turn (s : state) : option state :=
  match main s with
  | LoopTest =>
      Some (set_main (if running_ s then InAccept else Draining (now s + drain_time) (now s)) s)
  | InAccept => None
  | Draining deadline wake =>
      if (now s <? wake)%Z then None
      else if (0 <? activeConnections_ s)%Z && (now s <? deadline)%Z
      then Some (set_main (Draining deadline (now s + poll_time)) s)
      else Some (set_main Returned s)
  | Returned => None
  end.

(** The thread of the [i]-th connection. *)
Definition conn_turn (i : nat) (s : state) : option state :=
  '(fd, p) ← connections s !! i;
  match p with
  | Handling => Some (mkServer (port_ s) (listenFd_ s) (running_ s) (activeConnections_ s) (open_fds s)
                  (<[i := (fd, Handled)]> (connections s)) (main s) (now s))
  | Handled => Some (mkServer (port_ s) (listenFd_ s) (running_ s) (activeConnections_ s) (close_fd fd (open_fds s))
                  (<[i := (fd, Closed)]> (connections s)) (main s) (now s))
  | Closed => Some (mkServer (port_ s) (listenFd_ s) (running_ s) (activeConnections_ s - 1) (open_fds s)
                  (<[i := (fd, Gone)]> (connections s)) (main s) (now s))
  | Gone => None
  end.

(** [accept] on a closed listening socket fails; a descriptor it returns is not
    in use. *)
Inductive step : state → state → Prop :=
| step_run s s' : run_turn s = Some s' → step s s'
| step_accept s fd :
    main s = InAccept → (0 ≤ listenFd_ s)%Z → (0 ≤ fd)%Z → fd ∉ open_fds s → step s (accepted fd s)
| step_accept_failed s : main s = InAccept → step s (set_main LoopTest s)
| step_conn i s s' : conn_turn i s = Some s' → step s s'
| step_stop s : step s (stop s)
| step_time s t : (now s ≤ t)%Z → step s (set_now t s).

(** A server that [start] has set up. *)
Definition listening (s : state) : Prop :=
  ∃ port fd, (0 ≤ fd)%Z ∧ start fd true true true (create port) = (true, s).

(** The descriptors connection threads have yet to close. *)
Definition owned (cs : list (Z * conn_pc)) : list Z :=
  cs ≫= λ c, match c.2 with Handling | Handled => [c.1] | _ => [] end.

(** The threads that have not counted themselves out. *)
Definition live (cs : list (Z * conn_pc)) : nat :=
  length (filter (λ c, c.2 ≠ Gone) cs).

(** The bounded wait started at most two seconds before its deadline. *)
Definition drain_window (p : run_pc) : Prop :=
  match p with
  | Draining deadline wake => (deadline - drain_time ≤ wake)%Z
  | _ => True
  end.

(** What the threads own is what is open, and the count is the number of
    threads; the listening socket is open until [stop]. *)
Record inv (s : state) : Prop := {
  inv_listen : if running_ s then (0 ≤ listenFd_ s)%Z else listenFd_ s = (-1)%Z;
  inv_open : open_fds s ≡ₚ (if running_ s then [listenFd_ s] else []) ++ owned (connections s);
  inv_distinct : NoDup (open_fds s);
  inv_active : activeConnections_ s = Z.of_nat (live (connections s));
  inv_main : running_ s = true → main s = LoopTest ∨ main s = InAccept;
  inv_drain : drain_window (main s)
}.

(** How many turns of its own [run] has left after [stop]: the tests of the
    accept loop, and one poll per 20 ms of the bounded wait. *)
Definition polls_left (deadline wake : Z) : nat := Z.to_nat ((deadline - wake) / poll_time + 1).

Definition run_work (s : state) : nat :=
  match main s with
  | InAccept => 104
  | LoopTest => 103
  | Draining deadline wake => S (polls_left deadline wake)
  | Returned => 0
  end.

(** A started server with one connection. *)
Definition sample_listening : state := (start 3 true true true (create 6380)).2.

Definition sample_connected : state :=
  mkServer 6380 3 true 1 [4%Z; 3%Z] [(4%Z, Handling)] LoopTest 0.

(** A state in which [run] has given up waiting for a connection. *)
Definition sample_abandoned : state :=
  mkServer 6380 (-1) false 1 [4%Z] [(4%Z, Handling)] Returned 3000000000.

End TcpServer.

(** ** Lemmas *)

Section lemmas.
Import TcpServer.

Lemma owned_app cs1 cs2 : owned (cs1 ++ cs2) = owned cs1 ++ owned cs2.
Proof. unfold owned. apply bind_app. Qed.

Lemma owned_insert cs i c c' :
  cs !! i = Some c → owned [c'] ++ owned cs ≡ₚ owned [c] ++ owned (<[i := c']> cs).
Proof.
  unfold owned. intros Hi. revert i Hi. induction cs as [|x cs IH]; intros [|i] Hi; simplify_eq/=.
  - rewrite !app_nil_r. apply Permutation_app_swap_app.
  - specialize (IH i Hi). simpl in IH. rewrite !app_nil_r in *.
    rewrite Permutation_app_swap_app, IH. by rewrite Permutation_app_swap_app.
Qed.

Lemma live_insert cs i fd p p' :
  cs !! i = Some (fd, p) → p ≠ Gone →
  live (<[i := (fd, p')]> cs) + (if bool_decide (p' = Gone) then 1 else 0) = live cs.
Proof.
  unfold live. intros Hi Hp. revert i Hi. induction cs as [|x cs IH]; intros [|i] Hi; simplify_eq/=.
  - rewrite !filter_cons. simpl. rewrite (decide_True _ _ Hp). case_bool_decide as E.
    + rewrite decide_False by naive_solver. simpl. lia.
    + rewrite decide_True by done. simpl. lia.
  - specialize (IH i Hi). rewrite !filter_cons. destruct (decide (x.2 ≠ Gone)); simpl; lia.
Qed.

Lemma close_fd_notin fd fds : fd ∉ fds → close_fd fd fds = fds.
Proof.
  intros H. unfold close_fd. induction fds as [|x fds IH]; [done|]. rewrite filter_cons_True by set_solver.
  f_equal. apply IH. set_solver.
Qed.

Lemma close_fd_perm fd fds rest : NoDup fds → fds ≡ₚ fd :: rest → close_fd fd fds ≡ₚ rest.
Proof.
  intros Hn Hp. unfold close_fd. rewrite Hp, filter_cons_False by (intros H; by apply H).
  rewrite Hp in Hn. apply NoDup_cons in Hn as [Hn _]. fold (close_fd fd rest). by rewrite close_fd_notin.
Qed.

Lemma close_fd_nodup fd fds : NoDup fds → NoDup (close_fd fd fds).
Proof. apply NoDup_filter. Qed.

Lemma server_inv_start port fd s : (0 ≤ fd)%Z → start fd true true true (create port) = (true, s) → inv s.
Proof.
  intros Hf. unfold start. rewrite (proj2 (Z.ltb_ge _ _)) by done. simpl. intros [= <-].
  split; simpl; [done|done|by apply NoDup_singleton|done|by left|done].
Qed.

Lemma inv_stop s : inv s → inv (stop s).
Proof.
  intros [Hl Ho Hd Ha Hm Hdr]. unfold stop. simpl. destruct (running_ s).
  - rewrite (proj2 (Z.leb_le _ _)) by done. split; simpl; [done| | |done|done|done].
    + by apply close_fd_perm.
    + by apply close_fd_nodup.
  - rewrite Hl. simpl. by split.
Qed.

Lemma inv_conn i s s' : inv s → conn_turn i s = Some s' → inv s'.
Proof.
  intros [Hl Ho Hd Ha Hm Hdr] ([fd p] & Hi & H)%bind_Some.
  pose proof (λ q, owned_insert _ _ _ (fd, q) Hi) as How. pose proof (λ q, live_insert _ _ _ _ q Hi) as Hlv.
  destruct p; simplify_eq/=.
  - specialize (How Handled). simpl in How. apply (Permutation_cons_inv) in How.
    split; simpl; [done| |done| |done|done]; [by rewrite Ho, How|rewrite Ha, <-(Hlv Handled) by done; simpl; f_equal; lia].
  - specialize (How Closed). simpl in How. split; simpl; [done| | | |done|done].
    + apply close_fd_perm; [done|]. rewrite Ho, How. by rewrite Permutation_middle.
    + by apply close_fd_nodup.
    + rewrite Ha, <-(Hlv Closed) by done. simpl. f_equal. lia.
  - specialize (How Gone). simpl in How. split; simpl; [done| |done| |done|done].
    + by rewrite Ho, How.
    + rewrite Ha. specialize (Hlv Gone ltac:(done)). rewrite bool_decide_true in Hlv by done. lia.
Qed.

(** [run] itself only moves on; while [running_] it moves between its test and
    [accept]. *)
Lemma run_turn_main s s' :
  run_turn s = Some s' →
  ∃ p, s' = set_main p s ∧ (running_ s = true → main s = LoopTest ∨ main s = InAccept → p = InAccept) ∧
    (drain_window (main s) → drain_window p).
Proof.
  unfold run_turn. intros H. destruct (main s) as [| |d w|] eqn:E; [|done| |done].
  - injection H as <-. eexists. split; [done|]. split; [by intros ->|]. intros _. case_match; simpl; [done|lia].
  - destruct (Z.ltb_spec (now s) w); [done|].
    case_match; simplify_eq; (eexists; split; [done|]); (split; [by intros _ [?|?]|]); simpl; [|done].
    unfold poll_time. lia.
Qed.

Lemma server_inv_step s s' : inv s → step s s' → inv s'.
Proof.
  intros Hinv H. destruct H as [s s' H|s fd Hm Hlf Hfd Hnew|s Hm|i s s' H|s|s t Ht].
  - destruct Hinv as [Hl Ho Hd Ha Hm Hdr]. destruct (run_turn_main _ _ H) as (p & -> & Hp & Hw).
    split; simpl; try done; [|by apply Hw]. intros Hr. right. by apply Hp; [|apply Hm].
  - destruct Hinv as [Hl Ho Hd Ha _ _]. split; simpl; [done| | | |by left|done].
    + rewrite owned_app, Ho, app_assoc. simpl. apply Permutation_cons_append.
    + by apply NoDup_cons.
    + unfold live in *. rewrite filter_app, length_app. simpl. lia.
  - destruct Hinv as [Hl Ho Hd Ha _ _]. split; simpl; try done. by left.
  - by eapply inv_conn.
  - by apply inv_stop.
  - by destruct Hinv.
Qed.

Lemma server_inv_reachable s0 s : listening s0 → rtc step s0 s → inv s.
Proof.
  intros (port & fd & Hf & Hs) H. apply server_inv_start in Hs; [|done].
  induction H as [|s s1 s2 Hstep _ IH]; [done|]. apply IH. by eapply server_inv_step.
Qed.

Lemma running_stays s s' : step s s' → running_ s = false → running_ s' = false.
Proof.
  intros H Hr. destruct H as [s s' H|s fd|s|i s s' H|s|s t Ht]; try done.
  - unfold run_turn in H. repeat case_match; by simplify_eq/=.
  - apply bind_Some in H as ([fd p] & _ & H). destruct p; by simplify_eq/=.
  - unfold stop. simpl. by case_match.
Qed.

(** The bounded wait polls at most once per 20 ms. *)
Lemma polls_left_poll deadline wake t :
  (wake ≤ t < deadline)%Z → polls_left deadline (t + poll_time) < polls_left deadline wake.
Proof.
  intros Ht. unfold polls_left, poll_time.
  assert ((deadline - (t + 20000000)) / 20000000 < (deadline - wake) / 20000000)%Z as Hlt.
  { replace (deadline - (t + 20000000))%Z with ((deadline - t) + (-1) * 20000000)%Z by lia.
    rewrite Z.div_add by lia. pose proof (Z.div_le_mono (deadline - t) (deadline - wake) 20000000 ltac:(lia) ltac:(lia)).
    lia. }
  assert (0 ≤ (deadline - wake) / 20000000)%Z by (apply Z.div_pos; lia). lia.
Qed.

Lemma polls_left_start t : polls_left (t + drain_time) t = 101.
Proof. unfold polls_left. replace (t + drain_time - t)%Z with drain_time by lia. done. Qed.

(** Each turn of [run] after [stop] leaves less to do; nobody else adds to it. *)
Lemma run_work_turn s s' : running_ s = false → run_turn s = Some s' → run_work s' < run_work s.
Proof.
  unfold run_turn, run_work. intros Hr. rewrite Hr. destruct (main s) as [| |d w|] eqn:E; [|done| |done].
  - intros [= <-]. simpl. rewrite polls_left_start. lia.
  - destruct (Z.ltb_spec (now s) w); [done|]. destruct (_ && _) eqn:Hc; intros [= <-]; simpl; [|lia].
    destruct_bools. match goal with H : (now s <? d)%Z = true |- _ => apply Z.ltb_lt in H end.
    pose proof (polls_left_poll d w (now s) ltac:(lia)). lia.
Qed.

Lemma run_work_others s s' :
  running_ s = false → listenFd_ s = (-1)%Z → step s s' → run_work s' ≤ run_work s.
Proof.
  intros Hr Hl H. destruct H as [s s' H|s fd Hm Hlf|s Hm|i s s' H|s|s t Ht].
  - pose proof (run_work_turn _ _ Hr H). lia.
  - lia.
  - unfold run_work. simpl. rewrite Hm. lia.
  - apply bind_Some in H as ([fd p] & _ & H). destruct p; simplify_eq/=; done.
  - unfold stop. simpl. by case_match.
  - done.
Qed.
End lemmas.

(** ** Properties *)

Section properties.
Import TcpServer.

(** C39: [start] opens the listening socket or nothing: it returns true exactly when
    all four system calls succeed; then the server listens on the socket's
    descriptor and runs, otherwise no descriptor stays open and it does not
    run. *)
Theorem start_is_all_or_nothing (port socketFd : Z) (setsockoptOk bindOk listenOk ok : bool) (s : state) :
  start socketFd setsockoptOk bindOk listenOk (create port) = (ok, s) →
  (ok = true ↔ (0 ≤ socketFd)%Z ∧ setsockoptOk = true ∧ bindOk = true ∧ listenOk = true) ∧
  running_ s = ok ∧ open_fds s = (if ok then [socketFd] else []) ∧
  (if ok then listenFd_ s = socketFd else (listenFd_ s < 0)%Z).
Proof.
  unfold start, abandon. destruct (Z.ltb_spec socketFd 0) as [Hs|Hs].
  { intros [= <- <-]. simpl. split; [|done]. split; [done|lia]. }
  assert (close_fd socketFd [socketFd] = []) as Hclose by (unfold close_fd; rewrite filter_cons_False; naive_solver).
  destruct setsockoptOk, bindOk, listenOk; simpl; intros [= <- <-]; simpl; rewrite ?Hclose;
    (split; [naive_solver|done]).
Qed.

Theorem start_is_all_or_nothing_witness :
  open_fds (start 3 true false true (create 6380)).2 = [].
Proof.
  destruct (start_is_all_or_nothing 6380 3 true false true false (start 3 true false true (create 6380)).2 eq_refl)
    as (_ & _ & H & _). exact H.
Defined.

(** C29: No descriptor leaks and none is closed twice: in every state of a started
    server the open descriptors are the listening socket, until [stop], and one
    per connection thread that has not closed its own, all different; and
    [activeConnections_] counts the threads that are not finished. In particular
    when [stop] was called and all threads are gone, nothing is open. *)
Theorem descriptors_are_owned (s0 s : state) :
  listening s0 → rtc step s0 s →
  open_fds s ≡ₚ (if running_ s then [listenFd_ s] else []) ++ owned (connections s) ∧ NoDup (open_fds s) ∧
  activeConnections_ s = Z.of_nat (live (connections s)) ∧
  (running_ s = false → Forall (λ c, c.2 = Gone) (connections s) → open_fds s = [] ∧ activeConnections_ s = 0%Z).
Proof.
  intros Hs Hr. pose proof (server_inv_reachable _ _ Hs Hr) as [_ Ho Hd Ha _ _]. split; [done|]. split; [done|].
  split; [done|]. intros Hrun Hg.
  assert (owned (connections s) = [] ∧ live (connections s) = 0) as [Hn Hl].
  { clear -Hg. induction Hg as [|c cs Hc _ [IH1 IH2]]; [done|]. split.
    - change (c :: cs) with ([c] ++ cs). rewrite owned_app, IH1. unfold owned. simpl. by rewrite Hc.
    - unfold live in *. rewrite filter_cons_False; [done|]. intros H. by apply H. }
  rewrite Hrun, Hn in Ho. rewrite Hl in Ha. split; [by apply Permutation_nil_r|done].
Qed.

Lemma sample_started : listening sample_listening.
Proof. exists 6380%Z, 3%Z. split; [lia|done]. Qed.

Lemma sample_accepted : rtc step sample_listening sample_connected.
Proof.
  eapply rtc_l; [by apply step_run|]. eapply rtc_l; [apply (step_accept _ 4); [done|done|done|set_solver]|].
  apply rtc_refl.
Qed.

Theorem descriptors_are_owned_witness :
  open_fds sample_connected ≡ₚ [3%Z; 4%Z] ∧ activeConnections_ sample_connected = 1%Z.
Proof.
  destruct (descriptors_are_owned sample_listening sample_connected sample_started sample_accepted) as (H1 & _ & H2 & _).
  split; [exact H1|exact H2].
Defined.

(** C30: [run] returns after [stop]: while it has not, either it can go on at once
    or it waits for a sleep of at most 20 ms to end or for [accept], which can
    only fail now; each of its turns leaves less to do, nobody adds to it, and
    after the accept loop it polls at most 101 times. *)
Theorem run_returns_after_stop (s0 s : state) :
  listening s0 → rtc step s0 s → running_ s = false → main s ≠ Returned →
  (main s = InAccept ∨ ∃ t s', (now s ≤ t)%Z ∧ run_turn (set_now t s) = Some s') ∧
  (∀ s', run_turn s = Some s' → run_work s' < run_work s) ∧
  (∀ s', main s = InAccept → step s s' → main s' = InAccept ∨ run_work s' < run_work s) ∧
  (∀ s', step s s' → run_work s' ≤ run_work s) ∧ run_work s ≤ 104.
Proof.
  intros Hs Hr Hrun Hm. pose proof (server_inv_reachable _ _ Hs Hr) as [Hl _ _ _ _ Hw]. rewrite Hrun in Hl.
  split.
  { destruct (main s) as [| |d w|] eqn:E; [| |right|done].
    - right. exists (now s), (set_main (Draining (now s + drain_time) (now s)) (set_now (now s) s)).
      split; [done|]. unfold run_turn. simpl. by rewrite E, Hrun.
    - by left.
    - exists (Z.max (now s) w). unfold run_turn. simpl. rewrite E.
      rewrite (proj2 (Z.ltb_ge _ _)) by lia. case_match; (eexists; split; [lia|done]). }
  split; [intros; by apply run_work_turn|]. split.
  { intros s' Ha Hst. destruct Hst as [s s' H|s fd Hm' Hlf|s Hm'|i s s' H|s|s t Ht].
    - unfold run_turn in H. by rewrite Ha in H.
    - lia.
    - right. unfold run_work. simpl. rewrite Ha. lia.
    - left. apply bind_Some in H as ([fd p] & _ & H). destruct p; by simplify_eq/=.
    - left. unfold stop. simpl. by case_match.
    - by left. }
  split; [intros; by apply run_work_others|].
  unfold run_work. destruct (main s) as [| |d w|]; [lia|lia| |lia]. simpl in Hw.
  unfold polls_left. assert ((d - w) / poll_time ≤ 100)%Z; [|lia].
  apply Z.div_le_upper_bound; unfold drain_time, poll_time in *; lia.
Qed.

Lemma sample_stopped : rtc step sample_listening (set_main LoopTest (stop sample_connected)).
Proof. eapply rtc_r; [exact sample_accepted|]. apply step_stop. Qed.

Theorem run_returns_after_stop_witness :
  let s := set_main LoopTest (stop sample_connected) in
  (∃ t s', (0 ≤ t)%Z ∧ run_turn (set_now t s) = Some s') ∧ run_work s ≤ 104.
Proof.
  intros s. destruct (run_returns_after_stop sample_listening s sample_started sample_stopped eq_refl ltac:(discriminate))
    as ([H|H] & _ & _ & _ & Hw); [discriminate H|]. split; [exact H|exact Hw].
Defined.

(** [run] returns only after [stop]: as long as [running_] holds it stays in its
    accept loop whatever [accept] returns, a lasting failure included, and once
    it has left the loop no connection is accepted any more. *)
Theorem run_returns_only_after_stop (s0 s s' : state) :
  listening s0 → rtc step s0 s → (main s = Returned ∨ ∃ d w, main s = Draining d w) → rtc step s s' →
  running_ s = false ∧ listenFd_ s = (-1)%Z ∧ running_ s' = false ∧ (connections s').*1 = (connections s).*1.
Proof.
  intros Hs Hr Hm Hr'. pose proof (server_inv_reachable _ _ Hs Hr) as Hinv. pose proof (inv_listen _ Hinv) as Hl.
  destruct (running_ s) eqn:Hrun.
  { destruct (inv_main _ Hinv Hrun) as [E|E]; rewrite E in Hm; destruct Hm as [|(? & ? & ?)]; done. }
  split; [done|]. split; [done|]. clear Hm.
  induction Hr' as [s|s s1 s2 Hstep _ IH]; [done|].
  assert (running_ s1 = false) as Hr1 by (by eapply running_stays).
  assert (rtc step s0 s1) as Hreach by (by eapply rtc_r).
  pose proof (server_inv_reachable _ _ Hs Hreach) as Hinv1. pose proof (inv_listen _ Hinv1) as Hl1. rewrite Hr1 in Hl1.
  destruct (IH Hreach Hinv1) as [Hr2 ->]; [by rewrite ?Hr1|done|]. split; [done|].
  destruct Hstep as [s s1 H|s fd ? ?|s ?|i s s1 H|s|s t Ht]; try done.
  - by destruct (run_turn_main _ _ H) as (p & -> & _).
  - lia.
  - apply bind_Some in H as ([fd p] & Hi & H).
    destruct p; simplify_eq/=; rewrite list_fmap_insert; apply list_insert_id; by rewrite list_lookup_fmap, Hi.
  - unfold stop. simpl. by case_match.
Qed.

Lemma sample_gave_up : rtc step sample_listening sample_abandoned.
Proof.
  etransitivity; [exact sample_accepted|]. eapply rtc_l; [apply step_stop|].
  eapply rtc_l; [by apply step_run|]. eapply rtc_l; [by apply step_run|].
  eapply rtc_l; [apply (step_time _ 3000000000); done|]. eapply rtc_l; [by apply step_run|]. apply rtc_refl.
Qed.

Theorem run_returns_only_after_stop_witness :
  running_ sample_abandoned = false ∧ listenFd_ sample_abandoned = (-1)%Z.
Proof.
  destruct (run_returns_only_after_stop sample_listening sample_abandoned sample_abandoned sample_started sample_gave_up
    (or_introl eq_refl) (rtc_refl _ _)) as (H1 & H2 & _). split; [exact H1|exact H2].
Defined.

(** The wait at shutdown is bounded, not a join: [run] returns after two seconds
    with a connection thread still inside its handler, and that thread goes on
    using the objects [main] is about to destroy. *)
Theorem run_abandons_connections :
  ∃ s0 s i fd, listening s0 ∧ rtc step s0 s ∧ main s = Returned ∧
    connections s !! i = Some (fd, Handling) ∧ is_Some (conn_turn i s).
Proof.
  exists sample_listening, sample_abandoned, 0, 4%Z. split; [exact sample_started|]. split; [exact sample_gave_up|].
  split; [done|]. split; [done|]. by eexists.
Qed.
End properties.
