(* ===== verification/Logger.v ===== *)
(** * The logger

    [src/logger.cpp]: a level, an optional file, and the two standard streams.
    The text of [timestamp()] depends on the wall clock and the time zone and is
    an argument of each call. [g_logMutex] makes each call one step. *)

From S2P Require Import Prelude Node.

(** ** Definitions *)

Inductive LogLevel : Type := DEBUG | INFO | WARN | ERROR.

#[export] Instance LogLevel_eq_dec : EqDecision LogLevel.
Proof. solve_decision. Defined.

(** The order of the enumerators, which [<] compares. *)
Definition level_rank (l : LogLevel) : nat :=
  match l with DEBUG => 0 | INFO => 1 | WARN => 2 | ERROR => 3 end.

Definition levelName (l : LogLevel) : string :=
  match l with DEBUG => "DEBUG" | INFO => "INFO" | WARN => "WARN" | ERROR => "ERROR" end.

(** [g_logFile]: the file it is associated with, and whether a failure has been
    recorded in the stream, after which it writes nothing. *)
Record LogFile : Type := mkLogFile { log_path : option string; failbit : bool }.

(** The globals of the file, what was written to [std::cout] and [std::cerr],
    and the file system. *)
Record LogState : Type := mkLog {
  g_level : LogLevel;
  g_logFile : LogFile;
  g_useFile : bool;
  cout : list string;
  cerr : list string;
  log_fs : FS
}.

Module Logger.

(** The globals when the program starts. *)
Definition initial (f : FS) : LogState := mkLog INFO (mkLogFile None false) false [] [] f.

(** [g_logFile.open(path, std::ios::app)]: fails on a stream that is open. *)
Definition open_log (path : string) (s : LogState) : LogState :=
  match log_path (g_logFile s) with
  | Some p => mkLog (g_level s) (mkLogFile (Some p) true) (g_useFile s) (cout s) (cerr s) (log_fs s)
  | None =>
      match fs_open_append path (log_fs s) with
      | Some f => mkLog (g_level s) (mkLogFile (Some path) false) (g_useFile s) (cout s) (cerr s) f
      | None => mkLog (g_level s) (mkLogFile None true) (g_useFile s) (cout s) (cerr s) (log_fs s)
      end
  end.

Definition setLevel (level : LogLevel) (s : LogState) : LogState :=
  mkLog level (g_logFile s) (g_useFile s) (cout s) (cerr s) (log_fs s).

Definition init (level : LogLevel) (logFile : string) (s : LogState) : LogState :=
  let s := setLevel level s in
  if negb (str_nonempty logFile) then s
  else
    let s := open_log logFile s in
    mkLog (g_level s) (g_logFile s) (bool_decide (is_Some (log_path (g_logFile s)))) (cout s) (cerr s) (log_fs s).

(** The line of a message. *)
Definition format (timestamp : string) (level : LogLevel) (message : string) : string :=
  "[" +:+ timestamp +:+ "] [" +:+ levelName level +:+ "] " +:+ message.

(** [g_logFile << line << std::endl], which flushes. *)
Definition write_file (line : string) (s : LogState) : FS :=
  match log_path (g_logFile s), failbit (g_logFile s) with
  | Some p, false => fs_write p (fs_contents p (log_fs s) +:+ line +:+ String nl EmptyString) (log_fs s)
  | _, _ => log_fs s
  end.

Definition log (timestamp : string) (level : LogLevel) (message : string) (s : LogState) : LogState :=
  if bool_decide (level_rank level < level_rank (g_level s)) then s
  else
    let line := format timestamp level message in
    let '(out, err) :=
      if bool_decide (level = ERROR) then (cout s, cerr s ++ [line]) else (cout s ++ [line], cerr s) in
    mkLog (g_level s) (g_logFile s) (g_useFile s) out err (if g_useFile s then write_file line s else log_fs s).

End Logger.

(** [parseLogLevel] of [server_main.cpp]. *)
Definition parseLogLevel (level : string) : LogLevel :=
  if bool_decide (level = "DEBUG") then DEBUG
  else if bool_decide (level = "WARN") then WARN
  else if bool_decide (level = "ERROR") then ERROR
  else INFO.

(** A call of [Logger::log]. *)
Record LogCall : Type := mkCall { call_time : string; call_level : LogLevel; call_message : string }.

Definition log_calls (cs : list LogCall) (s : LogState) : LogState :=
  foldl (λ s c, Logger.log (call_time c) (call_level c) (call_message c) s) s cs.

(** The calls a level lets through, and their lines. *)
Definition passing (level : LogLevel) (cs : list LogCall) : list LogCall :=
  filter (λ c, level_rank level ≤ level_rank (call_level c)) cs.

Definition lines_at (p : LogLevel → bool) (cs : list LogCall) : list string :=
  (λ c, Logger.format (call_time c) (call_level c) (call_message c)) <$> filter (λ c, p (call_level c) = true) cs.

(** A stream that is associated with [path] and has not failed. *)
Definition writable_log (path : string) (s : LogState) : Prop :=
  g_logFile s = mkLogFile (Some path) false ∧ g_useFile s = true.

(** ** Lemmas *)

Lemma fs_contents_written path s f : fs_contents path (fs_write path s f) = s.
Proof. unfold fs_contents, fs_write. simpl. by rewrite lookup_insert_eq. Qed.

Lemma log_calls_spec path cs s :
  writable_log path s →
  let s' := log_calls cs s in let ps := passing (g_level s) cs in
  cout s' = cout s ++ lines_at (λ l, negb (bool_decide (l = ERROR))) ps ∧
  cerr s' = cerr s ++ lines_at (λ l, bool_decide (l = ERROR)) ps ∧
  fs_contents path (log_fs s') =
    fs_contents path (log_fs s) +:+ str_concat ((λ l, l +:+ String nl EmptyString) <$> lines_at (λ _, true) ps) ∧
  g_level s' = g_level s.
Proof.
  revert s. induction cs as [|c cs IH]; intros s Hw; cbn zeta.
  { simpl. by rewrite !app_nil_r, str_app_nil_r. }
  unfold log_calls. cbn [foldl]. fold (log_calls cs (Logger.log (call_time c) (call_level c) (call_message c) s)).
  unfold passing. rewrite filter_cons. unfold Logger.log. case_bool_decide as Hl.
  { rewrite decide_False by lia. apply (IH s Hw). }
  rewrite decide_True by lia. destruct Hw as [Hf Hu].
  destruct (bool_decide (call_level c = ERROR)) eqn:He.
  all: match goal with |- context [log_calls ?cs0 ?s1] =>
         destruct (IH s1) as (H1 & H2 & H3 & H4); [by split|] end.
  all: cbn zeta in *; rewrite H1, H2, H3, H4; cbn [g_level cout cerr log_fs]; fold (passing (g_level s) cs).
  all: rewrite Hu; unfold Logger.write_file; rewrite Hf; cbn [log_path failbit]; rewrite fs_contents_written.
  all: unfold lines_at; rewrite !filter_cons, He; simpl; rewrite <-?app_assoc, !str_app_assoc; done.
Qed.

(** ** Properties *)

(** After [Logger::init] with a level and a file that can be opened, exactly the
    messages at or above the level are printed, in order and formatted: errors
    to the error stream, the others to the output stream, and all of them also
    appended to the file, one line each. *)
Theorem log_splits_by_level (level : LogLevel) (path : string) (f : FS) (cs : list LogCall) :
  path ≠ EmptyString → path ∉ unwritable f →
  let s := log_calls cs (Logger.init level path (Logger.initial f)) in let ps := passing level cs in
  cout s = lines_at (λ l, negb (bool_decide (l = ERROR))) ps ∧
  cerr s = lines_at (λ l, bool_decide (l = ERROR)) ps ∧
  fs_contents path (log_fs s) =
    fs_contents path f +:+ str_concat ((λ l, l +:+ String nl EmptyString) <$> lines_at (λ _, true) ps).
Proof.
  intros Hp Hw s ps. subst s ps. unfold Logger.init. rewrite (proj2 (str_nonempty_spec _) Hp). cbn [negb].
  unfold Logger.open_log, fs_open_append. simpl. rewrite bool_decide_false by done. cbn [g_logFile log_path].
  rewrite bool_decide_true by eauto.
  match goal with |- context [log_calls cs ?s1] => destruct (log_calls_spec path cs s1) as (H1 & H2 & H3 & _); [done|] end.
  cbn zeta in *. rewrite H1, H2, H3. cbn [cout cerr log_fs g_level]. split; [done|]. split; [done|].
  by rewrite fs_contents_written.
Qed.

Theorem log_splits_by_level_witness :
  let s := log_calls [mkCall "t0" INFO "up"; mkCall "t1" ERROR "no"; mkCall "t2" DEBUG "x"]
             (Logger.init INFO "log" (Logger.initial (mkFS ∅ ∅))) in
  cout s = ["[t0] [INFO] up"] ∧ cerr s = ["[t1] [ERROR] no"].
Proof.
  destruct (log_splits_by_level INFO "log" (mkFS ∅ ∅)
    [mkCall "t0" INFO "up"; mkCall "t1" ERROR "no"; mkCall "t2" DEBUG "x"]) as (H1 & H2 & _);
    [discriminate|set_solver|]. split; [exact H1|exact H2].
Defined.

(** A second [init] with a file silences the file log: the stream is already
    open, the second open records a failure in it, and the lines that follow go
    to the standard streams only. *)
Theorem second_init_silences_file (level level' : LogLevel) (path path' : string) (f : FS) (cs : list LogCall) :
  path ≠ EmptyString → path' ≠ EmptyString → path ∉ unwritable f →
  let s := Logger.init level' path' (Logger.init level path (Logger.initial f)) in
  g_useFile s = true ∧ log_fs (log_calls cs s) = log_fs s.
Proof.
  intros Hp Hp' Hw s.
  assert (g_useFile s = true ∧ failbit (g_logFile s) = true) as [Hu Hf].
  { subst s. unfold Logger.init. rewrite (proj2 (str_nonempty_spec _) Hp), (proj2 (str_nonempty_spec _) Hp'). cbn [negb].
    unfold Logger.open_log, fs_open_append. simpl. rewrite (bool_decide_false (path ∈ unwritable f)) by done. done. }
  split; [done|]. clearbody s. revert s Hu Hf. unfold log_calls. induction cs as [|c cs IH]; intros s Hu Hf; [done|].
  cbn [foldl]. rewrite IH; unfold Logger.log; case_bool_decide; try done; try (by case_bool_decide).
  case_bool_decide; simpl; rewrite Hu; unfold Logger.write_file; rewrite Hf; by destruct (log_path _).
Qed.

(** The names of the levels parse back. *)
Theorem log_level_roundtrip (l : LogLevel) : parseLogLevel (levelName l) = l.
Proof. by destruct l. Qed.
