(* ===== verification/Threads.v ===== *)
(** * Two background threads: the replica's link and the health checker

    The life of the threads in [src/replication/replica_link.cpp] and
    [src/sharding/health_checker.cpp], from [start] to the join in [stop]. Both
    are loops that test an atomic [running_]; a step is what a thread does
    between two points where another can get in. What a link applies, and what a
    check does to the topology, is in [Server] and [Topology]. *)

From S2P Require Import Prelude Config Topology.

(** ** Definitions *)

(** Where a thread in [stop] is: not called, past [running_ = false], past what
    it does before the join, or returned. *)
Inductive stop_pc : Type := NotCalled | Flagged | Joining | Stopped.

Module ReplicaLink.

(** Where the link's thread is in [runLoop]: at the test of the outer loop, about
    to publish its client, in [connect], in [sendLine], at the test of the inner
    loop, in [receiveLine], in the callback, past the inner loop, about to
    withdraw its client, at the last test, asleep, or returned. *)
Inductive pc : Type :=
| NotStarted | OuterTest | Publishing | Connecting | Sending | InnerTest | Receiving
| Applying (line : string) | HangUp | Withdrawing | PauseTest | Sleeping | Exited.

Record state : Type := mkState {
  running_ : bool;
  connected_ : bool;
  currentClient_ : bool;   (* the pointer is not null *)
  thread : pc;
  stopper : stop_pc;
  applied : list string;   (* the lines the callback has been given *)
  late : nat               (* those of them since [running_] was cleared *)
}.

(** The constructor. *)
Definition create : state := mkState false false false NotStarted NotCalled [] 0.

Definition go (p : pc) (s : state) : state :=
  mkState (running_ s) (connected_ s) (currentClient_ s) p (stopper s) (applied s) (late s).

Definition set_connected (b : bool) (s : state) : state :=
  mkState (running_ s) b (currentClient_ s) (thread s) (stopper s) (applied s) (late s).

Definition set_client (b : bool) (s : state) : state :=
  mkState (running_ s) (connected_ s) b (thread s) (stopper s) (applied s) (late s).

(** [start()]. *)
Definition start (s : state) : state :=
  mkState true (connected_ s) (currentClient_ s) OuterTest (stopper s) (applied s) (late s).

(** The statements of [stop()], one by one: the flag, the close of the current
    client under its mutex, the join. *)
Definition stop_turn (s : state) : option state :=
  match stopper s with
  | NotCalled => Some (mkState false (connected_ s) (currentClient_ s) (thread s) Flagged (applied s) (late s))
  | Flagged => Some (mkState (running_ s) (connected_ s) (currentClient_ s) (thread s) Joining (applied s) (late s))
  | Joining =>
      match thread s with
      | Exited | NotStarted =>
          Some (mkState (running_ s) (connected_ s) (currentClient_ s) (thread s) Stopped (applied s) (late s))
      | _ => None
      end
  | Stopped => None
  end.

(** [runLoop], up to the next test or call; [ok] is the result of the call, and
    [line] what [receiveLine] delivers when it succeeds. *)
Definition link_turn (ok : bool) (line : string) (s : state) : option state :=
  match thread s with
  | NotStarted | Exited => None
  | OuterTest => Some (go (if running_ s then Publishing else Exited) s)
  | Publishing => Some (go Connecting (set_client true s))
  | Connecting => Some (go (if ok then Sending else Withdrawing) s)
  | Sending => Some (if ok then go InnerTest (set_connected true s) else go Withdrawing s)
  | InnerTest => Some (go (if running_ s then Receiving else HangUp) s)
  | Receiving => Some (go (if ok then Applying line else HangUp) s)
  | Applying l =>
      Some (mkState (running_ s) (connected_ s) (currentClient_ s) InnerTest (stopper s) (applied s ++ [l])
              (late s + if running_ s then 0 else 1))
  | HangUp => Some (go Withdrawing (set_connected false s))
  | Withdrawing => Some (go PauseTest (set_client false s))
  | PauseTest => Some (go (if running_ s then Sleeping else OuterTest) s)
  | Sleeping => Some (go OuterTest s)
  end.

Inductive step : state → state → Prop :=
| step_start s : thread s = NotStarted → stopper s = NotCalled → step s (start s)
| step_stop s s' : stop_turn s = Some s' → step s s'
| step_link ok line s s' : link_turn ok line s = Some s' → step s s'.

(** The client object of an attempt exists from its declaration to the end of
    the loop's body. *)
Definition client_alive (p : pc) : bool :=
  match p with
  | Publishing | Connecting | Sending | InnerTest | Receiving | Applying _ | HangUp | Withdrawing
  | PauseTest | Sleeping => true
  | _ => false
  end.

(** Where the pointer is set, and where the link counts as connected. *)
Definition published (p : pc) : bool :=
  match p with
  | Connecting | Sending | InnerTest | Receiving | Applying _ | HangUp | Withdrawing => true
  | _ => false
  end.

Definition streaming (p : pc) : bool :=
  match p with
  | InnerTest | Receiving | Applying _ | HangUp => true
  | _ => false
  end.

(** A line that is past the last test of [running_]. *)
Definition in_flight (p : pc) : nat :=
  match p with
  | Receiving | Applying _ => 1
  | _ => 0
  end.

Record inv (s : state) : Prop := {
  inv_client : currentClient_ s = published (thread s);
  inv_connected : connected_ s = streaming (thread s);
  inv_flag : match stopper s with
             | NotCalled => running_ s = true ∨ thread s = NotStarted
             | _ => running_ s = false
             end;
  inv_late : if running_ s then late s = 0 else late s + in_flight (thread s) ≤ 1;
  inv_fresh : thread s = NotStarted → late s = 0;
  inv_joined : stopper s = Stopped → thread s = Exited ∨ thread s = NotStarted
}.

(** What the thread has left to do once [running_] is false, with the calls it
    makes returning. *)
Definition pc_work (p : pc) : nat :=
  match p with
  | Publishing => 12 | Connecting => 11 | Sending => 10 | Receiving => 9 | Applying _ => 8 | InnerTest => 7
  | HangUp => 6 | Withdrawing => 5 | PauseTest => 4 | Sleeping => 3 | OuterTest => 2
  | NotStarted | Exited => 0
  end.

Definition stop_work (s : state) : nat :=
  pc_work (thread s) + match stopper s with NotCalled => 3 | Flagged => 2 | Joining => 1 | Stopped => 0 end.

End ReplicaLink.

Module Checker.
Import ShardTopology HealthChecker.

(** Where the checker's thread is in [runLoop]: at the outer test, at the test
    before a check with the shards to go, in a check, in the wait with the
    milliseconds waited, or returned. *)
Inductive pc : Type :=
| NotStarted | OuterTest | RoundTest (ids : list string) | Checking (shardId : string) (ids : list string)
| Waiting (waited : Z) | Exited.

Record state : Type := mkState {
  topology_ : topology;
  running_ : bool;
  thread : pc;
  stopper : stop_pc;
  late : nat               (* checks finished since [running_] was cleared *)
}.

(** The constructor. *)
Definition create (t : topology) : state := mkState t false NotStarted NotCalled 0.

Definition go (p : pc) (s : state) : state := mkState (topology_ s) (running_ s) p (stopper s) (late s).

(** [start()]. *)
Definition start (s : state) : state := mkState (topology_ s) true OuterTest (stopper s) (late s).

(** [stop()]: the flag, then the join. *)
Definition stop_turn (s : state) : option state :=
  match stopper s with
  | NotCalled => Some (mkState (topology_ s) false (thread s) Joining (late s))
  | Flagged => None
  | Joining =>
      match thread s with
      | Exited | NotStarted => Some (mkState (topology_ s) (running_ s) (thread s) Stopped (late s))
      | _ => None
      end
  | Stopped => None
  end.

(** One slice of the wait: [waited < intervalMs_ && running_], [sleep_for], and
    [waited += 50]. *)
Definition slice (intervalMs waited : Z) : Z := Z.min 50 (intervalMs - waited).

(** [runLoop]; [net] answers the pings of a check. *)
Definition check_turn (net : network) (intervalMs maxMissedPings : Z) (s : state) : option state :=
  match thread s with
  | NotStarted | Exited => None
  | OuterTest => Some (go (if running_ s then RoundTest (shardIds (topology_ s)) else Exited) s)
  | RoundTest [] => Some (go (Waiting 0) s)
  | RoundTest (shardId :: ids) => Some (go (if running_ s then Checking shardId ids else Waiting 0) s)
  | Checking shardId ids =>
      '(_, t) ← checkShard net maxMissedPings shardId (topology_ s);
      Some (mkState t (running_ s) (RoundTest ids) (stopper s) (late s + if running_ s then 0 else 1))
  | Waiting waited =>
      if (waited <? intervalMs)%Z && running_ s
      then (waited' ← chk32 (waited + 50); Some (go (Waiting waited') s))
      else Some (go OuterTest s)
  end.

Inductive step (intervalMs maxMissedPings : Z) : state → state → Prop :=
| step_start s : thread s = NotStarted → stopper s = NotCalled → step intervalMs maxMissedPings s (start s)
| step_stop s s' : stop_turn s = Some s' → step intervalMs maxMissedPings s s'
| step_check net s s' :
    check_turn net intervalMs maxMissedPings s = Some s' → step intervalMs maxMissedPings s s'.

(** The sleeps of one wait, with [running_] true throughout. *)
Fixpoint wait_slices (fuel : nat) (intervalMs waited : Z) : option (list Z) :=
  match fuel with
  | O => None
  | S fuel' =>
      if (waited <? intervalMs)%Z then
        waited' ← chk32 (waited + 50);
        rest ← wait_slices fuel' intervalMs waited';
        Some (slice intervalMs waited :: rest)
      else Some []
  end.

(** A check that is past the last test of [running_]. *)
Definition in_flight (p : pc) : nat := match p with Checking _ _ => 1 | _ => 0 end.

Record inv (maxMissedPings : Z) (t0 : topology) (s : state) : Prop := {
  inv_topology : reachable maxMissedPings t0 (topology_ s);
  inv_flag : match stopper s with
             | NotCalled => running_ s = true ∨ thread s = NotStarted
             | Flagged => False
             | _ => running_ s = false
             end;
  inv_late : if running_ s then late s = 0 else late s + in_flight (thread s) ≤ 1;
  inv_fresh : thread s = NotStarted → late s = 0;
  inv_joined : stopper s = Stopped → thread s = Exited ∨ thread s = NotStarted
}.

End Checker.

(** ** Lemmas *)

Section link_lemmas.
Import ReplicaLink.

Lemma link_inv_create : inv create.
Proof. split; simpl; try done; [by right|lia]. Qed.

Lemma link_inv_turn ok line s s' : inv s → link_turn ok line s = Some s' → inv s'.
Proof.
  intros [Hc Hn Hf Hl Hfr Hj] H. destruct s as [r c cl th st ap lt]. cbn in *.
  destruct th; try discriminate H; injection H as <-; destruct st, r, ok; cbn in *.
  all: try (by destruct Hf).
  all: try (by destruct (Hj eq_refl)).
  all: split; cbn; try done; try lia.
Qed.

Lemma link_inv_stop s s' : inv s → stop_turn s = Some s' → inv s'.
Proof.
  intros [Hc Hn Hf Hl Hfr Hj] H. destruct s as [r c cl th st ap lt]. cbn in *.
  destruct st; try discriminate H; cbn in H.
  - injection H as <-. split; cbn; try done. destruct r; [destruct th; cbn in *; lia|done].
  - injection H as <-. by split.
  - destruct th; try discriminate H; injection H as <-; (split; cbn; try done); [by right|by left].
Qed.

Lemma link_inv_step s s' : inv s → step s s' → inv s'.
Proof.
  intros Hinv Hstep. destruct Hstep as [s Ht Hs|s s' H|ok line s s' H]; [|by eapply link_inv_stop|by eapply link_inv_turn].
  destruct Hinv as [Hc Hn Hf Hl Hfr Hj]. rewrite Ht, Hs in *. split; cbn; try done; [rewrite Hs; by left|auto|by rewrite Hs].
Qed.

Lemma link_inv_rtc s : rtc step create s → inv s.
Proof.
  generalize link_inv_create. generalize create. intros q Hq.
  induction 1 as [|q q1 q2 Hs _ IH]; [done|]. apply IH. by eapply link_inv_step.
Qed.

Lemma link_turn_work ok line s s' :
  running_ s = false → link_turn ok line s = Some s' → stop_work s' < stop_work s.
Proof.
  intros Hr H. destruct s as [r c cl th st ap lt]. unfold stop_work. cbn in *. subst r.
  destruct th; try discriminate H; injection H as <-; destruct ok; cbn; lia.
Qed.

Lemma stop_turn_work s s' : stop_turn s = Some s' → stop_work s' < stop_work s.
Proof.
  intros H. destruct s as [r c cl th st ap lt]. unfold stop_work. cbn in *.
  destruct st; try discriminate H; [injection H as <-; cbn; lia..|].
  destruct th; try discriminate H; injection H as <-; cbn; lia.
Qed.

(** After [stop] has returned nothing happens any more. *)
Lemma link_stopped_step s s' : inv s → stopper s = Stopped → step s s' → False.
Proof.
  intros [_ _ _ _ _ Hj] Hs Hstep. destruct Hstep as [s Ht Hs'|s s' H|ok line s s' H].
  - congruence.
  - unfold stop_turn in H. by rewrite Hs in H.
  - unfold link_turn in H. destruct (Hj Hs) as [E|E]; by rewrite E in H.
Qed.
End link_lemmas.

Section checker_lemmas.
Import ShardTopology HealthChecker Checker.
Context (intervalMs maxMissedPings : Z) (t0 : topology).

Lemma checker_inv_create : inv maxMissedPings t0 (create t0).
Proof. split; simpl; try done; [constructor|by right|lia]. Qed.

Lemma checker_inv_turn net s s' :
  inv maxMissedPings t0 s → check_turn net intervalMs maxMissedPings s = Some s' → inv maxMissedPings t0 s'.
Proof.
  intros [Ht Hf Hl Hfr Hj] H. destruct s as [t r th st lt]. cbn in *.
  destruct th as [| |[|j ids]|j ids|w|]; cbn in *; try discriminate H.
  - injection H as <-. destruct r, st; (split; cbn; try done; try lia; try (by destruct Hf); try (by destruct (Hj eq_refl)); by left).
  - injection H as <-. destruct r, st; (split; cbn; try done; try lia; try (by destruct Hf); try (by destruct (Hj eq_refl)); by left).
  - injection H as <-. destruct r, st; (split; cbn; try done; try lia; try (by destruct Hf); try (by destruct (Hj eq_refl)); by left).
  - apply bind_Some in H as ([sent t'] & Hc & [= <-]).
    destruct r, st; (split; cbn; try done; try lia; try (by destruct Hf); try (by destruct (Hj eq_refl)); try (by left); by eapply reach_check).
  - destruct ((w <? intervalMs)%Z && r).
    + apply bind_Some in H as (w' & _ & [= <-]). destruct r, st; (split; cbn; try done; try lia; try (by destruct Hf); try (by destruct (Hj eq_refl)); by left).
    + injection H as <-. destruct r, st; (split; cbn; try done; try lia; try (by destruct Hf); try (by destruct (Hj eq_refl)); by left).
Qed.

Lemma checker_inv_step s s' :
  inv maxMissedPings t0 s → step intervalMs maxMissedPings s s' → inv maxMissedPings t0 s'.
Proof.
  intros Hinv Hstep. destruct Hstep as [s Hth Hs|s s' H|net s s' H]; [| |by eapply checker_inv_turn].
  - destruct Hinv as [Ht Hf Hl Hfr Hj]. split; cbn; try done; [rewrite Hs; by left|auto|by rewrite Hs].
  - destruct Hinv as [Ht Hf Hl Hfr Hj]. destruct s as [t r th st lt]. cbn in *.
    destruct st; try discriminate H; cbn in H.
    + injection H as <-. split; cbn; try done. destruct r; [destruct th; cbn in *; lia|done].
    + destruct th; try discriminate H; injection H as <-; (split; cbn; try done); [by right|by left].
Qed.

Lemma checker_inv_rtc s : rtc (step intervalMs maxMissedPings) (create t0) s → inv maxMissedPings t0 s.
Proof.
  generalize checker_inv_create. generalize (create t0). intros q Hq.
  induction 1 as [|q q1 q2 Hs _ IH]; [done|]. apply IH. by eapply checker_inv_step.
Qed.

Lemma wait_slices_spec fuel waited :
  (0 ≤ waited)%Z → (intervalMs ≤ int32_max - 50)%Z → (intervalMs - waited ≤ 50 * (Z.of_nat fuel - 1))%Z → 0 < fuel →
  ∃ l, wait_slices fuel intervalMs waited = Some l ∧ Forall (λ x, 0 < x ≤ 50)%Z l ∧
       foldr Z.add 0%Z l = Z.max 0 (intervalMs - waited).
Proof.
  revert waited. induction fuel as [|fuel IH]; intros waited Hw Hi Hf Hpos; [lia|]. cbn [wait_slices].
  destruct (Z.ltb_spec waited intervalMs) as [Hlt|Hge].
  - rewrite (proj2 (chk32_Some (waited + 50) (waited + 50))) by (unfold int32_min, int32_max in *; lia). cbn [mbind option_bind].
    destruct fuel as [|fuel]; [lia|].
    destruct (IH (waited + 50)%Z) as (l & E & Hl & Hsum); [lia|done|lia|lia|]. rewrite E. cbn [mbind option_bind].
    eexists. split; [reflexivity|]. unfold slice. split; [constructor; [lia|done]|]. cbn [foldr]. rewrite Hsum. lia.
  - exists []. split; [done|]. split; [constructor|]. simpl. lia.
Qed.
End checker_lemmas.

(** ** Properties *)

(** C31: Stopping a link: when [stop] has returned the thread has returned, the link
    is not connected, and no line is ever applied again; at most one line, the
    one being received or applied when the flag was cleared, was applied after
    the call. The published pointer refers to a client that exists. *)
Theorem link_stop_is_final (s s' : ReplicaLink.state) :
  rtc ReplicaLink.step ReplicaLink.create s → rtc ReplicaLink.step s s' →
  ReplicaLink.late s ≤ 1 ∧
  (ReplicaLink.currentClient_ s = true → ReplicaLink.client_alive (ReplicaLink.thread s) = true) ∧
  (ReplicaLink.stopper s = Stopped →
     (ReplicaLink.thread s = ReplicaLink.Exited ∨ ReplicaLink.thread s = ReplicaLink.NotStarted) ∧
     ReplicaLink.connected_ s = false ∧ ReplicaLink.currentClient_ s = false ∧
     ReplicaLink.applied s' = ReplicaLink.applied s).
Proof.
  intros Hr Hr'. pose proof (link_inv_rtc s Hr) as Hinv. pose proof Hinv as [Hc Hn _ Hl _ Hj].
  split; [destruct (ReplicaLink.running_ s); lia|]. split.
  { rewrite Hc. by destruct (ReplicaLink.thread s). }
  intros Hs. specialize (Hj Hs). split; [done|].
  split; [rewrite Hn; by destruct Hj as [-> | ->]|]. split; [rewrite Hc; by destruct Hj as [-> | ->]|].
  destruct Hr' as [|s s1 s2 Hstep _]; [done|]. by destruct (link_stopped_step _ _ Hinv Hs Hstep).
Qed.

(** Evaluates a step of a concrete thread. *)
Ltac take constr := eapply rtc_l; [eapply constr; vm_compute; reflexivity|].

(** A link that was streaming when it was stopped. *)
Lemma sample_link_stopped :
  rtc ReplicaLink.step ReplicaLink.create
    (ReplicaLink.mkState false false false ReplicaLink.Exited Stopped ["SET a 1"] 1).
Proof.
  eapply rtc_l; [by apply ReplicaLink.step_start|]. do 4 take (ReplicaLink.step_link true EmptyString).
  take (ReplicaLink.step_link true EmptyString). take ReplicaLink.step_stop. take ReplicaLink.step_stop.
  take (ReplicaLink.step_link true "SET a 1"). do 6 take (ReplicaLink.step_link true EmptyString).
  take ReplicaLink.step_stop. apply rtc_refl.
Qed.

Theorem link_stop_is_final_witness :
  let s := ReplicaLink.mkState false false false ReplicaLink.Exited Stopped ["SET a 1"] 1 in
  rtc ReplicaLink.step ReplicaLink.create s ∧ ReplicaLink.late s ≤ 1.
Proof.
  intros s. split; [exact sample_link_stopped|].
  apply (link_stop_is_final s s sample_link_stopped (rtc_refl _ _)).
Defined.

(** Stopping a link ends: once [stop] has cleared the flag, as long as the
    network calls of the thread return, some thread can go on until [stop] has
    returned, and every step brings the return nearer. *)
Theorem link_stop_returns (s : ReplicaLink.state) :
  rtc ReplicaLink.step ReplicaLink.create s → ReplicaLink.stopper s ≠ NotCalled → ReplicaLink.stopper s ≠ Stopped →
  (∃ s', ReplicaLink.step s s') ∧
  (∀ s', ReplicaLink.step s s' → ReplicaLink.stop_work s' < ReplicaLink.stop_work s).
Proof.
  intros Hr Hn Hs. pose proof (link_inv_rtc s Hr) as [_ _ Hf _ _ _].
  assert (ReplicaLink.running_ s = false) as Hrun by (by destruct (ReplicaLink.stopper s)).
  split.
  - destruct (ReplicaLink.stop_turn s) as [s'|] eqn:E; [exists s'; by apply ReplicaLink.step_stop|].
    destruct (ReplicaLink.link_turn false EmptyString s) as [s'|] eqn:E'; [exists s'; by eapply ReplicaLink.step_link|].
    exfalso. unfold ReplicaLink.stop_turn, ReplicaLink.link_turn in *.
    by destruct (ReplicaLink.stopper s), (ReplicaLink.thread s).
  - intros s' Hstep. destruct Hstep as [s Ht Hs'|s s' H|ok line s s' H]; [done|by apply stop_turn_work|by eapply link_turn_work].
Qed.

Theorem link_stop_returns_witness :
  let s := ReplicaLink.mkState false false false ReplicaLink.OuterTest Flagged [] 0 in
  rtc ReplicaLink.step ReplicaLink.create s ∧ ∃ s', ReplicaLink.step s s'.
Proof.
  intros s. assert (rtc ReplicaLink.step ReplicaLink.create s) as H.
  { eapply rtc_l; [by apply ReplicaLink.step_start|]. take ReplicaLink.step_stop. apply rtc_refl. }
  split; [exact H|]. apply (link_stop_returns s H); discriminate.
Defined.

(** The checker's thread does nothing but checks: every topology it leaves
    behind is one that checks can lead to, so what holds for checks holds for
    the running program; after the flag is cleared at most the check in progress
    is completed, and when [stop] has returned the thread has returned. *)
Theorem checker_only_checks (intervalMs maxMissedPings : Z) (t : topology) (s : Checker.state) :
  rtc (Checker.step intervalMs maxMissedPings) (Checker.create t) s →
  HealthChecker.reachable maxMissedPings t (Checker.topology_ s) ∧ Checker.late s ≤ 1 ∧
  (Checker.stopper s = Stopped → Checker.thread s = Checker.Exited ∨ Checker.thread s = Checker.NotStarted).
Proof.
  intros [Ht _ Hl _ Hj]%checker_inv_rtc. split; [done|]. split; [|done].
  destruct (Checker.running_ s); lia.
Qed.

Theorem checker_only_checks_witness :
  let t := ShardTopology.parseShards sample_config in
  let s := Checker.mkState t false Checker.Exited Stopped 0 in
  rtc (Checker.step 1000 3) (Checker.create t) s ∧ HealthChecker.reachable 3 t (Checker.topology_ s).
Proof.
  intros t s. assert (rtc (Checker.step 1000 3) (Checker.create t) s) as H.
  { eapply rtc_l; [by apply Checker.step_start|]. eapply rtc_l; [by eapply Checker.step_stop|].
    eapply rtc_l; [by eapply (Checker.step_check _ _ (λ _ _ _ _, None))|].
    eapply rtc_l; [by eapply Checker.step_stop|]. apply rtc_refl. }
  split; [exact H|]. apply (checker_only_checks 1000 3 t s H).
Defined.

(** The wait between two rounds sleeps the configured interval in slices of at
    most 50 ms, with no overflow up to 50 ms below the largest [int]. *)
Theorem wait_adds_up (intervalMs : Z) :
  (intervalMs ≤ int32_max - 50)%Z →
  ∃ l, Checker.wait_slices (S (Z.to_nat intervalMs)) intervalMs 0 = Some l ∧ Forall (λ x, 0 < x ≤ 50)%Z l ∧
       foldr Z.add 0%Z l = Z.max 0 intervalMs.
Proof.
  intros Hi. destruct (wait_slices_spec intervalMs (S (Z.to_nat intervalMs)) 0) as (l & E & Hl & Hs); [lia|done|lia|lia|].
  exists l. rewrite Z.sub_0_r in Hs. done.
Qed.
