(* ===== verification/Programs.v ===== *)
(** * The three programs: [main] of the server, of the router and of the client

    [src/server_main.cpp], [src/router_main.cpp] and [src/cli_main.cpp] from
    their command line to the point where they serve, with every early return,
    every exception that nothing catches, and what they print and log on the
    way. *)

From S2P Require Import Prelude CxxStd Protocol Storage Expiry Node Persistence Replication Executor.
From S2P Require Import Recovery Server Ring Config Topology Net Router Background Listener Logger Threads.

(** ** Definitions *)

(** How far a program gets: an uncaught exception, a return from [main], the
    call of [server.run], or undefined behaviour on the way. *)
Inductive outcome (A : Type) : Type :=
| Terminated (e : exn)
| Exit (code : Z)
| Serving (a : A)
| Undefined.
Arguments Terminated {A} e.
Arguments Exit {A} code.
Arguments Serving {A} a.
Arguments Undefined {A}.

(** A run of [main] up to that point: the messages it logs, what it writes to
    [std::cout] and [std::cerr], and how far it gets. *)
Record run (A : Type) : Type := mkRun {
  logged : list (LogLevel * string);
  printed : list string;
  complained : list string;
  result : outcome A
}.
Arguments mkRun {A} _ _ _ _.
Arguments logged {A} _.
Arguments printed {A} _.
Arguments complained {A} _.
Arguments result {A} _.

(** What the operating system answers to [TcpServer::start]. *)
Record Sockets : Type := mkSockets { sock_fd : Z; sockopt_ok : bool; bind_ok : bool; listen_ok : bool }.

Definition open_server (port : Z) (k : Sockets) : bool * TcpServer.state :=
  TcpServer.start (sock_fd k) (sockopt_ok k) (bind_ok k) (listen_ok k) (TcpServer.create port).

(** [handleShutdownSignal]: [g_server] is null before it is set. *)
Definition handleShutdownSignal (g_server : option TcpServer.state) : option TcpServer.state :=
  TcpServer.stop <$> g_server.

Definition start_failed (port : Z) : LogLevel * string :=
  (ERROR, "Failed to start TCP server on port " +:+ to_string port).

Definition rule : string := "==================================".

(** *** The server *)

(** The objects of a server that has reached [server.run]. *)
Record RunningServer : Type := mkRunning {
  srv_node : Node;
  srv_background : Manager;
  srv_listener : TcpServer.state;
  srv_log_level : LogLevel
}.

(** The messages of [main] before it creates its objects. *)
Definition server_log (path : string) (s : Settings) : list (LogLevel * string) :=
  let maxKeys := set_maxKeys s in
  let p := set_persistence_config s in
  [(INFO, "TinyKV server starting up");
   (INFO, "Config file: " +:+ path);
   (INFO, "Port: " +:+ to_string (set_port s));
   (INFO, "Max keys (LRU capacity): " +:+ (if bool_decide (maxKeys = 0)%Z then "unbounded" else to_string maxKeys));
   (INFO, "Persistence dir: " +:+ dir p +:+ " (appendonly=" +:+ (if appendOnly p then "yes" else "no") +:+ ")")].

(** The banner, line by line. *)
Definition server_banner (port : Z) : list string :=
  [rule; "  TinyKV Server"; "  Redis-inspired KV store in C++17"; rule;
   "Listening on port " +:+ to_string port;
   "Connect with: nc localhost " +:+ to_string port +:+ "   or   tinykv-cli";
   "Commands: SET key value [EX seconds] | GET key | DEL key | PING";
   "          INCR key | DECR key | TTL key | EXPIRE key seconds | PERSIST key | SAVE";
   "          REPLICAOF host port | REPLICAOF NO ONE";
   "(multi-client, thread-safe, LRU-capped, expiring keys, durable, replicated - see docs/PROTOCOL.md)"; EmptyString].

Definition server_main (argv : list string) (f : FS) (clock clock' : nat → Z) (k : Sockets) : run RunningServer :=
  match parseArgs argv with
  | inl e => mkRun [] [] [] (Terminated e)
  | inr a =>
      let config := (Config.loadFromFile (configPath a) f ∅).2 in
      let s := server_settings a config in
      let level := parseLogLevel (Config.getString "log_level" "INFO" config) in
      let log := server_log (configPath a) s in
      let out := server_banner (set_port s) in
      match Server.start (Z.to_nat (set_maxKeys s)) (set_persistence_config s) clock clock' f with
      | Exn e _ => mkRun log out [] (Terminated e)
      | Undef => mkRun log out [] Undefined
      | Ok _ n =>
          let '(ok, server) := open_server (set_port s) k in
          if ok : bool
          then mkRun log out [] (Serving (mkRunning n (Background.start create_manager) server level))
          else mkRun (log ++ [start_failed (set_port s)]) out [] (Exit 1)
      end
  end.

(** *** The router *)

Module RouterMain.

Record Args : Type := mkArgs { configPath : string; port : Z }.

Fixpoint parseArgs_from (argv : list string) (a : Args) : exn + Args :=
  match argv with
  | arg :: ((value :: rest) as tail) =>
      if bool_decide (arg = "--config") then parseArgs_from rest (mkArgs value (port a))
      else if bool_decide (arg = "--port") then
        match stoi value with
        | inl e => inl e
        | inr z => parseArgs_from rest (mkArgs (configPath a) z)
        end
      else parseArgs_from tail a
  | _ => inr a
  end.

Definition parseArgs (argv : list string) : exn + Args := parseArgs_from argv (mkArgs "router.conf" (-1)).

(** The values [main] reads from the configuration. *)
Record Settings : Type := mkSettings {
  set_port : Z;
  topologyPath : string;
  healthCheckIntervalMs : Z;
  maxMissedPings : Z
}.

Definition settings (a : Args) (config : Config.values) : Settings :=
  mkSettings (if bool_decide (port a = -1)%Z then Config.getInt "port" 7000 config else port a)
    (Config.getString "topology_file" "topology.conf" config)
    (Config.getInt "health_check_interval_ms" 1000 config) (Config.getInt "max_missed_pings" 3 config).

(** The objects of a router that has reached [server.run]. *)
Record RunningRouter : Type := mkRunning {
  rt_router : Router;
  rt_settings : Settings;
  rt_checker : Checker.state;
  rt_listener : TcpServer.state
}.

(** The messages of [main] before it looks at the shards. *)
Definition startup_log (path : string) (s : Settings) : list (LogLevel * string) :=
  [(INFO, "TinyKV router starting up");
   (INFO, "Config file: " +:+ path);
   (INFO, "Topology file: " +:+ topologyPath s);
   (INFO, "Port: " +:+ to_string (set_port s));
   (INFO, "Health check: every " +:+ to_string (healthCheckIntervalMs s) +:+ "ms, DOWN after " +:+
          to_string (maxMissedPings s) +:+ " missed pings")].

Definition banner (s : Settings) (shards : nat) : list string :=
  [rule; "  TinyKV Router"; rule;
   "Listening on port " +:+ to_string (set_port s);
   "Shards: " +:+ to_string (Z.of_nat shards) +:+ " (topology: " +:+ topologyPath s +:+ ")";
   "Connect with: nc localhost " +:+ to_string (set_port s) +:+ "   or   tinykv-cli";
   "All normal commands are transparently forwarded by key; ROUTE key shows the target node,";
   "NODES lists every shard's primary/replica with health and active status."; EmptyString].

Definition main (argv : list string) (f : FS) (k : Sockets) : run RunningRouter :=
  match parseArgs argv with
  | inl e => mkRun [] [] [] (Terminated e)
  | inr a =>
      let s := settings a (Config.loadFromFile (configPath a) f ∅).2 in
      let '(loaded, topologyConfig) := Config.loadFromFile (topologyPath s) f ∅ in
      if negb loaded then mkRun [] [] ["Failed to read topology file: " +:+ topologyPath s] (Exit 1)
      else
        let t := ShardTopology.parseShards topologyConfig in
        let log := startup_log (configPath a) s in
        match ShardTopology.shardIds t with
        | [] => mkRun (log ++ [(ERROR, "No shards declared - set 'shards' in " +:+ topologyPath s)]) [] [] (Exit 1)
        | ids =>
            let log := log ++ [(INFO, to_string (Z.of_nat (length ids)) +:+ " shard(s) configured")] in
            let out := banner s (length ids) in
            let r := Router.create t in
            let '(ok, server) := open_server (set_port s) k in
            if ok : bool
            then mkRun log out [] (Serving (mkRunning r s (Checker.start (Checker.create t)) server))
            else mkRun (log ++ [start_failed (set_port s)]) out [] (Exit 1)
        end
  end.

End RouterMain.

(** *** The client *)

Module Cli.

Record Args : Type := mkArgs { configPath : string; host : string; port : Z }.

Fixpoint parseArgs_from (argv : list string) (a : Args) : exn + Args :=
  match argv with
  | arg :: ((value :: rest) as tail) =>
      if bool_decide (arg = "--config") then parseArgs_from rest (mkArgs value (host a) (port a))
      else if bool_decide (arg = "--port") then
        match stoi value with
        | inl e => inl e
        | inr z => parseArgs_from rest (mkArgs (configPath a) (host a) z)
        end
      else if bool_decide (arg = "--host") then parseArgs_from rest (mkArgs (configPath a) value (port a))
      else parseArgs_from tail a
  | _ => inr a
  end.

Definition parseArgs (argv : list string) : exn + Args :=
  parseArgs_from argv (mkArgs "tinykv.conf" "127.0.0.1" (-1)).

(** What a run did: the lines sent, and what the loop wrote to [std::cout] and
    [std::cerr]. *)
Record Transcript : Type := mkTranscript { sent : list string; out : string; err : string }.

Definition prompt : string := "tinykv> ".

(** [t] after more of the run has happened before it. *)
Definition before (lines : list string) (text : string) (t : Transcript) : Transcript :=
  mkTranscript (lines ++ sent t) (text +:+ out t) (err t).

(** The loop of [main] over the lines of standard input; [ok i] is the result of
    the [i]-th [writeLine]. *)
Fixpoint loop (ok : nat → bool) (i : nat) (inputs : list string) (c : TcpClient) : Transcript :=
  match inputs with
  | [] => mkTranscript [] prompt EmptyString
  | input :: inputs' =>
      if bool_decide (input = "quit") || bool_decide (input = "exit") then mkTranscript [] prompt EmptyString
      else if negb (str_nonempty input) then before [] prompt (loop ok i inputs' c)
      else if negb (TcpClient.sendLine (ok i) c) then
        mkTranscript [input] prompt ("Connection lost while sending." +:+ String nl EmptyString)
      else
        match TcpClient.receiveLine c with
        | (None, _) =>
            mkTranscript [input] prompt ("Connection lost while waiting for a reply." +:+ String nl EmptyString)
        | (Some response, c') =>
            before [input] (prompt +:+ response +:+ String nl EmptyString) (loop ok (S i) inputs' c')
        end
  end.

(** What [main] prints before it connects, after it has, and at the end. *)
Definition banner : string :=
  rule +:+ String nl ("  TinyKV CLI v0.3 (Phase 3)" +:+ String nl (rule +:+ String nl EmptyString)).

Definition greeting (a : Args) (p : Z) : string :=
  "Connected to " +:+ host a +:+ ":" +:+ to_string p +:+
  String nl ("Type commands (SET key value / GET key / DEL key), or 'quit' to exit." +:+ String nl EmptyString).

Definition bye : string := "Bye." +:+ String nl EmptyString.

(** [main]: the port, the exit code and the transcript; [accepted] and [chunks]
    are what the network does with the connection. *)
Definition main (argv : list string) (f : FS) (accepted : bool) (chunks : list string) (ok : nat → bool)
    (stdin : string) : exn + (Z * Z * Transcript) :=
  match parseArgs argv with
  | inl e => inl e
  | inr a =>
      let config := (Config.loadFromFile (configPath a) f ∅).2 in
      let p := if bool_decide (port a = -1)%Z then Config.getInt "port" 6380 config else port a in
      let '(connected, c) := TcpClient.connect (host a) p accepted chunks TcpClient.create in
      if connected : bool
      then
        let t := loop ok 0 (lines_of nl stdin) c in
        inr (p, 0%Z, mkTranscript (sent t) (banner +:+ greeting a p +:+ out t +:+ bye) (err t))
      else inr (p, 1%Z, mkTranscript [] banner
        ("Failed to connect to " +:+ host a +:+ ":" +:+ to_string p +:+ String nl EmptyString))
  end.

(** The commands among the lines typed: up to [quit] or [exit], without the
    empty lines. *)
Fixpoint commands (inputs : list string) : list string :=
  match inputs with
  | [] => []
  | input :: inputs' =>
      if bool_decide (input = "quit") || bool_decide (input = "exit") then []
      else if str_nonempty input then input :: commands inputs'
      else commands inputs'
  end.

(** A session as it looks on the terminal. *)
Fixpoint screen (inputs replies : list string) : string :=
  match inputs with
  | [] => prompt
  | input :: inputs' =>
      if bool_decide (input = "quit") || bool_decide (input = "exit") then prompt
      else if str_nonempty input then
        match replies with
        | [] => prompt
        | r :: replies' => prompt +:+ r +:+ String nl (screen inputs' replies')
        end
      else prompt +:+ screen inputs' replies
  end.

End Cli.

(** A machine on which the port is free. *)
Definition sample_sockets : Sockets := mkSockets 3 true true true.

(** ** Lemmas *)

Lemma open_server_ok port k ok s :
  open_server port k = (ok, s) →
  (ok = true ↔ (0 ≤ sock_fd k)%Z ∧ sockopt_ok k = true ∧ bind_ok k = true ∧ listen_ok k = true) ∧
  TcpServer.running_ s = ok ∧ TcpServer.port_ s = port.
Proof.
  unfold open_server, TcpServer.start, TcpServer.abandon. destruct (Z.ltb_spec (sock_fd k) 0).
  { intros [= <- <-]. simpl. split; [|done]. split; [done|lia]. }
  destruct (sockopt_ok k), (bind_ok k), (listen_ok k); simpl; intros [= <- <-]; (split; [naive_solver|done]).
Qed.

Lemma cli_loop_spec ok i inputs c replies rest :
  (∀ i, ok i = true) → fd_open c = true → length replies = length (Cli.commands inputs) →
  forallb (λ r, frame_ok r && bool_decide (strip_cr r = r)) replies = true →
  reader_buffer c +:+ str_concat (incoming c) = frames replies +:+ rest →
  Cli.loop ok i inputs c = Cli.mkTranscript (Cli.commands inputs) (Cli.screen inputs replies) EmptyString.
Proof.
  intros Hok. revert i c replies. induction inputs as [|input inputs IH]; intros i c replies Ho Hlen Hr Hin; [done|].
  cbn [Cli.loop Cli.commands Cli.screen] in *.
  destruct (bool_decide (input = "quit") || bool_decide (input = "exit")); [done|].
  destruct (str_nonempty input); cbn [negb].
  - destruct replies as [|r replies]; [done|]. simpl in Hr. destruct_bools.
    rewrite frames_cons in Hin. unfold TcpClient.sendLine. rewrite Ho, Hok. cbn [andb negb].
    unfold TcpClient.receiveLine. rewrite Ho.
    destruct (readLine_first r _ _ _ ltac:(eassumption) Hin) as (b & cs & -> & Hrest).
    match goal with H : strip_cr r = r |- _ => rewrite H end.
    rewrite (IH (S i) (mkClient (fd_ c) b cs) replies); [|done|by injection Hlen|done|done].
    unfold Cli.before. simpl. f_equal. by rewrite !str_app_assoc, str_app_cons, str_app_nil_l.
  - by rewrite (IH i c replies).
Qed.

(** ** Properties *)

(** C37: The server program restores its data: let a server that is unbounded
    (max_keys 0), with the append-only file on, have had a safe history (as for
    [restart_preserves_contents]: lines of at most 8172 bytes, sane expiry
    arguments, no counting of keys [v] that may expire) and a flush. Started on
    the files it left, with any command line and configuration file that give the
    same settings, main either serves with exactly the keys and values of before
    (but for the keys [v]), on the configured port and with the timer running, or
    returns 1 because the port cannot be opened. *)
Theorem server_main_restores (v : string → bool) (cfg : PersistenceConfig) (n nf : Node) (argv : list string) (a : Args) (port : Z)
    (clock clock' : nat → Z) (k : Sockets) :
  history v cfg n → run_event Flushed n = Ok tt nf →
  parseArgs argv = inr a →
  server_settings a (Config.loadFromFile (configPath a) (crash nf) ∅).2 = mkSettings port 0 cfg →
  (∀ i, sane_time (clock i)) → (∀ i, sane_time (clock' i)) →
  (∃ s d d', result (server_main argv (crash nf) clock clock' k) = Serving s ∧
     holds KVStore.represents n 0 d ∧ holds KVStore.represents (srv_node s) 0 d' ∧
     outside v (Lru.contents (entries d')) (Lru.contents (entries d)) ∧
     TcpServer.running_ (srv_listener s) = true ∧ TcpServer.port_ (srv_listener s) = port ∧
     Background.running_ (srv_background s) = true) ∨
  (result (server_main argv (crash nf) clock clock' k) = Exit 1 ∧
     ¬ ((0 ≤ sock_fd k)%Z ∧ sockopt_ok k = true ∧ bind_ok k = true ∧ listen_ok k = true)).
Proof.
  intros Hd%history_durable E Ha Hs Ht Ht'.
  destruct (durable_restart v cfg n nf clock clock' Hd E Ht Ht') as (d & n' & d' & Hh & Est & Hh' & Hc & _).
  unfold server_main. rewrite Ha. cbn zeta. rewrite Hs. cbn [set_maxKeys set_persistence_config set_port].
  change (Z.to_nat 0) with 0. rewrite Est.
  destruct (open_server port k) as [ok srv] eqn:Eo. apply open_server_ok in Eo as (Hok & Hrun & Hport).
  destruct ok; [left|right; split; [done|by rewrite <-Hok]].
  eexists _, d, d'. split; [reflexivity|]. done.
Qed.

Theorem server_main_restores_witness :
  ∃ nf, run_event Flushed session_node = Ok tt nf ∧
  ((∃ s d d', result (server_main [] (crash nf) (λ _, 0%Z) (λ _, 0%Z) sample_sockets) = Serving s ∧
     holds KVStore.represents session_node 0 d ∧ holds KVStore.represents (srv_node s) 0 d' ∧
     outside is_session (Lru.contents (entries d')) (Lru.contents (entries d))) ∨
   result (server_main [] (crash nf) (λ _, 0%Z) (λ _, 0%Z) sample_sockets) = Exit 1).
Proof.
  exists (state_of (run_event Flushed session_node)). split; [vm_compute; reflexivity|].
  destruct (server_main_restores is_session defaultPersistenceConfig session_node (state_of (run_event Flushed session_node)) [] (mkArgs "tinykv.conf" (-1) (-1)) 6380
    (λ _, 0%Z) (λ _, 0%Z) sample_sockets session_history) as [(s & d & d' & H1 & H2 & H3 & H4 & _)|[H _]];
    [vm_compute; reflexivity|reflexivity|vm_compute; reflexivity|done|done| |].
  - left. exists s, d, d'. split; [exact H1|]. split; [exact H2|]. split; [exact H3|exact H4].
  - right. exact H.
Defined.

(** The router program serves exactly when its command line parses, the topology
    file can be read and names a shard, and the port can be opened; then every
    key has a shard among those of the file. Otherwise it returns 1, or ends
    with the exception of a port that is not a number. *)
Theorem router_main_serves (argv : list string) (f : FS) (k : Sockets) :
  match RouterMain.parseArgs argv with
  | inl e => result (RouterMain.main argv f k) = Terminated e
  | inr a =>
      let s := RouterMain.settings a (Config.loadFromFile (RouterMain.configPath a) f ∅).2 in
      let t := ShardTopology.parseShards (Config.loadFromFile (RouterMain.topologyPath s) f ∅).2 in
      if bool_decide (is_Some (fs_read (RouterMain.topologyPath s) f)) && bool_decide (t ≠ []) &&
         ((0 <=? sock_fd k)%Z && sockopt_ok k && bind_ok k && listen_ok k)
      then ∃ server, result (RouterMain.main argv f k) = Serving (RouterMain.mkRunning (Router.create t) s (Checker.start (Checker.create t)) server) ∧
             TcpServer.running_ server = true ∧ TcpServer.port_ server = RouterMain.set_port s ∧
             ∀ key, getNode key (shard_ring (Router.create t)) ∈ ShardTopology.shardIds t
      else result (RouterMain.main argv f k) = Exit 1
  end.
Proof.
  unfold RouterMain.main. destruct (RouterMain.parseArgs argv) as [e|a]; [done|]. cbn zeta.
  generalize (RouterMain.settings a (Config.loadFromFile (RouterMain.configPath a) f ∅).2). intros s.
  unfold Config.loadFromFile.
  destruct (fs_read (RouterMain.topologyPath s) f) as [txt|];
    [|done]. cbn [negb fst snd].
  rewrite (bool_decide_true (is_Some (Some txt))) by eauto. cbn [andb].
  set (t := ShardTopology.parseShards _).
  assert (ShardTopology.shardIds t = [] ↔ t = []) as Hids by (unfold ShardTopology.shardIds; by destruct t).
  destruct (decide (t = [])) as [Ht|Ht].
  { rewrite (proj2 Hids Ht), bool_decide_false; [done|]. by intros []. }
  rewrite bool_decide_true by done. cbn [andb]. destruct (ShardTopology.shardIds t) as [|j ids] eqn:Ej; [naive_solver|].
  destruct (open_server (RouterMain.set_port s) k) as [ok srv] eqn:Eo. apply open_server_ok in Eo as (Hok & Hrun & Hport).
  assert (((0 <=? sock_fd k)%Z && sockopt_ok k && bind_ok k && listen_ok k) = ok) as ->.
  { apply eq_bool_prop_intro. rewrite !Is_true_true, !andb_true_iff, Z.leb_le. tauto. }
  destruct ok; [|done]. exists srv. split; [done|]. split; [done|]. split; [done|].
  intros key. rewrite <-Ej. by apply getNode_shard.
Qed.

(** C38: What the user sees: connected, with every line sent and the server's reply
    lines arriving in any chunks, the client sends exactly the commands typed
    before [quit] or the end of input, one at a time, prints after each the
    reply to it, and returns 0. *)
Theorem cli_shows_replies (argv : list string) (f : FS) (a : Cli.Args) (chunks replies : list string) (rest stdin : string) :
  Cli.parseArgs argv = inr a →
  length replies = length (Cli.commands (lines_of nl stdin)) →
  forallb (λ r, frame_ok r && bool_decide (strip_cr r = r)) replies = true →
  str_concat chunks = frames replies +:+ rest →
  ∃ port, Cli.main argv f true chunks (λ _, true) stdin =
    inr (port, 0%Z, Cli.mkTranscript (Cli.commands (lines_of nl stdin))
                      (Cli.banner +:+ Cli.greeting a port +:+ Cli.screen (lines_of nl stdin) replies +:+ Cli.bye) EmptyString).
Proof.
  intros Ha Hlen Hr Hc. unfold Cli.main. rewrite Ha. cbn zeta. simpl.
  eexists. by rewrite (cli_loop_spec _ 0 (lines_of nl stdin) _ replies rest).
Qed.

Theorem cli_shows_replies_witness :
  let stdin := "SET a 1" +:+ String nl ("GET a" +:+ String nl ("quit" +:+ String nl EmptyString)) in
  ∃ port, Cli.main [] (mkFS ∅ ∅) true ["+O"; "K" +:+ String nl ("+1" +:+ String nl EmptyString)] (λ _, true) stdin =
    inr (port, 0%Z, Cli.mkTranscript ["SET a 1"; "GET a"]
      (Cli.banner +:+ Cli.greeting (Cli.mkArgs "tinykv.conf" "127.0.0.1" (-1)) port +:+
       ("tinykv> +OK" +:+ String nl ("tinykv> +1" +:+ String nl "tinykv> ")) +:+ Cli.bye) EmptyString).
Proof.
  intros stdin. apply (cli_shows_replies [] (mkFS ∅ ∅) (Cli.mkArgs "tinykv.conf" "127.0.0.1" (-1))
    ["+O"; "K" +:+ String nl ("+1" +:+ String nl EmptyString)] ["+OK"; "+1"] EmptyString stdin);
    vm_compute; reflexivity.
Defined.

(** [--port] with a value that is not a number ends all three programs with an
    uncaught exception, whatever the machine looks like. *)
Theorem bad_port_terminates (v : string) (e : exn) (f : FS) (clock clock' : nat → Z) (k : Sockets) :
  stoi v = inl e →
  result (server_main ["--port"; v] f clock clock' k) = Terminated e ∧
  result (RouterMain.main ["--port"; v] f k) = Terminated e ∧
  ∀ ok chunks sent stdin, Cli.main ["--port"; v] f ok chunks sent stdin = inl e.
Proof.
  intros Hv. unfold server_main, RouterMain.main, Cli.main, parseArgs, RouterMain.parseArgs, Cli.parseArgs.
  simpl. rewrite Hv. done.
Qed.
